(** * Codebase-mapper: a shallow embedding of the three structure mappers
    and of the updater of [CLAUDE.md]

    The development follows [map_csharp.py], [map_typescript.py],
    [map_python.py] and [update_claude_md.py].  Python values are modelled
    as follows:

    - a [str] is a list of Unicode code points ([text]);
    - an [int] is a [Z];
    - a call that may raise returns a [py_result];
    - a [while] loop is a fixpoint on a fuel argument and returns [None]
      when the fuel runs out; every such loop comes with a lemma saying that
      the fuel handed to it is enough. *)

From Stdlib Require Import ZArith NArith List Bool Lia String Ascii.
From Stdlib Require Import DecimalString Permutation.
Import ListNotations.

(* ================================================================== *)
(** * Part I: definitions *)
(* ================================================================== *)

(** ** Python values *)

Module Py.

(** A Unicode code point. *)
Definition codepoint := N.

(** A Python [str]. *)
Definition text := list codepoint.

(** The code points of a literal written with ASCII characters. *)
Definition lit (s : string) : text :=
  List.map N_of_ascii (list_ascii_of_string s).

(** The exceptions that the mappers can meet and do not catch by name.
    ([SyntaxError] is not among them: [ast.parse] is the only call that
    raises it, and its outcome has a case of its own.) *)
Inductive exn : Type :=
| IndexError
| UnicodeDecodeError
| UnicodeEncodeError
| OSError
| ValueError
| RecursionError
| MemoryError.

(** Outcome of a call: a value or a raised exception. *)
Inductive py_result (A : Type) : Type :=
| Ret (a : A)
| Raise (e : exn).

Arguments Ret {A} a.
Arguments Raise {A} e.

(** [len(content)] *)
Definition len (content : text) : Z := Z.of_nat (List.length content).

(** [content[i]]: negative indices count from the end, and an index outside
    [-len, len) raises [IndexError]. *)
Definition getitem (content : text) (i : Z) : py_result codepoint :=
  let j := (if i <? 0 then len content + i else i)%Z in
  if (j <? 0)%Z then Raise IndexError
  else match nth_error content (Z.to_nat j) with
       | Some c => Ret c
       | None => Raise IndexError
       end.

Definition LBRACE : codepoint := 123%N.
Definition RBRACE : codepoint := 125%N.
Definition NEWLINE : codepoint := 10%N.
Definition DQUOTE : codepoint := 34%N.
Definition SQUOTE : codepoint := 39%N.

(** *** Character classification

    [str.isspace], [str.isalnum] and [str.isupper] on one character, as
    CPython 3.11 answers them from its copy of the Unicode database
    (version 14.0): the tables list the ranges of code points, in
    increasing order, for which the answer is [True]. *)

Definition between (lo hi c : N) : bool := ((lo <=? c) && (c <=? hi))%N.

(** Membership in a table of ranges that is in increasing order. *)
Fixpoint in_ranges (c : N) (table : list (N * N)) : bool :=
  match table with
  | [] => false
  | (lo, hi) :: table' =>
      if (c <? lo)%N then false
      else if (c <=? hi)%N then true
      else in_ranges c table'
  end.

Definition isspace (c : codepoint) : bool :=
  between 9 13 c || between 28 32 c || (c =? 133)%N || (c =? 160)%N
  || (c =? 5760)%N || between 8192 8202 c || between 8232 8233 c
  || (c =? 8239)%N || (c =? 8287)%N || (c =? 12288)%N.

(** The code points [c] with [chr(c).isalnum()]. *)
Definition ALNUM_RANGES : list (N * N) :=
  [(48, 57); (65, 90); (97, 122); (170, 170); (178, 179); (181, 181);
   (185, 186); (188, 190); (192, 214); (216, 246); (248, 705); (710, 721);
   (736, 740); (748, 748); (750, 750); (880, 884); (886, 887); (890, 893);
   (895, 895); (902, 902); (904, 906); (908, 908); (910, 929); (931, 1013);
   (1015, 1153); (1162, 1327); (1329, 1366); (1369, 1369); (1376, 1416);
   (1488, 1514); (1519, 1522); (1568, 1610); (1632, 1641); (1646, 1647);
   (1649, 1747); (1749, 1749); (1765, 1766); (1774, 1788); (1791, 1791);
   (1808, 1808); (1810, 1839); (1869, 1957); (1969, 1969); (1984, 2026);
   (2036, 2037); (2042, 2042); (2048, 2069); (2074, 2074); (2084, 2084);
   (2088, 2088); (2112, 2136); (2144, 2154); (2160, 2183); (2185, 2190);
   (2208, 2249); (2308, 2361); (2365, 2365); (2384, 2384); (2392, 2401);
   (2406, 2415); (2417, 2432); (2437, 2444); (2447, 2448); (2451, 2472);
   (2474, 2480); (2482, 2482); (2486, 2489); (2493, 2493); (2510, 2510);
   (2524, 2525); (2527, 2529); (2534, 2545); (2548, 2553); (2556, 2556);
   (2565, 2570); (2575, 2576); (2579, 2600); (2602, 2608); (2610, 2611);
   (2613, 2614); (2616, 2617); (2649, 2652); (2654, 2654); (2662, 2671);
   (2674, 2676); (2693, 2701); (2703, 2705); (2707, 2728); (2730, 2736);
   (2738, 2739); (2741, 2745); (2749, 2749); (2768, 2768); (2784, 2785);
   (2790, 2799); (2809, 2809); (2821, 2828); (2831, 2832); (2835, 2856);
   (2858, 2864); (2866, 2867); (2869, 2873); (2877, 2877); (2908, 2909);
   (2911, 2913); (2918, 2927); (2929, 2935); (2947, 2947); (2949, 2954);
   (2958, 2960); (2962, 2965); (2969, 2970); (2972, 2972); (2974, 2975);
   (2979, 2980); (2984, 2986); (2990, 3001); (3024, 3024); (3046, 3058);
   (3077, 3084); (3086, 3088); (3090, 3112); (3114, 3129); (3133, 3133);
   (3160, 3162); (3165, 3165); (3168, 3169); (3174, 3183); (3192, 3198);
   (3200, 3200); (3205, 3212); (3214, 3216); (3218, 3240); (3242, 3251);
   (3253, 3257); (3261, 3261); (3293, 3294); (3296, 3297); (3302, 3311);
   (3313, 3314); (3332, 3340); (3342, 3344); (3346, 3386); (3389, 3389);
   (3406, 3406); (3412, 3414); (3416, 3425); (3430, 3448); (3450, 3455);
   (3461, 3478); (3482, 3505); (3507, 3515); (3517, 3517); (3520, 3526);
   (3558, 3567); (3585, 3632); (3634, 3635); (3648, 3654); (3664, 3673);
   (3713, 3714); (3716, 3716); (3718, 3722); (3724, 3747); (3749, 3749);
   (3751, 3760); (3762, 3763); (3773, 3773); (3776, 3780); (3782, 3782);
   (3792, 3801); (3804, 3807); (3840, 3840); (3872, 3891); (3904, 3911);
   (3913, 3948); (3976, 3980); (4096, 4138); (4159, 4169); (4176, 4181);
   (4186, 4189); (4193, 4193); (4197, 4198); (4206, 4208); (4213, 4225);
   (4238, 4238); (4240, 4249); (4256, 4293); (4295, 4295); (4301, 4301);
   (4304, 4346); (4348, 4680); (4682, 4685); (4688, 4694); (4696, 4696);
   (4698, 4701); (4704, 4744); (4746, 4749); (4752, 4784); (4786, 4789);
   (4792, 4798); (4800, 4800); (4802, 4805); (4808, 4822); (4824, 4880);
   (4882, 4885); (4888, 4954); (4969, 4988); (4992, 5007); (5024, 5109);
   (5112, 5117); (5121, 5740); (5743, 5759); (5761, 5786); (5792, 5866);
   (5870, 5880); (5888, 5905); (5919, 5937); (5952, 5969); (5984, 5996);
   (5998, 6000); (6016, 6067); (6103, 6103); (6108, 6108); (6112, 6121);
   (6128, 6137); (6160, 6169); (6176, 6264); (6272, 6276); (6279, 6312);
   (6314, 6314); (6320, 6389); (6400, 6430); (6470, 6509); (6512, 6516);
   (6528, 6571); (6576, 6601); (6608, 6618); (6656, 6678); (6688, 6740);
   (6784, 6793); (6800, 6809); (6823, 6823); (6917, 6963); (6981, 6988);
   (6992, 7001); (7043, 7072); (7086, 7141); (7168, 7203); (7232, 7241);
   (7245, 7293); (7296, 7304); (7312, 7354); (7357, 7359); (7401, 7404);
   (7406, 7411); (7413, 7414); (7418, 7418); (7424, 7615); (7680, 7957);
   (7960, 7965); (7968, 8005); (8008, 8013); (8016, 8023); (8025, 8025);
   (8027, 8027); (8029, 8029); (8031, 8061); (8064, 8116); (8118, 8124);
   (8126, 8126); (8130, 8132); (8134, 8140); (8144, 8147); (8150, 8155);
   (8160, 8172); (8178, 8180); (8182, 8188); (8304, 8305); (8308, 8313);
   (8319, 8329); (8336, 8348); (8450, 8450); (8455, 8455); (8458, 8467);
   (8469, 8469); (8473, 8477); (8484, 8484); (8486, 8486); (8488, 8488);
   (8490, 8493); (8495, 8505); (8508, 8511); (8517, 8521); (8526, 8526);
   (8528, 8585); (9312, 9371); (9450, 9471); (10102, 10131); (11264, 11492);
   (11499, 11502); (11506, 11507); (11517, 11517); (11520, 11557);
   (11559, 11559); (11565, 11565); (11568, 11623); (11631, 11631);
   (11648, 11670); (11680, 11686); (11688, 11694); (11696, 11702);
   (11704, 11710); (11712, 11718); (11720, 11726); (11728, 11734);
   (11736, 11742); (11823, 11823); (12293, 12295); (12321, 12329);
   (12337, 12341); (12344, 12348); (12353, 12438); (12445, 12447);
   (12449, 12538); (12540, 12543); (12549, 12591); (12593, 12686);
   (12690, 12693); (12704, 12735); (12784, 12799); (12832, 12841);
   (12872, 12879); (12881, 12895); (12928, 12937); (12977, 12991);
   (13312, 19903); (19968, 42124); (42192, 42237); (42240, 42508);
   (42512, 42539); (42560, 42606); (42623, 42653); (42656, 42735);
   (42775, 42783); (42786, 42888); (42891, 42954); (42960, 42961);
   (42963, 42963); (42965, 42969); (42994, 43009); (43011, 43013);
   (43015, 43018); (43020, 43042); (43056, 43061); (43072, 43123);
   (43138, 43187); (43216, 43225); (43250, 43255); (43259, 43259);
   (43261, 43262); (43264, 43301); (43312, 43334); (43360, 43388);
   (43396, 43442); (43471, 43481); (43488, 43492); (43494, 43518);
   (43520, 43560); (43584, 43586); (43588, 43595); (43600, 43609);
   (43616, 43638); (43642, 43642); (43646, 43695); (43697, 43697);
   (43701, 43702); (43705, 43709); (43712, 43712); (43714, 43714);
   (43739, 43741); (43744, 43754); (43762, 43764); (43777, 43782);
   (43785, 43790); (43793, 43798); (43808, 43814); (43816, 43822);
   (43824, 43866); (43868, 43881); (43888, 44002); (44016, 44025);
   (44032, 55203); (55216, 55238); (55243, 55291); (63744, 64109);
   (64112, 64217); (64256, 64262); (64275, 64279); (64285, 64285);
   (64287, 64296); (64298, 64310); (64312, 64316); (64318, 64318);
   (64320, 64321); (64323, 64324); (64326, 64433); (64467, 64829);
   (64848, 64911); (64914, 64967); (65008, 65019); (65136, 65140);
   (65142, 65276); (65296, 65305); (65313, 65338); (65345, 65370);
   (65382, 65470); (65474, 65479); (65482, 65487); (65490, 65495);
   (65498, 65500); (65536, 65547); (65549, 65574); (65576, 65594);
   (65596, 65597); (65599, 65613); (65616, 65629); (65664, 65786);
   (65799, 65843); (65856, 65912); (65930, 65931); (66176, 66204);
   (66208, 66256); (66273, 66299); (66304, 66339); (66349, 66378);
   (66384, 66421); (66432, 66461); (66464, 66499); (66504, 66511);
   (66513, 66517); (66560, 66717); (66720, 66729); (66736, 66771);
   (66776, 66811); (66816, 66855); (66864, 66915); (66928, 66938);
   (66940, 66954); (66956, 66962); (66964, 66965); (66967, 66977);
   (66979, 66993); (66995, 67001); (67003, 67004); (67072, 67382);
   (67392, 67413); (67424, 67431); (67456, 67461); (67463, 67504);
   (67506, 67514); (67584, 67589); (67592, 67592); (67594, 67637);
   (67639, 67640); (67644, 67644); (67647, 67669); (67672, 67702);
   (67705, 67742); (67751, 67759); (67808, 67826); (67828, 67829);
   (67835, 67867); (67872, 67897); (67968, 68023); (68028, 68047);
   (68050, 68096); (68112, 68115); (68117, 68119); (68121, 68149);
   (68160, 68168); (68192, 68222); (68224, 68255); (68288, 68295);
   (68297, 68324); (68331, 68335); (68352, 68405); (68416, 68437);
   (68440, 68466); (68472, 68497); (68521, 68527); (68608, 68680);
   (68736, 68786); (68800, 68850); (68858, 68899); (68912, 68921);
   (69216, 69246); (69248, 69289); (69296, 69297); (69376, 69415);
   (69424, 69445); (69457, 69460); (69488, 69505); (69552, 69579);
   (69600, 69622); (69635, 69687); (69714, 69743); (69745, 69746);
   (69749, 69749); (69763, 69807); (69840, 69864); (69872, 69881);
   (69891, 69926); (69942, 69951); (69956, 69956); (69959, 69959);
   (69968, 70002); (70006, 70006); (70019, 70066); (70081, 70084);
   (70096, 70106); (70108, 70108); (70113, 70132); (70144, 70161);
   (70163, 70187); (70272, 70278); (70280, 70280); (70282, 70285);
   (70287, 70301); (70303, 70312); (70320, 70366); (70384, 70393);
   (70405, 70412); (70415, 70416); (70419, 70440); (70442, 70448);
   (70450, 70451); (70453, 70457); (70461, 70461); (70480, 70480);
   (70493, 70497); (70656, 70708); (70727, 70730); (70736, 70745);
   (70751, 70753); (70784, 70831); (70852, 70853); (70855, 70855);
   (70864, 70873); (71040, 71086); (71128, 71131); (71168, 71215);
   (71236, 71236); (71248, 71257); (71296, 71338); (71352, 71352);
   (71360, 71369); (71424, 71450); (71472, 71483); (71488, 71494);
   (71680, 71723); (71840, 71922); (71935, 71942); (71945, 71945);
   (71948, 71955); (71957, 71958); (71960, 71983); (71999, 71999);
   (72001, 72001); (72016, 72025); (72096, 72103); (72106, 72144);
   (72161, 72161); (72163, 72163); (72192, 72192); (72203, 72242);
   (72250, 72250); (72272, 72272); (72284, 72329); (72349, 72349);
   (72368, 72440); (72704, 72712); (72714, 72750); (72768, 72768);
   (72784, 72812); (72818, 72847); (72960, 72966); (72968, 72969);
   (72971, 73008); (73030, 73030); (73040, 73049); (73056, 73061);
   (73063, 73064); (73066, 73097); (73112, 73112); (73120, 73129);
   (73440, 73458); (73648, 73648); (73664, 73684); (73728, 74649);
   (74752, 74862); (74880, 75075); (77712, 77808); (77824, 78894);
   (82944, 83526); (92160, 92728); (92736, 92766); (92768, 92777);
   (92784, 92862); (92864, 92873); (92880, 92909); (92928, 92975);
   (92992, 92995); (93008, 93017); (93019, 93025); (93027, 93047);
   (93053, 93071); (93760, 93846); (93952, 94026); (94032, 94032);
   (94099, 94111); (94176, 94177); (94179, 94179); (94208, 100343);
   (100352, 101589); (101632, 101640); (110576, 110579); (110581, 110587);
   (110589, 110590); (110592, 110882); (110928, 110930); (110948, 110951);
   (110960, 111355); (113664, 113770); (113776, 113788); (113792, 113800);
   (113808, 113817); (119520, 119539); (119648, 119672); (119808, 119892);
   (119894, 119964); (119966, 119967); (119970, 119970); (119973, 119974);
   (119977, 119980); (119982, 119993); (119995, 119995); (119997, 120003);
   (120005, 120069); (120071, 120074); (120077, 120084); (120086, 120092);
   (120094, 120121); (120123, 120126); (120128, 120132); (120134, 120134);
   (120138, 120144); (120146, 120485); (120488, 120512); (120514, 120538);
   (120540, 120570); (120572, 120596); (120598, 120628); (120630, 120654);
   (120656, 120686); (120688, 120712); (120714, 120744); (120746, 120770);
   (120772, 120779); (120782, 120831); (122624, 122654); (123136, 123180);
   (123191, 123197); (123200, 123209); (123214, 123214); (123536, 123565);
   (123584, 123627); (123632, 123641); (124896, 124902); (124904, 124907);
   (124909, 124910); (124912, 124926); (124928, 125124); (125127, 125135);
   (125184, 125251); (125259, 125259); (125264, 125273); (126065, 126123);
   (126125, 126127); (126129, 126132); (126209, 126253); (126255, 126269);
   (126464, 126467); (126469, 126495); (126497, 126498); (126500, 126500);
   (126503, 126503); (126505, 126514); (126516, 126519); (126521, 126521);
   (126523, 126523); (126530, 126530); (126535, 126535); (126537, 126537);
   (126539, 126539); (126541, 126543); (126545, 126546); (126548, 126548);
   (126551, 126551); (126553, 126553); (126555, 126555); (126557, 126557);
   (126559, 126559); (126561, 126562); (126564, 126564); (126567, 126570);
   (126572, 126578); (126580, 126583); (126585, 126588); (126590, 126590);
   (126592, 126601); (126603, 126619); (126625, 126627); (126629, 126633);
   (126635, 126651); (127232, 127244); (130032, 130041); (131072, 173791);
   (173824, 177976); (177984, 178205); (178208, 183969); (183984, 191456);
   (194560, 195101); (196608, 201546)]%N.

(** The code points [c] with [chr(c).isupper()]. *)
Definition UPPER_RANGES : list (N * N) :=
  [(65, 90); (192, 214); (216, 222); (256, 256); (258, 258); (260, 260);
   (262, 262); (264, 264); (266, 266); (268, 268); (270, 270); (272, 272);
   (274, 274); (276, 276); (278, 278); (280, 280); (282, 282); (284, 284);
   (286, 286); (288, 288); (290, 290); (292, 292); (294, 294); (296, 296);
   (298, 298); (300, 300); (302, 302); (304, 304); (306, 306); (308, 308);
   (310, 310); (313, 313); (315, 315); (317, 317); (319, 319); (321, 321);
   (323, 323); (325, 325); (327, 327); (330, 330); (332, 332); (334, 334);
   (336, 336); (338, 338); (340, 340); (342, 342); (344, 344); (346, 346);
   (348, 348); (350, 350); (352, 352); (354, 354); (356, 356); (358, 358);
   (360, 360); (362, 362); (364, 364); (366, 366); (368, 368); (370, 370);
   (372, 372); (374, 374); (376, 377); (379, 379); (381, 381); (385, 386);
   (388, 388); (390, 391); (393, 395); (398, 401); (403, 404); (406, 408);
   (412, 413); (415, 416); (418, 418); (420, 420); (422, 423); (425, 425);
   (428, 428); (430, 431); (433, 435); (437, 437); (439, 440); (444, 444);
   (452, 452); (455, 455); (458, 458); (461, 461); (463, 463); (465, 465);
   (467, 467); (469, 469); (471, 471); (473, 473); (475, 475); (478, 478);
   (480, 480); (482, 482); (484, 484); (486, 486); (488, 488); (490, 490);
   (492, 492); (494, 494); (497, 497); (500, 500); (502, 504); (506, 506);
   (508, 508); (510, 510); (512, 512); (514, 514); (516, 516); (518, 518);
   (520, 520); (522, 522); (524, 524); (526, 526); (528, 528); (530, 530);
   (532, 532); (534, 534); (536, 536); (538, 538); (540, 540); (542, 542);
   (544, 544); (546, 546); (548, 548); (550, 550); (552, 552); (554, 554);
   (556, 556); (558, 558); (560, 560); (562, 562); (570, 571); (573, 574);
   (577, 577); (579, 582); (584, 584); (586, 586); (588, 588); (590, 590);
   (880, 880); (882, 882); (886, 886); (895, 895); (902, 902); (904, 906);
   (908, 908); (910, 911); (913, 929); (931, 939); (975, 975); (978, 980);
   (984, 984); (986, 986); (988, 988); (990, 990); (992, 992); (994, 994);
   (996, 996); (998, 998); (1000, 1000); (1002, 1002); (1004, 1004);
   (1006, 1006); (1012, 1012); (1015, 1015); (1017, 1018); (1021, 1071);
   (1120, 1120); (1122, 1122); (1124, 1124); (1126, 1126); (1128, 1128);
   (1130, 1130); (1132, 1132); (1134, 1134); (1136, 1136); (1138, 1138);
   (1140, 1140); (1142, 1142); (1144, 1144); (1146, 1146); (1148, 1148);
   (1150, 1150); (1152, 1152); (1162, 1162); (1164, 1164); (1166, 1166);
   (1168, 1168); (1170, 1170); (1172, 1172); (1174, 1174); (1176, 1176);
   (1178, 1178); (1180, 1180); (1182, 1182); (1184, 1184); (1186, 1186);
   (1188, 1188); (1190, 1190); (1192, 1192); (1194, 1194); (1196, 1196);
   (1198, 1198); (1200, 1200); (1202, 1202); (1204, 1204); (1206, 1206);
   (1208, 1208); (1210, 1210); (1212, 1212); (1214, 1214); (1216, 1217);
   (1219, 1219); (1221, 1221); (1223, 1223); (1225, 1225); (1227, 1227);
   (1229, 1229); (1232, 1232); (1234, 1234); (1236, 1236); (1238, 1238);
   (1240, 1240); (1242, 1242); (1244, 1244); (1246, 1246); (1248, 1248);
   (1250, 1250); (1252, 1252); (1254, 1254); (1256, 1256); (1258, 1258);
   (1260, 1260); (1262, 1262); (1264, 1264); (1266, 1266); (1268, 1268);
   (1270, 1270); (1272, 1272); (1274, 1274); (1276, 1276); (1278, 1278);
   (1280, 1280); (1282, 1282); (1284, 1284); (1286, 1286); (1288, 1288);
   (1290, 1290); (1292, 1292); (1294, 1294); (1296, 1296); (1298, 1298);
   (1300, 1300); (1302, 1302); (1304, 1304); (1306, 1306); (1308, 1308);
   (1310, 1310); (1312, 1312); (1314, 1314); (1316, 1316); (1318, 1318);
   (1320, 1320); (1322, 1322); (1324, 1324); (1326, 1326); (1329, 1366);
   (4256, 4293); (4295, 4295); (4301, 4301); (5024, 5109); (7312, 7354);
   (7357, 7359); (7680, 7680); (7682, 7682); (7684, 7684); (7686, 7686);
   (7688, 7688); (7690, 7690); (7692, 7692); (7694, 7694); (7696, 7696);
   (7698, 7698); (7700, 7700); (7702, 7702); (7704, 7704); (7706, 7706);
   (7708, 7708); (7710, 7710); (7712, 7712); (7714, 7714); (7716, 7716);
   (7718, 7718); (7720, 7720); (7722, 7722); (7724, 7724); (7726, 7726);
   (7728, 7728); (7730, 7730); (7732, 7732); (7734, 7734); (7736, 7736);
   (7738, 7738); (7740, 7740); (7742, 7742); (7744, 7744); (7746, 7746);
   (7748, 7748); (7750, 7750); (7752, 7752); (7754, 7754); (7756, 7756);
   (7758, 7758); (7760, 7760); (7762, 7762); (7764, 7764); (7766, 7766);
   (7768, 7768); (7770, 7770); (7772, 7772); (7774, 7774); (7776, 7776);
   (7778, 7778); (7780, 7780); (7782, 7782); (7784, 7784); (7786, 7786);
   (7788, 7788); (7790, 7790); (7792, 7792); (7794, 7794); (7796, 7796);
   (7798, 7798); (7800, 7800); (7802, 7802); (7804, 7804); (7806, 7806);
   (7808, 7808); (7810, 7810); (7812, 7812); (7814, 7814); (7816, 7816);
   (7818, 7818); (7820, 7820); (7822, 7822); (7824, 7824); (7826, 7826);
   (7828, 7828); (7838, 7838); (7840, 7840); (7842, 7842); (7844, 7844);
   (7846, 7846); (7848, 7848); (7850, 7850); (7852, 7852); (7854, 7854);
   (7856, 7856); (7858, 7858); (7860, 7860); (7862, 7862); (7864, 7864);
   (7866, 7866); (7868, 7868); (7870, 7870); (7872, 7872); (7874, 7874);
   (7876, 7876); (7878, 7878); (7880, 7880); (7882, 7882); (7884, 7884);
   (7886, 7886); (7888, 7888); (7890, 7890); (7892, 7892); (7894, 7894);
   (7896, 7896); (7898, 7898); (7900, 7900); (7902, 7902); (7904, 7904);
   (7906, 7906); (7908, 7908); (7910, 7910); (7912, 7912); (7914, 7914);
   (7916, 7916); (7918, 7918); (7920, 7920); (7922, 7922); (7924, 7924);
   (7926, 7926); (7928, 7928); (7930, 7930); (7932, 7932); (7934, 7934);
   (7944, 7951); (7960, 7965); (7976, 7983); (7992, 7999); (8008, 8013);
   (8025, 8025); (8027, 8027); (8029, 8029); (8031, 8031); (8040, 8047);
   (8120, 8123); (8136, 8139); (8152, 8155); (8168, 8172); (8184, 8187);
   (8450, 8450); (8455, 8455); (8459, 8461); (8464, 8466); (8469, 8469);
   (8473, 8477); (8484, 8484); (8486, 8486); (8488, 8488); (8490, 8493);
   (8496, 8499); (8510, 8511); (8517, 8517); (8544, 8559); (8579, 8579);
   (9398, 9423); (11264, 11311); (11360, 11360); (11362, 11364);
   (11367, 11367); (11369, 11369); (11371, 11371); (11373, 11376);
   (11378, 11378); (11381, 11381); (11390, 11392); (11394, 11394);
   (11396, 11396); (11398, 11398); (11400, 11400); (11402, 11402);
   (11404, 11404); (11406, 11406); (11408, 11408); (11410, 11410);
   (11412, 11412); (11414, 11414); (11416, 11416); (11418, 11418);
   (11420, 11420); (11422, 11422); (11424, 11424); (11426, 11426);
   (11428, 11428); (11430, 11430); (11432, 11432); (11434, 11434);
   (11436, 11436); (11438, 11438); (11440, 11440); (11442, 11442);
   (11444, 11444); (11446, 11446); (11448, 11448); (11450, 11450);
   (11452, 11452); (11454, 11454); (11456, 11456); (11458, 11458);
   (11460, 11460); (11462, 11462); (11464, 11464); (11466, 11466);
   (11468, 11468); (11470, 11470); (11472, 11472); (11474, 11474);
   (11476, 11476); (11478, 11478); (11480, 11480); (11482, 11482);
   (11484, 11484); (11486, 11486); (11488, 11488); (11490, 11490);
   (11499, 11499); (11501, 11501); (11506, 11506); (42560, 42560);
   (42562, 42562); (42564, 42564); (42566, 42566); (42568, 42568);
   (42570, 42570); (42572, 42572); (42574, 42574); (42576, 42576);
   (42578, 42578); (42580, 42580); (42582, 42582); (42584, 42584);
   (42586, 42586); (42588, 42588); (42590, 42590); (42592, 42592);
   (42594, 42594); (42596, 42596); (42598, 42598); (42600, 42600);
   (42602, 42602); (42604, 42604); (42624, 42624); (42626, 42626);
   (42628, 42628); (42630, 42630); (42632, 42632); (42634, 42634);
   (42636, 42636); (42638, 42638); (42640, 42640); (42642, 42642);
   (42644, 42644); (42646, 42646); (42648, 42648); (42650, 42650);
   (42786, 42786); (42788, 42788); (42790, 42790); (42792, 42792);
   (42794, 42794); (42796, 42796); (42798, 42798); (42802, 42802);
   (42804, 42804); (42806, 42806); (42808, 42808); (42810, 42810);
   (42812, 42812); (42814, 42814); (42816, 42816); (42818, 42818);
   (42820, 42820); (42822, 42822); (42824, 42824); (42826, 42826);
   (42828, 42828); (42830, 42830); (42832, 42832); (42834, 42834);
   (42836, 42836); (42838, 42838); (42840, 42840); (42842, 42842);
   (42844, 42844); (42846, 42846); (42848, 42848); (42850, 42850);
   (42852, 42852); (42854, 42854); (42856, 42856); (42858, 42858);
   (42860, 42860); (42862, 42862); (42873, 42873); (42875, 42875);
   (42877, 42878); (42880, 42880); (42882, 42882); (42884, 42884);
   (42886, 42886); (42891, 42891); (42893, 42893); (42896, 42896);
   (42898, 42898); (42902, 42902); (42904, 42904); (42906, 42906);
   (42908, 42908); (42910, 42910); (42912, 42912); (42914, 42914);
   (42916, 42916); (42918, 42918); (42920, 42920); (42922, 42926);
   (42928, 42932); (42934, 42934); (42936, 42936); (42938, 42938);
   (42940, 42940); (42942, 42942); (42944, 42944); (42946, 42946);
   (42948, 42951); (42953, 42953); (42960, 42960); (42966, 42966);
   (42968, 42968); (42997, 42997); (65313, 65338); (66560, 66599);
   (66736, 66771); (66928, 66938); (66940, 66954); (66956, 66962);
   (66964, 66965); (68736, 68786); (71840, 71871); (93760, 93791);
   (119808, 119833); (119860, 119885); (119912, 119937); (119964, 119964);
   (119966, 119967); (119970, 119970); (119973, 119974); (119977, 119980);
   (119982, 119989); (120016, 120041); (120068, 120069); (120071, 120074);
   (120077, 120084); (120086, 120092); (120120, 120121); (120123, 120126);
   (120128, 120132); (120134, 120134); (120138, 120144); (120172, 120197);
   (120224, 120249); (120276, 120301); (120328, 120353); (120380, 120405);
   (120432, 120457); (120488, 120512); (120546, 120570); (120604, 120628);
   (120662, 120686); (120720, 120744); (120778, 120778); (125184, 125217);
   (127280, 127305); (127312, 127337); (127344, 127369)]%N.

Definition isalnum (c : codepoint) : bool := in_ranges c ALNUM_RANGES.

Definition isupper (c : codepoint) : bool := in_ranges c UPPER_RANGES.

(** *** [str] operations *)

Definition text_eqb (a b : text) : bool :=
  if list_eq_dec N.eq_dec a b then true else false.

(** [x in l] for a list or set of strings. *)
Definition mem (x : text) (l : list text) : bool := existsb (text_eqb x) l.

(** [s.startswith(p)] *)
Fixpoint startswith (s p : text) : bool :=
  match p, s with
  | [], _ => true
  | _ :: _, [] => false
  | a :: p', b :: s' => (a =? b)%N && startswith s' p'
  end.

(** [s.endswith(p)] *)
Definition endswith (s p : text) : bool := startswith (rev s) (rev p).

(** [p in s] for strings. *)
Fixpoint contains (s p : text) : bool :=
  startswith s p
  || match s with
     | [] => false
     | _ :: s' => contains s' p
     end.

(** [s.split(sep)] for a one-character separator. *)
Fixpoint split (sep : codepoint) (s : text) : list text :=
  match s with
  | [] => [[]]
  | c :: s' =>
      if (c =? sep)%N then [] :: split sep s'
      else match split sep s' with
           | [] => [[c]]
           | w :: ws => (c :: w) :: ws
           end
  end.

Fixpoint lstrip (s : text) : text :=
  match s with
  | c :: s' => if isspace c then lstrip s' else s
  | [] => []
  end.

(** [s.strip()] *)
Definition strip (s : text) : text := rev (lstrip (rev (lstrip s))).

(** [sep.join(parts)] *)
Fixpoint join (sep : text) (parts : list text) : text :=
  match parts with
  | [] => []
  | [p] => p
  | p :: ps => p ++ sep ++ join sep ps
  end.

(** [s[a:b]] for offsets [0 <= a], [0 <= b]. *)
Definition slice (s : text) (a b : nat) : text := firstn (b - a) (skipn a s).

(** [str(n)] for a natural number. *)
Definition str_nat (n : nat) : text :=
  lit (NilEmpty.string_of_uint (Nat.to_uint n)).

(** *** Codecs *)

Definition bytes := list Byte.byte.

Definition byte_val (b : Byte.byte) : N := Byte.to_N b.

Definition is_cont (b : N) : bool := between 128 191 b.

(** Strict UTF-8, as [bytes.decode('utf-8')]: shortest forms only, no
    surrogates, nothing above U+10FFFF.  [None] stands for
    [UnicodeDecodeError]. *)
Fixpoint decode_utf8 (bs : bytes) : option text :=
  match bs with
  | [] => Some []
  | x0 :: t0 =>
      let b0 := byte_val x0 in
      if (b0 <? 128)%N then option_map (cons b0) (decode_utf8 t0)
      else if between 194 223 b0 then
        match t0 with
        | x1 :: t1 =>
            let b1 := byte_val x1 in
            if is_cont b1
            then option_map (cons ((b0 - 192) * 64 + (b1 - 128))%N)
                            (decode_utf8 t1)
            else None
        | [] => None
        end
      else if between 224 239 b0 then
        match t0 with
        | x1 :: x2 :: t2 =>
            let b1 := byte_val x1 in
            let b2 := byte_val x2 in
            let lo := if (b0 =? 224)%N then 160%N else 128%N in
            let hi := if (b0 =? 237)%N then 159%N else 191%N in
            if between lo hi b1 && is_cont b2
            then option_map
                   (cons ((b0 - 224) * 4096 + (b1 - 128) * 64 + (b2 - 128))%N)
                   (decode_utf8 t2)
            else None
        | _ => None
        end
      else if between 240 244 b0 then
        match t0 with
        | x1 :: x2 :: x3 :: t3 =>
            let b1 := byte_val x1 in
            let b2 := byte_val x2 in
            let b3 := byte_val x3 in
            let lo := if (b0 =? 240)%N then 144%N else 128%N in
            let hi := if (b0 =? 244)%N then 143%N else 191%N in
            if between lo hi b1 && is_cont b2 && is_cont b3
            then option_map
                   (cons ((b0 - 240) * 262144 + (b1 - 128) * 4096
                          + (b2 - 128) * 64 + (b3 - 128))%N)
                   (decode_utf8 t3)
            else None
        | _ => None
        end
      else None
  end.

(** The bytes are a beginning of the byte order mark [EF BB BF]:
    [codecs.BOM_UTF8.startswith(input)]. *)
Definition bom_startswith (bs : bytes) : bool :=
  match List.map byte_val bs with
  | [] => true
  | [b0] => (b0 =? 239)%N
  | [b0; b1] => ((b0 =? 239) && (b1 =? 187))%N
  | [b0; b1; b2] => ((b0 =? 239) && (b1 =? 187) && (b2 =? 191))%N
  | _ => false
  end.

(** What a text-mode read makes of the bytes of a file under
    [encoding='utf-8-sig']: one call of the incremental decoder.  A leading
    byte order mark is dropped; fewer than three bytes that are a beginning
    of the mark are kept back by the decoder ("not enough data to decide"),
    and the text read is empty. *)
Definition decode_utf8_sig (bs : bytes) : option text :=
  match bs with
  | x0 :: x1 :: x2 :: t =>
      if ((byte_val x0 =? 239) && (byte_val x1 =? 187)
          && (byte_val x2 =? 191))%N
      then decode_utf8 t
      else decode_utf8 bs
  | _ => if bom_startswith bs then Some [] else decode_utf8 bs
  end.

(** [bytes.decode('latin-1')]: every byte is the code point of its value. *)
Definition decode_latin1 (bs : bytes) : text := List.map byte_val bs.

(** Text mode reads translate ["\r\n"] and ["\r"] to ["\n"]. *)
Fixpoint universal_newlines (s : text) : text :=
  match s with
  | [] => []
  | c :: s' =>
      if (c =? 13)%N then
        match s' with
        | d :: s'' =>
            if (d =? 10)%N then NEWLINE :: universal_newlines s''
            else NEWLINE :: universal_newlines s'
        | [] => [NEWLINE]
        end
      else c :: universal_newlines s'
  end.

(** *** Files

    What one [Path.read_text] call meets: the bytes of the file, or an
    operating-system error (missing file, permission, directory). *)
Inductive read_outcome : Type :=
| ReadBytes (bs : bytes)
| ReadFails.

(** [filepath.read_text(encoding=...)] with a codec that may reject the
    bytes. *)
Definition read_text (decode : bytes -> option text) (r : read_outcome)
  : py_result text :=
  match r with
  | ReadFails => Raise OSError
  | ReadBytes bs =>
      match decode bs with
      | Some t => Ret (universal_newlines t)
      | None => Raise UnicodeDecodeError
      end
  end.

(** *** Calls that may raise

    [None] is a loop that ran out of fuel, [Some (Raise e)] an exception on
    its way up, [Some (Ret a)] a normal return. *)
Definition M (A : Type) : Type := option (py_result A).

Definition ret {A : Type} (a : A) : M A := Some (Ret a).

Definition raise {A : Type} (e : exn) : M A := Some (Raise e).

Definition bind {A B : Type} (c : M A) (k : A -> M B) : M B :=
  match c with
  | None => None
  | Some (Raise e) => Some (Raise e)
  | Some (Ret a) => k a
  end.

Fixpoint mapM {A B : Type} (f : A -> M B) (l : list A) : M (list B) :=
  match l with
  | [] => ret []
  | a :: l' =>
      bind (f a) (fun b => bind (mapM f l') (fun bs => ret (b :: bs)))
  end.

(** *** Lists, sets and dictionaries *)

(** The list of the [Some] results, in order: a [for] loop whose body either
    appends one element or does [continue]. *)
Fixpoint filter_map {A B : Type} (f : A -> option B) (l : list A) : list B :=
  match l with
  | [] => []
  | a :: l' =>
      match f a with
      | Some b => b :: filter_map f l'
      | None => filter_map f l'
      end
  end.

(** [set.update]: a set is kept as the list of its elements without
    repetition.  Python leaves the iteration order of a set open; the facts
    proved about loops over sets do not depend on it. *)
Fixpoint set_update (s : list text) (l : list text) : list text :=
  match l with
  | [] => s
  | x :: l' => set_update (if mem x s then s else s ++ [x]) l'
  end.

(** Comparison of two strings, code point by code point. *)
Fixpoint text_leb (a b : text) : bool :=
  match a, b with
  | [], _ => true
  | _ :: _, [] => false
  | x :: a', y :: b' =>
      if (x <? y)%N then true
      else if (y <? x)%N then false
      else text_leb a' b'
  end.

Fixpoint insert_by {A : Type} (key : A -> text) (x : A) (l : list A) : list A :=
  match l with
  | [] => [x]
  | y :: l' =>
      if text_leb (key x) (key y) then x :: y :: l'
      else y :: insert_by key x l'
  end.

(** [sorted(l, key=key)]: stable. *)
Fixpoint sorted_by {A : Type} (key : A -> text) (l : list A) : list A :=
  match l with
  | [] => []
  | x :: l' => insert_by key x (sorted_by key l')
  end.

(** [d[key].append(v)] on a [defaultdict(list)]; keys stay in insertion
    order. *)
Fixpoint dict_append {A : Type} (d : list (text * list A)) (key : text) (v : A)
  : list (text * list A) :=
  match d with
  | [] => [(key, [v])]
  | (k, vs) :: d' =>
      if text_eqb k key then (k, vs ++ [v]) :: d'
      else (k, vs) :: dict_append d' key v
  end.

(** *** Paths

    A [Path] is the list of its parts; the first part of an absolute path
    is ["/"]. *)
Definition Path := list text.

Definition SLASH : codepoint := 47%N.

(** [str(path)] *)
Definition path_str (p : Path) : text :=
  match p with
  | [] => [46%N]
  | r :: p' =>
      if text_eqb r [SLASH] then SLASH :: join [SLASH] p'
      else join [SLASH] p
  end.

(** [Path(s)]: empty components and ["."] components are dropped. *)
Definition path_of_str (s : text) : Path :=
  (if startswith s [SLASH] then [[SLASH]] else [])
  ++ filter (fun c => negb (text_eqb c [] || text_eqb c [46%N]))
       (split SLASH s).

(** [path.name]: the last part; the empty string for [Path('.')], and for
    the root alone, whose only part is the anchor ["/"] (the anchor is never
    a part after the first). *)
Definition path_name (p : Path) : text :=
  let name := last p [] in
  if text_eqb name [SLASH] then [] else name.

(** [path.parent] *)
Definition path_parent (p : Path) : Path := removelast p.

(** [path.relative_to(root)] *)
Fixpoint relative_to (p root : Path) : py_result Path :=
  match root, p with
  | [], _ => Ret p
  | _ :: _, [] => Raise ValueError
  | r :: root', x :: p' =>
      if text_eqb r x then relative_to p' root' else Raise ValueError
  end.

(** One entry below the root: its parts relative to the root, and what the
    [n]-th read of it meets. *)
Record entry : Type := {
  e_rel : Path;
  e_reads : nat -> read_outcome
}.

(** The tree seen by a run. *)
Record tree : Type := {
  root_exists : bool;
  entries : list entry       (* in the order in which [rglob] yields them *)
}.

(** [root.rglob('*' + suffix)] *)
Definition rglob (t : tree) (suffix : text) : list entry :=
  filter (fun e => endswith (path_name (e_rel e)) suffix) (entries t).

(** What [args.output.write_text(...)] meets: the text is written, or the
    call raises (an error of the operating system, as a rule). *)
Inductive write_outcome : Type :=
| WriteDone
| WriteFails (x : exn).

(** The command line, after [argparse], and what writing the output file
    meets. *)
Record args : Type := {
  a_root : Path;             (* [args.root.resolve()] *)
  a_output : option Path;
  a_write : write_outcome;   (* of [args.output.write_text] *)
  a_depth : text;
  a_exclude : text
}.

(** How a run ends: [Completed] is a run that printed [payload];
    [Written] one that wrote [payload] to the output file and printed the
    lines [stdout]. *)
Inductive run : Type :=
| SysExit (code : Z) (stderr : list text)
| Uncaught (e : exn) (stderr : list text)
| OutOfFuel
| Completed (payload : text) (stderr : list text)
| Written (output : Path) (payload : text) (stdout stderr : list text).

End Py.

Import Py.

Declare Scope py_scope.
Notation "x <- c ;; k" := (bind c (fun x => k))
  (at level 61, c at next level, right associativity) : py_scope.

(** ** The [re] module

    A backtracking matcher with the priorities of Python's engine: greedy
    repetition tries one more iteration before it tries to stop, a lazy one
    the other way round, an alternation tries its branches from left to
    right, and a group that matched several times keeps its last match. *)

Module Re.

Inductive re : Type :=
| Eps
| Chr (p : codepoint -> bool)   (* one character of a class *)
| Cat (a b : re)
| Alt (a b : re)
| Star (a : re)                 (* greedy star *)
| LazyStar (a : re)             (* a star followed by ? *)
| Group (name : string) (a : re)
| Bol                           (* ^ under MULTILINE *)
| Eol                           (* $ under MULTILINE *)
| WordB.                        (* \b *)

Definition Plus (a : re) : re := Cat a (Star a).
Definition Opt (a : re) : re := Alt a Eps.

Fixpoint Str_chars (l : text) : re :=
  match l with
  | [] => Eps
  | [c] => Chr (N.eqb c)
  | c :: l' => Cat (Chr (N.eqb c)) (Str_chars l')
  end.

(** A literal word of the pattern. *)
Definition Str (s : string) : re := Str_chars (lit s).

Fixpoint Seq (l : list re) : re :=
  match l with
  | [] => Eps
  | [a] => a
  | a :: l' => Cat a (Seq l')
  end.

Fixpoint Alts (l : list re) : re :=
  match l with
  | [] => Chr (fun _ => false)
  | [a] => a
  | a :: l' => Alt a (Alts l')
  end.

(** Character classes. *)
Definition w : codepoint -> bool := fun c => isalnum c || (c =? 95)%N.
Definition sp : codepoint -> bool := isspace.
Definition one (c : codepoint) : codepoint -> bool := N.eqb c.
Definition oneof (s : string) : codepoint -> bool :=
  fun c => existsb (N.eqb c) (lit s).
Definition union (p q : codepoint -> bool) : codepoint -> bool :=
  fun c => p c || q c.
Definition compl (p : codepoint -> bool) : codepoint -> bool :=
  fun c => negb (p c).
(** [.] without DOTALL *)
Definition dot : codepoint -> bool := compl (one NEWLINE).
(** [.] with DOTALL *)
Definition any : codepoint -> bool := fun _ => true.

(** A position in the subject while matching. *)
Record mstate : Type := {
  pos : nat;                        (* offset *)
  prev : option codepoint;          (* the character before the offset *)
  rest : text;                      (* the subject from the offset on *)
  caps : list (string * text)       (* groups matched so far, latest first *)
}.

Definition advance (c : codepoint) (tl : text) (st : mstate) : mstate :=
  {| pos := S (pos st); prev := Some c; rest := tl; caps := caps st |}.

Definition is_word_opt (o : option codepoint) : bool :=
  match o with
  | Some c => w c
  | None => false
  end.

Fixpoint exec (r : re) (st : mstate) (k : mstate -> option mstate)
  {struct r} : option mstate :=
  match r with
  | Eps => k st
  | Chr p =>
      match rest st with
      | c :: tl => if p c then k (advance c tl st) else None
      | [] => None
      end
  | Cat a b => exec a st (fun st' => exec b st' k)
  | Alt a b =>
      match exec a st k with
      | Some res => Some res
      | None => exec b st k
      end
  | Star a =>
      (fix loop (fuel : nat) (st : mstate) {struct fuel} : option mstate :=
         match fuel with
         | O => k st
         | S fuel' =>
             match exec a st (fun st' =>
                                if (pos st <? pos st')%nat then loop fuel' st'
                                else None) with
             | Some res => Some res
             | None => k st
             end
         end) (S (List.length (rest st))) st
  | LazyStar a =>
      (fix loop (fuel : nat) (st : mstate) {struct fuel} : option mstate :=
         match fuel with
         | O => k st
         | S fuel' =>
             match k st with
             | Some res => Some res
             | None =>
                 exec a st (fun st' =>
                              if (pos st <? pos st')%nat then loop fuel' st'
                              else None)
             end
         end) (S (List.length (rest st))) st
  | Group name a =>
      exec a st (fun st' =>
                   k {| pos := pos st'; prev := prev st'; rest := rest st';
                        caps := (name, firstn (pos st' - pos st) (rest st))
                                  :: caps st' |})
  | Bol =>
      match prev st with
      | None => k st
      | Some c => if (c =? NEWLINE)%N then k st else None
      end
  | Eol =>
      match rest st with
      | [] => k st
      | c :: _ => if (c =? NEWLINE)%N then k st else None
      end
  | WordB =>
      if xorb (is_word_opt (prev st)) (is_word_opt (hd_error (rest st)))
      then k st else None
  end.

(** A match object. *)
Record Match : Type := {
  m_start : nat;                    (* match.start() *)
  m_end : nat;                      (* match.end() *)
  m_caps : list (string * text)
}.

(** [match.group(name)]; [None] when the group took no part in the match. *)
Fixpoint lookup (name : string) (l : list (string * text)) : option text :=
  match l with
  | [] => None
  | (n, v) :: l' => if String.eqb n name then Some v else lookup name l'
  end.

Definition group (m : Match) (name : string) : option text :=
  lookup name (m_caps m).

(** [match.group(name) or ''] *)
Definition group_or_empty (m : Match) (name : string) : text :=
  match group m name with
  | Some v => v
  | None => []
  end.

(** [pattern.match] at one offset. *)
Definition match_at (r : re) (prev : option codepoint) (rest : text)
  (pos : nat) : option Match :=
  match exec r {| pos := pos; prev := prev; rest := rest; caps := [] |} Some with
  | Some st => Some {| m_start := pos; m_end := Re.pos st; m_caps := caps st |}
  | None => None
  end.

(** The scan of [pattern.finditer]: [skip] characters are still covered by
    the match found last.  Every pattern of the mappers consumes at least one
    character, so the rule for what follows an empty match is the simple one:
    go on at the next offset. *)
Fixpoint finditer_from (r : re) (prev : option codepoint) (rest : text)
  (pos skip : nat) : list Match :=
  match skip with
  | S skip' =>
      match rest with
      | [] => []
      | c :: tl => finditer_from r (Some c) tl (S pos) skip'
      end
  | O =>
      match match_at r prev rest pos with
      | Some m =>
          m :: match rest with
               | [] => []
               | c :: tl =>
                   finditer_from r (Some c) tl (S pos) (m_end m - pos - 1)
               end
      | None =>
          match rest with
          | [] => []
          | c :: tl => finditer_from r (Some c) tl (S pos) 0
          end
      end
  end.

(** [pattern.finditer(content)] *)
Definition finditer (r : re) (content : text) : list Match :=
  finditer_from r None content 0 0.

(** [pattern.search(content)] *)
Definition search (r : re) (content : text) : option Match :=
  hd_error (finditer r content).

Definition in_span (i : nat) (m : Match) : bool :=
  ((m_start m <=? i) && (i <? m_end m))%nat.

Fixpoint drop_spans (ms : list Match) (content : text) (i : nat) : text :=
  match content with
  | [] => []
  | c :: tl =>
      if existsb (in_span i) ms then drop_spans ms tl (S i)
      else c :: drop_spans ms tl (S i)
  end.

(** [re.sub(pattern, '', content)] *)
Definition sub_empty (r : re) (content : text) : text :=
  drop_spans (finditer r content) content 0.

End Re.

(** ** [map_csharp.py] *)

Module CSharp.
Import Re.
Local Open Scope py_scope.

Record MemberInfo : Type := {
  m_name : text;
  m_kind : text;             (* 'method', 'property', 'field' *)
  m_is_async : bool
}.

Record TypeInfo : Type := {
  t_name : text;
  t_kind : text;             (* 'class', 'interface', 'enum', 'record', 'struct' *)
  t_bases : list text;
  t_members : list MemberInfo;
  t_attributes : list text;
  t_is_partial : bool
}.

Record FileInfo : Type := {
  f_path : text;
  f_namespace : text;
  f_types : list TypeInfo;
  f_usings : list text
}.

Definition DEFAULT_EXCLUDES : list text :=
  List.map lit ["bin"; "obj"; ".git"; "node_modules"; "packages";
                "TestResults"; ".vs"; "Debug"; "Release"]%string.

Definition FRAMEWORK_INDICATORS : list (text * text) :=
  List.map (fun kv => (lit (fst kv), lit (snd kv)))
    [("Microsoft.AspNetCore", "ASP.NET Core");
     ("Microsoft.EntityFrameworkCore", "EF Core");
     ("System.Text.Json", "System.Text.Json");
     ("Newtonsoft.Json", "Newtonsoft.Json");
     ("MediatR", "MediatR");
     ("FluentValidation", "FluentValidation");
     ("Serilog", "Serilog");
     ("AutoMapper", "AutoMapper");
     ("Dapper", "Dapper");
     ("xunit", "xUnit");
     ("NUnit", "NUnit");
     ("Moq", "Moq")]%string.

(** *** Patterns *)

(** [^\s*namespace\s+([\w.]+)\s*[;{]] *)
Definition NAMESPACE_PATTERN : re :=
  Seq [Bol; Star (Chr sp); Str "namespace"; Plus (Chr sp);
       Group "1" (Plus (Chr (union w (oneof "."))));
       Star (Chr sp); Chr (oneof ";{")].

(** [^\s*using\s+(?:static\s+)?([\w.]+)\s*;] *)
Definition USING_PATTERN : re :=
  Seq [Bol; Star (Chr sp); Str "using"; Plus (Chr sp);
       Opt (Cat (Str "static") (Plus (Chr sp)));
       Group "1" (Plus (Chr (union w (oneof "."))));
       Star (Chr sp); Chr (oneof ";")].

(** The attribute lists of the three verbose patterns: any number of
    bracketed runs of word characters, white space, commas, parentheses,
    equals signs, double quotes and dots, each followed by white space. *)
Definition ATTRIBUTES : re :=
  Star (Seq [Chr (oneof "[");
             Plus (Chr (union w (union sp (union (oneof ",()=.") (one DQUOTE)))));
             Chr (oneof "]"); Star (Chr sp)]).

(** [(?:<[^>]+>)?] *)
Definition GENERICS : re :=
  Opt (Seq [Chr (oneof "<"); Plus (Chr (compl (oneof ">"))); Chr (oneof ">")]).

Definition TYPE_PATTERN : re :=
  Seq [Group "attributes" ATTRIBUTES;
       Star (Group "modifiers"
               (Cat (Alts [Str "public"; Str "private"; Str "protected";
                           Str "internal"; Str "static"; Str "abstract";
                           Str "sealed"; Str "partial"])
                    (Plus (Chr sp))));
       Group "kind" (Alts [Str "class"; Str "interface"; Str "enum";
                           Str "record"; Str "struct"]);
       Plus (Chr sp);
       Group "name" (Plus (Chr w));
       GENERICS;
       Opt (Seq [Star (Chr sp); Chr (oneof ":"); Star (Chr sp);
                 Group "bases" (Plus (Chr (compl (oneof "{"))))]);
       Star (Chr sp); Chr (oneof "{")].

(** [[\w<>\[\],\s\?]+] *)
Definition TYPE_NAME_CHARS : re :=
  Plus (Chr (union w (union sp (oneof "<>[],?")))).

Definition METHOD_PATTERN : re :=
  Seq [Group "attributes" ATTRIBUTES;
       Star (Group "modifiers"
               (Cat (Alts [Str "public"; Str "private"; Str "protected";
                           Str "internal"; Str "static"; Str "virtual";
                           Str "override"; Str "abstract"; Str "async"])
                    (Plus (Chr sp))));
       Group "return" TYPE_NAME_CHARS;
       Plus (Chr sp);
       Group "name" (Plus (Chr w));
       Star (Chr sp);
       GENERICS;
       Chr (oneof "(");
       Group "params" (Star (Chr (compl (oneof ")"))));
       Chr (oneof ")")].

Definition PROPERTY_PATTERN : re :=
  Seq [Group "attributes" ATTRIBUTES;
       Star (Group "modifiers"
               (Cat (Alts [Str "public"; Str "private"; Str "protected";
                           Str "internal"; Str "static"; Str "virtual";
                           Str "override"; Str "abstract"])
                    (Plus (Chr sp))));
       Group "type" TYPE_NAME_CHARS;
       Plus (Chr sp);
       Group "name" (Plus (Chr w));
       Star (Chr sp);
       Chr (oneof "{"); Star (Chr sp);
       Alts [Str "get"; Str "set"; Str "init"]].

(** [\bwhere\b.*] *)
Definition WHERE_CLAUSE : re :=
  Seq [WordB; Str "where"; WordB; Star (Chr dot)].

(** [<[^>]+>] *)
Definition GENERIC_ARGS : re :=
  Seq [Chr (oneof "<"); Plus (Chr (compl (oneof ">"))); Chr (oneof ">")].

(** [\[(\w+)] *)
Definition ATTRIBUTE_NAME : re :=
  Cat (Chr (oneof "[")) (Group "1" (Plus (Chr w))).

(** *** Functions *)

Fixpoint should_exclude (parts : Path) (excludes : list text) : bool :=
  match parts with
  | [] => false
  | part :: parts' =>
      if mem part excludes || startswith part (lit ".") then true
      else should_exclude parts' excludes
  end.

Definition extract_attributes (attr_str : text) : list text :=
  match attr_str with
  | [] => []
  | _ => List.map (fun m => group_or_empty m "1") (finditer ATTRIBUTE_NAME attr_str)
  end.

(** The [while i < len(content)] loop of [find_type_end]; [depth] and [i] are
    the loop variables. *)
Fixpoint find_type_end_loop (fuel : nat) (content : text) (depth i : Z)
  : M Z :=
  if (i <? len content)%Z then
    match fuel with
    | O => None
    | S fuel' =>
        match getitem content i with
        | Raise e => Some (Raise e)
        | Ret c =>
            if (c =? LBRACE)%N then
              find_type_end_loop fuel' content (depth + 1) (i + 1)
            else if (c =? RBRACE)%N then
              let depth := (depth - 1)%Z in
              if (depth =? 0)%Z then Some (Ret i)
              else find_type_end_loop fuel' content depth (i + 1)
            else find_type_end_loop fuel' content depth (i + 1)
        end
    end
  else Some (Ret (len content)).

(** [find_type_end(content, start)] *)
Definition find_type_end (content : text) (start : Z) : M Z :=
  find_type_end_loop (Z.to_nat (len content - start)) content 0 start.

(** The [bases] list of [parse_type]. *)
Definition parse_bases (bases_str : option text) : list text :=
  match bases_str with
  | None | Some [] => []
  | Some bases_str =>
      let bases_str := sub_empty WHERE_CLAUSE bases_str in
      filter_map
        (fun base =>
           let base := strip base in
           match base with
           | [] => None
           | _ => Some (sub_empty GENERIC_ARGS base)
           end)
        (split 44%N bases_str)
  end.

(** One turn of the loop over [METHOD_PATTERN.finditer(type_body)]:
    [None] is [continue]. *)
Definition method_member (depth name : text) (m : Match) : option MemberInfo :=
  let method_name := group_or_empty m "name" in
  let method_modifiers := group_or_empty m "modifiers" in
  if negb (text_eqb depth (lit "full"))
     && (contains method_modifiers (lit "private")
         || contains method_modifiers (lit "protected"))
  then None
  else if mem method_name [name; lit "get"; lit "set"; lit "add"; lit "remove"]
  then None
  else Some {| m_name := method_name ++ lit "()";
               m_kind := lit "method";
               m_is_async := contains method_modifiers (lit "async") |}.

(** One turn of the loop over [PROPERTY_PATTERN.finditer(type_body)]. *)
Definition property_member (depth : text) (p : Match) : option MemberInfo :=
  let prop_modifiers := group_or_empty p "modifiers" in
  if negb (text_eqb depth (lit "full"))
     && (contains prop_modifiers (lit "private")
         || contains prop_modifiers (lit "protected"))
  then None
  else Some {| m_name := group_or_empty p "name";
               m_kind := lit "property";
               m_is_async := false |}.

(** The members found in a type body. *)
Definition body_members (depth name type_body : text) : list MemberInfo :=
  filter_map (method_member depth name) (finditer METHOD_PATTERN type_body)
  ++ filter_map (property_member depth) (finditer PROPERTY_PATTERN type_body).

(** [parse_type(match, content, depth)] *)
Definition parse_type (m : Match) (content depth : text) : M TypeInfo :=
  let modifiers := group_or_empty m "modifiers" in
  let is_partial := contains modifiers (lit "partial") in
  let kind := group_or_empty m "kind" in
  let name := group_or_empty m "name" in
  let bases := parse_bases (group m "bases") in
  let attributes := extract_attributes (group_or_empty m "attributes") in
  members <-
    (if negb (text_eqb depth (lit "classes"))
        && negb (text_eqb kind (lit "enum"))
     then
       let type_start := m_end m in
       type_end <- find_type_end content (Z.of_nat (m_start m));;
       let type_body := slice content type_start (Z.to_nat type_end) in
       ret (body_members depth name type_body)
     else ret []);;
  ret {| t_name := name; t_kind := kind; t_bases := bases;
         t_members := members; t_attributes := attributes;
         t_is_partial := is_partial |}.

(** [parse_file] once [content] has been read. *)
Definition parse_content (filepath : Path) (content depth : text) : M FileInfo :=
  let namespace :=
    match search NAMESPACE_PATTERN content with
    | Some ns_match => group_or_empty ns_match "1"
    | None => []
    end in
  let usings :=
    List.map (fun m => group_or_empty m "1") (finditer USING_PATTERN content) in
  types <- mapM (fun m => parse_type m content depth)
             (finditer TYPE_PATTERN content);;
  ret {| f_path := path_str filepath; f_namespace := namespace;
         f_types := types; f_usings := usings |}.

(** [parse_file(filepath, depth)]: the result and the lines written to the
    diagnostic stream.  [reads n] is what the [n]-th read of the file
    meets. *)
Definition parse_file (filepath : Path) (reads : nat -> read_outcome)
  (depth : text) : M (option FileInfo * list text) :=
  match read_text decode_utf8_sig (reads 0%nat) with
  | Ret content =>
      fi <- parse_content filepath content depth;;
      ret (Some fi, [])
  | Raise UnicodeDecodeError =>
      match read_text (fun bs => Some (decode_latin1 bs)) (reads 1%nat) with
      | Ret content =>
          fi <- parse_content filepath content depth;;
          ret (Some fi, [])
      | Raise _ =>
          ret (None, [lit "Warning: Skipping unreadable file: "
                        ++ path_str filepath])
      end
  | Raise e => raise e
  end.

(** The inner loop of [detect_frameworks], with its [break]. *)
Fixpoint detect_one (all_usings : list text) (using_ name : text)
  (detected : list text) : list text :=
  match all_usings with
  | [] => detected
  | u :: rest =>
      if startswith u using_ then
        if mem name detected then detected else detected ++ [name]
      else detect_one rest using_ name detected
  end.

(** [detect_frameworks(all_usings)], over a table given as argument. *)
Definition detect_frameworks_in (table : list (text * text))
  (all_usings : list text) : list text :=
  fold_left (fun detected kv => detect_one all_usings (fst kv) (snd kv) detected)
            table [].

Definition detect_frameworks (all_usings : list text) : list text :=
  detect_frameworks_in FRAMEWORK_INDICATORS all_usings.

Definition ARROW : text := [226; 8224; 8217; 32]%N.

(** [format_type(t)] *)
Definition format_type (t : TypeInfo) : text :=
  let part0 :=
    lit "`" ++ t_name t
    ++ (match t_bases t with
        | [] => []
        | _ =>
            lit " : " ++ join (lit ", ") (firstn 3 (t_bases t))
            ++ (if (3 <? List.length (t_bases t))%nat
                then lit " (+" ++ str_nat (List.length (t_bases t) - 3) ++ lit ")"
                else [])
        end)
    ++ lit "`" in
  let kind_part :=
    if negb (text_eqb (t_kind t) (lit "class"))
    then [lit "[" ++ t_kind t ++ lit "]"] else [] in
  let important_attrs :=
    List.map lit ["ApiController"; "Authorize"; "Route"; "Injectable";
                  "Component"]%string in
  let shown_attrs := filter (fun a => mem a important_attrs) (t_attributes t) in
  let attr_part :=
    match shown_attrs with
    | [] => []
    | _ => [lit "[" ++ join (lit ", ") shown_attrs ++ lit "]"]
    end in
  let methods :=
    List.map m_name
      (filter (fun m => text_eqb (m_kind m) (lit "method")) (t_members t)) in
  let method_part :=
    match methods with
    | [] => []
    | _ =>
        [ARROW ++ join (lit ", ") (firstn 5 methods)
         ++ (if (5 <? List.length methods)%nat
             then lit " (+" ++ str_nat (List.length methods - 5) ++ lit " more)"
             else [])]
    end in
  join (lit " ") ([part0] ++ kind_part ++ attr_part ++ method_part).

(** The lines of one file of [format_output]. *)
Definition format_file (root : Path) (f : FileInfo) : py_result (list text) :=
  match relative_to (path_of_str (f_path f)) root with
  | Raise e => Raise e
  | Ret rel_path =>
      let filename := path_name rel_path in
      Ret (List.map
             (fun t => lit "  - `" ++ filename ++ lit "`: " ++ format_type t)
             (f_types f))
  end.

Fixpoint format_files (root : Path) (fs : list FileInfo)
  : py_result (list text) :=
  match fs with
  | [] => Ret []
  | f :: fs' =>
      match format_file root f with
      | Raise e => Raise e
      | Ret ls =>
          match format_files root fs' with
          | Raise e => Raise e
          | Ret ls' => Ret (ls ++ ls')
          end
      end
  end.

Fixpoint format_groups (root : Path) (groups : list (text * list FileInfo))
  : py_result (list text) :=
  match groups with
  | [] => Ret []
  | (ns, ns_file_list) :: groups' =>
      match format_files root (sorted_by f_path ns_file_list) with
      | Raise e => Raise e
      | Ret ls =>
          match format_groups root groups' with
          | Raise e => Raise e
          | Ret ls' => Ret ((lit "- `" ++ ns ++ lit "`") :: ls ++ ls')
          end
      end
  end.

(** [format_output(files, root, frameworks)] *)
Definition format_output (files : list FileInfo) (root : Path)
  (frameworks : list text) : py_result text :=
  let head := [lit "### C#: " ++ path_name root ++ lit "/"] in
  let fw :=
    match frameworks with
    | [] => []
    | _ => [lit "**Frameworks detected:** " ++ join (lit ", ") frameworks; []]
    end in
  let ns_files :=
    fold_left
      (fun d f =>
         dict_append d
           (match f_namespace f with
            | [] => lit "(no namespace)"
            | ns => ns
            end) f)
      files [] in
  match format_groups root (sorted_by fst ns_files) with
  | Raise e => Raise e
  | Ret ls => Ret (join [NEWLINE] (head ++ fw ++ ls))
  end.

(** The variables of the loop of [main]; [parsed] records the files handed
    to [parse_file]. *)
Record walk_state : Type := {
  files : list FileInfo;
  all_usings : list text;
  file_count : nat;
  type_count : nat;
  member_count : nat;
  stderr : list text;
  parsed : list Path
}.

Definition walk_init : walk_state :=
  {| files := []; all_usings := []; file_count := 0; type_count := 0;
     member_count := 0; stderr := []; parsed := [] |}.

(** One turn of [for cs_file in root.rglob('*.cs')].  An exception leaves
    with the diagnostics written so far. *)
Definition walk_step (root : Path) (excludes : list text) (depth : text)
  (st : walk_state) (e : entry) : option (exn * list text + walk_state) :=
  let cs_file := root ++ e_rel e in
  match relative_to cs_file root with
  | Raise x => Some (inl (x, stderr st))
  | Ret rel_path =>
      if should_exclude rel_path excludes then Some (inr st)
      else
        match parse_file cs_file (e_reads e) depth with
        | None => None
        | Some (Raise x) => Some (inl (x, stderr st))
        | Some (Ret (None, warnings)) =>
            Some (inr {| files := files st; all_usings := all_usings st;
                         file_count := file_count st;
                         type_count := type_count st;
                         member_count := member_count st;
                         stderr := stderr st ++ warnings;
                         parsed := parsed st ++ [cs_file] |})
        | Some (Ret (Some file_info, warnings)) =>
            Some (inr {| files := files st ++ [file_info];
                         all_usings := set_update (all_usings st)
                                         (f_usings file_info);
                         file_count := file_count st + 1;
                         type_count := type_count st
                                       + List.length (f_types file_info);
                         member_count :=
                           fold_left
                             (fun n t => n + List.length (t_members t))
                             (f_types file_info) (member_count st);
                         stderr := stderr st ++ warnings;
                         parsed := parsed st ++ [cs_file] |})
        end
  end.

Fixpoint walk (root : Path) (excludes : list text) (depth : text)
  (es : list entry) (st : walk_state) : option (exn * list text + walk_state) :=
  match es with
  | [] => Some (inr st)
  | e :: es' =>
      match walk_step root excludes depth st e with
      | Some (inr st') => walk root excludes depth es' st'
      | other => other
      end
  end.

(** [excludes] as [main] builds it. *)
Definition excludes_of (a : args) : list text :=
  match a_exclude a with
  | [] => DEFAULT_EXCLUDES
  | x => set_update DEFAULT_EXCLUDES (split 44%N x)
  end.

(** The second line printed after the output file was written. *)
Definition summary_line (st : walk_state) : text :=
  lit "Files: " ++ str_nat (file_count st)
  ++ lit ", Types: " ++ str_nat (type_count st)
  ++ lit ", Members: " ++ str_nat (member_count st).

Definition stats_line (st : walk_state) : text :=
  [NEWLINE] ++ lit "<!-- C#: " ++ str_nat (file_count st) ++ lit " files, "
  ++ str_nat (type_count st) ++ lit " types, "
  ++ str_nat (member_count st) ++ lit " members -->" ++ [NEWLINE].

(** [main()]; the payload is [output + stats]. *)
Definition main (a : args) (t : tree) : run :=
  let root := a_root a in
  if negb (root_exists t) then
    SysExit 1 [lit "Error: Root directory does not exist: " ++ path_str root]
  else
    match walk root (excludes_of a) (a_depth a) (rglob t (lit ".cs")) walk_init with
    | None => OutOfFuel
    | Some (inl (x, err)) => Uncaught x err
    | Some (inr st) =>
        let frameworks := detect_frameworks (all_usings st) in
        match format_output (files st) root frameworks with
        | Raise x => Uncaught x (stderr st)
        | Ret output =>
            let stats := stats_line st in
            match a_output a with
            | Some output_path =>
                match a_write a with
                | WriteFails x => Uncaught x (stderr st)
                | WriteDone =>
                    Written output_path (output ++ stats)
                      [lit "Output written to " ++ path_str output_path;
                       summary_line st] (stderr st)
                end
            | None => Completed (output ++ stats) (stderr st)
            end
        end
    end.

End CSharp.

(** ** [map_typescript.py] *)

Module TypeScript.
Import Re.
Local Open Scope py_scope.

Record MemberInfo : Type := {
  m_name : text;
  m_kind : text;             (* 'method', 'property', 'function' *)
  m_is_async : bool
}.

Record TypeInfo : Type := {
  t_name : text;
  t_kind : text;   (* 'class', 'interface', 'type', 'enum', 'function', 'component' *)
  t_bases : list text;
  t_members : list MemberInfo;
  t_decorators : list text;
  t_is_exported : bool
}.

Record FileInfo : Type := {
  f_path : text;
  f_types : list TypeInfo;
  f_imports : list text
}.

Definition DEFAULT_EXCLUDES : list text :=
  List.map lit ["node_modules"; "dist"; "build"; ".git"; "coverage";
                "__tests__"; "__mocks__"; ".next"; ".nuxt"; ".output"]%string.

Definition FRAMEWORK_INDICATORS : list (text * text) :=
  List.map (fun kv => (lit (fst kv), lit (snd kv)))
    [("react", "React");
     ("@angular", "Angular");
     ("vue", "Vue");
     ("next", "Next.js");
     ("express", "Express");
     ("fastify", "Fastify");
     ("nestjs", "NestJS");
     ("@nestjs", "NestJS");
     ("typeorm", "TypeORM");
     ("prisma", "Prisma");
     ("zod", "Zod");
     ("trpc", "tRPC");
     ("@trpc", "tRPC")]%string.

(** *** Patterns *)

Definition quote : codepoint -> bool := union (one SQUOTE) (one DQUOTE).

Definition IMPORT_PATTERN : re :=
  Seq [Str "import"; Plus (Chr sp);
       Opt (Seq [Opt (Cat (Str "type") (Plus (Chr sp)));
                 Alts [Seq [Chr (oneof "{"); Plus (Chr (compl (oneof "}")));
                            Chr (oneof "}")];
                       Seq [Chr (oneof "*"); Plus (Chr sp); Str "as";
                            Plus (Chr sp); Plus (Chr w)];
                       Plus (Chr w)];
                 Plus (Chr sp); Str "from"; Plus (Chr sp)]);
       Chr quote; Group "1" (Plus (Chr (compl quote))); Chr quote].

(** [(?:<[^>]+>)?] *)
Definition GENERICS : re :=
  Opt (Seq [Chr (oneof "<"); Plus (Chr (compl (oneof ">"))); Chr (oneof ">")]).

(** [(?P<export>export\s+)?] *)
Definition EXPORT : re := Opt (Group "export" (Cat (Str "export") (Plus (Chr sp)))).

(** [[\w<>,.]+] *)
Definition BASE_CHARS : re := Plus (Chr (union w (oneof "<>,."))).

Definition CLASS_PATTERN : re :=
  Seq [Group "decorators"
         (Star (Seq [Chr (oneof "@"); Plus (Chr w);
                     Opt (Seq [Chr (oneof "(");
                               Star (Chr (compl (oneof ")")));
                               Chr (oneof ")")]);
                     Star (Chr sp)]));
       EXPORT;
       Opt (Group "abstract" (Cat (Str "abstract") (Plus (Chr sp))));
       Str "class"; Plus (Chr sp);
       Group "name" (Plus (Chr w));
       GENERICS;
       Opt (Seq [Plus (Chr sp); Str "extends"; Plus (Chr sp);
                 Group "extends" BASE_CHARS]);
       Opt (Seq [Plus (Chr sp); Str "implements"; Plus (Chr sp);
                 Group "implements" BASE_CHARS]);
       Star (Chr sp); Chr (oneof "{")].

Definition INTERFACE_PATTERN : re :=
  Seq [EXPORT;
       Str "interface"; Plus (Chr sp);
       Group "name" (Plus (Chr w));
       GENERICS;
       Opt (Seq [Plus (Chr sp); Str "extends"; Plus (Chr sp);
                 Group "extends" BASE_CHARS]);
       Star (Chr sp); Chr (oneof "{")].

Definition TYPE_ALIAS_PATTERN : re :=
  Seq [EXPORT;
       Str "type"; Plus (Chr sp);
       Group "name" (Plus (Chr w));
       GENERICS;
       Star (Chr sp); Chr (oneof "=")].

Definition ENUM_PATTERN : re :=
  Seq [EXPORT;
       Opt (Cat (Str "const") (Plus (Chr sp)));
       Str "enum"; Plus (Chr sp);
       Group "name" (Plus (Chr w));
       Star (Chr sp); Chr (oneof "{")].

Definition FUNCTION_PATTERN : re :=
  Seq [EXPORT;
       Opt (Group "default" (Cat (Str "default") (Plus (Chr sp))));
       Opt (Group "async" (Cat (Str "async") (Plus (Chr sp))));
       Str "function"; Plus (Chr sp);
       Group "name" (Plus (Chr w));
       GENERICS;
       Star (Chr sp); Chr (oneof "(")].

Definition ARROW_FUNCTION_PATTERN : re :=
  Seq [EXPORT;
       Alt (Str "const") (Str "let"); Plus (Chr sp);
       Group "name" (Plus (Chr w));
       Opt (Seq [Chr (oneof ":"); Star (Chr sp);
                 Plus (Chr (union w (union sp (oneof "<>|(),=[]"))))]);
       Star (Chr sp); Chr (oneof "="); Star (Chr sp);
       Opt (Group "async" (Cat (Str "async") (Plus (Chr sp))));
       Alt (Seq [Chr (oneof "("); Star (Chr (compl (oneof ")")));
                 Chr (oneof ")")])
           (Plus (Chr w));
       Star (Chr sp);
       Opt (Seq [Chr (oneof ":"); Star (Chr sp);
                 Plus (Chr (union w (union sp (oneof "<>|"))))]);
       Star (Chr sp); Str "=>"].

Definition REACT_FC_PATTERN : re :=
  Seq [EXPORT;
       Alt (Str "const") (Str "let"); Plus (Chr sp);
       Group "name" (Plus (Chr w));
       Star (Chr sp); Chr (oneof ":"); Star (Chr sp);
       Opt (Str "React.");
       Alts [Str "FC"; Str "FunctionComponent"; Str "VFC"];
       GENERICS].

Definition METHOD_PATTERN : re :=
  Seq [Star (Group "modifier"
               (Alts [Str "public"; Str "private"; Str "protected";
                      Str "static"; Str "async"; Chr sp]));
       Group "name" (Plus (Chr w));
       GENERICS;
       Star (Chr sp);
       Chr (oneof "("); Star (Chr (compl (oneof ")"))); Chr (oneof ")");
       Opt (Seq [Star (Chr sp); Chr (oneof ":"); Star (Chr sp);
                 Plus (Chr (union w (union sp (oneof "<>|[]"))))]);
       Star (Chr sp); Chr (oneof "{")].

(** [//.*$] under MULTILINE *)
Definition LINE_COMMENT : re := Seq [Str "//"; Star (Chr dot); Eol].

(** A block comment: slash, star, the shortest run of any characters,
    star, slash (DOTALL). *)
Definition BLOCK_COMMENT : re := Seq [Str "/*"; LazyStar (Chr any); Str "*/"].

(** [@(\w+)] *)
Definition DECORATOR_NAME : re :=
  Cat (Chr (oneof "@")) (Group "1" (Plus (Chr w))).

(** The two patterns that [is_react_component] builds from [name]. *)
Definition JSX_RETURN_PAREN (name : text) : re :=
  Seq [Str_chars name; Star (Chr (compl (oneof "{"))); Chr (oneof "{");
       Star (Chr (compl (oneof "}"))); Str "return"; Star (Chr sp);
       Chr (oneof "("); Star (Chr (compl (oneof ")"))); Chr (oneof "<")].

Definition JSX_RETURN (name : text) : re :=
  Seq [Str_chars name; Star (Chr (compl (oneof "{"))); Chr (oneof "{");
       Star (Chr (compl (oneof "}"))); Str "return"; Star (Chr sp);
       Chr (oneof "<")].

(** *** Functions *)

Fixpoint should_exclude (parts : Path) (excludes : list text) : bool :=
  match parts with
  | [] => false
  | part :: parts' =>
      if mem part excludes || startswith part (lit ".") then true
      else should_exclude parts' excludes
  end.

Definition extract_decorators (decorator_str : text) : list text :=
  match decorator_str with
  | [] => []
  | _ => List.map (fun m => group_or_empty m "1")
           (finditer DECORATOR_NAME decorator_str)
  end.

(** The [while i < len(content)] loop of [find_block_end]. *)
Fixpoint find_block_end_loop (fuel : nat) (content : text) (depth i : Z)
  : M Z :=
  if (i <? len content)%Z then
    match fuel with
    | O => None
    | S fuel' =>
        match getitem content i with
        | Raise e => Some (Raise e)
        | Ret c =>
            if (c =? LBRACE)%N then
              find_block_end_loop fuel' content (depth + 1) (i + 1)
            else if (c =? RBRACE)%N then
              let depth := (depth - 1)%Z in
              if (depth =? 0)%Z then Some (Ret i)
              else find_block_end_loop fuel' content depth (i + 1)
            else find_block_end_loop fuel' content depth (i + 1)
        end
    end
  else Some (Ret (len content)).

(** [find_block_end(content, start)] *)
Definition find_block_end (content : text) (start : Z) : M Z :=
  find_block_end_loop (Z.to_nat (len content - start)) content 0 start.

(** [is_react_component(name, content)] *)
Definition is_react_component (name content : text) : py_result bool :=
  match name with
  | [] => Raise IndexError
  | c :: _ =>
      if negb (isupper c) then Ret false
      else
        match search (JSX_RETURN_PAREN name) content with
        | Some _ => Ret true
        | None =>
            match search (JSX_RETURN name) content with
            | Some _ => Ret true
            | None => Ret false
            end
        end
  end.

(** [s.split('<')[0].strip()] *)
Definition before_generics (s : text) : text :=
  strip (hd [] (split 60%N s)).

(** The [bases] list of [parse_class]. *)
Definition class_bases (m : Match) : list text :=
  (match group m "extends" with
   | None | Some [] => []
   | Some e => [before_generics e]
   end)
  ++ (match group m "implements" with
      | None | Some [] => []
      | Some i =>
          filter_map
            (fun impl =>
               match before_generics impl with
               | [] => None
               | impl => Some impl
               end)
            (split 44%N i)
      end).

Definition LIFECYCLE : list text :=
  List.map lit ["constructor"; "ngOnInit"; "ngOnDestroy"; "componentDidMount";
                "componentWillUnmount"; "render"; "get"; "set"]%string.

(** One turn of the loop over [METHOD_PATTERN.finditer(class_body)]:
    [None] is [continue]. *)
Definition method_member (depth : text) (m : Match) : option MemberInfo :=
  let method_name := group_or_empty m "name" in
  let modifiers := group_or_empty m "modifier" in
  if negb (text_eqb depth (lit "full")) && contains modifiers (lit "private")
  then None
  else if mem method_name LIFECYCLE then None
  else Some {| m_name := method_name ++ lit "()";
               m_kind := lit "method";
               m_is_async := contains modifiers (lit "async") |}.

(** The members found in a class body. *)
Definition body_members (depth class_body : text) : list MemberInfo :=
  filter_map (method_member depth) (finditer METHOD_PATTERN class_body).

Definition truthy (o : option text) : bool :=
  match o with
  | None | Some [] => false
  | Some _ => true
  end.

(** [parse_class(match, content, depth)] *)
Definition parse_class (m : Match) (content depth : text) : M TypeInfo :=
  let decorators := extract_decorators (group_or_empty m "decorators") in
  let is_exported := truthy (group m "export") in
  let name := group_or_empty m "name" in
  let bases := class_bases m in
  let kind :=
    if mem (lit "Component") decorators then lit "component"
    else if mem (lit "Injectable") decorators then lit "service"
    else lit "class" in
  members <-
    (if negb (text_eqb depth (lit "classes")) then
       let class_start := m_end m in
       class_end <- find_block_end content (Z.of_nat (m_start m));;
       let class_body := slice content class_start (Z.to_nat class_end) in
       ret (body_members depth class_body)
     else ret []);;
  ret {| t_name := name; t_kind := kind; t_bases := bases;
         t_members := members; t_decorators := decorators;
         t_is_exported := is_exported |}.

(** A type without members, as the loops of [parse_file] build them. *)
Definition plain_type (name kind : text) (bases : list text) (exported : bool)
  : TypeInfo :=
  {| t_name := name; t_kind := kind; t_bases := bases; t_members := [];
     t_decorators := []; t_is_exported := exported |}.

Definition function_type (content : text) (m : Match) : M TypeInfo :=
  let name := group_or_empty m "name" in
  match is_react_component name content with
  | Raise e => raise e
  | Ret b =>
      ret (plain_type name (if b then lit "component" else lit "function")
             [] (truthy (group m "export")))
  end.

(** The loop over [ARROW_FUNCTION_PATTERN.finditer], which looks at the
    types collected so far. *)
Fixpoint arrow_types (content : text) (ms : list Match) (types : list TypeInfo)
  : M (list TypeInfo) :=
  match ms with
  | [] => ret types
  | m :: ms' =>
      if negb (truthy (group m "export")) then arrow_types content ms' types
      else
        let name := group_or_empty m "name" in
        match is_react_component name content with
        | Raise e => raise e
        | Ret b =>
            if existsb (fun t => text_eqb (t_name t) name) types
            then arrow_types content ms' types
            else arrow_types content ms'
                   (types ++ [plain_type name
                                (if b then lit "component" else lit "function")
                                [] true])
        end
  end.

(** [parse_file] once [content] has been read. *)
Definition parse_content (filepath : Path) (content depth : text) : M FileInfo :=
  let content_no_comments := sub_empty LINE_COMMENT content in
  let content_no_comments := sub_empty BLOCK_COMMENT content_no_comments in
  let imports :=
    List.map (fun m => group_or_empty m "1") (finditer IMPORT_PATTERN content) in
  classes <- mapM (fun m => parse_class m content_no_comments depth)
               (finditer CLASS_PATTERN content_no_comments);;
  let interfaces :=
    List.map
      (fun m => plain_type (group_or_empty m "name") (lit "interface")
                  (match group m "extends" with
                   | None | Some [] => []
                   | Some e => [e]
                   end)
                  (truthy (group m "export")))
      (finditer INTERFACE_PATTERN content_no_comments) in
  let aliases :=
    List.map
      (fun m => plain_type (group_or_empty m "name") (lit "type") []
                  (truthy (group m "export")))
      (finditer TYPE_ALIAS_PATTERN content_no_comments) in
  let enums :=
    List.map
      (fun m => plain_type (group_or_empty m "name") (lit "enum") []
                  (truthy (group m "export")))
      (finditer ENUM_PATTERN content_no_comments) in
  functions <- mapM (function_type content_no_comments)
                 (finditer FUNCTION_PATTERN content_no_comments);;
  let components :=
    List.map
      (fun m => plain_type (group_or_empty m "name") (lit "component")
                  [lit "FC"] (truthy (group m "export")))
      (finditer REACT_FC_PATTERN content_no_comments) in
  types <- arrow_types content_no_comments
             (finditer ARROW_FUNCTION_PATTERN content_no_comments)
             (classes ++ interfaces ++ aliases ++ enums ++ functions
              ++ components);;
  ret {| f_path := path_str filepath; f_types := types; f_imports := imports |}.

(** [parse_file(filepath, depth)]: the result and the lines written to the
    diagnostic stream. *)
Definition parse_file (filepath : Path) (reads : nat -> read_outcome)
  (depth : text) : M (option FileInfo * list text) :=
  match read_text decode_utf8 (reads 0%nat) with
  | Ret content =>
      fi <- parse_content filepath content depth;;
      ret (Some fi, [])
  | Raise UnicodeDecodeError =>
      ret (None, [lit "Warning: Skipping non-UTF8 file: " ++ path_str filepath])
  | Raise e => raise e
  end.

(** The inner loop of [detect_frameworks], with its [break]. *)
Fixpoint detect_one (all_imports : list text) (imp name : text)
  (detected : list text) : list text :=
  match all_imports with
  | [] => detected
  | i :: rest =>
      if text_eqb i imp || startswith i (imp ++ lit "/")
         || startswith i (imp ++ lit "-")
      then if mem name detected then detected else detected ++ [name]
      else detect_one rest imp name detected
  end.

Definition detect_frameworks_in (table : list (text * text))
  (all_imports : list text) : list text :=
  fold_left (fun detected kv => detect_one all_imports (fst kv) (snd kv) detected)
            table [].

(** [detect_frameworks(all_imports)] *)
Definition detect_frameworks (all_imports : list text) : list text :=
  detect_frameworks_in FRAMEWORK_INDICATORS all_imports.

Definition ARROW : text := [226; 8224; 8217; 32]%N.

(** [format_type(t)] *)
Definition format_type (t : TypeInfo) : text :=
  let part0 := lit "`" ++ t_name t ++ lit "`" in
  let kind_part :=
    if negb (mem (t_kind t) [lit "class"; lit "function"])
    then [lit "(" ++ t_kind t ++ lit ")"] else [] in
  let bases_part :=
    match t_bases t with
    | [] => []
    | _ =>
        [lit ": " ++ join (lit ", ") (firstn 2 (t_bases t))
         ++ (if (2 <? List.length (t_bases t))%nat
             then lit " (+" ++ str_nat (List.length (t_bases t) - 2) ++ lit ")"
             else [])]
    end in
  let decorator_part :=
    match t_decorators t with
    | [] => []
    | _ => [lit "[@" ++ join (lit ", ") (firstn 2 (t_decorators t)) ++ lit "]"]
    end in
  let methods :=
    List.map m_name
      (filter (fun m => text_eqb (m_kind m) (lit "method")) (t_members t)) in
  let method_part :=
    match methods with
    | [] => []
    | _ =>
        [ARROW ++ join (lit ", ") (firstn 4 methods)
         ++ (if (4 <? List.length methods)%nat
             then lit " (+" ++ str_nat (List.length methods - 4) ++ lit ")"
             else [])]
    end in
  join (lit " ") ([part0] ++ kind_part ++ bases_part ++ decorator_part
                  ++ method_part).

(** [str(rel_path.parent) if rel_path.parent != Path('.') else ''] *)
Definition dir_name_of (rel_path : Path) : text :=
  match path_parent rel_path with
  | [] => []
  | parent => path_str parent
  end.

(** The directory key of every file, the first loop of [format_output]. *)
Fixpoint group_by_dir (root : Path) (files : list FileInfo)
  (dir_files : list (text * list FileInfo))
  : py_result (list (text * list FileInfo)) :=
  match files with
  | [] => Ret dir_files
  | f :: files' =>
      match relative_to (path_of_str (f_path f)) root with
      | Raise e => Raise e
      | Ret rel_path =>
          group_by_dir root files' (dict_append dir_files (dir_name_of rel_path) f)
      end
  end.

(** The lines of one file of [format_output]. *)
Definition format_file (root : Path) (indent : text) (f : FileInfo)
  : py_result (list text) :=
  match relative_to (path_of_str (f_path f)) root with
  | Raise e => Raise e
  | Ret rel_path =>
      let filename := path_name rel_path in
      if mem filename [lit "index.ts"; lit "index.tsx"; lit "index.js"]
         && match f_types f with [] => true | _ => false end
      then Ret []
      else
        let exported_types := filter t_is_exported (f_types f) in
        match exported_types with
        | [] => Ret []
        | _ =>
            Ret ((indent ++ lit "- `" ++ filename ++ lit "`:")
                 :: List.map (fun t => indent ++ lit "  - " ++ format_type t)
                      exported_types)
        end
  end.

Fixpoint format_files (root : Path) (indent : text) (fs : list FileInfo)
  : py_result (list text) :=
  match fs with
  | [] => Ret []
  | f :: fs' =>
      match format_file root indent f with
      | Raise e => Raise e
      | Ret ls =>
          match format_files root indent fs' with
          | Raise e => Raise e
          | Ret ls' => Ret (ls ++ ls')
          end
      end
  end.

Fixpoint format_groups (root : Path) (groups : list (text * list FileInfo))
  : py_result (list text) :=
  match groups with
  | [] => Ret []
  | (dir_name, dir_file_list) :: groups' =>
      let header :=
        match dir_name with
        | [] => []
        | _ => [lit "- `" ++ dir_name ++ lit "/`"]
        end in
      let indent :=
        match dir_name with
        | [] => []
        | _ => lit "  "
        end in
      match format_files root indent (sorted_by f_path dir_file_list) with
      | Raise e => Raise e
      | Ret ls =>
          match format_groups root groups' with
          | Raise e => Raise e
          | Ret ls' => Ret (header ++ ls ++ ls')
          end
      end
  end.

(** [format_output(files, root, frameworks)] *)
Definition format_output (files : list FileInfo) (root : Path)
  (frameworks : list text) : py_result text :=
  let head := [lit "### TypeScript: " ++ path_name root ++ lit "/"] in
  let fw :=
    match frameworks with
    | [] => []
    | _ => [lit "**Frameworks detected:** " ++ join (lit ", ") frameworks; []]
    end in
  match group_by_dir root files [] with
  | Raise e => Raise e
  | Ret dir_files =>
      match format_groups root (sorted_by fst dir_files) with
      | Raise e => Raise e
      | Ret ls => Ret (join [NEWLINE] (head ++ fw ++ ls))
      end
  end.

(** The variables of the loop of [main]; [parsed] records the files handed
    to [parse_file]. *)
Record walk_state : Type := {
  files : list FileInfo;
  all_imports : list text;
  file_count : nat;
  type_count : nat;
  stderr : list text;
  parsed : list Path
}.

Definition walk_init : walk_state :=
  {| files := []; all_imports := []; file_count := 0; type_count := 0;
     stderr := []; parsed := [] |}.

(** One turn of [for ts_file in root.rglob(pattern)]. *)
Definition walk_step (root : Path) (excludes : list text) (depth : text)
  (st : walk_state) (e : entry) : option (exn * list text + walk_state) :=
  let ts_file := root ++ e_rel e in
  if endswith (path_name ts_file) (lit ".d.ts") then Some (inr st)
  else
    match relative_to ts_file root with
    | Raise x => Some (inl (x, stderr st))
    | Ret rel_path =>
        if should_exclude rel_path excludes then Some (inr st)
        else
          match parse_file ts_file (e_reads e) depth with
          | None => None
          | Some (Raise x) => Some (inl (x, stderr st))
          | Some (Ret (None, warnings)) =>
              Some (inr {| files := files st; all_imports := all_imports st;
                           file_count := file_count st;
                           type_count := type_count st;
                           stderr := stderr st ++ warnings;
                           parsed := parsed st ++ [ts_file] |})
          | Some (Ret (Some file_info, warnings)) =>
              Some (inr {| files := files st ++ [file_info];
                           all_imports := set_update (all_imports st)
                                            (f_imports file_info);
                           file_count := file_count st + 1;
                           type_count := type_count st
                                         + List.length (f_types file_info);
                           stderr := stderr st ++ warnings;
                           parsed := parsed st ++ [ts_file] |})
          end
    end.

Fixpoint walk (root : Path) (excludes : list text) (depth : text)
  (es : list entry) (st : walk_state) : option (exn * list text + walk_state) :=
  match es with
  | [] => Some (inr st)
  | e :: es' =>
      match walk_step root excludes depth st e with
      | Some (inr st') => walk root excludes depth es' st'
      | other => other
      end
  end.

(** [excludes] as [main] builds it. *)
Definition excludes_of (a : args) : list text :=
  match a_exclude a with
  | [] => DEFAULT_EXCLUDES
  | x => set_update DEFAULT_EXCLUDES (split 44%N x)
  end.

(** The files of the two nested loops of [main], in the order of the
    visits. *)
Definition candidates (t : tree) : list entry :=
  flat_map (fun pattern => rglob t pattern)
    [lit ".ts"; lit ".tsx"; lit ".js"; lit ".jsx"].

(** The second line printed after the output file was written. *)
Definition summary_line (st : walk_state) : text :=
  lit "Files: " ++ str_nat (file_count st)
  ++ lit ", Exports: " ++ str_nat (type_count st).

Definition stats_line (st : walk_state) : text :=
  [NEWLINE] ++ lit "<!-- TypeScript: " ++ str_nat (file_count st)
  ++ lit " files, " ++ str_nat (type_count st) ++ lit " exports -->"
  ++ [NEWLINE].

(** [main()]; the payload is [output + stats]. *)
Definition main (a : args) (t : tree) : run :=
  let root := a_root a in
  if negb (root_exists t) then
    SysExit 1 [lit "Error: Root directory does not exist: " ++ path_str root]
  else
    match walk root (excludes_of a) (a_depth a) (candidates t) walk_init with
    | None => OutOfFuel
    | Some (inl (x, err)) => Uncaught x err
    | Some (inr st) =>
        let frameworks := detect_frameworks (all_imports st) in
        match format_output (files st) root frameworks with
        | Raise x => Uncaught x (stderr st)
        | Ret output =>
            let stats := stats_line st in
            match a_output a with
            | Some output_path =>
                match a_write a with
                | WriteFails x => Uncaught x (stderr st)
                | WriteDone =>
                    Written output_path (output ++ stats)
                      [lit "Output written to " ++ path_str output_path;
                       summary_line st] (stderr st)
                end
            | None => Completed (output ++ stats) (stderr st)
            end
        end
    end.

End TypeScript.

(** ** [map_python.py] *)

Module Python.
Local Open Scope py_scope.

(** *** The part of [ast] that the mapper looks at

    Expression nodes other than names, attributes and calls, and statement
    nodes other than the five below, are [OtherExpr] and [OtherStmt]; an
    [OtherStmt] carries the statements nested in it, in the order of
    [ast.iter_child_nodes]. *)

Inductive expr : Type :=
| Name (id : text)
| Attribute (value : expr) (attr : text)
| Call (func : expr)
| OtherExpr.

#[local] Set Warnings "-register-all".

Inductive stmt : Type :=
| ClassDef (name : text) (bases : list expr) (body : list stmt)
    (decorator_list : list expr)
| FunctionDef (name : text) (body : list stmt) (decorator_list : list expr)
    (col_offset : Z)
| AsyncFunctionDef (name : text) (body : list stmt)
    (decorator_list : list expr) (col_offset : Z)
| Import (names : list text)
| ImportFrom (module : option text)
| OtherStmt (children : list stmt).

(** The statements among [ast.iter_child_nodes(node)]. *)
Definition child_stmts (s : stmt) : list stmt :=
  match s with
  | ClassDef _ _ body _ => body
  | FunctionDef _ body _ _ => body
  | AsyncFunctionDef _ body _ _ => body
  | Import _ => []
  | ImportFrom _ => []
  | OtherStmt children => children
  end.

Fixpoint stmt_size (s : stmt) : nat :=
  let sizes :=
    fix sizes (l : list stmt) : nat :=
      match l with
      | [] => 0
      | x :: l' => stmt_size x + sizes l'
      end in
  match s with
  | ClassDef _ _ body _ => S (sizes body)
  | FunctionDef _ body _ _ => S (sizes body)
  | AsyncFunctionDef _ body _ _ => S (sizes body)
  | Import _ => 1
  | ImportFrom _ => 1
  | OtherStmt children => S (sizes children)
  end.

Fixpoint total_size (l : list stmt) : nat :=
  match l with
  | [] => 0
  | x :: l' => stmt_size x + total_size l'
  end.

(** The queue of [ast.walk]: take the first node, put its children at the
    end, yield it. *)
Fixpoint walk_queue (fuel : nat) (todo : list stmt) : list stmt :=
  match fuel with
  | O => []
  | S fuel' =>
      match todo with
      | [] => []
      | node :: rest => node :: walk_queue fuel' (rest ++ child_stmts node)
      end
  end.

(** The statements that [ast.walk(tree)] yields, in order, for a module
    with the given body. *)
Definition ast_walk (tree : list stmt) : list stmt :=
  walk_queue (total_size tree) tree.

Record ClassInfo : Type := {
  c_name : text;
  c_bases : list text;
  c_methods : list text;
  c_decorators : list text;
  c_properties : list text;
  c_is_dataclass : bool
}.

Record ModuleInfo : Type := {
  mod_path : text;
  mod_classes : list ClassInfo;
  mod_functions : list text;
  mod_imports : list text
}.

Definition DEFAULT_EXCLUDES : list text :=
  List.map lit ["__pycache__"; ".git"; "venv"; ".venv"; "env"; ".env";
                "node_modules"; "build"; "dist"; ".tox"; ".pytest_cache";
                ".mypy_cache"; "eggs"; "*.egg-info"; ".eggs"]%string.

Definition FRAMEWORK_INDICATORS : list (text * text) :=
  List.map (fun kv => (lit (fst kv), lit (snd kv)))
    [("fastapi", "FastAPI");
     ("flask", "Flask");
     ("django", "Django");
     ("sqlalchemy", "SQLAlchemy");
     ("pydantic", "Pydantic");
     ("pytest", "pytest");
     ("celery", "Celery");
     ("httpx", "httpx");
     ("aiohttp", "aiohttp")]%string.

Fixpoint should_exclude (parts : Path) (excludes : list text) : bool :=
  match parts with
  | [] => false
  | part :: parts' =>
      if mem part excludes || startswith part (lit ".") then true
      else should_exclude parts' excludes
  end.

(** The [while isinstance(node, ast.Attribute)] loop of
    [extract_decorator_name]: the attributes met, and the name below them
    when there is one, outermost first. *)
Fixpoint attribute_parts (node : expr) : list text :=
  match node with
  | Attribute value attr => attr :: attribute_parts value
  | Name id => [id]
  | _ => []
  end.

(** [extract_decorator_name(decorator)] *)
Fixpoint extract_decorator_name (decorator : expr) : text :=
  match decorator with
  | Name id => id
  | Attribute _ _ => join (lit ".") (rev (attribute_parts decorator))
  | Call func => extract_decorator_name func
  | OtherExpr => lit "?"
  end.

(** One turn of the loop over [node.bases]. *)
Definition base_name (base : expr) : option text :=
  match base with
  | Name id => Some id
  | Attribute _ attr => Some attr
  | _ => None
  end.

(** What one item of a class body adds: [inl] to [methods], [inr] to
    [properties], [None] nothing. *)
Definition class_item (depth : text) (item : stmt) : option (text + text) :=
  let entry (is_async : bool) (name : text) (decorator_list : list expr) :=
    if negb (text_eqb depth (lit "full")) && startswith name (lit "_")
       && negb (startswith name (lit "__"))
    then None
    else if startswith name (lit "__") && negb (text_eqb name (lit "__init__"))
    then None
    else
      let item_decorators := List.map extract_decorator_name decorator_list in
      if mem (lit "property") item_decorators then Some (inr name)
      else Some (inl ((if is_async then lit "async " else []) ++ name
                      ++ lit "()")) in
  match item with
  | FunctionDef name _ decorator_list _ => entry false name decorator_list
  | AsyncFunctionDef name _ decorator_list _ => entry true name decorator_list
  | _ => None
  end.

Definition lefts (l : list (text + text)) : list text :=
  filter_map (fun x => match x with inl a => Some a | inr _ => None end) l.

Definition rights (l : list (text + text)) : list text :=
  filter_map (fun x => match x with inr a => Some a | inl _ => None end) l.

(** [parse_class(node, depth)] for [node = ClassDef name bases body
    decorator_list]. *)
Definition parse_class (name : text) (bases : list expr) (body : list stmt)
  (decorator_list : list expr) (depth : text) : ClassInfo :=
  let decorators := List.map extract_decorator_name decorator_list in
  let items :=
    if negb (text_eqb depth (lit "classes"))
    then filter_map (class_item depth) body
    else [] in
  {| c_name := name;
     c_bases := filter_map base_name bases;
     c_methods := lefts items;
     c_decorators := decorators;
     c_properties := rights items;
     c_is_dataclass := mem (lit "dataclass") decorators |}.

(** [s.split('.')[0]] *)
Definition top_package (s : text) : text := hd [] (split 46%N s).

(** The three lists of the loop over [ast.walk(tree)]. *)
Record collected : Type := {
  classes : list ClassInfo;
  functions : list text;
  imports : list text
}.

Definition visit (depth : text) (acc : collected) (node : stmt) : collected :=
  let top_function (is_async : bool) (name : text) (col_offset : Z) :=
    if (col_offset =? 0)%Z
       && negb (text_eqb depth (lit "classes"))
       && (negb (startswith name (lit "_")) || text_eqb depth (lit "full"))
    then {| classes := classes acc;
            functions := functions acc
                         ++ [(if is_async then lit "async " else []) ++ name
                             ++ lit "()"];
            imports := imports acc |}
    else acc in
  match node with
  | ClassDef name bases body decorator_list =>
      {| classes := classes acc
                    ++ [parse_class name bases body decorator_list depth];
         functions := functions acc;
         imports := imports acc |}
  | FunctionDef name _ _ col_offset => top_function false name col_offset
  | AsyncFunctionDef name _ _ col_offset => top_function true name col_offset
  | Import names =>
      {| classes := classes acc; functions := functions acc;
         imports := imports acc ++ List.map top_package names |}
  | ImportFrom module =>
      match module with
      | None | Some [] => acc
      | Some m =>
          {| classes := classes acc; functions := functions acc;
             imports := imports acc ++ [top_package m] |}
      end
  | OtherStmt _ => acc
  end.

(** What a call of [ast.parse] does: it returns the body of the module; it
    raises [SyntaxError], [e] being [str(e)]; or it raises something else,
    which [parse_module] does not catch ([ValueError] for a text with a null
    byte, [RecursionError] or [MemoryError] for a text nested too deep). *)
Inductive parse_outcome : Type :=
| Parsed (tree : list stmt)
| Refused (e : text)
| Aborted (x : exn).

(** [ast.parse(content, filename=filename)] *)
Definition parser : Type := text -> text -> parse_outcome.

Section WithParser.

Variable ast_parse : parser.

(** [parse_module(filepath, depth)]: the result and the lines written to the
    diagnostic stream. *)
Definition parse_module (filepath : Path) (reads : nat -> read_outcome)
  (depth : text) : py_result (option ModuleInfo * list text) :=
  match read_text decode_utf8 (reads 0%nat) with
  | Raise UnicodeDecodeError =>
      Ret (None, [lit "Warning: Skipping non-UTF8 file: " ++ path_str filepath])
  | Raise e => Raise e
  | Ret content =>
      match ast_parse content (path_str filepath) with
      | Aborted x => Raise x
      | Refused e =>
          Ret (None, [lit "Warning: Syntax error in " ++ path_str filepath
                      ++ lit ": " ++ e])
      | Parsed tree =>
          let acc :=
            fold_left (visit depth) (ast_walk tree)
              {| classes := []; functions := []; imports := [] |} in
          Ret (Some {| mod_path := path_str filepath;
                       mod_classes := classes acc;
                       mod_functions := functions acc;
                       mod_imports := set_update [] (imports acc) |}, [])
      end
  end.

(** The variables of the loop of [main]; [parsed] records the files handed
    to [parse_module]. *)
Record walk_state : Type := {
  modules : list (text * list ModuleInfo);
  all_imports : list text;
  file_count : nat;
  class_count : nat;
  method_count : nat;
  stderr : list text;
  parsed : list Path
}.

Definition walk_init : walk_state :=
  {| modules := []; all_imports := []; file_count := 0; class_count := 0;
     method_count := 0; stderr := []; parsed := [] |}.

(** One turn of [for py_file in root.rglob('*.py')]. *)
Definition walk_step (root : Path) (excludes : list text) (depth : text)
  (st : walk_state) (e : entry) : exn * list text + walk_state :=
  let py_file := root ++ e_rel e in
  match relative_to py_file root with
  | Raise x => inl (x, stderr st)
  | Ret rel_path =>
      if should_exclude rel_path excludes then inr st
      else
        match parse_module py_file (e_reads e) depth with
        | Raise x => inl (x, stderr st)
        | Ret (None, warnings) =>
            inr {| modules := modules st; all_imports := all_imports st;
                   file_count := file_count st;
                   class_count := class_count st;
                   method_count := method_count st;
                   stderr := stderr st ++ warnings;
                   parsed := parsed st ++ [py_file] |}
        | Ret (Some module, warnings) =>
            inr {| modules := dict_append (modules st)
                                (path_str (path_parent py_file)) module;
                   all_imports := set_update (all_imports st)
                                    (mod_imports module);
                   file_count := file_count st + 1;
                   class_count := class_count st
                                  + List.length (mod_classes module);
                   method_count :=
                     fold_left (fun n cls => n + List.length (c_methods cls))
                       (mod_classes module) (method_count st);
                   stderr := stderr st ++ warnings;
                   parsed := parsed st ++ [py_file] |}
        end
  end.

Fixpoint walk (root : Path) (excludes : list text) (depth : text)
  (es : list entry) (st : walk_state) : exn * list text + walk_state :=
  match es with
  | [] => inr st
  | e :: es' =>
      match walk_step root excludes depth st e with
      | inr st' => walk root excludes depth es' st'
      | inl x => inl x
      end
  end.

End WithParser.

(** [detect_frameworks(all_imports)], over a table given as argument. *)
Definition detect_frameworks_in (table : list (text * text))
  (all_imports : list text) : list text :=
  fold_left
    (fun detected kv =>
       if mem (fst kv) all_imports then detected ++ [snd kv] else detected)
    table [].

Definition detect_frameworks (all_imports : list text) : list text :=
  detect_frameworks_in FRAMEWORK_INDICATORS all_imports.

Definition ARROW : text := [8594; 32]%N.

(** [format_class(cls)] *)
Definition format_class (cls : ClassInfo) : text :=
  let part0 :=
    lit "`" ++ c_name cls
    ++ (match c_bases cls with
        | [] => []
        | _ => lit "(" ++ join (lit ", ") (c_bases cls) ++ lit ")"
        end)
    ++ lit "`" in
  let dataclass_part := if c_is_dataclass cls then [lit "[dataclass]"] else [] in
  let method_part :=
    match c_methods cls with
    | [] => []
    | _ =>
        [ARROW ++ join (lit ", ") (firstn 5 (c_methods cls))]
        ++ (if (5 <? List.length (c_methods cls))%nat
            then [lit "(+" ++ str_nat (List.length (c_methods cls) - 5)
                  ++ lit " more)"]
            else [])
    end in
  join (lit " ") ([part0] ++ dataclass_part ++ method_part).

(** [str(rel_path.parent) if rel_path.parent != Path('.') else ''] *)
Definition dir_name_of (rel_path : Path) : text :=
  match path_parent rel_path with
  | [] => []
  | parent => path_str parent
  end.

(** The first loop of [format_output], over every module of every key. *)
Fixpoint group_by_dir (root : Path) (mods : list ModuleInfo)
  (dir_modules : list (text * list ModuleInfo))
  : py_result (list (text * list ModuleInfo)) :=
  match mods with
  | [] => Ret dir_modules
  | m :: mods' =>
      match relative_to (path_of_str (mod_path m)) root with
      | Raise e => Raise e
      | Ret rel_path =>
          group_by_dir root mods'
            (dict_append dir_modules (dir_name_of rel_path) m)
      end
  end.

(** The lines of one module of [format_output]. *)
Definition format_module (root : Path) (indent : text) (m : ModuleInfo)
  : py_result (list text) :=
  match relative_to (path_of_str (mod_path m)) root with
  | Raise e => Raise e
  | Ret rel_path =>
      let filename := path_name rel_path in
      match text_eqb filename (lit "__init__.py"), mod_classes m,
            mod_functions m with
      | true, [], [] => Ret []
      | _, _, _ =>
          let mod_parts :=
            [indent ++ lit "- `" ++ filename ++ lit "`:"]
            ++ List.map (fun cls => indent ++ lit "  - " ++ format_class cls)
                 (mod_classes m)
            ++ (match mod_functions m with
                | [] => []
                | _ =>
                    [indent ++ lit "  - Functions: "
                     ++ join (lit ", ") (firstn 5 (mod_functions m))
                     ++ (if (5 <? List.length (mod_functions m))%nat
                         then lit " (+"
                              ++ str_nat (List.length (mod_functions m) - 5)
                              ++ lit " more)"
                         else [])]
                end) in
          if (1 <? List.length mod_parts)%nat then Ret mod_parts else Ret []
      end
  end.

Fixpoint format_modules (root : Path) (indent : text) (mods : list ModuleInfo)
  : py_result (list text) :=
  match mods with
  | [] => Ret []
  | m :: mods' =>
      match format_module root indent m with
      | Raise e => Raise e
      | Ret ls =>
          match format_modules root indent mods' with
          | Raise e => Raise e
          | Ret ls' => Ret (ls ++ ls')
          end
      end
  end.

Fixpoint format_groups (root : Path) (groups : list (text * list ModuleInfo))
  : py_result (list text) :=
  match groups with
  | [] => Ret []
  | (dir_name, mods) :: groups' =>
      let header :=
        match dir_name with
        | [] => []
        | _ => [lit "- `" ++ dir_name ++ lit "/`"]
        end in
      let indent :=
        match dir_name with
        | [] => []
        | _ => lit "  "
        end in
      match format_modules root indent (sorted_by mod_path mods) with
      | Raise e => Raise e
      | Ret ls =>
          match format_groups root groups' with
          | Raise e => Raise e
          | Ret ls' => Ret (header ++ ls ++ ls')
          end
      end
  end.

(** [format_output(modules, root, frameworks)] *)
Definition format_output (modules : list (text * list ModuleInfo))
  (root : Path) (frameworks : list text) : py_result text :=
  let head := [lit "### Python: " ++ path_name root ++ lit "/"] in
  let fw :=
    match frameworks with
    | [] => []
    | _ => [lit "**Frameworks detected:** " ++ join (lit ", ") frameworks; []]
    end in
  match group_by_dir root (flat_map snd modules) [] with
  | Raise e => Raise e
  | Ret dir_modules =>
      match format_groups root (sorted_by fst dir_modules) with
      | Raise e => Raise e
      | Ret ls => Ret (join [NEWLINE] (head ++ fw ++ ls))
      end
  end.

(** [excludes] as [main] builds it. *)
Definition excludes_of (a : args) : list text :=
  match a_exclude a with
  | [] => DEFAULT_EXCLUDES
  | x => set_update DEFAULT_EXCLUDES (split 44%N x)
  end.

(** The second line printed after the output file was written. *)
Definition summary_line (st : walk_state) : text :=
  lit "Files: " ++ str_nat (file_count st)
  ++ lit ", Classes: " ++ str_nat (class_count st)
  ++ lit ", Methods: " ++ str_nat (method_count st).

Definition stats_line (st : walk_state) : text :=
  [NEWLINE] ++ lit "<!-- Python: " ++ str_nat (file_count st) ++ lit " files, "
  ++ str_nat (class_count st) ++ lit " classes, "
  ++ str_nat (method_count st) ++ lit " methods -->" ++ [NEWLINE].

(** [main()]; the payload is [output + stats]. *)
Definition main (ast_parse : parser) (a : args) (t : tree)
  : run :=
  let root := a_root a in
  if negb (root_exists t) then
    SysExit 1 [lit "Error: Root directory does not exist: " ++ path_str root]
  else
    match walk ast_parse root (excludes_of a) (a_depth a) (rglob t (lit ".py"))
            walk_init with
    | inl (x, err) => Uncaught x err
    | inr st =>
        let frameworks := detect_frameworks (all_imports st) in
        match format_output (modules st) root frameworks with
        | Raise x => Uncaught x (stderr st)
        | Ret output =>
            let stats := stats_line st in
            match a_output a with
            | Some output_path =>
                match a_write a with
                | WriteFails x => Uncaught x (stderr st)
                | WriteDone =>
                    Written output_path (output ++ stats)
                      [lit "Output written to " ++ path_str output_path;
                       summary_line st] (stderr st)
                end
            | None => Completed (output ++ stats) (stderr st)
            end
        end
    end.

End Python.

(** ** [update_claude_md.py] *)

Module ClaudeMd.

Definition START_MARKER : text := lit "<!-- CODEBASE-MAP:AUTO-START -->".
Definition END_MARKER : text := lit "<!-- CODEBASE-MAP:AUTO-END -->".
Definition DEFAULT_INSERT_AFTER : text := lit "## Project Context".

(** The scan of [s.find(p)]: the offset of the first place where [p]
    starts, [None] when there is none. *)
Fixpoint find_offset (s p : text) : option nat :=
  if startswith s p then Some 0%nat
  else match s with
       | [] => None
       | _ :: s' => option_map S (find_offset s' p)
       end.

(** [s.find(p)] *)
Definition find (s p : text) : Z :=
  match find_offset s p with
  | Some i => Z.of_nat i
  | None => (-1)%Z
  end.

(** [s.find(p, start)] for [0 <= start]. *)
Definition find_from (s p : text) (start : Z) : Z :=
  if (len s <? start)%Z then (-1)%Z
  else match find_offset (skipn (Z.to_nat start) s) p with
       | Some i => (start + Z.of_nat i)%Z
       | None => (-1)%Z
       end.

(** [s.rstrip()] *)
Definition rstrip (s : text) : text := rev (lstrip (rev s)).

(** A map file given on the command line: its name, whether it exists, and
    what reading it meets. *)
Record map_file : Type := {
  mf_path : text;
  mf_exists : bool;
  mf_read : read_outcome
}.

(** The [for map_file in map_files] loop of [read_maps]: the sections
    collected and the lines written to the diagnostic stream; an exception
    leaves with the lines written so far. *)
Fixpoint read_sections (map_files : list map_file) (sections err : list text)
  : py_result (list text) * list text :=
  match map_files with
  | [] => (Ret sections, err)
  | f :: map_files' =>
      if negb (mf_exists f) then
        read_sections map_files' sections
          (err ++ [lit "Warning: Map file not found: " ++ mf_path f])
      else
        match read_text decode_utf8 (mf_read f) with
        | Raise e => (Raise e, err)
        | Ret content =>
            match strip content with
            | [] => read_sections map_files' sections err
            | content => read_sections map_files' (sections ++ [content]) err
            end
        end
  end.

(** The header of [read_maps]; [timestamp] is what
    [datetime.now().strftime(...)] gives. *)
Definition header (timestamp : text) : text :=
  lit "## Architecture Map" ++ [NEWLINE; NEWLINE]
  ++ lit "*Auto-generated on " ++ timestamp ++ lit "*" ++ [NEWLINE].

(** [read_maps(map_files)] *)
Definition read_maps (timestamp : text) (map_files : list map_file)
  : py_result text * list text :=
  match read_sections map_files [] [] with
  | (Raise e, err) => (Raise e, err)
  | (Ret [], err) => (Ret [], err)
  | (Ret sections, err) =>
      (Ret (header timestamp ++ [NEWLINE; NEWLINE]
            ++ join [NEWLINE; NEWLINE] sections), err)
  end.

(** What a call leaves behind: its return value, the text written to the
    file when it writes, and the lines printed. *)
Record outcome : Type := {
  o_result : bool;
  o_written : option text;
  o_stdout : list text;
  o_stderr : list text
}.

Definition marked_section (map_content : text) : text :=
  [NEWLINE; NEWLINE] ++ START_MARKER ++ [NEWLINE] ++ map_content
  ++ [NEWLINE] ++ END_MARKER ++ [NEWLINE].

(** Where the [else] branch of [update_claude_md] puts the section: [None]
    is the end of the file. *)
Definition section_end (content insert_after : text) : option Z :=
  let insert_pos := find content insert_after in
  if (insert_pos =? -1)%Z then None
  else
    let section_end :=
      find_from content ([NEWLINE] ++ lit "## ")
        (insert_pos + len insert_after) in
    Some (if (section_end =? -1)%Z then len content else section_end).

(** [new_content] of [update_claude_md], and the line it prints. *)
Definition updated (path content map_content insert_after : text)
  : text * text :=
  let start_idx := find content START_MARKER in
  let end_idx := find content END_MARKER in
  if negb (start_idx =? -1)%Z && negb (end_idx =? -1)%Z then
    (firstn (Z.to_nat start_idx) content
     ++ START_MARKER ++ [NEWLINE]
     ++ map_content ++ [NEWLINE]
     ++ skipn (Z.to_nat end_idx) content,
     lit "Updated existing map section in " ++ path)
  else
    match section_end content insert_after with
    | None =>
        (rstrip content ++ marked_section map_content,
         lit "Appended map section to end of " ++ path)
    | Some section_end =>
        (rstrip (firstn (Z.to_nat section_end) content)
         ++ marked_section map_content
         ++ skipn (Z.to_nat section_end) content,
         lit "Inserted map section after '" ++ insert_after ++ lit "' in "
         ++ path)
    end.

(** [update_claude_md(claude_md_path, map_content, insert_after)]; the
    write is taken to succeed. *)
Definition update_claude_md (path : text) (exists_ : bool) (read : read_outcome)
  (map_content insert_after : text) : py_result outcome :=
  if negb exists_ then
    Ret {| o_result := false; o_written := None; o_stdout := [];
           o_stderr := [lit "Error: CLAUDE.md not found: " ++ path] |}
  else
    match read_text decode_utf8 read with
    | Raise e => Raise e
    | Ret content =>
        let (new_content, line) :=
          updated path content map_content insert_after in
        Ret {| o_result := true; o_written := Some new_content;
               o_stdout := [line]; o_stderr := [] |}
    end.

(** [new_content] of [remove_map_section]; [None] when a marker is
    missing. *)
Definition removed (content : text) : option text :=
  let start_idx := find content START_MARKER in
  let end_idx := find content END_MARKER in
  if (start_idx =? -1)%Z || (end_idx =? -1)%Z then None
  else
    let before := rstrip (firstn (Z.to_nat start_idx) content) in
    let after :=
      lstrip (skipn (Z.to_nat (end_idx + len END_MARKER)) content) in
    Some (before ++ [NEWLINE; NEWLINE] ++ after).

(** [remove_map_section(claude_md_path)]; the write is taken to succeed. *)
Definition remove_map_section (path : text) (exists_ : bool)
  (read : read_outcome) : py_result outcome :=
  if negb exists_ then
    Ret {| o_result := false; o_written := None; o_stdout := [];
           o_stderr := [lit "Error: CLAUDE.md not found: " ++ path] |}
  else
    match read_text decode_utf8 read with
    | Raise e => Raise e
    | Ret content =>
        match removed content with
        | None =>
            Ret {| o_result := true; o_written := None;
                   o_stdout := [lit "No map section found to remove"];
                   o_stderr := [] |}
        | Some new_content =>
            Ret {| o_result := true; o_written := Some new_content;
                   o_stdout := [lit "Removed map section from " ++ path];
                   o_stderr := [] |}
        end
    end.

End ClaudeMd.

(** ** Specification vocabulary for the balancer *)

Module Balance.

(** What one character does to the depth counter. *)
Definition brace_delta (c : codepoint) : Z :=
  if (c =? LBRACE)%N then 1%Z else if (c =? RBRACE)%N then (-1)%Z else 0%Z.

(** Sum of [brace_delta] over the [n] characters starting at offset [i]. *)
Fixpoint sum_delta (content : text) (i n : nat) : Z :=
  match n with
  | O => 0%Z
  | S n' =>
      (match nth_error content i with
       | Some c => brace_delta c
       | None => 0
       end + sum_delta content (S i) n')%Z
  end.

(** The depth counter after the characters at offsets [start .. j] have been
    scanned. *)
Definition depth_after (content : text) (start j : nat) : Z :=
  sum_delta content start (S j - start).

(** Offset [j] holds a closing brace that brings the counter back to zero. *)
Definition closes_at (content : text) (start j : nat) : Prop :=
  nth_error content j = Some RBRACE /\ depth_after content start j = 0%Z.

End Balance.

(** ** What a pattern can reach

    A relational reading of [Re.exec], used to show that a named group of a
    pattern holds at least one character in every match. *)

Module ReSpec.
Import Re.

(** Any number of steps of [R]. *)
Inductive star (R : mstate -> mstate -> Prop) : mstate -> mstate -> Prop :=
| star_refl : forall st, star R st st
| star_step : forall st mid st', R st mid -> star R mid st' -> star R st st'.

(** [st'] is a position that [r] can lead to from [st]. *)
Fixpoint Reach (r : re) (st st' : mstate) : Prop :=
  match r with
  | Eps => st' = st
  | Chr p =>
      exists c tl, rest st = c :: tl /\ p c = true /\ st' = advance c tl st
  | Cat a b => exists mid, Reach a st mid /\ Reach b mid st'
  | Alt a b => Reach a st st' \/ Reach b st st'
  | Star a => star (Reach a) st st'
  | LazyStar a => star (Reach a) st st'
  | Group name a =>
      exists s1,
        Reach a st s1
        /\ st' = {| pos := pos s1; prev := prev s1; rest := rest s1;
                    caps := (name, firstn (pos s1 - pos st) (rest st))
                              :: caps s1 |}
  | Bol => st' = st
  | Eol => st' = st
  | WordB => st' = st
  end.

(** [st'] is [st] moved forward over part of the subject. *)
Definition ahead (st st' : mstate) : Prop :=
  exists pre, rest st = pre ++ rest st'
              /\ pos st' = (pos st + List.length pre)%nat.

(** [r] consumes at least one character whenever it matches. *)
Fixpoint advances (r : re) : bool :=
  match r with
  | Chr _ => true
  | Cat a b => advances a || advances b
  | Alt a b => advances a && advances b
  | Group _ a => advances a
  | _ => false
  end.

(** [r] has a group called [n]. *)
Fixpoint mentions (n : string) (r : re) : bool :=
  match r with
  | Cat a b => mentions n a || mentions n b
  | Alt a b => mentions n a || mentions n b
  | Star a => mentions n a
  | LazyStar a => mentions n a
  | Group m a => String.eqb m n || mentions n a
  | _ => false
  end.

(** A sufficient test for: after every match of [r], group [n] is set and
    holds at least one character. *)
Fixpoint sets_nonempty (n : string) (r : re) : bool :=
  match r with
  | Cat a b => sets_nonempty n b || (sets_nonempty n a && negb (mentions n b))
  | Alt a b => sets_nonempty n a && sets_nonempty n b
  | Group m a =>
      if String.eqb m n then advances a && negb (mentions n a)
      else sets_nonempty n a
  | _ => false
  end.

End ReSpec.

(** ** Vocabulary of the statements *)

Module Spec.

(** [l1] is [l2] with some elements left out. *)
Inductive subseq {A : Type} : list A -> list A -> Prop :=
| subseq_nil : subseq [] []
| subseq_skip : forall x l1 l2, subseq l1 l2 -> subseq l1 (x :: l2)
| subseq_take : forall x l1 l2, subseq l1 l2 -> subseq (x :: l1) (x :: l2).

(** The first occurrence of every element, in order. *)
Definition dedup (l : list text) : list text :=
  fold_left (fun acc x => if mem x acc then acc else acc ++ [x]) l [].

(** A path part that [Path(str(p))] gives back: not empty, not ["."],
    without a slash. *)
Definition wf_part (s : text) : bool :=
  negb (text_eqb s []) && negb (text_eqb s [46%N])
  && negb (existsb (N.eqb SLASH) s).

(** A relative path made of such parts. *)
Definition wf_rel (p : Path) : bool := forallb wf_part p.

(** An absolute path made of such parts. *)
Definition wf_abs (p : Path) : bool :=
  match p with
  | r :: parts => text_eqb r [SLASH] && forallb wf_part parts
  | [] => false
  end.




(** How [main()] ends once [payload] is ready: it prints it, or writes it
    to the output file and prints two lines, the second being [summary];
    an exception of the write is not caught. *)
Definition hands_over (a : args) (payload summary : text) (err : list text)
  : run :=
  match a_output a with
  | Some output_path =>
      match a_write a with
      | WriteFails x => Uncaught x err
      | WriteDone =>
          Written output_path payload
            [lit "Output written to " ++ path_str output_path; summary] err
      end
  | None => Completed payload err
  end.

(** The output file, if one is asked for, can be written. *)
Definition can_write (a : args) : Prop :=
  a_output a = None \/ a_write a = WriteDone.

(** The run [r] delivered [payload], on the standard output or in the
    output file, with the diagnostics [err]. *)
Definition delivered (r : run) (payload : text) (err : list text) : Prop :=
  r = Completed payload err
  \/ exists output_path lines, r = Written output_path payload lines err.

Definition cs_member_total (ts : list CSharp.TypeInfo) : nat :=
  fold_left (fun n t => n + List.length (CSharp.t_members t)) ts 0%nat.

Definition ts_member_total (ts : list TypeScript.TypeInfo) : nat :=
  fold_left (fun n t => n + List.length (TypeScript.t_members t)) ts 0%nat.

Definition py_method_total (cs : list Python.ClassInfo) : nat :=
  fold_left (fun n c => n + List.length (Python.c_methods c)) cs 0%nat.

(** The members in the result of a per-file extractor; none when there is
    no file model. *)
Definition cs_extracted (r : M (option CSharp.FileInfo * list text)) : nat :=
  match r with
  | Some (Ret (Some f, _)) => cs_member_total (CSharp.f_types f)
  | _ => 0%nat
  end.

Definition ts_extracted (r : M (option TypeScript.FileInfo * list text)) : nat :=
  match r with
  | Some (Ret (Some f, _)) => ts_member_total (TypeScript.f_types f)
  | _ => 0%nat
  end.

Definition py_extracted (r : py_result (option Python.ModuleInfo * list text))
  : nat :=
  match r with
  | Ret (Some m, _) => py_method_total (Python.mod_classes m)
  | _ => 0%nat
  end.

(** The tree without the entries that an exclusion test rules out. *)
Definition prune (excluded : Path -> bool) (t : tree) : tree :=
  {| root_exists := root_exists t;
     entries := filter (fun e => negb (excluded (e_rel e))) (entries t) |}.

(** A tree whose paths survive [Path(str(p))], under a root that does. *)
Definition wf_tree (root : Path) (t : tree) : Prop :=
  wf_abs root = true /\ Forall (fun e => wf_rel (e_rel e) = true) (entries t).




(** The exclusion rule in the words of the specification: some part is a
    name of the exclusion set, or begins with a dot. *)
Definition excluded_by (excludes : list text) (rel : Path) : bool :=
  existsb (fun part => mem part excludes || startswith part (lit ".")) rel.

(** The hit tests of the three detectors. *)
Definition cs_hit (all_usings : list text) (prefix : text) : bool :=
  existsb (fun u => startswith u prefix) all_usings.

Definition ts_hit (all_imports : list text) (imp : text) : bool :=
  existsb (fun i => text_eqb i imp || startswith i (imp ++ lit "/")
                    || startswith i (imp ++ lit "-")) all_imports.

Definition py_hit (all_imports : list text) (imp : text) : bool :=
  mem imp all_imports.

(** The display names of the entries of a table that are hit. *)
Definition hits (hit : text -> bool) (table : list (text * text)) : list text :=
  List.map snd (filter (fun kv => hit (fst kv)) table).

(** The bytes of a file written with ASCII characters. *)
Definition ascii_bytes (s : string) : bytes := list_byte_of_string s.

(** A file that every read finds with the same bytes. *)
Definition file_with (rel : Path) (bs : bytes) : entry :=
  {| e_rel := rel; e_reads := fun _ => ReadBytes bs |}.


(** A stand-in for [ast.parse] on the sample files: a text that begins with
    ["class"] is a module with one class of two methods, a text that begins
    with a null byte makes it raise [ValueError], any other text is a syntax
    error. *)
Definition sample_parse (content filename : text) : Python.parse_outcome :=
  if startswith content (lit "class")
  then Python.Parsed
         [Python.ClassDef (lit "A") []
            [Python.FunctionDef (lit "f") [] [] 4;
             Python.FunctionDef (lit "_g") [] [] 4] []]
  else if startswith content [0%N] then Python.Aborted ValueError
  else Python.Refused (lit "invalid syntax").

Definition sample_args (root : Path) : args :=
  {| a_root := root; a_output := None; a_write := WriteDone;
     a_depth := lit "methods";
     a_exclude := [] |}.

Definition sample_root : Path := [lit "/"; lit "proj"].

(** Two type lists of one file under two policies: same names, and the
    members of the first within those of the second. *)
Definition ts_within (a b : TypeScript.TypeInfo) : Prop :=
  TypeScript.t_name a = TypeScript.t_name b
  /\ subseq (TypeScript.t_members a) (TypeScript.t_members b).

(** The same, the first having no member at all. *)
Definition ts_bare (a b : TypeScript.TypeInfo) : Prop :=
  TypeScript.t_name a = TypeScript.t_name b /\ TypeScript.t_members a = [].

(** A type without members. *)
Definition ts_plain (t : TypeScript.TypeInfo) : Prop :=
  TypeScript.t_members t = [].

(** Two models of one class under two policies: the methods and the
    properties of the first within those of the second. *)
Definition py_within (a b : Python.ClassInfo) : Prop :=
  subseq (Python.c_methods a) (Python.c_methods b)
  /\ subseq (Python.c_properties a) (Python.c_properties b).

(** A class model without methods and properties. *)
Definition py_bare (a : Python.ClassInfo) : Prop :=
  Python.c_methods a = [] /\ Python.c_properties a = [].












(** One step of [if name not in detected: detected.append(name)]. *)
Definition dedup_step (acc : list text) (x : text) : list text :=
  if mem x acc then acc else acc ++ [x].

(** The parts that [Path(...)] keeps when it splits a string: not the
    empty part and not the part that is a single dot. *)
Definition keeps (c : text) : bool :=
  negb (text_eqb c [] || text_eqb c [46%N]).







End Spec.

(** ** Words for the facts about [update_claude_md.py] *)

Module MdSpec.
Import ClaudeMd.

(** [p] starts at offset [j] of [s]. *)
Definition occ (s p : text) (j : nat) : bool := startswith (skipn j s) p.

(** The offset at which a file without markers gets its section. *)
Definition insertion_point (content insert_after : text) : nat :=
  match section_end content insert_after with
  | None => List.length content
  | Some z => Z.to_nat z
  end.

(** A file without markers with the section for [m] put in: [x] before the
    section, [y] after it. *)
Definition with_section (x m y : text) : text :=
  x ++ NEWLINE :: NEWLINE :: START_MARKER ++ NEWLINE :: m
  ++ NEWLINE :: END_MARKER ++ NEWLINE :: y.

(** What [read_maps] keeps of one map file: the stripped text of a file
    that exists, decodes and is not blank. *)
Definition section_of (f : map_file) : option text :=
  if mf_exists f then
    match read_text decode_utf8 (mf_read f) with
    | Ret content =>
        match strip content with
        | [] => None
        | content => Some content
        end
    | Raise _ => None
    end
  else None.

(** The warning of [read_maps] for a file that does not exist. *)
Definition missing_warning (f : map_file) : option text :=
  if mf_exists f then None
  else Some (lit "Warning: Map file not found: " ++ mf_path f).

(** Every map file that exists can be read and decoded. *)
Definition maps_readable (map_files : list map_file) : Prop :=
  Forall (fun f => mf_exists f = true ->
                   exists content,
                     read_text decode_utf8 (mf_read f) = Ret content)
         map_files.

End MdSpec.

(** ** Words for further facts about the mappers *)

Module MoreSpec.

(** The bytes of a byte order mark. *)
Definition BOM : bytes := [Byte.xef; Byte.xbb; Byte.xbf].

Definition has_bom (bs : bytes) : bool :=
  match bs with
  | x0 :: x1 :: x2 :: _ =>
      ((byte_val x0 =? 239) && (byte_val x1 =? 187) && (byte_val x2 =? 191))%N
  | _ => false
  end.

(** A TypeScript file model with its exported types only. *)
Definition exported_only (f : TypeScript.FileInfo) : TypeScript.FileInfo :=
  {| TypeScript.f_path := TypeScript.f_path f;
     TypeScript.f_types := filter TypeScript.t_is_exported (TypeScript.f_types f);
     TypeScript.f_imports := TypeScript.f_imports f |}.

(** An entry whose name ends in [.d.ts]. *)
Definition is_declaration (e : entry) : bool :=
  endswith (path_name (e_rel e)) (lit ".d.ts").

(** The tree without its declaration files. *)
Definition without_declarations (t : tree) : tree :=
  Spec.prune (fun rel => endswith (path_name rel) (lit ".d.ts")) t.

(** The expression [h.a1.a2...]: a name with attributes on it. *)
Definition dotted (h : text) (attrs : list text) : Python.expr :=
  fold_left Python.Attribute attrs (Python.Name h).

(** [n] calls around an expression: [e(...)(...)]. *)
Fixpoint called (n : nat) (e : Python.expr) : Python.expr :=
  match n with
  | O => e
  | S n' => Python.Call (called n' e)
  end.

(** The names that [parse_class] lists under a policy: no name with two
    leading underscores but [__init__], and a name with one leading
    underscore under [full] only. *)
Definition listed_name (depth name : text) : bool :=
  negb (text_eqb depth (lit "classes"))
  && (if startswith name (lit "__") then text_eqb name (lit "__init__")
      else text_eqb depth (lit "full") || negb (startswith name (lit "_"))).

Definition has_property (decorator_list : list Python.expr) : bool :=
  mem (lit "property") (List.map Python.extract_decorator_name decorator_list).

(** The number of nodes with [p], anywhere below the given statements. *)
Fixpoint count_nodes (p : Python.stmt -> bool) (s : Python.stmt) : nat :=
  let counts :=
    fix counts (l : list Python.stmt) : nat :=
      match l with
      | [] => 0
      | x :: l' => count_nodes p x + counts l'
      end in
  (if p s then 1 else 0)
  + match s with
    | Python.ClassDef _ _ body _ => counts body
    | Python.FunctionDef _ body _ _ => counts body
    | Python.AsyncFunctionDef _ body _ _ => counts body
    | Python.Import _ => 0
    | Python.ImportFrom _ => 0
    | Python.OtherStmt children => counts children
    end.

Fixpoint count_all (p : Python.stmt -> bool) (l : list Python.stmt) : nat :=
  match l with
  | [] => 0
  | x :: l' => count_nodes p x + count_all p l'
  end.

Definition is_class (s : Python.stmt) : bool :=
  match s with
  | Python.ClassDef _ _ _ _ => true
  | _ => false
  end.

(** A definition that [parse_module] lists among the functions. *)
Definition is_listed_function (depth : text) (s : Python.stmt) : bool :=
  match s with
  | Python.FunctionDef name _ _ col_offset
  | Python.AsyncFunctionDef name _ _ col_offset =>
      (col_offset =? 0)%Z
      && negb (text_eqb depth (lit "classes"))
      && (negb (startswith name (lit "_")) || text_eqb depth (lit "full"))
  | _ => false
  end.

(** In the order of the keys. *)
Fixpoint in_order {A : Type} (key : A -> text) (l : list A) : Prop :=
  match l with
  | [] => True
  | x :: l' =>
      Forall (fun y => text_leb (key x) (key y) = true) l' /\ in_order key l'
  end.

(** [d.get(k, [])] *)
Fixpoint values {A : Type} (d : list (text * list A)) (k : text) : list A :=
  match d with
  | [] => []
  | (k0, vs) :: d' => if text_eqb k0 k then vs else values d' k
  end.

(** The dictionary that a loop of [d[key(f)].append(f)] builds. *)
Definition grouped {A : Type} (key : A -> text) (files : list A)
  (d : list (text * list A)) : list (text * list A) :=
  fold_left (fun d f => dict_append d (key f) f) files d.

(** The groups sorted by key, each group sorted by path. *)
Definition arranged {A : Type} (key path : A -> text) (files : list A)
  : list (text * list A) :=
  sorted_by fst
    (List.map (fun kv => (fst kv, sorted_by path (snd kv)))
       (grouped key files [])).

(** The namespace under which [format_output] files a C# model. *)
Definition namespace_key (f : CSharp.FileInfo) : text :=
  match CSharp.f_namespace f with
  | [] => lit "(no namespace)"
  | ns => ns
  end.

(** The state of the C# walk after a file for which [parse_file] returned
    [r]. *)
Definition cs_grow (st : CSharp.walk_state) (cs_file : Path)
  (r : option CSharp.FileInfo * list text) : CSharp.walk_state :=
  let added := match fst r with Some file_info => [file_info] | None => [] end in
  {| CSharp.files := CSharp.files st ++ added;
     CSharp.all_usings :=
       set_update (CSharp.all_usings st) (flat_map CSharp.f_usings added);
     CSharp.file_count := CSharp.file_count st + List.length added;
     CSharp.type_count :=
       CSharp.type_count st + List.length (flat_map CSharp.f_types added);
     CSharp.member_count :=
       CSharp.member_count st
       + List.length (flat_map CSharp.t_members
                        (flat_map CSharp.f_types added));
     CSharp.stderr := CSharp.stderr st ++ snd r;
     CSharp.parsed := CSharp.parsed st ++ [cs_file] |}.

(** Two states of the C# walk that differ in the order of what they
    collected only. *)
Definition cs_same (st st' : CSharp.walk_state) : Prop :=
  Permutation (CSharp.files st) (CSharp.files st')
  /\ (forall u, In u (CSharp.all_usings st) <-> In u (CSharp.all_usings st'))
  /\ CSharp.file_count st = CSharp.file_count st'
  /\ CSharp.type_count st = CSharp.type_count st'
  /\ CSharp.member_count st = CSharp.member_count st'
  /\ Permutation (CSharp.stderr st) (CSharp.stderr st')
  /\ Permutation (CSharp.parsed st) (CSharp.parsed st').

(** Two walks end alike: both complete, in states that differ in order
    only, or neither completes. *)
Definition cs_alike (r r' : option (exn * list text + CSharp.walk_state))
  : Prop :=
  match r, r' with
  | Some (inr st), Some (inr st') => cs_same st st'
  | Some (inr _), _ => False
  | _, Some (inr _) => False
  | _, _ => True
  end.

(** A type that the loop over the arrow functions adds for one of the
    matches [ms], the types [types] having been found before: new by its
    name, exported, without members and bases, a component or a function. *)
Definition added_by_arrow (types : list TypeScript.TypeInfo) (ms : list Re.Match)
  (t : TypeScript.TypeInfo) : Prop :=
  ~ In (TypeScript.t_name t) (List.map TypeScript.t_name types)
  /\ TypeScript.t_is_exported t = true
  /\ TypeScript.t_members t = []
  /\ TypeScript.t_bases t = []
  /\ (TypeScript.t_kind t = lit "component"
      \/ TypeScript.t_kind t = lit "function")
  /\ exists m, In m ms
               /\ TypeScript.t_name t = Re.group_or_empty m "name"
               /\ TypeScript.truthy (Re.group m "export") = true.

(** A text with four arrow functions: [f] twice, [h] not exported, and [g],
    the name of a class found before. *)
Definition sample_arrows : text :=
  lit ("export const f = () => 1; export const f = () => 2; "
       ++ "const h = () => 3; export const g = async (x) => x;").

(** Three C# files: two that decode, one that does not. *)
Definition sample_cs_a : entry :=
  Spec.file_with [lit "src"; lit "a.cs"]
    (Spec.ascii_bytes
       ("using System.Linq; "
        ++ "namespace N { public class A : B { public void F() {} } }")).

Definition sample_cs_b : entry :=
  Spec.file_with [lit "b.cs"]
    (Spec.ascii_bytes "namespace M { public interface I { int G(); } }").

Definition sample_cs_c : entry :=
  {| e_rel := [lit "c.cs"];
     e_reads := fun n => match n with
                         | O => ReadBytes [Byte.xff]
                         | S _ => ReadFails
                         end |}.

(** The directory under which [format_output] files a TypeScript model. *)
Definition ts_dir_key (root : Path) (f : TypeScript.FileInfo) : text :=
  match relative_to (path_of_str (TypeScript.f_path f)) root with
  | Ret rel_path => TypeScript.dir_name_of rel_path
  | Raise _ => []
  end.

(** The state of the TypeScript walk after a file for which [parse_file]
    returned [r]. *)
Definition ts_grow (st : TypeScript.walk_state) (ts_file : Path)
  (r : option TypeScript.FileInfo * list text) : TypeScript.walk_state :=
  let added := match fst r with Some file_info => [file_info] | None => [] end in
  {| TypeScript.files := TypeScript.files st ++ added;
     TypeScript.all_imports :=
       set_update (TypeScript.all_imports st)
         (flat_map TypeScript.f_imports added);
     TypeScript.file_count := TypeScript.file_count st + List.length added;
     TypeScript.type_count :=
       TypeScript.type_count st
       + List.length (flat_map TypeScript.f_types added);
     TypeScript.stderr := TypeScript.stderr st ++ snd r;
     TypeScript.parsed := TypeScript.parsed st ++ [ts_file] |}.

(** Two states of the TypeScript walk that differ in the order of what they
    collected only. *)
Definition ts_same (st st' : TypeScript.walk_state) : Prop :=
  Permutation (TypeScript.files st) (TypeScript.files st')
  /\ (forall i, In i (TypeScript.all_imports st)
                <-> In i (TypeScript.all_imports st'))
  /\ TypeScript.file_count st = TypeScript.file_count st'
  /\ TypeScript.type_count st = TypeScript.type_count st'
  /\ Permutation (TypeScript.stderr st) (TypeScript.stderr st')
  /\ Permutation (TypeScript.parsed st) (TypeScript.parsed st').

Definition ts_alike (r r' : option (exn * list text + TypeScript.walk_state))
  : Prop :=
  match r, r' with
  | Some (inr st), Some (inr st') => ts_same st st'
  | Some (inr _), _ => False
  | _, Some (inr _) => False
  | _, _ => True
  end.

(** Three TypeScript files: two that decode, one that does not. *)
Definition sample_ts_a : entry :=
  Spec.file_with [lit "src"; lit "a.ts"]
    (Spec.ascii_bytes
       "import { Component } from '@angular/core'; export class A { f() {} }").

Definition sample_ts_b : entry :=
  Spec.file_with [lit "b.tsx"]
    (Spec.ascii_bytes "export interface I { g(): void }").

Definition sample_ts_c : entry :=
  Spec.file_with [lit "c.js"] [Byte.xff].

(** The directory under which [format_output] files a Python model. *)
Definition py_dir_key (root : Path) (m : Python.ModuleInfo) : text :=
  match relative_to (path_of_str (Python.mod_path m)) root with
  | Ret rel_path => Python.dir_name_of rel_path
  | Raise _ => []
  end.

(** The state of the Python walk after a file for which [parse_module]
    returned [r]. *)
Definition py_grow (st : Python.walk_state) (py_file : Path)
  (r : option Python.ModuleInfo * list text) : Python.walk_state :=
  let added := match fst r with Some module => [module] | None => [] end in
  {| Python.modules :=
       fold_left
         (fun d module => dict_append d (path_str (path_parent py_file)) module)
         added (Python.modules st);
     Python.all_imports :=
       set_update (Python.all_imports st) (flat_map Python.mod_imports added);
     Python.file_count := Python.file_count st + List.length added;
     Python.class_count :=
       Python.class_count st
       + List.length (flat_map Python.mod_classes added);
     Python.method_count :=
       Python.method_count st
       + List.length (flat_map Python.c_methods
                        (flat_map Python.mod_classes added));
     Python.stderr := Python.stderr st ++ snd r;
     Python.parsed := Python.parsed st ++ [py_file] |}.

(** Two states of the Python walk that differ in the order of what they
    collected only. *)
Definition py_same (st st' : Python.walk_state) : Prop :=
  Permutation (flat_map snd (Python.modules st))
    (flat_map snd (Python.modules st'))
  /\ (forall i, In i (Python.all_imports st) <-> In i (Python.all_imports st'))
  /\ Python.file_count st = Python.file_count st'
  /\ Python.class_count st = Python.class_count st'
  /\ Python.method_count st = Python.method_count st'
  /\ Permutation (Python.stderr st) (Python.stderr st')
  /\ Permutation (Python.parsed st) (Python.parsed st').

Definition py_alike (r r' : exn * list text + Python.walk_state) : Prop :=
  match r, r' with
  | inr st, inr st' => py_same st st'
  | inr _, _ => False
  | _, inr _ => False
  | _, _ => True
  end.

(** Three Python files: two that [sample_parse] takes, one that it
    rejects. *)
Definition sample_py_a : entry :=
  Spec.file_with [lit "pkg"; lit "a.py"] (Spec.ascii_bytes "class A: ...").

Definition sample_py_b : entry :=
  Spec.file_with [lit "b.py"] (Spec.ascii_bytes "class B: ...").

Definition sample_py_c : entry :=
  Spec.file_with [lit "pkg"; lit "c.py"] (Spec.ascii_bytes "def f(:").

End MoreSpec.

(* ================================================================== *)
(** * Part II: theorems *)
(* ================================================================== *)

(** ** General facts *)

Module PyFacts.
Import Spec.

Lemma text_eqb_refl : forall a, text_eqb a a = true.
Proof.
  intros a. unfold text_eqb. destruct (list_eq_dec N.eq_dec a a); congruence.
Qed.

Lemma text_eqb_eq : forall a b, text_eqb a b = true <-> a = b.
Proof.
  intros a b. unfold text_eqb.
  destruct (list_eq_dec N.eq_dec a b); split; congruence.
Qed.

Lemma text_eqb_neq : forall a b, text_eqb a b = false <-> a <> b.
Proof.
  intros a b. unfold text_eqb.
  destruct (list_eq_dec N.eq_dec a b); split; congruence.
Qed.

Lemma mem_In : forall x l, mem x l = true <-> In x l.
Proof.
  intros x l. unfold mem. rewrite existsb_exists. split.
  - intros (y & Hy & He). apply text_eqb_eq in He. now subst.
  - intros H. exists x. split; [exact H|apply text_eqb_refl].
Qed.

Lemma mem_not_In : forall x l, mem x l = false <-> ~ In x l.
Proof.
  intros x l. rewrite <- mem_In. destruct (mem x l); split; congruence.
Qed.

Lemma subseq_refl : forall (A : Type) (l : list A), subseq l l.
Proof. induction l; constructor; assumption. Qed.

Lemma subseq_nil_l : forall (A : Type) (l : list A), subseq [] l.
Proof. induction l; constructor; assumption. Qed.

Lemma subseq_app :
  forall (A : Type) (a b c d : list A),
    subseq a b -> subseq c d -> subseq (a ++ c) (b ++ d).
Proof.
  intros A a b c d H. induction H; intros Hcd; simpl.
  - exact Hcd.
  - apply subseq_skip. auto.
  - apply subseq_take. auto.
Qed.

Lemma subseq_length :
  forall (A : Type) (a b : list A),
    subseq a b -> (List.length a <= List.length b)%nat.
Proof. intros A a b H. induction H; simpl; lia. Qed.

Lemma subseq_In :
  forall (A : Type) (a b : list A) x, subseq a b -> In x a -> In x b.
Proof.
  intros A a b x H. induction H; simpl; intros Hin.
  - exact Hin.
  - right. auto.
  - destruct Hin; [now left|right; auto].
Qed.

(** A loop that keeps everything another loop keeps yields a list that
    contains the other's, in order. *)
Lemma filter_map_subseq :
  forall (A B : Type) (f g : A -> option B) (l : list A),
    (forall a b, f a = Some b -> g a = Some b) ->
    subseq (filter_map f l) (filter_map g l).
Proof.
  intros A B f g l H. induction l as [|a l IH]; simpl; [constructor|].
  destruct (f a) as [b|] eqn:Ef.
  - rewrite (H a b Ef). now apply subseq_take.
  - destruct (g a); [now apply subseq_skip|exact IH].
Qed.

Lemma filter_map_In :
  forall (A B : Type) (f : A -> option B) (l : list A) b,
    In b (filter_map f l) <-> exists a, In a l /\ f a = Some b.
Proof.
  intros A B f l b. induction l as [|a l IH]; simpl.
  - split; [tauto|intros (a & [] & _)].
  - destruct (f a) as [b'|] eqn:Ef; simpl; rewrite IH; split.
    + intros [->|(a' & Ha & Hf)]; [exists a; auto|exists a'; auto].
    + intros (a' & [->|Ha] & Hf); [left; congruence|right; exists a'; auto].
    + intros (a' & Ha & Hf). exists a'; auto.
    + intros (a' & [->|Ha] & Hf); [congruence|exists a'; auto].
Qed.

(** Sums of member counts, as the loops of [main] compute them. *)
Lemma total_shift :
  forall (T X : Type) (mem : T -> list X) (l : list T) (n : nat),
    fold_left (fun n t => n + List.length (mem t)) l n
    = (n + fold_left (fun n t => n + List.length (mem t)) l 0)%nat.
Proof.
  intros T X mem l. induction l as [|t l IH]; intros n; simpl; [lia|].
  rewrite IH. rewrite (IH (List.length (mem t))). lia.
Qed.

Lemma total_zero :
  forall (T X : Type) (mem : T -> list X) (l : list T),
    Forall (fun t => mem t = []) l ->
    fold_left (fun n t => n + List.length (mem t)) l 0%nat = 0%nat.
Proof.
  intros T X mem l H. induction H as [|t l Ht _ IH]; simpl; [reflexivity|].
  rewrite Ht. simpl. exact IH.
Qed.

Lemma total_le :
  forall (T X : Type) (mem : T -> list X) (l1 l2 : list T),
    Forall2 (fun a b => subseq (mem a) (mem b)) l1 l2 ->
    (fold_left (fun n t => n + List.length (mem t)) l1 0
     <= fold_left (fun n t => n + List.length (mem t)) l2 0)%nat.
Proof.
  intros T X mem l1 l2 H. induction H as [|a b l1 l2 Hab _ IH]; simpl; [lia|].
  rewrite (total_shift T X mem l1), (total_shift T X mem l2).
  apply subseq_length in Hab. lia.
Qed.

End PyFacts.

(** ** The delimiter balancer *)

Module BalanceFacts.
Import Balance CSharp TypeScript.

Lemma find_block_end_loop_eq :
  forall fuel content depth i,
    find_block_end_loop fuel content depth i =
    find_type_end_loop fuel content depth i.
Proof.
  induction fuel as [|fuel IH]; intros; simpl; [reflexivity|].
  destruct (i <? len content)%Z; [|reflexivity].
  destruct (getitem content i) as [c|e]; [|reflexivity].
  destruct (c =? LBRACE)%N; [apply IH|].
  destruct (c =? RBRACE)%N; [|apply IH].
  destruct (depth - 1 =? 0)%Z; [reflexivity|apply IH].
Qed.

(** The two front ends carry the same balancer. *)
Lemma find_block_end_eq :
  forall content start, find_block_end content start = find_type_end content start.
Proof. intros; apply find_block_end_loop_eq. Qed.

Lemma getitem_nat :
  forall content (i : nat) c,
    nth_error content i = Some c -> getitem content (Z.of_nat i) = Ret c.
Proof.
  intros content i c H. unfold getitem.
  destruct (Z.of_nat i <? 0)%Z eqn:E; [apply Z.ltb_lt in E; lia|].
  rewrite E, Nat2Z.id, H. reflexivity.
Qed.

Lemma sum_delta_step :
  forall content i n c,
    nth_error content i = Some c ->
    sum_delta content i (S n) = (brace_delta c + sum_delta content (S i) n)%Z.
Proof. intros; simpl; rewrite H; reflexivity. Qed.

(** The loop invariant: started at offset [i] with counter [d], the loop
    returns the first offset [r >= i] holding a closing brace at which
    [d] plus the deltas of [i..r] is zero, or the text length. *)
Lemma find_type_end_loop_spec :
  forall fuel content d (i : nat),
    (List.length content - i <= fuel)%nat ->
    (i <= List.length content)%nat ->
    exists r : nat,
      find_type_end_loop fuel content d (Z.of_nat i) = Some (Ret (Z.of_nat r))
      /\ (i <= r <= List.length content)%nat
      /\ (forall j, (i <= j < r)%nat ->
            ~ (nth_error content j = Some RBRACE
               /\ (d + sum_delta content i (S j - i) = 0)%Z))
      /\ (r = List.length content
          \/ (r < List.length content)%nat
             /\ nth_error content r = Some RBRACE
             /\ (d + sum_delta content i (S r - i) = 0)%Z).
Proof.
  induction fuel as [|fuel IH]; intros content d i Hfuel Hi.
  - assert (i = List.length content) by lia; subst i.
    exists (List.length content). simpl.
    unfold len. rewrite Z.ltb_irrefl.
    repeat split; try lia; try (now left).
  - cbn [find_type_end_loop]. unfold len.
    destruct (Z.of_nat i <? Z.of_nat (List.length content))%Z eqn:Elt.
    + apply Z.ltb_lt in Elt.
      assert (Hlt : (i < List.length content)%nat) by lia.
      destruct (nth_error content i) as [c|] eqn:Ec;
        [|apply nth_error_None in Ec; lia].
      rewrite (getitem_nat _ _ _ Ec).
      replace (Z.of_nat i + 1)%Z with (Z.of_nat (S i)) by lia.
      (* what the recursive call gives, whatever the new counter is *)
      assert (Hrec : forall d',
        d' = (d + brace_delta c)%Z ->
        ~ (c = RBRACE /\ d' = 0%Z) ->
        exists r : nat,
          find_type_end_loop fuel content d' (Z.of_nat (S i))
            = Some (Ret (Z.of_nat r))
          /\ (i <= r <= List.length content)%nat
          /\ (forall j, (i <= j < r)%nat ->
                ~ (nth_error content j = Some RBRACE
                   /\ (d + sum_delta content i (S j - i) = 0)%Z))
          /\ (r = List.length content
              \/ (r < List.length content)%nat
                 /\ nth_error content r = Some RBRACE
                 /\ (d + sum_delta content i (S r - i) = 0)%Z)).
      { intros d' Hd' Hno.
        destruct (IH content d' (S i)) as (r & Hr & Hb & Hfirst & Hlast);
          [lia|lia|].
        exists r. split; [exact Hr|]. split; [lia|]. split.
        - intros j Hj [Hc Hz].
          destruct (Nat.eq_dec j i) as [Heq|Hne].
          + subst j. replace (S i - i)%nat with 1%nat in Hz by lia.
            rewrite (sum_delta_step _ _ _ _ Ec) in Hz. simpl in Hz.
            apply Hno. split; [congruence|lia].
          + apply (Hfirst j); [lia|]. split; [exact Hc|].
            replace (S j - i)%nat with (S (S j - S i)) in Hz by lia.
            rewrite (sum_delta_step _ _ _ _ Ec) in Hz. lia.
        - destruct Hlast as [->|(Hrl & Hc & Hz)]; [now left|right].
          split; [exact Hrl|]. split; [exact Hc|].
          replace (S r - i)%nat with (S (S r - S i)) by lia.
          rewrite (sum_delta_step _ _ _ _ Ec). lia. }
      unfold brace_delta in Hrec.
      destruct (c =? LBRACE)%N eqn:El.
      * apply Hrec; [lia|].
        apply N.eqb_eq in El. intros [Hc _]. subst c. discriminate.
      * destruct (c =? RBRACE)%N eqn:Er.
        -- apply N.eqb_eq in Er. subst c.
           destruct (d - 1 =? 0)%Z eqn:Ez.
           ++ apply Z.eqb_eq in Ez. exists i.
              split; [reflexivity|]. split; [lia|]. split; [intros; lia|].
              right. split; [exact Hlt|]. split; [exact Ec|].
              replace (S i - i)%nat with 1%nat by lia.
              rewrite (sum_delta_step _ _ _ _ Ec). simpl.
              unfold brace_delta. simpl. lia.
           ++ apply Z.eqb_neq in Ez.
              apply Hrec; [lia|]. intros [_ Hz]. lia.
        -- apply Hrec; [lia|].
           apply N.eqb_neq in Er. intros [Hc _]. contradiction.
    + apply Z.ltb_ge in Elt.
      assert (i = List.length content) by lia; subst i.
      exists (List.length content).
      repeat split; try lia; try (now left).
Qed.

(** Whatever the start offset, the fuel handed to the loop is enough. *)
Lemma find_type_end_loop_total :
  forall fuel content d i,
    (len content - i <= Z.of_nat fuel)%Z ->
    find_type_end_loop fuel content d i <> None.
Proof.
  induction fuel as [|fuel IH]; intros content d i Hfuel;
    cbn [find_type_end_loop];
    destruct (i <? len content)%Z eqn:Elt; try discriminate.
  - apply Z.ltb_lt in Elt. lia.
  - destruct (getitem content i) as [c|e]; [|discriminate].
    destruct (c =? LBRACE)%N; [apply IH; lia|].
    destruct (c =? RBRACE)%N; [|apply IH; lia].
    destruct (d - 1 =? 0)%Z; [discriminate|apply IH; lia].
Qed.

(** From an offset that a match object can give, the balancer returns an
    offset. *)
Lemma find_type_end_nat :
  forall content (n : nat),
    exists r : nat, find_type_end content (Z.of_nat n) = Some (Ret (Z.of_nat r)).
Proof.
  intros content n.
  destruct (Nat.le_gt_cases n (List.length content)) as [Hle|Hgt].
  - destruct (find_type_end_loop_spec
                (Z.to_nat (len content - Z.of_nat n)) content 0 n)
      as (r & Hr & _); [unfold len; lia|exact Hle|].
    exists r. exact Hr.
  - exists (List.length content). unfold find_type_end.
    replace (Z.to_nat (len content - Z.of_nat n)) with O by (unfold len; lia).
    cbn [find_type_end_loop].
    destruct (Z.of_nat n <? len content)%Z eqn:Elt;
      [apply Z.ltb_lt in Elt; unfold len in Elt; lia|reflexivity].
Qed.

Lemma find_block_end_nat :
  forall content (n : nat),
    exists r : nat, find_block_end content (Z.of_nat n) = Some (Ret (Z.of_nat r)).
Proof.
  intros content n. destruct (find_type_end_nat content n) as (r & Hr).
  exists r. rewrite find_block_end_eq. exact Hr.
Qed.

Lemma find_type_end_total :
  forall content start, find_type_end content start <> None.
Proof.
  intros. apply find_type_end_loop_total. lia.
Qed.

(** A start offset below [-len] makes the first subscript raise. *)
Lemma find_type_end_below_range :
  forall content start,
    (start < - len content)%Z ->
    find_type_end content start = Some (Raise IndexError).
Proof.
  intros content start H. unfold find_type_end.
  assert (Hlen : (0 <= len content)%Z) by (unfold len; lia).
  destruct (Z.to_nat (len content - start)) as [|fuel] eqn:Ef; [lia|].
  cbn [find_type_end_loop].
  destruct (start <? len content)%Z eqn:Elt;
    [|apply Z.ltb_ge in Elt; lia].
  unfold getitem.
  destruct (start <? 0)%Z eqn:E0; [|apply Z.ltb_ge in E0; lia].
  destruct (len content + start <? 0)%Z eqn:E1;
    [reflexivity|apply Z.ltb_ge in E1; lia].
Qed.

(** A start offset beyond the text makes the loop body never run. *)
Lemma find_type_end_beyond :
  forall content start,
    (len content <= start)%Z ->
    find_type_end content start = Some (Ret (len content)).
Proof.
  intros content start H. unfold find_type_end.
  replace (Z.to_nat (len content - start)) with O by lia.
  cbn [find_type_end_loop].
  destruct (start <? len content)%Z eqn:Elt;
    [apply Z.ltb_lt in Elt; lia|reflexivity].
Qed.

Example find_type_end_nested :
  find_type_end (lit "a{b{}c}d}") 1 = Some (Ret 6%Z).
Proof. reflexivity. Qed.

Example find_type_end_unclosed :
  find_type_end (lit "class A { void f() { ") 0 = Some (Ret 21%Z).
Proof. reflexivity. Qed.

End BalanceFacts.

(** ** Depth policies *)

Module DepthFacts.
Import Spec PyFacts BalanceFacts Re.

Lemma classes_not_full : text_eqb (lit "classes") (lit "full") = false.
Proof. apply text_eqb_neq. discriminate. Qed.


Lemma methods_not_classes : text_eqb (lit "methods") (lit "classes") = false.
Proof. apply text_eqb_neq. discriminate. Qed.

Lemma full_not_classes : text_eqb (lit "full") (lit "classes") = false.
Proof. apply text_eqb_neq. discriminate. Qed.

(** *** C# *)

Lemma cs_method_member_full :
  forall depth name m x,
    CSharp.method_member depth name m = Some x ->
    CSharp.method_member (lit "full") name m = Some x.
Proof.
  intros depth name m x. unfold CSharp.method_member.
  rewrite text_eqb_refl. cbn [negb andb].
  destruct (negb (text_eqb depth (lit "full"))
            && (contains (group_or_empty m "modifiers") (lit "private")
                || contains (group_or_empty m "modifiers") (lit "protected")));
    [discriminate|auto].
Qed.

Lemma cs_property_member_full :
  forall depth p x,
    CSharp.property_member depth p = Some x ->
    CSharp.property_member (lit "full") p = Some x.
Proof.
  intros depth p x. unfold CSharp.property_member.
  rewrite text_eqb_refl. cbn [negb andb].
  destruct (negb (text_eqb depth (lit "full"))
            && (contains (group_or_empty p "modifiers") (lit "private")
                || contains (group_or_empty p "modifiers") (lit "protected")));
    [discriminate|auto].
Qed.

Lemma cs_body_members_full :
  forall depth name body,
    subseq (CSharp.body_members depth name body)
           (CSharp.body_members (lit "full") name body).
Proof.
  intros. unfold CSharp.body_members. apply subseq_app.
  - apply filter_map_subseq. intros a b. apply cs_method_member_full.
  - apply filter_map_subseq. intros a b. apply cs_property_member_full.
Qed.

(** [parse_type] returns for every match object, and the policy only
    enters the member list. *)
Lemma cs_parse_type_eq :
  forall m content,
    exists r : nat,
      forall depth,
        CSharp.parse_type m content depth
        = ret {| CSharp.t_name := group_or_empty m "name";
                 CSharp.t_kind := group_or_empty m "kind";
                 CSharp.t_bases := CSharp.parse_bases (group m "bases");
                 CSharp.t_members :=
                   if negb (text_eqb depth (lit "classes"))
                      && negb (text_eqb (group_or_empty m "kind") (lit "enum"))
                   then CSharp.body_members depth (group_or_empty m "name")
                          (slice content (m_end m) r)
                   else [];
                 CSharp.t_attributes :=
                   CSharp.extract_attributes (group_or_empty m "attributes");
                 CSharp.t_is_partial :=
                   contains (group_or_empty m "modifiers") (lit "partial") |}.
Proof.
  intros m content.
  destruct (find_type_end_nat content (m_start m)) as (r & Hr).
  exists r. intros depth. unfold CSharp.parse_type.
  destruct (negb (text_eqb depth (lit "classes"))
            && negb (text_eqb (group_or_empty m "kind") (lit "enum")));
    [|reflexivity].
  rewrite Hr. cbn [bind]. rewrite Nat2Z.id. reflexivity.
Qed.

Lemma cs_types_related :
  forall content ms,
    exists tc tm tf,
      mapM (fun m => CSharp.parse_type m content (lit "classes")) ms = ret tc
      /\ mapM (fun m => CSharp.parse_type m content (lit "methods")) ms = ret tm
      /\ mapM (fun m => CSharp.parse_type m content (lit "full")) ms = ret tf
      /\ Forall (fun t => CSharp.t_members t = []) tc
      /\ Forall2 (fun a b => subseq (CSharp.t_members a) (CSharp.t_members b))
           tm tf.
Proof.
  intros content ms. induction ms as [|m ms (tc & tm & tf & Hc & Hm & Hf & H0 & H2)].
  - exists [], [], []. repeat split; constructor.
  - destruct (cs_parse_type_eq m content) as (r & Hr).
    eexists (_ :: tc), (_ :: tm), (_ :: tf).
    cbn [mapM]. rewrite !Hr, Hc, Hm, Hf. cbn [bind ret].
    split; [reflexivity|]. split; [reflexivity|]. split; [reflexivity|].
    split.
    + constructor; [|exact H0]. cbn [CSharp.t_members].
      rewrite text_eqb_refl. reflexivity.
    + constructor; [|exact H2]. cbn [CSharp.t_members].
      rewrite methods_not_classes, full_not_classes. cbn [negb andb].
      destruct (negb (text_eqb (group_or_empty m "kind") (lit "enum")));
        [apply cs_body_members_full|constructor].
Qed.

Lemma cs_parse_content_related :
  forall fp content,
    exists fc fm ff,
      CSharp.parse_content fp content (lit "classes") = ret fc
      /\ CSharp.parse_content fp content (lit "methods") = ret fm
      /\ CSharp.parse_content fp content (lit "full") = ret ff
      /\ Forall (fun t => CSharp.t_members t = []) (CSharp.f_types fc)
      /\ Forall2 (fun a b => subseq (CSharp.t_members a) (CSharp.t_members b))
           (CSharp.f_types fm) (CSharp.f_types ff).
Proof.
  intros fp content.
  destruct (cs_types_related content (finditer CSharp.TYPE_PATTERN content))
    as (tc & tm & tf & Hc & Hm & Hf & H0 & H2).
  unfold CSharp.parse_content. rewrite Hc, Hm, Hf. cbn [bind ret].
  do 3 eexists. split; [reflexivity|]. split; [reflexivity|].
  split; [reflexivity|]. split; assumption.
Qed.

Lemma cs_counts :
  forall fc fm ff : CSharp.FileInfo,
    Forall (fun t => CSharp.t_members t = []) (CSharp.f_types fc) ->
    Forall2 (fun a b => subseq (CSharp.t_members a) (CSharp.t_members b))
      (CSharp.f_types fm) (CSharp.f_types ff) ->
    cs_member_total (CSharp.f_types fc) = 0%nat
    /\ (cs_member_total (CSharp.f_types fm)
        <= cs_member_total (CSharp.f_types ff))%nat.
Proof.
  intros fc fm ff H0 H2. split.
  - apply (total_zero _ _ CSharp.t_members _ H0).
  - apply (total_le _ _ CSharp.t_members _ _ H2).
Qed.

Lemma cs_parse_file_counts :
  forall fp reads,
    cs_extracted (CSharp.parse_file fp reads (lit "classes")) = 0%nat
    /\ (cs_extracted (CSharp.parse_file fp reads (lit "methods"))
        <= cs_extracted (CSharp.parse_file fp reads (lit "full")))%nat.
Proof.
  intros fp reads. unfold CSharp.parse_file.
  assert (Hcontent : forall content,
    cs_extracted (bind (CSharp.parse_content fp content (lit "classes"))
                    (fun fi => ret (Some fi, []))) = 0%nat
    /\ (cs_extracted (bind (CSharp.parse_content fp content (lit "methods"))
                        (fun fi => ret (Some fi, [])))
        <= cs_extracted (bind (CSharp.parse_content fp content (lit "full"))
                           (fun fi => ret (Some fi, []))))%nat).
  { intros content.
    destruct (cs_parse_content_related fp content)
      as (fc & fm & ff & Hc & Hm & Hf & H0 & H2).
    rewrite Hc, Hm, Hf. cbn [bind ret cs_extracted].
    apply (cs_counts fc fm ff H0 H2). }
  destruct (read_text decode_utf8_sig (reads 0%nat)) as [content|e];
    [apply Hcontent|].
  destruct e; try (cbn; lia).
  destruct (read_text (fun bs => Some (decode_latin1 bs)) (reads 1%nat))
    as [content|e]; [apply Hcontent|cbn; lia].
Qed.

(** *** TypeScript *)

Lemma ts_method_member_full :
  forall depth m x,
    TypeScript.method_member depth m = Some x ->
    TypeScript.method_member (lit "full") m = Some x.
Proof.
  intros depth m x. unfold TypeScript.method_member.
  rewrite text_eqb_refl. cbn [negb andb].
  destruct (negb (text_eqb depth (lit "full"))
            && contains (group_or_empty m "modifier") (lit "private"));
    [discriminate|auto].
Qed.

Lemma ts_body_members_full :
  forall depth body,
    subseq (TypeScript.body_members depth body)
           (TypeScript.body_members (lit "full") body).
Proof.
  intros. unfold TypeScript.body_members.
  apply filter_map_subseq. intros a b. apply ts_method_member_full.
Qed.

Lemma ts_parse_class_eq :
  forall m content,
    exists r : nat,
      forall depth,
        TypeScript.parse_class m content depth
        = ret {| TypeScript.t_name := group_or_empty m "name";
                 TypeScript.t_kind :=
                   if mem (lit "Component")
                        (TypeScript.extract_decorators
                           (group_or_empty m "decorators"))
                   then lit "component"
                   else if mem (lit "Injectable")
                             (TypeScript.extract_decorators
                                (group_or_empty m "decorators"))
                        then lit "service" else lit "class";
                 TypeScript.t_bases := TypeScript.class_bases m;
                 TypeScript.t_members :=
                   if negb (text_eqb depth (lit "classes"))
                   then TypeScript.body_members depth
                          (slice content (m_end m) r)
                   else [];
                 TypeScript.t_decorators :=
                   TypeScript.extract_decorators
                     (group_or_empty m "decorators");
                 TypeScript.t_is_exported :=
                   TypeScript.truthy (group m "export") |}.
Proof.
  intros m content.
  destruct (find_block_end_nat content (m_start m)) as (r & Hr).
  exists r. intros depth. unfold TypeScript.parse_class.
  destruct (negb (text_eqb depth (lit "classes"))); [|reflexivity].
  rewrite Hr. cbn [bind]. rewrite Nat2Z.id. reflexivity.
Qed.

Lemma ts_classes_related :
  forall content ms,
    exists tc tm tf,
      mapM (fun m => TypeScript.parse_class m content (lit "classes")) ms = ret tc
      /\ mapM (fun m => TypeScript.parse_class m content (lit "methods")) ms
         = ret tm
      /\ mapM (fun m => TypeScript.parse_class m content (lit "full")) ms = ret tf
      /\ Forall2 ts_bare tc tm
      /\ Forall2 ts_within tm tf.
Proof.
  intros content ms.
  induction ms as [|m ms (tc & tm & tf & Hc & Hm & Hf & H0 & H2)].
  - exists [], [], []. repeat split; constructor.
  - destruct (ts_parse_class_eq m content) as (r & Hr).
    eexists (_ :: tc), (_ :: tm), (_ :: tf).
    cbn [mapM]. rewrite !Hr, Hc, Hm, Hf. cbn [bind ret].
    split; [reflexivity|]. split; [reflexivity|]. split; [reflexivity|].
    split.
    + constructor; [|exact H0]. split; [reflexivity|].
      cbn [TypeScript.t_members]. rewrite text_eqb_refl. reflexivity.
    + constructor; [|exact H2]. split; [reflexivity|].
      cbn [TypeScript.t_members].
      rewrite methods_not_classes, full_not_classes. cbn [negb].
      apply ts_body_members_full.
Qed.

Lemma ts_function_types_plain :
  forall content ms fs,
    mapM (TypeScript.function_type content) ms = ret fs -> Forall ts_plain fs.
Proof.
  intros content ms. induction ms as [|m ms IH]; intros fs H.
  - inversion H. constructor.
  - cbn [mapM] in H. unfold TypeScript.function_type at 1 in H.
    destruct (TypeScript.is_react_component (group_or_empty m "name") content)
      as [b|e]; [|discriminate].
    cbn [ret bind] in H.
    destruct (mapM (TypeScript.function_type content) ms) as [[fs'|e]|];
      try discriminate.
    cbn [bind ret] in H. inversion H; subst.
    constructor; [reflexivity|]. apply IH. reflexivity.
Qed.

Section TsArrows.

Variable R : TypeScript.TypeInfo -> TypeScript.TypeInfo -> Prop.
Hypothesis R_name : forall a b, R a b -> TypeScript.t_name a = TypeScript.t_name b.
Hypothesis R_plain : forall t, ts_plain t -> R t t.

Lemma ts_seen_same :
  forall name A B,
    Forall2 R A B ->
    existsb (fun t => text_eqb (TypeScript.t_name t) name) A
    = existsb (fun t => text_eqb (TypeScript.t_name t) name) B.
Proof.
  intros name A B H. induction H as [|a b A B Hab _ IH]; simpl; [reflexivity|].
  rewrite (R_name a b Hab), IH. reflexivity.
Qed.

(** The arrow-function loop ends the same way on two related lists. *)
Lemma ts_arrow_types_related :
  forall content ms A B,
    Forall2 R A B ->
    match TypeScript.arrow_types content ms A,
          TypeScript.arrow_types content ms B with
    | Some (Ret A'), Some (Ret B') => Forall2 R A' B'
    | Some (Raise e), Some (Raise e') => e = e'
    | None, None => True
    | _, _ => False
    end.
Proof.
  intros content ms. induction ms as [|m ms IH]; intros A B HAB.
  - exact HAB.
  - cbn [TypeScript.arrow_types].
    destruct (negb (TypeScript.truthy (group m "export"))); [now apply IH|].
    destruct (TypeScript.is_react_component (group_or_empty m "name") content)
      as [b|e]; [|reflexivity].
    rewrite (ts_seen_same (group_or_empty m "name") A B HAB).
    destruct (existsb
                (fun t => text_eqb (TypeScript.t_name t)
                            (group_or_empty m "name")) B);
      [now apply IH|].
    apply IH. apply Forall2_app; [exact HAB|].
    constructor; [|constructor]. apply R_plain. reflexivity.
Qed.

End TsArrows.

Lemma Forall2_diag :
  forall (A : Type) (R : A -> A -> Prop) (P : A -> Prop) (l : list A),
    (forall a, P a -> R a a) -> Forall P l -> Forall2 R l l.
Proof.
  intros A R P l H HP. induction HP; constructor; auto.
Qed.

Lemma Forall_map_plain :
  forall (X : Type) (f : X -> TypeScript.TypeInfo) (l : list X),
    (forall x, ts_plain (f x)) -> Forall ts_plain (List.map f l).
Proof.
  intros X f l H. induction l; simpl; constructor; auto.
Qed.

(** Under the three policies [parse_content] ends the same way; when it
    returns, the types have the same names, no members under [classes], and
    the members under [methods] are among those under [full]. *)
Lemma ts_parse_content_related :
  forall fp content,
    match TypeScript.parse_content fp content (lit "classes"),
          TypeScript.parse_content fp content (lit "methods"),
          TypeScript.parse_content fp content (lit "full") with
    | Some (Ret fc), Some (Ret fm), Some (Ret ff) =>
        Forall2 ts_bare (TypeScript.f_types fc) (TypeScript.f_types fm)
        /\ Forall2 ts_within (TypeScript.f_types fm) (TypeScript.f_types ff)
    | Some (Raise e), Some (Raise e'), Some (Raise e'') => e = e' /\ e' = e''
    | None, None, None => True
    | _, _, _ => False
    end.
Proof.
  intros fp content. unfold TypeScript.parse_content.
  set (nc := sub_empty TypeScript.BLOCK_COMMENT
               (sub_empty TypeScript.LINE_COMMENT content)).
  destruct (ts_classes_related nc (finditer TypeScript.CLASS_PATTERN nc))
    as (tc & tm & tf & Hc & Hm & Hf & H0 & H2).
  rewrite Hc, Hm, Hf. cbn [bind ret].
  destruct (mapM (TypeScript.function_type nc)
              (finditer TypeScript.FUNCTION_PATTERN nc)) as [[fs|e]|] eqn:Efs;
    cbn [bind]; [|auto|exact I].
  apply ts_function_types_plain in Efs.
  match goal with
  | |- context [TypeScript.arrow_types nc ?ms (tc ++ ?rest)] =>
      set (arrows := ms); set (others := rest)
  end.
  assert (Hothers : Forall ts_plain others).
  { unfold others. rewrite !Forall_app. repeat split;
      try exact Efs; apply Forall_map_plain; intros; reflexivity. }
  assert (Hbare : Forall2 ts_bare (tc ++ others) (tm ++ others)).
  { apply Forall2_app; [exact H0|].
    apply (Forall2_diag _ ts_bare ts_plain); [|exact Hothers].
    intros a Ha. split; [reflexivity|exact Ha]. }
  assert (Hwithin : Forall2 ts_within (tm ++ others) (tf ++ others)).
  { apply Forall2_app; [exact H2|].
    apply (Forall2_diag _ ts_within ts_plain); [|exact Hothers].
    intros a Ha. split; [reflexivity|apply subseq_refl]. }
  pose proof (ts_arrow_types_related ts_bare
                (fun a b H => proj1 H)
                (fun t Ht => conj eq_refl Ht)
                nc arrows _ _ Hbare) as Hb.
  pose proof (ts_arrow_types_related ts_within
                (fun a b H => proj1 H)
                (fun t Ht => conj eq_refl (subseq_refl _ _))
                nc arrows _ _ Hwithin) as Hw.
  destruct (TypeScript.arrow_types nc arrows (tc ++ others)) as [[xc|ec]|];
    destruct (TypeScript.arrow_types nc arrows (tm ++ others)) as [[xm|em]|];
    destruct (TypeScript.arrow_types nc arrows (tf ++ others)) as [[xf|ef]|];
    cbn [bind ret TypeScript.f_types]; try contradiction; auto.
Qed.

Lemma ts_bare_plain :
  forall l1 l2, Forall2 ts_bare l1 l2 -> Forall ts_plain l1.
Proof.
  intros l1 l2 H. induction H as [|a b l1 l2 [_ Hab] _ IH]; constructor; auto.
Qed.

Lemma ts_within_subseq :
  forall l1 l2,
    Forall2 ts_within l1 l2 ->
    Forall2 (fun a b => subseq (TypeScript.t_members a) (TypeScript.t_members b))
      l1 l2.
Proof.
  intros l1 l2 H. induction H as [|a b l1 l2 [_ Hab] _ IH]; constructor; auto.
Qed.

Lemma ts_parse_file_counts :
  forall fp reads,
    ts_extracted (TypeScript.parse_file fp reads (lit "classes")) = 0%nat
    /\ (ts_extracted (TypeScript.parse_file fp reads (lit "methods"))
        <= ts_extracted (TypeScript.parse_file fp reads (lit "full")))%nat.
Proof.
  intros fp reads. unfold TypeScript.parse_file.
  destruct (read_text decode_utf8 (reads 0%nat)) as [content|e].
  - pose proof (ts_parse_content_related fp content) as H.
    destruct (TypeScript.parse_content fp content (lit "classes")) as [[fc|ec]|];
      destruct (TypeScript.parse_content fp content (lit "methods"))
        as [[fm|em]|];
      destruct (TypeScript.parse_content fp content (lit "full")) as [[ff|ef]|];
      cbn [bind ret ts_extracted]; try contradiction; try lia.
    destruct H as [H0 H2]. split.
    + apply (total_zero _ _ TypeScript.t_members _ (ts_bare_plain _ _ H0)).
    + apply (total_le _ _ TypeScript.t_members _ _ (ts_within_subseq _ _ H2)).
  - destruct e; cbn; lia.
Qed.

(** *** Python *)

Lemma filter_map_mono :
  forall (A B : Type) (h : A -> option B) (l1 l2 : list A),
    subseq l1 l2 -> subseq (filter_map h l1) (filter_map h l2).
Proof.
  intros A B h l1 l2 H. induction H; simpl.
  - constructor.
  - destruct (h x); [now apply subseq_skip|exact IHsubseq].
  - destruct (h x); [now apply subseq_take|exact IHsubseq].
Qed.

Lemma py_class_item_full :
  forall depth item x,
    Python.class_item depth item = Some x ->
    Python.class_item (lit "full") item = Some x.
Proof.
  intros depth item x. unfold Python.class_item.
  rewrite text_eqb_refl. cbn [negb andb].
  destruct item as [n b bd dl|n bd dl c|n bd dl c|ns|mo|ch]; auto;
    destruct (negb (text_eqb depth (lit "full")) && startswith n (lit "_")
              && negb (startswith n (lit "__"))); auto; discriminate.
Qed.

Lemma py_parse_class_within :
  forall depth name bases body decorator_list,
    py_within (Python.parse_class name bases body decorator_list depth)
              (Python.parse_class name bases body decorator_list (lit "full")).
Proof.
  intros. unfold py_within, Python.parse_class.
  cbn [Python.c_methods Python.c_properties].
  rewrite full_not_classes. cbn [negb].
  assert (H : subseq
                (if negb (text_eqb depth (lit "classes"))
                 then filter_map (Python.class_item depth) body else [])
                (filter_map (Python.class_item (lit "full")) body)).
  { destruct (negb (text_eqb depth (lit "classes")));
      [|apply subseq_nil_l].
    apply filter_map_subseq. intros a b. apply py_class_item_full. }
  split; apply filter_map_mono; exact H.
Qed.

Lemma py_parse_class_bare :
  forall name bases body decorator_list,
    py_bare (Python.parse_class name bases body decorator_list (lit "classes")).
Proof.
  intros. unfold py_bare, Python.parse_class.
  cbn [Python.c_methods Python.c_properties].
  rewrite text_eqb_refl. split; reflexivity.
Qed.

(** What the loop over [ast.walk] keeps under [classes]. *)
Lemma py_visit_classes :
  forall l acc,
    Forall py_bare (Python.classes acc) ->
    Python.functions acc = [] ->
    Forall py_bare (Python.classes (fold_left (Python.visit (lit "classes")) l acc))
    /\ Python.functions (fold_left (Python.visit (lit "classes")) l acc) = [].
Proof.
  induction l as [|node l IH]; intros acc Hc Hf; [split; assumption|].
  cbn [fold_left]. apply IH.
  - destruct node as [n b bd dl|n bd dl c|n bd dl c|ns|mo|ch];
      cbn [Python.visit Python.classes]; try exact Hc.
    + apply Forall_app. split; [exact Hc|].
      constructor; [apply py_parse_class_bare|constructor].
    + rewrite text_eqb_refl. cbn [negb andb]. rewrite andb_false_r. exact Hc.
    + rewrite text_eqb_refl. cbn [negb andb]. rewrite andb_false_r. exact Hc.
    + destruct mo as [[|x m]|]; exact Hc.
  - destruct node as [n b bd dl|n bd dl c|n bd dl c|ns|mo|ch];
      cbn [Python.visit Python.functions]; try exact Hf.
    + rewrite text_eqb_refl. cbn [negb andb]. rewrite andb_false_r. exact Hf.
    + rewrite text_eqb_refl. cbn [negb andb]. rewrite andb_false_r. exact Hf.
    + destruct mo as [[|x m]|]; exact Hf.
Qed.

(** What the loop keeps under a policy is kept under [full]. *)
Lemma py_visit_full :
  forall depth l a b,
    Forall2 py_within (Python.classes a) (Python.classes b) ->
    subseq (Python.functions a) (Python.functions b) ->
    Forall2 py_within
      (Python.classes (fold_left (Python.visit depth) l a))
      (Python.classes (fold_left (Python.visit (lit "full")) l b))
    /\ subseq
         (Python.functions (fold_left (Python.visit depth) l a))
         (Python.functions (fold_left (Python.visit (lit "full")) l b)).
Proof.
  intros depth. induction l as [|node l IH]; intros a b Hc Hf;
    [split; assumption|].
  cbn [fold_left].
  assert (Htop : forall (is_async : bool) (n : text) (c : Z),
    let added (d : text) (acc : Python.collected) :=
      if (c =? 0)%Z && negb (text_eqb d (lit "classes"))
         && (negb (startswith n (lit "_")) || text_eqb d (lit "full"))
      then {| Python.classes := Python.classes acc;
              Python.functions :=
                Python.functions acc
                ++ [(if is_async then lit "async " else []) ++ n ++ lit "()"];
              Python.imports := Python.imports acc |}
      else acc in
    Forall2 py_within (Python.classes (added depth a))
      (Python.classes (added (lit "full") b))
    /\ subseq (Python.functions (added depth a))
         (Python.functions (added (lit "full") b))).
  { intros is_async n c. cbv beta zeta.
    rewrite full_not_classes, text_eqb_refl, orb_true_r.
    cbn [negb]. rewrite !andb_true_r.
    destruct (c =? 0)%Z; cbn [andb]; [|split; assumption].
    destruct (negb (text_eqb depth (lit "classes"))
              && (negb (startswith n (lit "_"))
                  || text_eqb depth (lit "full")));
      cbn [Python.classes Python.functions]; split; try assumption.
    - apply subseq_app; [exact Hf|apply subseq_refl].
    - rewrite <- (app_nil_r (Python.functions a)).
      apply subseq_app; [exact Hf|apply subseq_nil_l]. }
  destruct node as [n bs bd dl|n bd dl c|n bd dl c|ns|mo|ch];
    cbn [Python.visit].
  - apply IH; cbn [Python.classes Python.functions]; [|exact Hf].
    apply Forall2_app; [exact Hc|].
    constructor; [apply py_parse_class_within|constructor].
  - destruct (Htop false n c) as [H1 H2]. apply IH; assumption.
  - destruct (Htop true n c) as [H1 H2]. apply IH; assumption.
  - apply IH; assumption.
  - destruct mo as [[|x m]|]; apply IH; assumption.
  - apply IH; assumption.
Qed.

Lemma py_within_methods :
  forall l1 l2,
    Forall2 py_within l1 l2 ->
    Forall2 (fun a b => subseq (Python.c_methods a) (Python.c_methods b)) l1 l2.
Proof.
  intros l1 l2 H. induction H as [|a b l1 l2 [Hab _] _ IH]; constructor; auto.
Qed.

Lemma py_bare_methods :
  forall l, Forall py_bare l -> Forall (fun c => Python.c_methods c = []) l.
Proof.
  intros l H. induction H as [|a l [Ha _] _ IH]; constructor; auto.
Qed.

Section PyModule.

Variable ast_parse : Python.parser.

(** Under the three policies [parse_module] ends the same way; when it
    returns a module, there are no methods, properties or functions under
    [classes], and what [methods] keeps is among what [full] keeps. *)
Lemma py_parse_module_related :
  forall fp reads,
    match Python.parse_module ast_parse fp reads (lit "classes"),
          Python.parse_module ast_parse fp reads (lit "methods"),
          Python.parse_module ast_parse fp reads (lit "full") with
    | Ret (Some mc, _), Ret (Some mm, _), Ret (Some mf, _) =>
        Forall py_bare (Python.mod_classes mc)
        /\ Python.mod_functions mc = []
        /\ Forall2 py_within (Python.mod_classes mm) (Python.mod_classes mf)
        /\ subseq (Python.mod_functions mm) (Python.mod_functions mf)
    | Ret (None, w), Ret (None, w'), Ret (None, w'') => w = w' /\ w' = w''
    | Raise e, Raise e', Raise e'' => e = e' /\ e' = e''
    | _, _, _ => False
    end.
Proof.
  intros fp reads. unfold Python.parse_module.
  destruct (read_text decode_utf8 (reads 0%nat)) as [content|e];
    [|destruct e; auto].
  destruct (ast_parse content (path_str fp)) as [tree|msg|x]; [|auto|auto].
  cbn [Python.mod_classes Python.mod_functions].
  set (acc0 := {| Python.classes := []; Python.functions := [];
                  Python.imports := [] |}).
  destruct (py_visit_classes (Python.ast_walk tree) acc0) as [H1 H2];
    [constructor|reflexivity|].
  destruct (py_visit_full (lit "methods") (Python.ast_walk tree) acc0 acc0)
    as [H3 H4]; [constructor|constructor|].
  repeat split; assumption.
Qed.

Lemma py_parse_module_counts :
  forall fp reads,
    py_extracted (Python.parse_module ast_parse fp reads (lit "classes")) = 0%nat
    /\ (py_extracted (Python.parse_module ast_parse fp reads (lit "methods"))
        <= py_extracted (Python.parse_module ast_parse fp reads (lit "full")))%nat.
Proof.
  intros fp reads. pose proof (py_parse_module_related fp reads) as H.
  destruct (Python.parse_module ast_parse fp reads (lit "classes"))
    as [[[mc|] wc]|ec];
    destruct (Python.parse_module ast_parse fp reads (lit "methods"))
      as [[[mm|] wm]|em];
    destruct (Python.parse_module ast_parse fp reads (lit "full"))
      as [[[mf|] wf]|ef];
    cbn [py_extracted]; try contradiction; try lia.
  destruct H as (H1 & _ & H3 & _). split.
  - apply (total_zero _ _ Python.c_methods _ (py_bare_methods _ H1)).
  - apply (total_le _ _ Python.c_methods _ _ (py_within_methods _ _ H3)).
Qed.

End PyModule.

End DepthFacts.

(** ** Visibility filter and enum declarations *)

Module VisibilityFacts.
Import Spec PyFacts BalanceFacts DepthFacts Re.






















End VisibilityFacts.

(** ** Exclusion *)

Module ExclusionFacts.
Import Spec PyFacts.

Lemma relative_to_app :
  forall root rel, relative_to (root ++ rel) root = Ret rel.
Proof.
  induction root as [|r root IH]; intros rel; simpl.
  - destruct rel; reflexivity.
  - rewrite text_eqb_refl. apply IH.
Qed.

Lemma set_update_In :
  forall l s x, In x (set_update s l) <-> In x s \/ In x l.
Proof.
  induction l as [|y l IH]; intros s x; simpl; [tauto|].
  rewrite IH. destruct (mem y s) eqn:E.
  - apply mem_In in E. split; [tauto|].
    intros [H|[H|H]]; subst; auto.
  - rewrite in_app_iff. simpl. tauto.
Qed.

Lemma filter_comm :
  forall (A : Type) (p q : A -> bool) (l : list A),
    filter p (filter q l) = filter q (filter p l).
Proof.
  intros A p q l. induction l as [|a l IH]; simpl; [reflexivity|].
  destruct (p a) eqn:Ep, (q a) eqn:Eq; simpl; rewrite ?Ep, ?Eq, IH; reflexivity.
Qed.

Lemma flat_map_filter :
  forall (A B : Type) (f : A -> list B) (p : B -> bool) (l : list A),
    filter p (flat_map f l) = flat_map (fun a => filter p (f a)) l.
Proof.
  intros A B f p l. induction l as [|a l IH]; simpl; [reflexivity|].
  rewrite filter_app, IH. reflexivity.
Qed.

Lemma rglob_prune :
  forall excluded t suffix,
    rglob (prune excluded t) suffix
    = filter (fun e => negb (excluded (e_rel e))) (rglob t suffix).
Proof. intros. unfold rglob, prune. simpl. apply filter_comm. Qed.

(** *** C# *)

Lemma cs_should_exclude_eq :
  forall parts excludes,
    CSharp.should_exclude parts excludes
    = existsb (fun part => mem part excludes || startswith part (lit ".")) parts.
Proof.
  induction parts as [|part parts IH]; intros excludes; simpl; [reflexivity|].
  rewrite IH. destruct (mem part excludes || startswith part (lit "."));
    reflexivity.
Qed.

Lemma cs_walk_step_excluded :
  forall root excludes depth st e,
    CSharp.should_exclude (e_rel e) excludes = true ->
    CSharp.walk_step root excludes depth st e = Some (inr st).
Proof.
  intros. unfold CSharp.walk_step. rewrite relative_to_app, H. reflexivity.
Qed.

Lemma cs_walk_prune :
  forall root excludes depth es st,
    CSharp.walk root excludes depth es st
    = CSharp.walk root excludes depth
        (filter (fun e => negb (CSharp.should_exclude (e_rel e) excludes)) es) st.
Proof.
  intros root excludes depth es. induction es as [|e es IH]; intros st;
    [reflexivity|].
  cbn [filter CSharp.walk].
  destruct (CSharp.should_exclude (e_rel e) excludes) eqn:E; cbn [negb].
  - rewrite (cs_walk_step_excluded root excludes depth st e E). apply IH.
  - cbn [CSharp.walk].
    destruct (CSharp.walk_step root excludes depth st e) as [[x|st']|];
      [reflexivity|apply IH|reflexivity].
Qed.

Lemma cs_walk_parsed :
  forall root excludes depth es st st',
    CSharp.walk root excludes depth es st = Some (inr st') ->
    forall p, In p (CSharp.parsed st') ->
      In p (CSharp.parsed st)
      \/ exists e, In e es /\ p = root ++ e_rel e
                   /\ CSharp.should_exclude (e_rel e) excludes = false.
Proof.
  intros root excludes depth es. induction es as [|e es IH]; intros st st' H p Hp.
  - inversion H; subst. now left.
  - cbn [CSharp.walk] in H.
    destruct (CSharp.walk_step root excludes depth st e) as [[x|st1]|] eqn:Es;
      try discriminate.
    destruct (IH st1 st' H p Hp) as [Hin|(e' & He' & Hpe & Hex)];
      [|right; exists e'; simpl; auto].
    unfold CSharp.walk_step in Es. rewrite relative_to_app in Es.
    destruct (CSharp.should_exclude (e_rel e) excludes) eqn:Eex.
    + inversion Es; subst. now left.
    + destruct (CSharp.parse_file (root ++ e_rel e) (e_reads e) depth)
        as [[[[fi|] w]|x]|]; try discriminate;
        inversion Es; subst; cbn [CSharp.parsed] in Hin;
        apply in_app_iff in Hin; destruct Hin as [Hin|[<-|[]]];
        auto; right; exists e; simpl; auto.
Qed.

Lemma cs_main_prune :
  forall a t,
    CSharp.main a t
    = CSharp.main a
        (prune (fun rel => CSharp.should_exclude rel (CSharp.excludes_of a)) t).
Proof.
  intros a t. unfold CSharp.main. rewrite rglob_prune.
  rewrite <- cs_walk_prune. reflexivity.
Qed.

(** *** TypeScript *)

Lemma ts_should_exclude_eq :
  forall parts excludes,
    TypeScript.should_exclude parts excludes
    = existsb (fun part => mem part excludes || startswith part (lit ".")) parts.
Proof.
  induction parts as [|part parts IH]; intros excludes; simpl; [reflexivity|].
  rewrite IH. destruct (mem part excludes || startswith part (lit "."));
    reflexivity.
Qed.

Lemma ts_walk_step_excluded :
  forall root excludes depth st e,
    TypeScript.should_exclude (e_rel e) excludes = true ->
    TypeScript.walk_step root excludes depth st e = Some (inr st).
Proof.
  intros. unfold TypeScript.walk_step. rewrite relative_to_app, H.
  destruct (endswith _ _); reflexivity.
Qed.

Lemma ts_walk_prune :
  forall root excludes depth es st,
    TypeScript.walk root excludes depth es st
    = TypeScript.walk root excludes depth
        (filter (fun e => negb (TypeScript.should_exclude (e_rel e) excludes)) es)
        st.
Proof.
  intros root excludes depth es. induction es as [|e es IH]; intros st;
    [reflexivity|].
  cbn [filter TypeScript.walk].
  destruct (TypeScript.should_exclude (e_rel e) excludes) eqn:E; cbn [negb].
  - rewrite (ts_walk_step_excluded root excludes depth st e E). apply IH.
  - cbn [TypeScript.walk].
    destruct (TypeScript.walk_step root excludes depth st e) as [[x|st']|];
      [reflexivity|apply IH|reflexivity].
Qed.

Lemma ts_walk_parsed :
  forall root excludes depth es st st',
    TypeScript.walk root excludes depth es st = Some (inr st') ->
    forall p, In p (TypeScript.parsed st') ->
      In p (TypeScript.parsed st)
      \/ exists e, In e es /\ p = root ++ e_rel e
                   /\ TypeScript.should_exclude (e_rel e) excludes = false.
Proof.
  intros root excludes depth es. induction es as [|e es IH]; intros st st' H p Hp.
  - inversion H; subst. now left.
  - cbn [TypeScript.walk] in H.
    destruct (TypeScript.walk_step root excludes depth st e) as [[x|st1]|] eqn:Es;
      try discriminate.
    destruct (IH st1 st' H p Hp) as [Hin|(e' & He' & Hpe & Hex)];
      [|right; exists e'; simpl; auto].
    unfold TypeScript.walk_step in Es. rewrite relative_to_app in Es.
    destruct (endswith (path_name (root ++ e_rel e)) (lit ".d.ts"));
      [inversion Es; subst; now left|].
    destruct (TypeScript.should_exclude (e_rel e) excludes) eqn:Eex.
    + inversion Es; subst. now left.
    + destruct (TypeScript.parse_file (root ++ e_rel e) (e_reads e) depth)
        as [[[[fi|] w]|x]|]; try discriminate;
        inversion Es; subst; cbn [TypeScript.parsed] in Hin;
        apply in_app_iff in Hin; destruct Hin as [Hin|[<-|[]]];
        auto; right; exists e; simpl; auto.
Qed.

Lemma ts_candidates_prune :
  forall excluded t,
    TypeScript.candidates (prune excluded t)
    = filter (fun e => negb (excluded (e_rel e))) (TypeScript.candidates t).
Proof.
  intros. unfold TypeScript.candidates. rewrite flat_map_filter.
  apply flat_map_ext. intros pattern. apply rglob_prune.
Qed.

Lemma ts_main_prune :
  forall a t,
    TypeScript.main a t
    = TypeScript.main a
        (prune (fun rel => TypeScript.should_exclude rel
                             (TypeScript.excludes_of a)) t).
Proof.
  intros a t. unfold TypeScript.main. rewrite ts_candidates_prune.
  rewrite <- ts_walk_prune. reflexivity.
Qed.

(** *** Python *)

Lemma py_should_exclude_eq :
  forall parts excludes,
    Python.should_exclude parts excludes
    = existsb (fun part => mem part excludes || startswith part (lit ".")) parts.
Proof.
  induction parts as [|part parts IH]; intros excludes; simpl; [reflexivity|].
  rewrite IH. destruct (mem part excludes || startswith part (lit "."));
    reflexivity.
Qed.

Section PyWalk.

Variable ast_parse : Python.parser.

Lemma py_walk_step_excluded :
  forall root excludes depth st e,
    Python.should_exclude (e_rel e) excludes = true ->
    Python.walk_step ast_parse root excludes depth st e = inr st.
Proof.
  intros. unfold Python.walk_step. rewrite relative_to_app, H. reflexivity.
Qed.

Lemma py_walk_prune :
  forall root excludes depth es st,
    Python.walk ast_parse root excludes depth es st
    = Python.walk ast_parse root excludes depth
        (filter (fun e => negb (Python.should_exclude (e_rel e) excludes)) es) st.
Proof.
  intros root excludes depth es. induction es as [|e es IH]; intros st;
    [reflexivity|].
  cbn [filter Python.walk].
  destruct (Python.should_exclude (e_rel e) excludes) eqn:E; cbn [negb].
  - rewrite (py_walk_step_excluded root excludes depth st e E). apply IH.
  - cbn [Python.walk].
    destruct (Python.walk_step ast_parse root excludes depth st e) as [x|st'];
      [reflexivity|apply IH].
Qed.

Lemma py_walk_parsed :
  forall root excludes depth es st st',
    Python.walk ast_parse root excludes depth es st = inr st' ->
    forall p, In p (Python.parsed st') ->
      In p (Python.parsed st)
      \/ exists e, In e es /\ p = root ++ e_rel e
                   /\ Python.should_exclude (e_rel e) excludes = false.
Proof.
  intros root excludes depth es. induction es as [|e es IH]; intros st st' H p Hp.
  - inversion H; subst. now left.
  - cbn [Python.walk] in H.
    destruct (Python.walk_step ast_parse root excludes depth st e)
      as [x|st1] eqn:Es; try discriminate.
    destruct (IH st1 st' H p Hp) as [Hin|(e' & He' & Hpe & Hex)];
      [|right; exists e'; simpl; auto].
    unfold Python.walk_step in Es. rewrite relative_to_app in Es.
    destruct (Python.should_exclude (e_rel e) excludes) eqn:Eex.
    + inversion Es; subst. now left.
    + destruct (Python.parse_module ast_parse (root ++ e_rel e) (e_reads e) depth)
        as [[[mi|] w]|x]; try discriminate;
        inversion Es; subst; cbn [Python.parsed] in Hin;
        apply in_app_iff in Hin; destruct Hin as [Hin|[<-|[]]];
        auto; right; exists e; simpl; auto.
Qed.

Lemma py_main_prune :
  forall a t,
    Python.main ast_parse a t
    = Python.main ast_parse a
        (prune (fun rel => Python.should_exclude rel (Python.excludes_of a)) t).
Proof.
  intros a t. unfold Python.main. rewrite rglob_prune.
  rewrite <- py_walk_prune. reflexivity.
Qed.

End PyWalk.

End ExclusionFacts.

(** ** Framework detection *)

Module FrameworkFacts.
Import Spec PyFacts.

Lemma dedup_from_shape :
  forall l acc,
    exists r, fold_left dedup_step l acc = acc ++ r /\ subseq r l.
Proof.
  induction l as [|x l IH]; intros acc; simpl.
  - exists []. rewrite app_nil_r. split; [reflexivity|constructor].
  - unfold dedup_step at 2. destruct (mem x acc).
    + destruct (IH acc) as (r & Hr & Hs). exists r.
      split; [exact Hr|now apply subseq_skip].
    + destruct (IH (acc ++ [x])) as (r & Hr & Hs). exists (x :: r).
      rewrite Hr, <- app_assoc. split; [reflexivity|now apply subseq_take].
Qed.

Lemma dedup_from_NoDup :
  forall l acc, NoDup acc -> NoDup (fold_left dedup_step l acc).
Proof.
  induction l as [|x l IH]; intros acc H; simpl; [exact H|].
  apply IH. unfold dedup_step. destruct (mem x acc) eqn:E; [exact H|].
  apply mem_not_In in E. apply NoDup_app; [exact H|constructor; [tauto|constructor]|].
  intros y Hy [<-|[]]. contradiction.
Qed.

Lemma dedup_from_In :
  forall l acc x, In x (fold_left dedup_step l acc) <-> In x acc \/ In x l.
Proof.
  induction l as [|y l IH]; intros acc x; simpl; [tauto|].
  rewrite IH. unfold dedup_step. destruct (mem y acc) eqn:E.
  - apply mem_In in E. split; [tauto|]. intros [H|[->|H]]; auto.
  - rewrite in_app_iff. simpl. tauto.
Qed.

Lemma dedup_subseq : forall l, subseq (dedup l) l.
Proof.
  intros l. destruct (dedup_from_shape l []) as (r & Hr & Hs).
  unfold dedup. fold dedup_step. rewrite Hr. exact Hs.
Qed.

Lemma dedup_NoDup : forall l, NoDup (dedup l).
Proof. intros l. apply (dedup_from_NoDup l []). constructor. Qed.

Lemma dedup_In : forall l x, In x (dedup l) <-> In x l.
Proof.
  intros l x. unfold dedup. fold dedup_step.
  rewrite (dedup_from_In l [] x). simpl. tauto.
Qed.

Lemma subseq_trans :
  forall (A : Type) (a b c : list A), subseq a b -> subseq b c -> subseq a c.
Proof.
  intros A a b c Hab Hbc. revert a Hab.
  induction Hbc; intros a Hab.
  - exact Hab.
  - apply subseq_skip. auto.
  - inversion Hab; subst.
    + apply subseq_skip. auto.
    + apply subseq_take. auto.
Qed.

Lemma subseq_map_filter :
  forall (A B : Type) (f : A -> B) (p : A -> bool) (l : list A),
    subseq (List.map f (filter p l)) (List.map f l).
Proof.
  intros A B f p l. induction l as [|a l IH]; simpl; [constructor|].
  destruct (p a); simpl; [now apply subseq_take|now apply subseq_skip].
Qed.

Lemma subseq_NoDup :
  forall (A : Type) (a b : list A), subseq a b -> NoDup b -> NoDup a.
Proof.
  intros A a b H. induction H; intros Hb.
  - constructor.
  - inversion Hb; subst. auto.
  - inversion Hb; subst. constructor; [|auto].
    intros Hin. apply H2. apply (subseq_In _ _ _ _ H Hin).
Qed.

(** A table scan with a hit test and the [if name not in detected] guard
    is the scan of the hits without repetition. *)
Lemma scan_dedup :
  forall (hit : text -> bool) (table : list (text * text)) (acc : list text),
    fold_left
      (fun detected kv =>
         if hit (fst kv)
         then if mem (snd kv) detected then detected else detected ++ [snd kv]
         else detected)
      table acc
    = fold_left dedup_step
        (List.map snd (filter (fun kv => hit (fst kv)) table)) acc.
Proof.
  intros hit table. induction table as [|kv table IH]; intros acc; simpl;
    [reflexivity|].
  destruct (hit (fst kv)); simpl; apply IH.
Qed.

Lemma fold_left_ext :
  forall (A B : Type) (f g : A -> B -> A) (l : list B) (a : A),
    (forall a b, f a b = g a b) -> fold_left f l a = fold_left g l a.
Proof.
  intros A B f g l. induction l as [|b l IH]; intros a H; simpl;
    [reflexivity|].
  rewrite H. apply IH. exact H.
Qed.

(** *** C# *)

Lemma cs_detect_one_eq :
  forall all_usings prefix name detected,
    CSharp.detect_one all_usings prefix name detected
    = if cs_hit all_usings prefix
      then if mem name detected then detected else detected ++ [name]
      else detected.
Proof.
  induction all_usings as [|u us IH]; intros; simpl; [reflexivity|].
  destruct (startswith u prefix); simpl; [reflexivity|apply IH].
Qed.

Lemma cs_detect_eq :
  forall table all_usings,
    CSharp.detect_frameworks_in table all_usings
    = dedup (List.map snd
               (filter (fun kv => cs_hit all_usings (fst kv)) table)).
Proof.
  intros. unfold CSharp.detect_frameworks_in, dedup. fold dedup_step.
  rewrite <- (scan_dedup (cs_hit all_usings)).
  symmetry. apply fold_left_ext. intros detected kv.
  symmetry. apply cs_detect_one_eq.
Qed.

(** *** TypeScript *)

Lemma ts_detect_one_eq :
  forall all_imports imp name detected,
    TypeScript.detect_one all_imports imp name detected
    = if ts_hit all_imports imp
      then if mem name detected then detected else detected ++ [name]
      else detected.
Proof.
  induction all_imports as [|i rest IH]; intros; simpl; [reflexivity|].
  destruct (text_eqb i imp || startswith i (imp ++ lit "/")
            || startswith i (imp ++ lit "-")); simpl; [reflexivity|apply IH].
Qed.

Lemma ts_detect_eq :
  forall table all_imports,
    TypeScript.detect_frameworks_in table all_imports
    = dedup (List.map snd
               (filter (fun kv => ts_hit all_imports (fst kv)) table)).
Proof.
  intros. unfold TypeScript.detect_frameworks_in, dedup. fold dedup_step.
  rewrite <- (scan_dedup (ts_hit all_imports)).
  symmetry. apply fold_left_ext. intros detected kv.
  symmetry. apply ts_detect_one_eq.
Qed.

(** *** Python *)

Lemma py_detect_from :
  forall (table : list (text * text)) (all_imports acc : list text),
    fold_left
      (fun (detected : list text) (kv : text * text) =>
         if mem (fst kv) all_imports then detected ++ [snd kv] else detected)
      table acc
    = acc ++ List.map snd (filter (fun kv => mem (fst kv) all_imports) table).
Proof.
  induction table as [|kv table IH]; intros; simpl.
  - now rewrite app_nil_r.
  - rewrite IH. destruct (mem (fst kv) all_imports); simpl;
      [now rewrite <- app_assoc|reflexivity].
Qed.

Lemma py_detect_eq :
  forall table all_imports,
    Python.detect_frameworks_in table all_imports
    = List.map snd (filter (fun kv => mem (fst kv) all_imports) table).
Proof. intros. apply (py_detect_from table all_imports []). Qed.

(** The order in which a set is listed does not matter to a hit test. *)
Lemma existsb_same_elements :
  forall (p : text -> bool) (l l' : list text),
    (forall x, In x l <-> In x l') -> existsb p l = existsb p l'.
Proof.
  intros p l l' H.
  destruct (existsb p l) eqn:E1, (existsb p l') eqn:E2; try reflexivity.
  - apply existsb_exists in E1. destruct E1 as (x & Hx & Hp).
    assert (existsb p l' = true)
      by (apply existsb_exists; exists x; split; [now apply H|exact Hp]).
    congruence.
  - apply existsb_exists in E2. destruct E2 as (x & Hx & Hp).
    assert (existsb p l = true)
      by (apply existsb_exists; exists x; split; [now apply H|exact Hp]).
    congruence.
Qed.

Lemma filter_ext_all :
  forall (A : Type) (p q : A -> bool) (l : list A),
    (forall a, p a = q a) -> filter p l = filter q l.
Proof. intros. apply filter_ext. assumption. Qed.

Lemma detect_order_free :
  forall l l' : list text,
    (forall x, In x l <-> In x l') ->
    CSharp.detect_frameworks l = CSharp.detect_frameworks l'
    /\ TypeScript.detect_frameworks l = TypeScript.detect_frameworks l'
    /\ Python.detect_frameworks l = Python.detect_frameworks l'.
Proof.
  intros l l' H. unfold CSharp.detect_frameworks, TypeScript.detect_frameworks,
    Python.detect_frameworks.
  rewrite !cs_detect_eq, !ts_detect_eq, !py_detect_eq.
  repeat split.
  - do 2 f_equal. apply filter_ext_all. intros kv.
    apply existsb_same_elements, H.
  - do 2 f_equal. apply filter_ext_all. intros kv.
    apply existsb_same_elements, H.
  - f_equal. apply filter_ext_all. intros kv.
    unfold mem. apply existsb_same_elements, H.
Qed.

End FrameworkFacts.

(** ** Facts about the matcher *)

Module ReFacts.
Import Re ReSpec.

Lemma star_trans :
  forall R a b c, star R a b -> star R b c -> star R a c.
Proof.
  intros R a b c H. induction H; intros Hc; [exact Hc|].
  eapply star_step; eauto.
Qed.

(** Every result of [exec] is a result of its continuation at a position
    that the pattern can reach. *)
Lemma exec_sound :
  forall r st k res,
    exec r st k = Some res ->
    exists st', Reach r st st' /\ k st' = Some res.
Proof.
  induction r as [|p|a IHa b IHb|a IHa b IHb|a IHa|a IHa|name a IHa| | |];
    intros st k res H.
  - exists st. split; [reflexivity|exact H].
  - cbn [exec] in H.
    destruct (rest st) as [|c tl] eqn:Er; [discriminate|].
    destruct (p c) eqn:Ep; [|discriminate].
    exists (advance c tl st). split; [|exact H].
    exists c, tl. auto.
  - cbn [exec] in H.
    apply IHa in H. destruct H as (mid & Hmid & H).
    apply IHb in H. destruct H as (st' & Hst' & H).
    exists st'. split; [exists mid; auto|exact H].
  - cbn [exec] in H.
    destruct (exec a st k) as [res'|] eqn:Ea.
    + inversion H; subst. apply IHa in Ea. destruct Ea as (st' & Hst' & Hk).
      exists st'. split; [now left|exact Hk].
    + apply IHb in H. destruct H as (st' & Hst' & Hk).
      exists st'. split; [now right|exact Hk].
  - assert (Hloop : forall fuel st,
      (fix loop (fuel : nat) (st : mstate) {struct fuel} : option mstate :=
         match fuel with
         | O => k st
         | S fuel' =>
             match exec a st (fun st' =>
                                if (pos st <? pos st')%nat then loop fuel' st'
                                else None) with
             | Some res => Some res
             | None => k st
             end
         end) fuel st = Some res ->
      exists st', star (Reach a) st st' /\ k st' = Some res).
    { induction fuel as [|fuel IHf]; intros s0 H0.
      - exists s0. split; [apply star_refl|exact H0].
      - match type of H0 with
        | match ?e with _ => _ end = _ => destruct e as [res'|] eqn:Ea
        end.
        + inversion H0; subst. apply IHa in Ea.
          destruct Ea as (mid & Hmid & Hk).
          destruct (pos s0 <? pos mid)%nat; [|discriminate].
          apply IHf in Hk. destruct Hk as (st' & Hst' & Hk).
          exists st'. split; [eapply star_step; eauto|exact Hk].
        + exists s0. split; [apply star_refl|exact H0]. }
    apply (Hloop (S (List.length (rest st))) st). exact H.
  - assert (Hloop : forall fuel st,
      (fix loop (fuel : nat) (st : mstate) {struct fuel} : option mstate :=
         match fuel with
         | O => k st
         | S fuel' =>
             match k st with
             | Some res => Some res
             | None =>
                 exec a st (fun st' =>
                              if (pos st <? pos st')%nat then loop fuel' st'
                              else None)
             end
         end) fuel st = Some res ->
      exists st', star (Reach a) st st' /\ k st' = Some res).
    { induction fuel as [|fuel IHf]; intros s0 H0.
      - exists s0. split; [apply star_refl|exact H0].
      - destruct (k s0) as [res'|] eqn:Ek.
        + inversion H0; subst. exists s0. split; [apply star_refl|exact Ek].
        + apply IHa in H0. destruct H0 as (mid & Hmid & Hk).
          destruct (pos s0 <? pos mid)%nat; [|discriminate].
          apply IHf in Hk. destruct Hk as (st' & Hst' & Hk).
          exists st'. split; [eapply star_step; eauto|exact Hk]. }
    apply (Hloop (S (List.length (rest st))) st). exact H.
  - cbn [exec] in H.
    apply IHa in H. destruct H as (s1 & Hs1 & Hk).
    eexists. split; [exists s1; split; [exact Hs1|reflexivity]|exact Hk].
  - cbn [exec] in H.
    exists st. split; [reflexivity|].
    destruct (prev st) as [c|]; [destruct (c =? NEWLINE)%N|];
      try discriminate; exact H.
  - cbn [exec] in H.
    exists st. split; [reflexivity|].
    destruct (rest st) as [|c tl]; [|destruct (c =? NEWLINE)%N];
      try discriminate; exact H.
  - cbn [exec] in H.
    exists st. split; [reflexivity|].
    destruct (xorb _ _); [exact H|discriminate].
Qed.

Lemma ahead_refl : forall st, ahead st st.
Proof. intros st. exists []. simpl. split; [reflexivity|lia]. Qed.

Lemma ahead_trans :
  forall a b c, ahead a b -> ahead b c -> ahead a c.
Proof.
  intros a b c (p1 & Hr1 & Hp1) (p2 & Hr2 & Hp2).
  exists (p1 ++ p2). rewrite Hr1, Hr2, <- app_assoc, length_app.
  split; [reflexivity|lia].
Qed.

Lemma star_ahead :
  forall (R : mstate -> mstate -> Prop),
    (forall a b, R a b -> ahead a b) ->
    forall a b, star R a b -> ahead a b.
Proof.
  intros R HR a b H. induction H; [apply ahead_refl|].
  eapply ahead_trans; eauto.
Qed.

Lemma Reach_ahead : forall r st st', Reach r st st' -> ahead st st'.
Proof.
  induction r as [|p|a IHa b IHb|a IHa b IHb|a IHa|a IHa|name a IHa| | |];
    intros st st' H; cbn [Reach] in H;
    try (subst; apply ahead_refl).
  - destruct H as (c & tl & Hr & _ & ->). exists [c]. simpl.
    rewrite Hr. split; [reflexivity|lia].
  - destruct H as (mid & H1 & H2). eapply ahead_trans; eauto.
  - destruct H; eauto.
  - eapply star_ahead; eauto.
  - eapply star_ahead; eauto.
  - destruct H as (s1 & H1 & ->). apply IHa in H1.
    destruct H1 as (pre & Hr & Hp). exists pre. auto.
Qed.

Lemma Reach_advances :
  forall r st st',
    advances r = true -> Reach r st st' -> (pos st < pos st')%nat.
Proof.
  induction r as [|p|a IHa b IHb|a IHa b IHb|a IHa|a IHa|name a IHa| | |];
    intros st st' Ha H; cbn [advances] in Ha; try discriminate;
    cbn [Reach] in H.
  - destruct H as (c & tl & _ & _ & ->). simpl. lia.
  - destruct H as (mid & H1 & H2).
    pose proof (Reach_ahead _ _ _ H1) as (p1 & _ & Hp1).
    pose proof (Reach_ahead _ _ _ H2) as (p2 & _ & Hp2).
    apply orb_true_iff in Ha. destruct Ha as [Ha|Ha].
    + apply (IHa _ _ Ha) in H1. lia.
    + apply (IHb _ _ Ha) in H2. lia.
  - apply andb_true_iff in Ha. destruct Ha as [Ha Hb].
    destruct H; eauto.
  - destruct H as (s1 & H1 & ->). simpl. eauto.
Qed.

Lemma star_caps :
  forall (R : mstate -> mstate -> Prop) (n : string),
    (forall a b, R a b -> lookup n (caps b) = lookup n (caps a)) ->
    forall a b, star R a b -> lookup n (caps b) = lookup n (caps a).
Proof.
  intros R n HR a b H. induction H; [reflexivity|].
  rewrite IHstar. eauto.
Qed.

(** A pattern without a group called [n] leaves group [n] as it was. *)
Lemma Reach_keeps :
  forall n r st st',
    mentions n r = false -> Reach r st st' ->
    lookup n (caps st') = lookup n (caps st).
Proof.
  intros n.
  induction r as [|p|a IHa b IHb|a IHa b IHb|a IHa|a IHa|name a IHa| | |];
    intros st st' Hm H; cbn [mentions] in Hm; cbn [Reach] in H;
    try (subst; reflexivity).
  - destruct H as (c & tl & _ & _ & ->). reflexivity.
  - apply orb_false_iff in Hm. destruct Hm as [Hma Hmb].
    destruct H as (mid & H1 & H2).
    rewrite (IHb _ _ Hmb H2). apply (IHa _ _ Hma H1).
  - apply orb_false_iff in Hm. destruct Hm as [Hma Hmb].
    destruct H; eauto.
  - eapply star_caps; [|exact H]. intros x y Hxy. eauto.
  - eapply star_caps; [|exact H]. intros x y Hxy. eauto.
  - apply orb_false_iff in Hm. destruct Hm as [Hn Hma].
    destruct H as (s1 & H1 & ->). cbn [caps lookup]. rewrite Hn. eauto.
Qed.

(** The test [sets_nonempty] is right. *)
Lemma sets_nonempty_sound :
  forall n r st st',
    sets_nonempty n r = true -> Reach r st st' ->
    exists v, lookup n (caps st') = Some v /\ v <> [].
Proof.
  intros n.
  induction r as [|p|a IHa b IHb|a IHa b IHb|a IHa|a IHa|name a IHa| | |];
    intros st st' Hs H; cbn [sets_nonempty] in Hs; try discriminate;
    cbn [Reach] in H.
  - destruct H as (mid & H1 & H2).
    apply orb_true_iff in Hs. destruct Hs as [Hs|Hs]; [eauto|].
    apply andb_true_iff in Hs. destruct Hs as [Hsa Hmb].
    apply negb_true_iff in Hmb.
    rewrite (Reach_keeps n b _ _ Hmb H2). eauto.
  - apply andb_true_iff in Hs. destruct Hs as [Hsa Hsb].
    destruct H; eauto.
  - destruct H as (s1 & H1 & ->). cbn [caps lookup].
    destruct (String.eqb name n) eqn:En; [|eauto].
    apply andb_true_iff in Hs. destruct Hs as [Hadv _].
    pose proof (Reach_advances _ _ _ Hadv H1) as Hlt.
    pose proof (Reach_ahead _ _ _ H1) as (pre & Hr & Hp).
    eexists. split; [reflexivity|].
    rewrite Hr. replace (pos s1 - pos st)%nat with (List.length pre) by lia.
    rewrite firstn_app, firstn_all, Nat.sub_diag. simpl. rewrite app_nil_r.
    destruct pre; [simpl in Hp; lia|discriminate].
Qed.

(** The match objects of [finditer] come from [exec]. *)
Lemma finditer_from_exec :
  forall r rest prev pos skip m,
    In m (finditer_from r prev rest pos skip) ->
    exists st0 st,
      exec r st0 Some = Some st /\ m_caps m = caps st.
Proof.
  intros r rest. induction rest as [|c tl IH]; intros prev pos skip m Hm.
  - destruct skip; cbn [finditer_from] in Hm; [|contradiction].
    unfold match_at in Hm.
    destruct (exec r _ Some) as [st|] eqn:Ee; [|contradiction].
    destruct Hm as [<-|[]]. eauto.
  - destruct skip; cbn [finditer_from] in Hm; [|eauto].
    unfold match_at in Hm.
    destruct (exec r _ Some) as [st|] eqn:Ee; [|eauto].
    destruct Hm as [<-|Hm]; eauto.
Qed.

(** In every match object of a pattern that passes the test, the group is
    set and holds at least one character. *)
Lemma finditer_group_nonempty :
  forall n r content m,
    sets_nonempty n r = true ->
    In m (finditer r content) ->
    group_or_empty m n <> [].
Proof.
  intros n r content m Hs Hm. unfold finditer in Hm.
  apply finditer_from_exec in Hm. destruct Hm as (st0 & st & He & Hc).
  apply exec_sound in He. destruct He as (st' & Hr & Hk).
  inversion Hk; subst st'.
  destruct (sets_nonempty_sound n r st0 st Hs Hr) as (v & Hv & Hne).
  unfold group_or_empty, group. rewrite Hc, Hv. exact Hne.
Qed.

End ReFacts.

(** ** The per-file extractors return *)

Module TotalityFacts.
Import Spec PyFacts BalanceFacts DepthFacts Re ReSpec ReFacts.

Lemma mapM_total :
  forall (A B : Type) (f : A -> M B) (l : list A),
    Forall (fun a => exists b, f a = ret b) l ->
    exists r, mapM f l = ret r.
Proof.
  intros A B f l H. induction H as [|a l (b & Hb) _ (r & Hr)].
  - exists []. reflexivity.
  - exists (b :: r). cbn [mapM]. rewrite Hb, Hr. reflexivity.
Qed.

(** *** C# *)

Lemma cs_parse_content_total :
  forall fp content depth,
    exists f, CSharp.parse_content fp content depth = ret f.
Proof.
  intros fp content depth. unfold CSharp.parse_content.
  destruct (mapM_total _ _ (fun m => CSharp.parse_type m content depth)
              (finditer CSharp.TYPE_PATTERN content)) as (ts & Hts).
  { apply Forall_forall. intros m _.
    destruct (cs_parse_type_eq m content) as (r & Hr).
    eexists. apply Hr. }
  rewrite Hts. cbn [bind]. eexists. reflexivity.
Qed.

(** *** TypeScript *)

Lemma function_name_set :
  sets_nonempty "name" TypeScript.FUNCTION_PATTERN = true.
Proof. reflexivity. Qed.

Lemma arrow_name_set :
  sets_nonempty "name" TypeScript.ARROW_FUNCTION_PATTERN = true.
Proof. reflexivity. Qed.

Lemma ts_is_react_component_total :
  forall name content,
    name <> [] -> exists b, TypeScript.is_react_component name content = Ret b.
Proof.
  intros name content H. unfold TypeScript.is_react_component.
  destruct name as [|c name]; [contradiction|].
  destruct (negb (isupper c)); [eauto|].
  destruct (search _ content); [eauto|].
  destruct (search _ content); eauto.
Qed.

Lemma ts_function_types_total :
  forall content ms,
    Forall (fun m => group_or_empty m "name" <> []) ms ->
    exists fs, mapM (TypeScript.function_type content) ms = ret fs.
Proof.
  intros content ms H. apply mapM_total.
  apply Forall_forall. intros m Hm. rewrite Forall_forall in H.
  unfold TypeScript.function_type.
  destruct (ts_is_react_component_total _ content (H m Hm)) as (b & ->).
  eexists. reflexivity.
Qed.

Lemma ts_arrow_types_total :
  forall content ms types,
    Forall (fun m => group_or_empty m "name" <> []) ms ->
    exists r, TypeScript.arrow_types content ms types = ret r.
Proof.
  intros content ms. induction ms as [|m ms IH]; intros types H.
  - exists types. reflexivity.
  - inversion H as [|? ? Hm Hms]; subst. cbn [TypeScript.arrow_types].
    destruct (negb (TypeScript.truthy (group m "export"))); [now apply IH|].
    destruct (ts_is_react_component_total _ content Hm) as (b & ->).
    destruct (existsb _ types); now apply IH.
Qed.

Lemma ts_parse_content_total :
  forall fp content depth,
    exists f, TypeScript.parse_content fp content depth = ret f.
Proof.
  intros fp content depth. unfold TypeScript.parse_content. cbv zeta.
  set (nc := sub_empty TypeScript.BLOCK_COMMENT
               (sub_empty TypeScript.LINE_COMMENT content)).
  destruct (mapM_total _ _ (fun m => TypeScript.parse_class m nc depth)
              (finditer TypeScript.CLASS_PATTERN nc)) as (cs & Hcs).
  { apply Forall_forall. intros m _.
    destruct (ts_parse_class_eq m nc) as (r & Hr).
    eexists. apply Hr. }
  rewrite Hcs. cbn [bind ret].
  destruct (ts_function_types_total nc
              (finditer TypeScript.FUNCTION_PATTERN nc)) as (fs & Hfs).
  { apply Forall_forall. intros m Hm.
    apply (finditer_group_nonempty _ _ _ _ function_name_set Hm). }
  rewrite Hfs. cbn [bind ret].
  match goal with
  | |- context [TypeScript.arrow_types nc ?ms ?types] =>
      destruct (ts_arrow_types_total nc ms types) as (ts & Hts)
  end.
  { apply Forall_forall. intros m Hm.
    apply (finditer_group_nonempty _ _ _ _ arrow_name_set Hm). }
  rewrite Hts. cbn [bind ret]. eexists. reflexivity.
Qed.

(** With [ts_parse_content_related]: under the three policies a file text
    gives three models whose types have the same names. *)
Lemma ts_parse_content_three :
  forall fp content,
    exists fc fm ff,
      TypeScript.parse_content fp content (lit "classes") = ret fc
      /\ TypeScript.parse_content fp content (lit "methods") = ret fm
      /\ TypeScript.parse_content fp content (lit "full") = ret ff
      /\ Forall (fun t => TypeScript.t_members t = []) (TypeScript.f_types fc)
      /\ Forall2
           (fun a b => subseq (TypeScript.t_members a) (TypeScript.t_members b))
           (TypeScript.f_types fm) (TypeScript.f_types ff).
Proof.
  intros fp content.
  pose proof (ts_parse_content_related fp content) as H.
  destruct (ts_parse_content_total fp content (lit "classes")) as (fc & Hc).
  destruct (ts_parse_content_total fp content (lit "methods")) as (fm & Hm).
  destruct (ts_parse_content_total fp content (lit "full")) as (ff & Hf).
  rewrite Hc, Hm, Hf in H. unfold ret in H. destruct H as [H0 H2].
  exists fc, fm, ff. repeat split; auto.
  - apply (ts_bare_plain _ _ H0).
  - apply (ts_within_subseq _ _ H2).
Qed.

End TotalityFacts.

(** ** Paths, dictionaries and sorting *)

Module PathFacts.
Import Spec PyFacts ExclusionFacts.

Lemma split_no_sep :
  forall a, existsb (N.eqb SLASH) a = false -> split SLASH a = [a].
Proof.
  induction a as [|c a IH]; intros H; [reflexivity|].
  cbn [existsb] in H. apply orb_false_iff in H. destruct H as [Hc Ha].
  cbn [split]. rewrite N.eqb_sym, Hc, (IH Ha). reflexivity.
Qed.

Lemma split_app_sep :
  forall a rest,
    existsb (N.eqb SLASH) a = false ->
    split SLASH (a ++ SLASH :: rest) = a :: split SLASH rest.
Proof.
  induction a as [|c a IH]; intros rest H.
  - cbn [app split]. rewrite N.eqb_refl. reflexivity.
  - cbn [existsb] in H. apply orb_false_iff in H. destruct H as [Hc Ha].
    cbn [app split]. rewrite N.eqb_sym, Hc, (IH rest Ha). reflexivity.
Qed.

Lemma wf_part_inv :
  forall s,
    wf_part s = true -> keeps s = true /\ existsb (N.eqb SLASH) s = false.
Proof.
  intros s H. unfold wf_part in H. unfold keeps.
  apply andb_true_iff in H. destruct H as [H H3].
  apply andb_true_iff in H. destruct H as [H1 H2].
  apply negb_true_iff in H1, H2, H3. rewrite H1, H2. auto.
Qed.

Lemma split_join :
  forall parts,
    forallb wf_part parts = true ->
    filter keeps (split SLASH (join [SLASH] parts)) = parts.
Proof.
  induction parts as [|p ps IH]; intros H; [reflexivity|].
  cbn [forallb] in H. apply andb_true_iff in H. destruct H as [Hp Hps].
  destruct (wf_part_inv p Hp) as [Hk Hs].
  destruct ps as [|q ps].
  - cbn [join]. rewrite (split_no_sep p Hs). cbn [filter].
    rewrite Hk. reflexivity.
  - change (join [SLASH] (p :: q :: ps))
      with (p ++ SLASH :: join [SLASH] (q :: ps)).
    rewrite (split_app_sep p _ Hs). cbn [filter]. rewrite Hk.
    f_equal. apply IH. exact Hps.
Qed.

Lemma startswith_nil : forall s, startswith s [] = true.
Proof. destruct s; reflexivity. Qed.

(** [Path(str(p))] is [p] for an absolute path of well-formed parts. *)
Lemma path_round_trip :
  forall p, wf_abs p = true -> path_of_str (path_str p) = p.
Proof.
  intros [|r parts] H; [discriminate|].
  cbn [wf_abs] in H. apply andb_true_iff in H. destruct H as [Hr Hparts].
  unfold path_str. rewrite Hr. apply text_eqb_eq in Hr. subst r.
  unfold path_of_str.
  change (fun c : text => negb (text_eqb c [] || text_eqb c [46%N])) with keeps.
  assert (E1 : startswith (SLASH :: join [SLASH] parts) [SLASH] = true).
  { cbn [startswith]. rewrite N.eqb_refl, startswith_nil. reflexivity. }
  assert (E2 : split SLASH (SLASH :: join [SLASH] parts)
               = [] :: split SLASH (join [SLASH] parts)).
  { cbn [split]. rewrite N.eqb_refl. reflexivity. }
  rewrite E1, E2. cbn [filter]. change (keeps []) with false. cbn iota.
  rewrite (split_join parts Hparts). reflexivity.
Qed.

Lemma wf_abs_app :
  forall root rel,
    wf_abs root = true -> wf_rel rel = true -> wf_abs (root ++ rel) = true.
Proof.
  intros [|r parts] rel Hroot Hrel; [discriminate|].
  simpl in *. apply andb_true_iff in Hroot. destruct Hroot as [Hr Hp].
  rewrite Hr, forallb_app, Hp. exact Hrel.
Qed.

Lemma relative_to_round_trip :
  forall root rel,
    wf_abs root = true -> wf_rel rel = true ->
    relative_to (path_of_str (path_str (root ++ rel))) root = Ret rel.
Proof.
  intros root rel Hroot Hrel.
  rewrite (path_round_trip _ (wf_abs_app root rel Hroot Hrel)).
  apply relative_to_app.
Qed.






End PathFacts.

(** ** Whole runs *)

Module RunFacts.
Import Spec PyFacts ExclusionFacts PathFacts TotalityFacts.

Lemma count_flat_map :
  forall (T X : Type) (mem : T -> list X) (l : list T) (n : nat),
    fold_left (fun n t => n + List.length (mem t)) l n
    = (n + List.length (flat_map mem l))%nat.
Proof.
  intros T X mem l. induction l as [|t l IH]; intros n; simpl; [lia|].
  rewrite IH, length_app. lia.
Qed.


(** *** C# *)

Lemma cs_parse_content_path :
  forall fp content depth f,
    CSharp.parse_content fp content depth = ret f ->
    CSharp.f_path f = path_str fp.
Proof.
  intros fp content depth f H. unfold CSharp.parse_content in H.
  destruct (mapM _ _) as [[ts|e]|]; try discriminate.
  cbn [bind ret] in H. inversion H; subst. reflexivity.
Qed.







Lemma filter_Forall :
  forall (A : Type) (P : A -> Prop) (p : A -> bool) (l : list A),
    Forall P l -> Forall P (filter p l).
Proof.
  intros A P p l H. induction H; simpl; [constructor|].
  destruct (p x); [constructor|]; assumption.
Qed.


(** *** TypeScript *)

Lemma ts_parse_content_path :
  forall fp content depth f,
    TypeScript.parse_content fp content depth = ret f ->
    TypeScript.f_path f = path_str fp.
Proof.
  intros fp content depth f H. unfold TypeScript.parse_content in H.
  cbv zeta in H.
  destruct (mapM _ _) as [[cs|e]|]; try discriminate. cbn [bind] in H.
  destruct (mapM _ _) as [[fs|e]|]; try discriminate. cbn [bind] in H.
  destruct (TypeScript.arrow_types _ _ _) as [[ts|e]|]; try discriminate.
  cbn [bind ret] in H. inversion H; subst. reflexivity.
Qed.








Lemma candidates_Forall :
  forall (P : entry -> Prop) t,
    Forall P (entries t) -> Forall P (TypeScript.candidates t).
Proof.
  intros P t H. unfold TypeScript.candidates. simpl.
  rewrite !Forall_app. repeat split; try apply filter_Forall; auto.
Qed.


(** *** Python *)




Section PyRun.

Variable ast_parse : Python.parser.




End PyRun.







(** What was handed over with a file that can be written was delivered. *)
Lemma hands_over_delivered :
  forall a payload summary err,
    can_write a -> delivered (hands_over a payload summary err) payload err.
Proof.
  intros a payload summary err [H|H]; unfold hands_over.
  - rewrite H. now left.
  - destruct (a_output a) as [out|]; [|now left].
    rewrite H. right. eauto.
Qed.

End RunFacts.

(** ** Skipped files *)

Module SkipFacts.
Import Spec PyFacts ExclusionFacts TotalityFacts.

Lemma latin1_read_returns :
  forall bs,
    read_text (fun b => Some (decode_latin1 b)) (ReadBytes bs)
    = Ret (universal_newlines (decode_latin1 bs)).
Proof. reflexivity. Qed.

(** [CSharp.parse_file] gives no model exactly when the bytes of the first
    read are not UTF-8 and the second read fails. *)
Lemma cs_skip_iff :
  forall fp reads depth w,
    CSharp.parse_file fp reads depth = ret (None, w)
    <-> (exists bs, reads 0%nat = ReadBytes bs /\ decode_utf8_sig bs = None)
        /\ reads 1%nat = ReadFails
        /\ w = [lit "Warning: Skipping unreadable file: " ++ path_str fp].
Proof.
  intros fp reads depth w. unfold CSharp.parse_file.
  assert (Hc : forall content,
    bind (CSharp.parse_content fp content depth)
      (fun fi => ret (Some fi, [])) <> ret (None, w)).
  { intros content.
    destruct (CSharp.parse_content fp content depth) as [[f|e]|];
      cbn [bind ret]; discriminate. }
  split.
  - destruct (reads 0%nat) as [bs|] eqn:E0; cbn [read_text];
      [|discriminate].
    destruct (decode_utf8_sig bs) as [t|] eqn:Ed; [intros H; now apply Hc in H|].
    destruct (reads 1%nat) as [bs'|] eqn:E1; cbn [read_text];
      [intros H; now apply Hc in H|].
    intros H. inversion H; subst. repeat split; eauto.
  - intros ((bs & E0 & Ed) & E1 & ->). rewrite E0, E1. cbn [read_text].
    rewrite Ed. reflexivity.
Qed.

(** When the second read gives bytes, the fallback gives a model. *)
Lemma cs_fallback_model :
  forall fp reads depth bs bs',
    reads 0%nat = ReadBytes bs -> decode_utf8_sig bs = None ->
    reads 1%nat = ReadBytes bs' ->
    exists f,
      CSharp.parse_file fp reads depth = ret (Some f, [])
      /\ CSharp.parse_content fp (universal_newlines (decode_latin1 bs')) depth
         = ret f.
Proof.
  intros fp reads depth bs bs' E0 Ed E1. unfold CSharp.parse_file.
  rewrite E0, E1. cbn [read_text]. rewrite Ed.
  destruct (cs_parse_content_total fp (universal_newlines (decode_latin1 bs'))
              depth) as (f & Hf).
  rewrite Hf. exists f. split; reflexivity.
Qed.

(** An error of the operating system on the first read is not caught. *)
Lemma cs_first_read_fails :
  forall fp reads depth,
    reads 0%nat = ReadFails ->
    CSharp.parse_file fp reads depth = raise OSError.
Proof. intros fp reads depth E. unfold CSharp.parse_file. now rewrite E. Qed.

Section PySkip.

Variable ast_parse : Python.parser.



Lemma py_read_fails :
  forall fp reads depth,
    reads 0%nat = ReadFails ->
    Python.parse_module ast_parse fp reads depth = Raise OSError.
Proof. intros fp reads depth E. unfold Python.parse_module. now rewrite E. Qed.


(** An exception of [ast.parse] other than [SyntaxError] is not caught. *)
Lemma py_parse_aborts :
  forall fp reads depth bs content x,
    reads 0%nat = ReadBytes bs -> decode_utf8 bs = Some content ->
    ast_parse (universal_newlines content) (path_str fp) = Python.Aborted x ->
    Python.parse_module ast_parse fp reads depth = Raise x.
Proof.
  intros fp reads depth bs content x E Ed Ep. unfold Python.parse_module.
  rewrite E. cbn [read_text]. now rewrite Ed, Ep.
Qed.



End PySkip.

End SkipFacts.

(** ** String search and the marked section *)

Module MdFacts.
Import ClaudeMd MdSpec.

Lemma startswith_app_self : forall p b : text, startswith (p ++ b) p = true.
Proof.
  induction p as [|a p IH]; intros b; [now destruct b|].
  cbn [app startswith]. now rewrite N.eqb_refl, IH.
Qed.

Lemma startswith_inv :
  forall s p : text, startswith s p = true -> exists r, s = p ++ r.
Proof.
  intros s p. revert s.
  induction p as [|a p IH]; intros s H; [now exists s|].
  destruct s as [|b s]; [discriminate|]. cbn [startswith] in H.
  apply andb_true_iff in H. destruct H as [Hab H].
  apply N.eqb_eq in Hab. subst b.
  destruct (IH s H) as (r & ->). now exists r.
Qed.

Lemma startswith_app_l :
  forall a b p : text, startswith a p = true -> startswith (a ++ b) p = true.
Proof.
  intros a b p H. destruct (startswith_inv a p H) as (r & ->).
  rewrite <- app_assoc. apply startswith_app_self.
Qed.

Lemma startswith_app_inv :
  forall a b p : text,
    startswith (a ++ b) p = true -> (List.length p <= List.length a)%nat ->
    startswith a p = true.
Proof.
  intros a b p. revert a.
  induction p as [|c p IH]; intros a H Hl; [now destruct a|].
  destruct a as [|d a]; [simpl in Hl; lia|].
  cbn [app startswith] in *. apply andb_true_iff in H. destruct H as [-> H].
  cbn [andb]. apply IH; [exact H|simpl in Hl; lia].
Qed.

(** A pattern without the character [c] does not reach over a [c]. *)
Lemma startswith_sep :
  forall (c : codepoint) (x b p : text),
    ~ In c p -> startswith (x ++ c :: b) p = true -> startswith x p = true.
Proof.
  intros c x b p. revert x.
  induction p as [|d p IH]; intros x Hc H; [now destruct x|].
  destruct x as [|a x]; cbn [app startswith] in *.
  - apply andb_true_iff in H. destruct H as [H _]. apply N.eqb_eq in H.
    subst d. exfalso. apply Hc. now left.
  - apply andb_true_iff in H. destruct H as [-> H]. cbn [andb].
    apply IH; [|exact H]. intros Hin. apply Hc. now right.
Qed.

Lemma occ_0 : forall s p, occ s p 0 = startswith s p.
Proof. reflexivity. Qed.

Lemma occ_S : forall a s p j, occ (a :: s) p (S j) = occ s p j.
Proof. reflexivity. Qed.

Lemma occ_nil : forall p j, occ [] p j = startswith [] p.
Proof. intros p j. unfold occ. now rewrite skipn_nil. Qed.

Lemma find_offset_Some :
  forall s p i,
    find_offset s p = Some i ->
    occ s p i = true /\ (i <= List.length s)%nat
    /\ forall j, (j < i)%nat -> occ s p j = false.
Proof.
  induction s as [|a s IH]; intros p i H; cbn [find_offset] in H.
  - destruct (startswith [] p) eqn:E; [|discriminate].
    inversion H; subst. repeat split; [exact E|lia|intros; lia].
  - destruct (startswith (a :: s) p) eqn:E.
    + inversion H; subst. repeat split; [exact E|simpl; lia|intros; lia].
    + destruct (find_offset s p) as [i'|] eqn:Ef; [|discriminate].
      inversion H; subst. destruct (IH p i' Ef) as (Ho & Hl & Hm).
      repeat split; [exact Ho|simpl; lia|].
      intros [|j] Hj; [exact E|]. rewrite occ_S. apply Hm. lia.
Qed.

Lemma find_offset_None :
  forall s p, find_offset s p = None -> forall j, occ s p j = false.
Proof.
  induction s as [|a s IH]; intros p H j; cbn [find_offset] in H.
  - destruct (startswith [] p) eqn:E; [discriminate|].
    now rewrite occ_nil.
  - destruct (startswith (a :: s) p) eqn:E; [discriminate|].
    destruct (find_offset s p) eqn:Ef; [discriminate|].
    destruct j as [|j]; [exact E|]. rewrite occ_S. now apply IH.
Qed.

Lemma find_offset_first :
  forall i s p,
    occ s p i = true -> (forall j, (j < i)%nat -> occ s p j = false) ->
    find_offset s p = Some i.
Proof.
  induction i as [|i IH]; intros s p Ho Hm.
  - rewrite occ_0 in Ho. destruct s; cbn [find_offset]; now rewrite Ho.
  - assert (E : startswith s p = false) by (apply (Hm 0%nat); lia).
    destruct s as [|a s].
    + rewrite occ_nil in Ho. congruence.
    + cbn [find_offset]. rewrite E. rewrite occ_S in Ho.
      rewrite (IH s p Ho); [reflexivity|].
      intros j Hj. rewrite <- (occ_S a). apply Hm. lia.
Qed.

Lemma contains_occ :
  forall s p j, occ s p j = true -> contains s p = true.
Proof.
  induction s as [|a s IH]; intros p j H.
  - rewrite occ_nil in H. cbn [contains]. now rewrite H.
  - cbn [contains]. destruct j as [|j].
    + rewrite occ_0 in H. now rewrite H.
    + rewrite occ_S in H. rewrite (IH p j H). apply orb_true_r.
Qed.

Lemma contains_false_occ :
  forall s p j, contains s p = false -> occ s p j = false.
Proof.
  intros s p j H. destruct (occ s p j) eqn:E; [|reflexivity].
  apply contains_occ in E. congruence.
Qed.

Lemma occ_false_contains :
  forall s p, (forall j, occ s p j = false) -> contains s p = false.
Proof.
  induction s as [|a s IH]; intros p H; cbn [contains].
  - rewrite <- (occ_0 [] p), H. reflexivity.
  - rewrite <- (occ_0 (a :: s) p), H. cbn [orb]. apply IH.
    intros j. rewrite <- (occ_S a). apply H.
Qed.

Lemma find_offset_contains :
  forall s p, find_offset s p = None <-> contains s p = false.
Proof.
  intros s p. split; intros H.
  - apply occ_false_contains. now apply find_offset_None.
  - destruct (find_offset s p) as [i|] eqn:E; [|reflexivity].
    apply find_offset_Some in E. destruct E as (Ho & _).
    apply contains_occ in Ho. congruence.
Qed.

Lemma find_Some : forall s p i, find_offset s p = Some i -> find s p = Z.of_nat i.
Proof. intros s p i H. unfold find. now rewrite H. Qed.

Lemma find_None : forall s p, find_offset s p = None -> find s p = (-1)%Z.
Proof. intros s p H. unfold find. now rewrite H. Qed.

Lemma find_cases :
  forall s p,
    (find s p = (-1)%Z /\ find_offset s p = None)
    \/ exists i, find s p = Z.of_nat i /\ find_offset s p = Some i.
Proof.
  intros s p. unfold find. destruct (find_offset s p) as [i|].
  - right. now exists i.
  - now left.
Qed.

(** An occurrence that lies inside a prefix is an occurrence in the
    prefix. *)
Lemma occ_window :
  forall u v p j,
    (j + List.length p <= List.length u)%nat ->
    occ (u ++ v) p j = occ u p j.
Proof.
  intros u v p j H. unfold occ. rewrite skipn_app.
  replace (j - List.length u)%nat with 0%nat by lia. cbn [skipn].
  assert (Hl : (List.length p <= List.length (skipn j u))%nat)
    by (rewrite length_skipn; lia).
  destruct (startswith (skipn j u) p) eqn:E.
  - now apply startswith_app_l.
  - destruct (startswith (skipn j u ++ v) p) eqn:E'; [|reflexivity].
    apply startswith_app_inv in E'; [congruence|exact Hl].
Qed.

Lemma occ_shared_prefix :
  forall u v v' p j,
    (j + List.length p <= List.length u)%nat ->
    occ (u ++ v) p j = occ (u ++ v') p j.
Proof. intros u v v' p j H. now rewrite !occ_window. Qed.

Lemma occ_app_l :
  forall u v p j, occ u p j = true -> (j <= List.length u)%nat ->
                  occ (u ++ v) p j = true.
Proof.
  intros u v p j H Hj. unfold occ in *. rewrite skipn_app.
  replace (j - List.length u)%nat with 0%nat by lia. cbn [skipn].
  now apply startswith_app_l.
Qed.

Lemma occ_app_r :
  forall u v p j, occ (u ++ v) p (List.length u + j) = occ v p j.
Proof.
  intros u v p j. unfold occ. rewrite skipn_app.
  rewrite skipn_all2 by lia.
  replace (List.length u + j - List.length u)%nat with j by lia.
  reflexivity.
Qed.

Lemma contains_app_l :
  forall a b p, contains (a ++ b) p = false -> contains a p = false.
Proof.
  intros a b p H. apply occ_false_contains. intros j.
  destruct (occ a p j) eqn:E; [|reflexivity].
  destruct (Nat.le_gt_cases j (List.length a)) as [Hj|Hj].
  - apply (occ_app_l a b) in E; [|exact Hj].
    apply contains_occ in E. congruence.
  - unfold occ in E. rewrite skipn_all2 in E by lia.
    assert (E' : occ (a ++ b) p (List.length a) = true).
    { apply occ_app_l; [|lia]. unfold occ. rewrite skipn_all. exact E. }
    apply contains_occ in E'. congruence.
Qed.

Lemma contains_firstn :
  forall n s p, contains s p = false -> contains (firstn n s) p = false.
Proof.
  intros n s p H. rewrite <- (firstn_skipn n s) in H.
  now apply contains_app_l in H.
Qed.

Lemma contains_mid : forall a p b, contains (a ++ p ++ b) p = true.
Proof.
  intros a p b. apply (contains_occ _ _ (List.length a)).
  rewrite <- (Nat.add_0_r (List.length a)), occ_app_r, occ_0.
  apply startswith_app_self.
Qed.

(** The scan goes over a piece without occurrence that ends in a character
    the pattern does not have. *)
Lemma find_offset_skip :
  forall (c : codepoint) (a b p : text),
    contains a p = false -> ~ In c p ->
    find_offset (a ++ c :: b) p
    = option_map (fun i => (List.length a + 1 + i)%nat) (find_offset b p).
Proof.
  intros c a b p Ha Hc.
  assert (Hs : forall x, startswith x p = false ->
                         startswith (x ++ c :: b) p = false).
  { intros x Hx. destruct (startswith (x ++ c :: b) p) eqn:E; [|reflexivity].
    apply startswith_sep in E; [congruence|exact Hc]. }
  induction a as [|x a IH].
  - cbn [app find_offset]. cbn [contains] in Ha.
    rewrite orb_false_r in Ha. pose proof (Hs [] Ha) as H0.
    cbn [app] in H0. rewrite H0.
    destruct (find_offset b p); reflexivity.
  - cbn [contains] in Ha. apply orb_false_iff in Ha. destruct Ha as [H0 Ha].
    cbn [app find_offset]. pose proof (Hs _ H0) as H1.
    cbn [app] in H1. rewrite H1.
    rewrite (IH Ha). destruct (find_offset b p); reflexivity.
Qed.

Lemma find_offset_skip_one :
  forall (c : codepoint) (b p : text),
    contains [] p = false -> ~ In c p ->
    find_offset (c :: b) p = option_map S (find_offset b p).
Proof.
  intros c b p Hn Hc.
  change (c :: b) with ([] ++ c :: b).
  rewrite (find_offset_skip c [] b p Hn Hc).
  destruct (find_offset b p); reflexivity.
Qed.

Lemma find_offset_here : forall p b, find_offset (p ++ b) p = Some 0%nat.
Proof.
  intros p b. apply find_offset_first; [|intros; lia].
  rewrite occ_0. apply startswith_app_self.
Qed.

(** The first occurrence is at the end of [a] when [p] starts there and
    nowhere before. *)
Lemma find_offset_at :
  forall a b p,
    startswith b p = true ->
    (forall j, (j < List.length a)%nat -> occ (a ++ b) p j = false) ->
    find_offset (a ++ b) p = Some (List.length a).
Proof.
  intros a b p Hb Hm. apply find_offset_first; [|exact Hm].
  rewrite <- (Nat.add_0_r (List.length a)), occ_app_r. exact Hb.
Qed.

(** *** Stripping *)

Lemma lstrip_split :
  forall s, exists ws, s = ws ++ lstrip s /\ forallb isspace ws = true.
Proof.
  induction s as [|c s IH]; [now exists []|].
  cbn [lstrip]. destruct (isspace c) eqn:E.
  - destruct IH as (ws & Hs & Hw). exists (c :: ws). cbn [app forallb].
    rewrite E, Hw. split; [now rewrite <- Hs|reflexivity].
  - now exists [].
Qed.

Lemma lstrip_spaces :
  forall ws s, forallb isspace ws = true -> lstrip (ws ++ s) = lstrip s.
Proof.
  induction ws as [|c ws IH]; intros s H; [reflexivity|].
  cbn [forallb] in H. apply andb_true_iff in H. destruct H as [Hc H].
  cbn [app lstrip]. rewrite Hc. now apply IH.
Qed.

Lemma lstrip_idem : forall s, lstrip (lstrip s) = lstrip s.
Proof.
  induction s as [|c s IH]; [reflexivity|].
  cbn [lstrip]. destruct (isspace c) eqn:E; [exact IH|].
  cbn [lstrip]. now rewrite E.
Qed.

Lemma forallb_rev :
  forall (A : Type) (f : A -> bool) (l : list A),
    forallb f (rev l) = forallb f l.
Proof.
  intros A f l. induction l as [|a l IH]; [reflexivity|].
  cbn [rev forallb]. rewrite forallb_app, IH. cbn [forallb].
  rewrite andb_true_r. apply andb_comm.
Qed.

Lemma rstrip_split :
  forall s, exists ws, s = rstrip s ++ ws /\ forallb isspace ws = true.
Proof.
  intros s. destruct (lstrip_split (rev s)) as (ws & Hs & Hw).
  exists (rev ws). split; [|now rewrite forallb_rev].
  unfold rstrip. rewrite <- rev_app_distr, <- Hs. now rewrite rev_involutive.
Qed.

Lemma rstrip_spaces :
  forall s ws, forallb isspace ws = true -> rstrip (s ++ ws) = rstrip s.
Proof.
  intros s ws H. unfold rstrip. rewrite rev_app_distr.
  rewrite lstrip_spaces by (now rewrite forallb_rev). reflexivity.
Qed.

Lemma rstrip_idem : forall s, rstrip (rstrip s) = rstrip s.
Proof.
  intros s. unfold rstrip. rewrite rev_involutive, lstrip_idem. reflexivity.
Qed.

Lemma contains_rstrip :
  forall s p, contains s p = false -> contains (rstrip s) p = false.
Proof.
  intros s p H. destruct (rstrip_split s) as (ws & Hs & _).
  rewrite Hs in H. now apply contains_app_l in H.
Qed.

(** *** The markers *)

Lemma START_no_newline : ~ In NEWLINE START_MARKER.
Proof.
  intros H. apply (In_nth _ _ 0%N) in H. destruct H as (n & Hn & E).
  revert n Hn E. vm_compute List.length.
  do 33 (destruct n as [|n]; [discriminate|]). intros; lia.
Qed.

Lemma END_no_newline : ~ In NEWLINE END_MARKER.
Proof.
  intros H. apply (In_nth _ _ 0%N) in H. destruct H as (n & Hn & E).
  revert n Hn E. vm_compute List.length.
  do 31 (destruct n as [|n]; [discriminate|]). intros; lia.
Qed.

Lemma nil_without_START : contains [] START_MARKER = false.
Proof. reflexivity. Qed.

Lemma nil_without_END : contains [] END_MARKER = false.
Proof. reflexivity. Qed.

Lemma START_without_END : contains START_MARKER END_MARKER = false.
Proof. vm_compute. reflexivity. Qed.

Lemma START_tail_without_END :
  forall k, occ START_MARKER END_MARKER (S k) = false.
Proof.
  intros k. apply contains_false_occ with (s := tl START_MARKER) (j := k).
  vm_compute. reflexivity.
Qed.

(** *** The two branches of [update_claude_md] *)

Lemma updated_replace :
  forall path content m insert_after s e,
    find_offset content START_MARKER = Some s ->
    find_offset content END_MARKER = Some e ->
    updated path content m insert_after
    = (firstn s content ++ START_MARKER ++ NEWLINE :: m
       ++ NEWLINE :: skipn e content,
       lit "Updated existing map section in " ++ path).
Proof.
  intros path content m insert_after s e Hs He. unfold updated.
  rewrite (find_Some _ _ _ Hs), (find_Some _ _ _ He).
  replace (Z.of_nat s =? -1)%Z with false by (symmetry; apply Z.eqb_neq; lia).
  replace (Z.of_nat e =? -1)%Z with false by (symmetry; apply Z.eqb_neq; lia).
  cbn [negb andb]. rewrite !Nat2Z.id. reflexivity.
Qed.

Lemma updated_fresh :
  forall path content m insert_after,
    find_offset content START_MARKER = None
    \/ find_offset content END_MARKER = None ->
    fst (updated path content m insert_after)
    = with_section
        (rstrip (firstn (insertion_point content insert_after) content))
        m (skipn (insertion_point content insert_after) content).
Proof.
  intros path content m insert_after H. unfold updated.
  assert (E : negb (find content START_MARKER =? -1)%Z
              && negb (find content END_MARKER =? -1)%Z = false).
  { destruct H as [H|H]; rewrite (find_None _ _ H); cbn [Z.eqb negb];
      [reflexivity|apply andb_false_r]. }
  rewrite E. unfold insertion_point, with_section, marked_section.
  destruct (section_end content insert_after) as [z|]; cbn [fst].
  - rewrite <- ?app_assoc. reflexivity.
  - rewrite firstn_all, skipn_all, <- ?app_assoc. reflexivity.
Qed.

(** Where the markers are in a file that has just got its section. *)
Lemma find_START_fresh :
  forall x m y,
    contains x START_MARKER = false ->
    find_offset (with_section x m y) START_MARKER
    = Some (List.length x + 2)%nat.
Proof.
  intros x m y Hx. unfold with_section.
  rewrite (find_offset_skip NEWLINE x _ _ Hx START_no_newline).
  rewrite (find_offset_skip_one NEWLINE _ _ nil_without_START
             START_no_newline).
  rewrite find_offset_here. cbn [option_map List.length]. f_equal. lia.
Qed.

Lemma find_END_fresh :
  forall x m y,
    contains x END_MARKER = false -> contains m END_MARKER = false ->
    find_offset (with_section x m y) END_MARKER
    = Some (List.length x + 2 + List.length START_MARKER + 1
            + List.length m + 1)%nat.
Proof.
  intros x m y Hx Hm. unfold with_section.
  rewrite (find_offset_skip NEWLINE x _ _ Hx END_no_newline).
  rewrite (find_offset_skip_one NEWLINE _ _ nil_without_END END_no_newline).
  rewrite (find_offset_skip NEWLINE START_MARKER _ _ START_without_END
             END_no_newline).
  rewrite (find_offset_skip NEWLINE m _ _ Hm END_no_newline).
  rewrite find_offset_here. cbn [option_map List.length]. f_equal. lia.
Qed.

(** A file in which the start marker comes first, cut at the markers. *)
Lemma markers_split :
  forall content s e,
    find_offset content START_MARKER = Some s ->
    find_offset content END_MARKER = Some e ->
    exists y z,
      content = firstn s content ++ START_MARKER ++ y
      /\ skipn e content = END_MARKER ++ z
      /\ List.length (firstn s content) = s.
Proof.
  intros content s e Hs He.
  apply find_offset_Some in Hs. destruct Hs as (Ho & Hl & _).
  apply find_offset_Some in He. destruct He as (Ho' & _ & _).
  destruct (startswith_inv _ _ Ho) as (y & Hy).
  destruct (startswith_inv _ _ Ho') as (z & Hz).
  exists y, z. split; [|split; [exact Hz|]].
  - rewrite <- Hy. symmetry. apply firstn_skipn.
  - apply firstn_length_le. exact Hl.
Qed.

(** After a replacement the start marker is found where it was. *)
Lemma find_START_replaced :
  forall content s y r,
    find_offset content START_MARKER = Some s ->
    content = firstn s content ++ START_MARKER ++ y ->
    find_offset (firstn s content ++ START_MARKER ++ r) START_MARKER = Some s.
Proof.
  intros content s y r Hs Hc.
  apply find_offset_Some in Hs. destruct Hs as (_ & Hl & Hm).
  assert (Hlen : List.length (firstn s content) = s)
    by (now apply firstn_length_le).
  rewrite <- Hlen at 2. apply find_offset_at; [apply startswith_app_self|].
  intros j Hj. rewrite Hlen in Hj.
  rewrite app_assoc, occ_window by (rewrite length_app; lia).
  rewrite <- (occ_window (firstn s content ++ START_MARKER) y)
    by (rewrite length_app; lia).
  rewrite <- app_assoc, <- Hc. now apply Hm.
Qed.

(** With the start marker first, the end marker is not met before the end
    of the start marker. *)
Lemma no_END_before :
  forall content s e y,
    find_offset content START_MARKER = Some s ->
    find_offset content END_MARKER = Some e ->
    (s < e)%nat ->
    content = firstn s content ++ START_MARKER ++ y ->
    contains (firstn s content ++ START_MARKER) END_MARKER = false.
Proof.
  intros content s e y Hs He Hse Hc.
  apply find_offset_Some in Hs. destruct Hs as (_ & Hl & _).
  apply find_offset_Some in He. destruct He as (_ & _ & Hm).
  assert (Hlen : List.length (firstn s content) = s)
    by (now apply firstn_length_le).
  apply occ_false_contains. intros j.
  destruct (Nat.le_gt_cases j s) as [Hj|Hj].
  - destruct (occ (firstn s content ++ START_MARKER) END_MARKER j) eqn:E;
      [|reflexivity].
    apply (occ_app_l _ y) in E; [|rewrite length_app; lia].
    rewrite <- app_assoc, <- Hc in E. rewrite Hm in E by lia. discriminate.
  - replace j with (List.length (firstn s content) + S (j - s - 1))%nat by lia.
    rewrite occ_app_r. apply START_tail_without_END.
Qed.

Lemma find_END_replaced :
  forall content s e y z m,
    find_offset content START_MARKER = Some s ->
    find_offset content END_MARKER = Some e ->
    (s < e)%nat ->
    content = firstn s content ++ START_MARKER ++ y ->
    contains m END_MARKER = false ->
    find_offset
      (firstn s content ++ START_MARKER ++ NEWLINE :: m
       ++ NEWLINE :: END_MARKER ++ z) END_MARKER
    = Some (s + List.length START_MARKER + 1 + List.length m + 1)%nat.
Proof.
  intros content s e y z m Hs He Hse Hc Hm.
  pose proof (no_END_before content s e y Hs He Hse Hc) as Hn.
  apply find_offset_Some in Hs. destruct Hs as (_ & Hl & _).
  assert (Hlen : List.length (firstn s content) = s)
    by (now apply firstn_length_le).
  rewrite app_assoc.
  rewrite (find_offset_skip NEWLINE _ _ _ Hn END_no_newline).
  rewrite (find_offset_skip NEWLINE m _ _ Hm END_no_newline).
  rewrite find_offset_here. cbn [option_map]. rewrite length_app, Hlen.
  f_equal. lia.
Qed.

Lemma firstn_app_exact :
  forall (A : Type) (a b : list A) n, n = List.length a -> firstn n (a ++ b) = a.
Proof.
  intros A a b n ->. rewrite firstn_app, Nat.sub_diag, firstn_all.
  cbn [firstn]. apply app_nil_r.
Qed.

Lemma skipn_app_exact :
  forall (A : Type) (a b : list A) n, n = List.length a -> skipn n (a ++ b) = b.
Proof.
  intros A a b n ->. rewrite skipn_app, Nat.sub_diag, skipn_all.
  reflexivity.
Qed.

(** *** [read_maps] *)

Lemma read_sections_eq :
  forall map_files sections err,
    maps_readable map_files ->
    read_sections map_files sections err
    = (Ret (sections ++ filter_map section_of map_files),
       err ++ filter_map missing_warning map_files).
Proof.
  induction map_files as [|f fs IH]; intros sections err Hr.
  - cbn [read_sections filter_map]. now rewrite !app_nil_r.
  - inversion Hr as [|? ? Hf Hfs]; subst.
    cbn [read_sections filter_map]. unfold section_of, missing_warning.
    destruct (mf_exists f) eqn:Ex; cbn [negb].
    + destruct (Hf eq_refl) as (content & Hc). rewrite Hc.
      destruct (strip content) as [|c t] eqn:Es.
      * now apply IH.
      * rewrite IH by exact Hfs. now rewrite <- app_assoc.
    + rewrite IH by exact Hfs. now rewrite <- app_assoc.
Qed.

(** *** The text that an update writes *)

Lemma find_not_minus_one :
  forall s p, contains s p = true -> exists i, find_offset s p = Some i.
Proof.
  intros s p H. destruct (find_offset s p) as [i|] eqn:E; [now exists i|].
  apply find_offset_contains in E. congruence.
Qed.

Lemma with_section_cut_START :
  forall x m y,
    with_section x m y
    = (x ++ [NEWLINE; NEWLINE])
      ++ START_MARKER ++ NEWLINE :: m ++ NEWLINE :: END_MARKER ++ NEWLINE :: y.
Proof. intros. unfold with_section. now rewrite <- app_assoc. Qed.

Lemma with_section_cut_END :
  forall x m y,
    with_section x m y
    = (x ++ [NEWLINE; NEWLINE] ++ START_MARKER ++ [NEWLINE] ++ m ++ [NEWLINE])
      ++ END_MARKER ++ NEWLINE :: y.
Proof. intros. unfold with_section. now rewrite <- !app_assoc. Qed.

Lemma replaced_cut_END :
  forall (pre m z : text),
    pre ++ START_MARKER ++ NEWLINE :: m ++ NEWLINE :: END_MARKER ++ z
    = (pre ++ START_MARKER ++ [NEWLINE] ++ m ++ [NEWLINE]) ++ END_MARKER ++ z.
Proof. intros. now rewrite <- !app_assoc. Qed.

(** The text before the section of a file without markers has none. *)
Lemma fresh_prefix_clean :
  forall content n p,
    find_offset content p = None ->
    contains (rstrip (firstn n content)) p = false.
Proof.
  intros content n p H. apply contains_rstrip, contains_firstn.
  now apply find_offset_contains.
Qed.

Lemma find_absent :
  forall s p, find s p = (-1)%Z -> find_offset s p = None.
Proof.
  intros s p H. destruct (find_cases s p) as [[_ E]|(i & E & _)];
    [exact E|lia].
Qed.

Lemma find_present :
  forall s p, (0 <= find s p)%Z -> find_offset s p = Some (Z.to_nat (find s p)).
Proof.
  intros s p H. destruct (find_cases s p) as [[E _]|(i & E & E')];
    [lia|]. now rewrite E, Nat2Z.id.
Qed.

(** Whatever the file was, both markers are found in the text that an
    update writes. *)
Lemma updated_has_markers :
  forall path content m insert_after,
    exists s e,
      find_offset (fst (updated path content m insert_after)) START_MARKER
      = Some s
      /\ find_offset (fst (updated path content m insert_after)) END_MARKER
         = Some e.
Proof.
  intros path content m ia.
  set (new := fst (updated path content m ia)).
  assert (H : contains new START_MARKER = true
              /\ contains new END_MARKER = true).
  { unfold new.
    destruct (find_offset content START_MARKER) as [s|] eqn:Hs;
      [destruct (find_offset content END_MARKER) as [e|] eqn:He|].
    - destruct (markers_split content s e Hs He) as (y & z & _ & Hz & _).
      rewrite (updated_replace path content m ia s e Hs He). cbn [fst].
      rewrite Hz. split; [apply contains_mid|].
      rewrite replaced_cut_END. apply contains_mid.
    - rewrite (updated_fresh path content m ia (or_intror He)).
      split; [rewrite with_section_cut_START|rewrite with_section_cut_END];
        apply contains_mid.
    - rewrite (updated_fresh path content m ia (or_introl Hs)).
      split; [rewrite with_section_cut_START|rewrite with_section_cut_END];
        apply contains_mid. }
  destruct H as [HS HE].
  destruct (find_not_minus_one _ _ HS) as (s & Hs).
  destruct (find_not_minus_one _ _ HE) as (e & He).
  now exists s, e.
Qed.

End MdFacts.

(** ** Decoding, decorators and class bodies *)

Module MoreFacts.
Import Spec MoreSpec PyFacts ExclusionFacts FrameworkFacts ReFacts.
Import TotalityFacts PathFacts RunFacts SkipFacts.
Import Re.

(** *** Reading *)

Lemma decode_sig_bom :
  forall bs, decode_utf8_sig (BOM ++ bs) = decode_utf8 bs.
Proof. reflexivity. Qed.

Lemma decode_sig_plain :
  forall bs,
    has_bom bs = false -> decode_utf8 bs <> None ->
    decode_utf8_sig bs = decode_utf8 bs.
Proof.
  intros bs H Hd. unfold decode_utf8_sig, has_bom in *.
  destruct bs as [|x0 [|x1 [|x2 t]]]; try reflexivity.
  - cbn [bom_startswith List.map].
    destruct (byte_val x0 =? 239)%N eqn:E; [|reflexivity].
    exfalso. apply Hd. apply N.eqb_eq in E.
    cbn [decode_utf8]. rewrite E. reflexivity.
  - cbn [bom_startswith List.map].
    destruct (byte_val x0 =? 239)%N eqn:E; [|reflexivity].
    destruct (byte_val x1 =? 187)%N eqn:E1; [|reflexivity].
    exfalso. apply Hd. apply N.eqb_eq in E.
    cbn [decode_utf8]. rewrite E. reflexivity.
  - now rewrite H.
Qed.

Lemma cs_parse_file_raise :
  forall fp reads depth e,
    CSharp.parse_file fp reads depth = raise e
    <-> e = OSError /\ reads 0%nat = ReadFails.
Proof.
  intros fp reads depth e. unfold CSharp.parse_file.
  assert (Hc : forall content,
    bind (CSharp.parse_content fp content depth)
      (fun fi => ret (Some fi, ([] : list text))) <> raise e).
  { intros content.
    destruct (cs_parse_content_total fp content depth) as (f & ->).
    cbn [bind ret]. discriminate. }
  destruct (reads 0%nat) as [bs|]; cbn [read_text].
  - split; [|intros [_ H]; discriminate].
    destruct (decode_utf8_sig bs) as [t|]; [intros H; now apply Hc in H|].
    destruct (reads 1%nat) as [bs'|]; cbn [read_text];
      [intros H; now apply Hc in H|discriminate].
  - split; [intros H; inversion H; auto|intros [-> _]; reflexivity].
Qed.

Lemma ts_parse_file_raise :
  forall fp reads depth e,
    TypeScript.parse_file fp reads depth = raise e
    <-> e = OSError /\ reads 0%nat = ReadFails.
Proof.
  intros fp reads depth e. unfold TypeScript.parse_file.
  destruct (reads 0%nat) as [bs|]; cbn [read_text].
  - split; [|intros [_ H]; discriminate].
    destruct (decode_utf8 bs) as [t|]; [|discriminate].
    destruct (ts_parse_content_total fp (universal_newlines t) depth)
      as (f & ->).
    cbn [bind ret]. discriminate.
  - split; [intros H; inversion H; auto|intros [-> _]; reflexivity].
Qed.

Lemma ts_skip_iff :
  forall fp reads depth w,
    TypeScript.parse_file fp reads depth = ret (None, w)
    <-> (exists bs, reads 0%nat = ReadBytes bs /\ decode_utf8 bs = None)
        /\ w = [lit "Warning: Skipping non-UTF8 file: " ++ path_str fp].
Proof.
  intros fp reads depth w. unfold TypeScript.parse_file. split.
  - destruct (reads 0%nat) as [bs|] eqn:E0; cbn [read_text];
      [|discriminate].
    destruct (decode_utf8 bs) as [t|] eqn:Ed.
    + destruct (ts_parse_content_total fp (universal_newlines t) depth)
        as (f & ->).
      cbn [bind ret]. discriminate.
    + intros H. inversion H; subst. split; eauto.
  - intros ((bs & E0 & Ed) & ->). rewrite E0. cbn [read_text].
    now rewrite Ed.
Qed.

(** *** Names of decorators *)

Lemma dotted_snoc :
  forall h attrs a,
    dotted h (attrs ++ [a]) = Python.Attribute (dotted h attrs) a.
Proof. intros. unfold dotted. now rewrite fold_left_app. Qed.

Lemma attribute_parts_dotted :
  forall h attrs,
    Python.attribute_parts (dotted h attrs) = rev attrs ++ [h].
Proof.
  intros h attrs. induction attrs as [|a attrs IH] using rev_ind;
    [reflexivity|].
  rewrite dotted_snoc, rev_app_distr. cbn [Python.attribute_parts rev app].
  now rewrite IH.
Qed.

Lemma extract_called :
  forall n e,
    Python.extract_decorator_name (called n e)
    = Python.extract_decorator_name e.
Proof. induction n as [|n IH]; intros e; [reflexivity|apply IH]. Qed.

Lemma extract_dotted :
  forall h attrs,
    Python.extract_decorator_name (dotted h attrs) = join (lit ".") (h :: attrs).
Proof.
  intros h attrs. destruct attrs as [|a attrs] using rev_ind; [reflexivity|].
  rewrite dotted_snoc. cbn [Python.extract_decorator_name].
  rewrite <- dotted_snoc, attribute_parts_dotted.
  now rewrite rev_app_distr, rev_involutive.
Qed.

Lemma join_has_sep :
  forall (c : codepoint) h a attrs, In c (join [c] (h :: a :: attrs)).
Proof.
  intros c h a attrs. cbn [join]. apply in_or_app. right. now left.
Qed.

(** *** The members of a Python class *)

Lemma startswith_longer :
  forall s p q, startswith s (p ++ q) = true -> startswith s p = true.
Proof.
  intros s p. revert s. induction p as [|a p IH]; intros s q H;
    [now destruct s|].
  destruct s as [|b s]; [discriminate|]. cbn [app startswith] in *.
  apply andb_true_iff in H. destruct H as [-> H]. cbn [andb].
  now apply (IH s q).
Qed.

Lemma dunder_is_private :
  forall name, startswith name (lit "__") = true ->
               startswith name (lit "_") = true.
Proof. intros name. apply (startswith_longer name (lit "_") (lit "_")). Qed.

(** What [class_item] answers for a definition. *)
Lemma class_item_def :
  forall depth is_async name decorator_list,
    negb (text_eqb depth (lit "classes")) = true ->
    (if negb (text_eqb depth (lit "full")) && startswith name (lit "_")
        && negb (startswith name (lit "__"))
     then None
     else if startswith name (lit "__")
             && negb (text_eqb name (lit "__init__"))
     then None
     else
       if has_property decorator_list then Some (inr name)
       else Some (inl ((if is_async : bool then lit "async " else []) ++ name
                       ++ lit "()")))
    = if listed_name depth name
      then if has_property decorator_list then Some (inr name)
           else Some (inl ((if is_async then lit "async " else []) ++ name
                           ++ lit "()"))
      else (None : option (text + text)).
Proof.
  intros depth is_async name decorator_list Hd. unfold listed_name.
  rewrite Hd. cbn [andb].
  destruct (startswith name (lit "__")) eqn:E2.
  - rewrite (dunder_is_private name E2). cbn [negb]. rewrite andb_false_r.
    cbn [andb]. destruct (text_eqb name (lit "__init__")); reflexivity.
  - cbn [negb andb]. rewrite andb_true_r.
    destruct (text_eqb depth (lit "full")), (startswith name (lit "_"));
      reflexivity.
Qed.

(** *** The top-level package of an import *)

Lemma split_hd_no_sep :
  forall (sep : codepoint) (s : text), ~ In sep (hd [] (split sep s)).
Proof.
  intros sep s. induction s as [|c s IH]; cbn [split hd]; [tauto|].
  destruct (c =? sep)%N eqn:E; cbn [hd]; [tauto|].
  destruct (split sep s) as [|w ws]; cbn [hd] in *.
  - intros [->|[]]. now rewrite N.eqb_refl in E.
  - intros [->|H]; [now rewrite N.eqb_refl in E|now apply IH].
Qed.

Lemma set_update_NoDup :
  forall l s, NoDup s -> NoDup (set_update s l).
Proof.
  induction l as [|x l IH]; intros s H; cbn [set_update]; [exact H|].
  apply IH. destruct (mem x s) eqn:E; [exact H|].
  apply mem_not_In in E. apply NoDup_app; [exact H|constructor; [tauto|constructor]|].
  intros y Hy [<-|[]]. contradiction.
Qed.

Lemma visit_imports :
  forall (P : text -> Prop) depth l acc,
    (forall s, P (Python.top_package s)) ->
    Forall P (Python.imports acc) ->
    Forall P (Python.imports (fold_left (Python.visit depth) l acc)).
Proof.
  intros P depth l. induction l as [|node l IH]; intros acc HP H;
    [exact H|].
  cbn [fold_left]. apply IH; [exact HP|].
  destruct node as [n b body d|n body d o|n body d o|names|[m|]|ch];
    cbn [Python.visit Python.imports]; try exact H.
  - destruct ((o =? 0)%Z && _ && _); exact H.
  - destruct ((o =? 0)%Z && _ && _); exact H.
  - apply Forall_app. split; [exact H|].
    apply Forall_forall. intros x Hx. apply in_map_iff in Hx.
    destruct Hx as (s & <- & _). apply HP.
  - destruct m; [exact H|]. cbn [Python.imports].
    apply Forall_app. split; [exact H|]. constructor; [apply HP|constructor].
Qed.

(** *** The loop over the matches of the arrow pattern *)

Lemma existsb_name_In :
  forall name (types : list TypeScript.TypeInfo),
    existsb (fun t => text_eqb (TypeScript.t_name t) name) types = false ->
    ~ In name (List.map TypeScript.t_name types).
Proof.
  intros name types H Hin. apply in_map_iff in Hin.
  destruct Hin as (t & Ht & Hin).
  assert (E : existsb (fun t => text_eqb (TypeScript.t_name t) name) types
              = true).
  { apply existsb_exists. exists t. split; [exact Hin|].
    rewrite Ht. apply text_eqb_refl. }
  congruence.
Qed.

Lemma existsb_name_seen :
  forall name (types : list TypeScript.TypeInfo),
    existsb (fun t => text_eqb (TypeScript.t_name t) name) types = true ->
    In name (List.map TypeScript.t_name types).
Proof.
  intros name types H. apply existsb_exists in H.
  destruct H as (t & Hin & Ht). apply text_eqb_eq in Ht. subst name.
  now apply in_map.
Qed.

(** The loop over the arrow functions keeps what was found before. *)
Lemma ts_arrow_types_keeps :
  forall content ms types res,
    TypeScript.arrow_types content ms types = ret res ->
    forall name,
      In name (List.map TypeScript.t_name types) ->
      In name (List.map TypeScript.t_name res).
Proof.
  intros content ms. induction ms as [|m ms IH]; intros types res H name Hin.
  - inversion H; subst. exact Hin.
  - cbn [TypeScript.arrow_types] in H.
    destruct (negb (TypeScript.truthy (group m "export")));
      [apply (IH types res H name Hin)|].
    destruct (TypeScript.is_react_component (group_or_empty m "name") content)
      as [b|e]; [|discriminate].
    destruct (existsb _ types); [apply (IH types res H name Hin)|].
    apply (IH _ res H name). rewrite map_app, in_app_iff. now left.
Qed.

(** Every exported arrow function has its name among the types after the
    loop. *)
Lemma ts_arrow_types_covers :
  forall content ms types res,
    TypeScript.arrow_types content ms types = ret res ->
    forall m,
      In m ms -> TypeScript.truthy (group m "export") = true ->
      In (group_or_empty m "name") (List.map TypeScript.t_name res).
Proof.
  intros content ms. induction ms as [|m ms IH]; intros types res H m0 Hin Hex;
    [destruct Hin|].
  cbn [TypeScript.arrow_types] in H.
  destruct (TypeScript.truthy (group m "export")) eqn:Ex; cbn [negb] in H.
  - destruct (TypeScript.is_react_component (group_or_empty m "name") content)
      as [b|e]; [|discriminate].
    destruct (existsb _ types) eqn:Eseen.
    + destruct Hin as [<-|Hin]; [|apply (IH types res H m0 Hin Hex)].
      apply (ts_arrow_types_keeps _ _ _ _ H).
      now apply existsb_name_seen.
    + destruct Hin as [<-|Hin]; [|apply (IH _ res H m0 Hin Hex)].
      apply (ts_arrow_types_keeps _ _ _ _ H).
      rewrite map_app, in_app_iff. right. now left.
  - destruct Hin as [<-|Hin]; [congruence|].
    apply (IH types res H m0 Hin Hex).
Qed.

End MoreFacts.

(** ** The tree walk and the TypeScript renderer *)

Module WalkFacts.
Import Spec MoreSpec PyFacts ExclusionFacts FrameworkFacts MoreFacts.

(** *** [ast.walk] reaches every node *)

Lemma sizes_total :
  forall l : list Python.stmt,
    (fix sizes (l : list Python.stmt) : nat :=
       match l with
       | [] => 0%nat
       | x :: l' => (Python.stmt_size x + sizes l')%nat
       end) l
    = Python.total_size l.
Proof.
  induction l as [|x l IH]; [reflexivity|].
  cbn [Python.total_size]. now rewrite <- IH.
Qed.

Lemma stmt_size_children :
  forall s, Python.stmt_size s = S (Python.total_size (Python.child_stmts s)).
Proof.
  intros s. destruct s; cbn [Python.stmt_size Python.child_stmts];
    rewrite ?sizes_total; reflexivity.
Qed.

Lemma counts_all :
  forall p (l : list Python.stmt),
    (fix counts (l : list Python.stmt) : nat :=
       match l with
       | [] => 0%nat
       | x :: l' => (count_nodes p x + counts l')%nat
       end) l
    = count_all p l.
Proof.
  intros p. induction l as [|x l IH]; [reflexivity|].
  cbn [count_all]. now rewrite <- IH.
Qed.

Lemma count_nodes_children :
  forall p s,
    count_nodes p s
    = ((if p s then 1 else 0) + count_all p (Python.child_stmts s))%nat.
Proof.
  intros p s. destruct s; cbn [count_nodes Python.child_stmts];
    rewrite ?counts_all; reflexivity.
Qed.

Lemma total_size_app :
  forall a b,
    Python.total_size (a ++ b)
    = (Python.total_size a + Python.total_size b)%nat.
Proof.
  induction a as [|x a IH]; intros b; [reflexivity|].
  cbn [app Python.total_size]. rewrite IH. lia.
Qed.

Lemma count_all_app :
  forall p a b, count_all p (a ++ b) = (count_all p a + count_all p b)%nat.
Proof.
  intros p. induction a as [|x a IH]; intros b; [reflexivity|].
  cbn [app count_all]. rewrite IH. lia.
Qed.

(** The nodes that [ast.walk] yields are all the nodes there are. *)
Lemma walk_queue_count :
  forall p fuel todo,
    (Python.total_size todo <= fuel)%nat ->
    List.length (filter p (Python.walk_queue fuel todo)) = count_all p todo.
Proof.
  intros p. induction fuel as [|fuel IH]; intros todo H.
  - destruct todo as [|s todo]; [reflexivity|].
    cbn [Python.total_size] in H. rewrite stmt_size_children in H. lia.
  - destruct todo as [|s todo]; [reflexivity|].
    cbn [Python.walk_queue filter count_all].
    cbn [Python.total_size] in H. rewrite stmt_size_children in H.
    rewrite count_nodes_children.
    assert (E : List.length
                  (filter p (Python.walk_queue fuel
                               (todo ++ Python.child_stmts s)))
                = (count_all p todo + count_all p (Python.child_stmts s))%nat).
    { rewrite IH by (rewrite total_size_app; lia). apply count_all_app. }
    destruct (p s); cbn [List.length]; rewrite E; lia.
Qed.

Lemma visit_lengths :
  forall depth l acc,
    List.length (Python.classes (fold_left (Python.visit depth) l acc))
    = (List.length (Python.classes acc)
       + List.length (filter is_class l))%nat
    /\ List.length (Python.functions (fold_left (Python.visit depth) l acc))
       = (List.length (Python.functions acc)
          + List.length (filter (is_listed_function depth) l))%nat.
Proof.
  intros depth l. induction l as [|node l IH]; intros acc.
  - cbn [fold_left filter List.length]. lia.
  - cbn [fold_left filter]. destruct (IH (Python.visit depth acc node))
      as [Hc Hf].
    rewrite Hc, Hf. clear IH Hc Hf.
    destruct node as [n b body d|n body d o|n body d o|names|[m|]|ch];
      cbn [Python.visit is_class is_listed_function Python.classes
             Python.functions List.length];
      try (split; lia).
    + rewrite length_app. cbn [List.length]. split; lia.
    + destruct ((o =? 0)%Z && negb (text_eqb depth (lit "classes"))
                && (negb (startswith n (lit "_"))
                    || text_eqb depth (lit "full")));
        cbn [Python.classes Python.functions List.length];
        rewrite ?length_app; cbn [List.length]; split; lia.
    + destruct ((o =? 0)%Z && negb (text_eqb depth (lit "classes"))
                && (negb (startswith n (lit "_"))
                    || text_eqb depth (lit "full")));
        cbn [Python.classes Python.functions List.length];
        rewrite ?length_app; cbn [List.length]; split; lia.
    + destruct m; cbn [Python.classes Python.functions]; split; lia.
Qed.

(** *** The exported types of a TypeScript file *)

Lemma filter_idem :
  forall (A : Type) (p : A -> bool) (l : list A),
    filter p (filter p l) = filter p l.
Proof.
  intros A p l. induction l as [|a l IH]; [reflexivity|].
  cbn [filter]. destruct (p a) eqn:E; [|exact IH].
  cbn [filter]. now rewrite E, IH.
Qed.

Lemma ts_format_file_exported :
  forall root indent f,
    TypeScript.format_file root indent (exported_only f)
    = TypeScript.format_file root indent f.
Proof.
  intros root indent f. unfold TypeScript.format_file.
  cbn [exported_only TypeScript.f_path TypeScript.f_types].
  destruct (relative_to _ root) as [rel|e]; [|reflexivity].
  rewrite filter_idem.
  destruct (mem (path_name rel) _); cbn [andb]; [|reflexivity].
  destruct (TypeScript.f_types f) as [|t ts]; [reflexivity|].
  destruct (filter TypeScript.t_is_exported (t :: ts)); reflexivity.
Qed.

Lemma insert_by_map :
  forall (A B : Type) (key : A -> text) (key' : B -> text) (g : A -> B) x l,
    (forall a, key' (g a) = key a) ->
    insert_by key' (g x) (List.map g l) = List.map g (insert_by key x l).
Proof.
  intros A B key key' g x l H. induction l as [|y l IH]; [reflexivity|].
  cbn [List.map insert_by]. rewrite !H.
  destruct (text_leb (key x) (key y)); [reflexivity|].
  cbn [List.map]. now rewrite IH.
Qed.

Lemma sorted_by_map :
  forall (A B : Type) (key : A -> text) (key' : B -> text) (g : A -> B) l,
    (forall a, key' (g a) = key a) ->
    sorted_by key' (List.map g l) = List.map g (sorted_by key l).
Proof.
  intros A B key key' g l H. induction l as [|x l IH]; [reflexivity|].
  cbn [List.map sorted_by]. rewrite IH. now apply insert_by_map.
Qed.

Lemma ts_format_files_exported :
  forall root indent fs,
    TypeScript.format_files root indent (List.map exported_only fs)
    = TypeScript.format_files root indent fs.
Proof.
  intros root indent fs. induction fs as [|f fs IH]; [reflexivity|].
  cbn [List.map TypeScript.format_files].
  now rewrite ts_format_file_exported, IH.
Qed.

Lemma dict_append_map :
  forall (A B : Type) (g : A -> B) (d : list (text * list A)) k v,
    dict_append (List.map (fun kv => (fst kv, List.map g (snd kv))) d) k (g v)
    = List.map (fun kv => (fst kv, List.map g (snd kv))) (dict_append d k v).
Proof.
  intros A B g d k v. induction d as [|[k0 vs] d IH]; [reflexivity|].
  cbn [List.map dict_append fst snd].
  destruct (text_eqb k0 k).
  - cbn [List.map fst snd]. now rewrite map_app.
  - cbn [List.map fst snd]. now rewrite IH.
Qed.

Lemma ts_group_by_dir_exported :
  forall root files d,
    TypeScript.group_by_dir root (List.map exported_only files)
      (List.map (fun kv => (fst kv, List.map exported_only (snd kv))) d)
    = match TypeScript.group_by_dir root files d with
      | Ret r =>
          Ret (List.map (fun kv => (fst kv, List.map exported_only (snd kv))) r)
      | Raise e => Raise e
      end.
Proof.
  intros root files. induction files as [|f files IH]; intros d;
    [reflexivity|].
  cbn [List.map TypeScript.group_by_dir].
  cbn [exported_only TypeScript.f_path].
  destruct (relative_to _ root) as [rel|e]; [|reflexivity].
  change {| TypeScript.f_path := TypeScript.f_path f;
            TypeScript.f_types :=
              filter TypeScript.t_is_exported (TypeScript.f_types f);
            TypeScript.f_imports := TypeScript.f_imports f |}
    with (exported_only f).
  rewrite dict_append_map. apply IH.
Qed.

Lemma ts_format_groups_exported :
  forall root groups,
    TypeScript.format_groups root
      (List.map (fun kv => (fst kv, List.map exported_only (snd kv))) groups)
    = TypeScript.format_groups root groups.
Proof.
  intros root groups. induction groups as [|[k vs] groups IH]; [reflexivity|].
  cbn [List.map TypeScript.format_groups fst snd].
  rewrite (sorted_by_map _ _ TypeScript.f_path TypeScript.f_path exported_only)
    by reflexivity.
  now rewrite ts_format_files_exported, IH.
Qed.

(** *** Declaration files *)

Lemma last_app_nonempty :
  forall (A : Type) (a b : list A) (d : A), b <> [] -> last (a ++ b) d = last b d.
Proof.
  intros A a b d Hb. induction a as [|x a IH]; [reflexivity|].
  cbn [app]. destruct (a ++ b) eqn:E.
  - destruct a; [cbn in E; congruence|discriminate].
  - cbn [last]. exact IH.
Qed.

Lemma ts_walk_step_declaration :
  forall root excludes depth st e,
    is_declaration e = true ->
    TypeScript.walk_step root excludes depth st e = Some (inr st).
Proof.
  intros root excludes depth st e H. unfold TypeScript.walk_step.
  unfold is_declaration in H.
  assert (Hne : e_rel e <> []).
  { intros E. rewrite E in H. discriminate. }
  unfold path_name in *. rewrite (last_app_nonempty _ root _ _ Hne), H.
  reflexivity.
Qed.

Lemma ts_walk_declarations :
  forall root excludes depth es st,
    TypeScript.walk root excludes depth es st
    = TypeScript.walk root excludes depth
        (filter (fun e => negb (is_declaration e)) es) st.
Proof.
  intros root excludes depth es. induction es as [|e es IH]; intros st;
    [reflexivity|].
  cbn [filter TypeScript.walk].
  destruct (is_declaration e) eqn:E; cbn [negb].
  - rewrite (ts_walk_step_declaration root excludes depth st e E). apply IH.
  - cbn [TypeScript.walk].
    destruct (TypeScript.walk_step root excludes depth st e) as [[x|st']|];
      [reflexivity|apply IH|reflexivity].
Qed.

(** *** The four patterns of the TypeScript walk *)

Lemma suffixes_apart :
  forall name : text,
    (endswith name (lit ".ts") = true ->
     endswith name (lit ".tsx") = false /\ endswith name (lit ".js") = false
     /\ endswith name (lit ".jsx") = false)
    /\ (endswith name (lit ".tsx") = true ->
        endswith name (lit ".js") = false
        /\ endswith name (lit ".jsx") = false)
    /\ (endswith name (lit ".js") = true ->
        endswith name (lit ".jsx") = false).
Proof.
  intros name. unfold endswith.
  change (rev (lit ".ts")) with [115; 116; 46]%N.
  change (rev (lit ".tsx")) with [120; 115; 116; 46]%N.
  change (rev (lit ".js")) with [115; 106; 46]%N.
  change (rev (lit ".jsx")) with [120; 115; 106; 46]%N.
  destruct (rev name) as [|c0 [|c1 [|c2 r]]]; cbn [startswith];
    repeat match goal with
           | |- context [(?k =? ?c)%N] =>
               is_var c; destruct (N.eqb_spec k c); [subst c|]
           end;
    cbn [N.eqb Pos.eqb andb]; repeat split; intros;
    try discriminate; try reflexivity; congruence.
Qed.

Lemma rglob_In :
  forall t suffix x,
    In x (List.map e_rel (rglob t suffix)) ->
    endswith (path_name x) suffix = true.
Proof.
  intros t suffix x H. apply in_map_iff in H. destruct H as (e & <- & He).
  unfold rglob in He. apply filter_In in He. tauto.
Qed.

Lemma rglob_NoDup :
  forall t suffix,
    NoDup (List.map e_rel (entries t)) ->
    NoDup (List.map e_rel (rglob t suffix)).
Proof.
  intros t suffix H. unfold rglob.
  apply (subseq_NoDup _ _ _ (subseq_map_filter _ _ e_rel _ (entries t)) H).
Qed.

Lemma ts_candidates_NoDup :
  forall t : tree,
    NoDup (List.map e_rel (entries t)) ->
    NoDup (List.map e_rel (TypeScript.candidates t)).
Proof.
  intros t H. unfold TypeScript.candidates. cbn [flat_map].
  rewrite app_nil_r, !map_app.
  pose proof (fun x => proj1 (suffixes_apart (path_name x))) as H1.
  pose proof (fun x => proj1 (proj2 (suffixes_apart (path_name x)))) as H2.
  pose proof (fun x => proj2 (proj2 (suffixes_apart (path_name x)))) as H3.
  apply NoDup_app; [now apply rglob_NoDup| |].
  - apply NoDup_app; [now apply rglob_NoDup| |].
    + apply NoDup_app; [now apply rglob_NoDup|now apply rglob_NoDup|].
      intros x Hx Hy. apply rglob_In in Hx. apply rglob_In in Hy.
      pose proof (H3 x Hx). congruence.
    + intros x Hx Hy. apply rglob_In in Hx. destruct (H2 x Hx).
      apply in_app_iff in Hy. destruct Hy as [Hy|Hy];
        apply rglob_In in Hy; congruence.
  - intros x Hx Hy. apply rglob_In in Hx. destruct (H1 x Hx) as (? & ? & ?).
    rewrite !in_app_iff in Hy. destruct Hy as [Hy|[Hy|Hy]];
      apply rglob_In in Hy; congruence.
Qed.

End WalkFacts.

(** ** Sorting and grouping, up to the order of the input *)

Module OrderFacts.
Import Spec MoreSpec PyFacts ExclusionFacts FrameworkFacts MoreFacts WalkFacts.

(** *** The order of strings *)

Lemma text_leb_refl : forall a, text_leb a a = true.
Proof.
  induction a as [|x a IH]; [reflexivity|].
  cbn [text_leb]. now rewrite N.ltb_irrefl.
Qed.

Lemma text_leb_total :
  forall a b, text_leb a b = true \/ text_leb b a = true.
Proof.
  induction a as [|x a IH]; intros b; [now left|].
  destruct b as [|y b]; [now right|]. cbn [text_leb].
  destruct (N.ltb_spec x y) as [Hxy|Hxy]; [now left|].
  destruct (N.ltb_spec y x) as [Hyx|Hyx]; [now right|].
  apply IH.
Qed.

Lemma text_leb_antisym :
  forall a b, text_leb a b = true -> text_leb b a = true -> a = b.
Proof.
  induction a as [|x a IH]; intros b Hab Hba.
  - destruct b; [reflexivity|discriminate].
  - destruct b as [|y b]; [discriminate|]. cbn [text_leb] in *.
    destruct (N.ltb_spec x y) as [Hxy|Hxy];
      destruct (N.ltb_spec y x) as [Hyx|Hyx]; try discriminate; try lia.
    assert (x = y) by lia. subst y. f_equal. now apply IH.
Qed.

Lemma text_leb_trans :
  forall a b c, text_leb a b = true -> text_leb b c = true ->
                text_leb a c = true.
Proof.
  induction a as [|x a IH]; intros b c Hab Hbc; [reflexivity|].
  destruct b as [|y b]; [discriminate|].
  destruct c as [|z c]; [discriminate|]. cbn [text_leb] in *.
  destruct (N.ltb_spec x y) as [Hxy|Hxy];
    destruct (N.ltb_spec y z) as [Hyz|Hyz];
    destruct (N.ltb_spec x z) as [Hxz|Hxz]; try reflexivity; try lia;
    destruct (N.ltb_spec y x) as [Hyx|Hyx]; try discriminate;
    destruct (N.ltb_spec z y) as [Hzy|Hzy]; try discriminate;
    destruct (N.ltb_spec z x) as [Hzx|Hzx]; try lia.
  now apply (IH b c).
Qed.

Lemma text_eqb_sym : forall a b, text_eqb a b = text_eqb b a.
Proof.
  intros a b. destruct (text_eqb a b) eqn:E.
  - apply text_eqb_eq in E. subst. symmetry. apply text_eqb_refl.
  - apply text_eqb_neq in E. symmetry. apply text_eqb_neq. congruence.
Qed.

(** *** [sorted] *)

Section Sorting.

Variable A : Type.
Variable key : A -> text.

Lemma insert_by_perm :
  forall x l, Permutation (insert_by key x l) (x :: l).
Proof.
  intros x l. induction l as [|y l IH]; [apply Permutation_refl|].
  cbn [insert_by]. destruct (text_leb (key x) (key y));
    [apply Permutation_refl|].
  apply perm_trans with (y :: x :: l); [now apply perm_skip|apply perm_swap].
Qed.

Lemma sorted_by_perm : forall l, Permutation (sorted_by key l) l.
Proof.
  induction l as [|x l IH]; [apply perm_nil|].
  cbn [sorted_by]. apply perm_trans with (x :: sorted_by key l);
    [apply insert_by_perm|now apply perm_skip].
Qed.

Lemma insert_by_in_order :
  forall x l, in_order key l -> in_order key (insert_by key x l).
Proof.
  intros x l. induction l as [|y l IH]; intros H.
  - cbn. split; [constructor|exact I].
  - cbn [insert_by]. destruct H as [Hy Hl].
    destruct (text_leb (key x) (key y)) eqn:E.
    + split; [|split; assumption].
      constructor; [exact E|].
      eapply Forall_impl; [|exact Hy]. intros z Hz.
      now apply (text_leb_trans _ (key y)).
    + split; [|now apply IH].
      apply Forall_forall. intros z Hz.
      apply (Permutation_in _ (insert_by_perm x l)) in Hz.
      destruct Hz as [<-|Hz].
      * destruct (text_leb_total (key x) (key y)); congruence.
      * rewrite Forall_forall in Hy. now apply Hy.
Qed.

Lemma sorted_by_in_order : forall l, in_order key (sorted_by key l).
Proof.
  induction l as [|x l IH]; [exact I|].
  cbn [sorted_by]. now apply insert_by_in_order.
Qed.

Lemma key_injective :
  forall l x y,
    NoDup (List.map key l) -> In x l -> In y l -> key x = key y -> x = y.
Proof.
  induction l as [|z l IH]; intros x y Hnd Hx Hy E; [destruct Hx|].
  cbn [List.map] in Hnd. inversion Hnd as [|? ? Hz Hnd']; subst.
  destruct Hx as [->|Hx], Hy as [->|Hy]; auto.
  - exfalso. apply Hz. rewrite E. now apply in_map.
  - exfalso. apply Hz. rewrite <- E. now apply in_map.
Qed.

(** Two lists in order with the same elements, no two with one key, are
    one list. *)
Lemma in_order_unique :
  forall l l',
    in_order key l -> in_order key l' -> Permutation l l' ->
    NoDup (List.map key l) -> l = l'.
Proof.
  induction l as [|x l IH]; intros l' Hl Hl' Hp Hnd.
  - apply Permutation_nil in Hp. now subst.
  - destruct l' as [|x' l'];
      [apply Permutation_sym, Permutation_nil in Hp; discriminate|].
    assert (Ex : x = x').
    { assert (Hx : In x (x' :: l'))
        by (apply (Permutation_in _ Hp); now left).
      assert (Hx' : In x' (x :: l))
        by (apply (Permutation_in _ (Permutation_sym Hp)); now left).
      destruct Hx as [->|Hx]; [reflexivity|].
      destruct Hx' as [->|Hx']; [reflexivity|].
      destruct Hl as [Hl _], Hl' as [Hl' _].
      rewrite Forall_forall in Hl, Hl'.
      apply (key_injective (x :: l)); [exact Hnd|now left|now right|].
      apply text_leb_antisym; [now apply Hl|now apply Hl']. }
    subst x'. f_equal. apply IH.
    + apply Hl.
    + apply Hl'.
    + now apply Permutation_cons_inv in Hp.
    + cbn [List.map] in Hnd. now inversion Hnd.
Qed.

Lemma sorted_by_of_perm :
  forall l l',
    Permutation l l' -> NoDup (List.map key l) ->
    sorted_by key l = sorted_by key l'.
Proof.
  intros l l' Hp Hnd. apply in_order_unique.
  - apply sorted_by_in_order.
  - apply sorted_by_in_order.
  - apply perm_trans with l; [apply sorted_by_perm|].
    apply perm_trans with l'; [exact Hp|].
    apply Permutation_sym, sorted_by_perm.
  - apply (Permutation_NoDup (l := List.map key l)); [|exact Hnd].
    apply Permutation_map, Permutation_sym, sorted_by_perm.
Qed.

End Sorting.

Lemma filter_perm :
  forall (A : Type) (p : A -> bool) (l l' : list A),
    Permutation l l' -> Permutation (filter p l) (filter p l').
Proof.
  intros A p l l' H. induction H.
  - apply perm_nil.
  - cbn [filter]. destruct (p x); [now apply perm_skip|assumption].
  - cbn [filter]. destruct (p x), (p y);
      try apply Permutation_refl. apply perm_swap.
  - now apply perm_trans with (filter p l').
Qed.

(** *** Dictionaries of lists *)

Section Grouping.

Variable A : Type.
Variable key : A -> text.
Variable path : A -> text.

Lemma dict_append_keys :
  forall d k (v : A),
    List.map fst (dict_append d k v) = dedup_step (List.map fst d) k.
Proof.
  intros d k v. unfold dedup_step.
  induction d as [|[k0 vs] d IH]; [reflexivity|].
  cbn [dict_append List.map fst mem existsb].
  fold (mem k (List.map fst d)). rewrite (text_eqb_sym k k0).
  destruct (text_eqb k0 k); [reflexivity|].
  cbn [orb List.map fst]. rewrite IH.
  destruct (mem k (List.map fst d)); reflexivity.
Qed.

Lemma dict_append_values :
  forall d k (v : A) k',
    values (dict_append d k v) k'
    = if text_eqb k k' then values d k ++ [v] else values d k'.
Proof.
  intros d k v k'. induction d as [|[k0 vs] d IH].
  - cbn [dict_append values]. destruct (text_eqb k k'); reflexivity.
  - cbn [dict_append values]. destruct (text_eqb k0 k) eqn:E0.
    + apply text_eqb_eq in E0. subst k0. cbn [values].
      destruct (text_eqb k k'); reflexivity.
    + cbn [values]. rewrite IH.
      destruct (text_eqb k0 k') eqn:E1; [|reflexivity].
      apply text_eqb_eq in E1. subst k'.
      rewrite (text_eqb_sym k k0), E0. reflexivity.
Qed.

Lemma grouped_keys :
  forall files d,
    List.map fst (grouped key files d)
    = fold_left dedup_step (List.map key files) (List.map fst d).
Proof.
  induction files as [|f files IH]; intros d; [reflexivity|].
  cbn [grouped fold_left List.map]. fold (grouped key files (dict_append d (key f) f)).
  now rewrite IH, dict_append_keys.
Qed.

Lemma grouped_values :
  forall files d k,
    values (grouped key files d) k
    = values d k ++ filter (fun f => text_eqb (key f) k) files.
Proof.
  induction files as [|f files IH]; intros d k.
  - cbn [grouped fold_left filter]. now rewrite app_nil_r.
  - cbn [grouped fold_left filter].
    fold (grouped key files (dict_append d (key f) f)).
    rewrite IH, dict_append_values.
    destruct (text_eqb (key f) k) eqn:E.
    + apply text_eqb_eq in E. subst k. now rewrite <- app_assoc.
    + reflexivity.
Qed.

Lemma dict_by_keys :
  forall d : list (text * list A),
    NoDup (List.map fst d) ->
    d = List.map (fun k => (k, values d k)) (List.map fst d).
Proof.
  induction d as [|[k0 vs] d IH]; intros H; [reflexivity|].
  cbn [List.map fst] in *. inversion H as [|? ? Hk Hd]; subst.
  cbn [values]. rewrite text_eqb_refl. f_equal.
  rewrite (IH Hd) at 1. apply map_ext_in. intros k Hin.
  destruct (text_eqb k0 k) eqn:E; [|reflexivity].
  apply text_eqb_eq in E. subst k. contradiction.
Qed.

(** The groups of a list of files: the keys in the order in which they are
    met, each with the files that have it. *)
Lemma grouped_eq :
  forall files,
    grouped key files []
    = List.map (fun k => (k, filter (fun f => text_eqb (key f) k) files))
        (dedup (List.map key files)).
Proof.
  intros files.
  assert (Hk : List.map fst (grouped key files []) = dedup (List.map key files))
    by (apply (grouped_keys files [])).
  rewrite (dict_by_keys (grouped key files [])) by (rewrite Hk; apply dedup_NoDup).
  rewrite Hk. apply map_ext. intros k.
  now rewrite (grouped_values files [] k).
Qed.

Lemma arranged_of_perm :
  forall files files',
    Permutation files files' -> NoDup (List.map path files) ->
    arranged key path files = arranged key path files'.
Proof.
  intros files files' Hp Hnd. unfold arranged.
  rewrite !grouped_eq, !map_map. cbn [fst snd].
  assert (Hg : forall k,
    sorted_by path (filter (fun f => text_eqb (key f) k) files)
    = sorted_by path (filter (fun f => text_eqb (key f) k) files')).
  { intros k. apply sorted_by_of_perm; [now apply filter_perm|].
    apply (subseq_NoDup _ _ _ (subseq_map_filter _ _ path _ files) Hnd). }
  rewrite (map_ext _ _ (fun k => f_equal (fun v => (k, v)) (Hg k))).
  apply sorted_by_of_perm.
  - apply Permutation_map. apply NoDup_Permutation; try apply dedup_NoDup.
    intros k. rewrite !dedup_In. split; intros H.
    + apply (Permutation_in _ (Permutation_map key Hp) H).
    + apply (Permutation_in _ (Permutation_map key (Permutation_sym Hp)) H).
  - rewrite map_map. cbn [fst]. rewrite map_id. apply dedup_NoDup.
Qed.

End Grouping.

End OrderFacts.

(** ** The order of the listing: C# *)

Module CsOrderFacts.
Import Spec MoreSpec PyFacts ExclusionFacts FrameworkFacts PathFacts RunFacts.
Import MoreFacts WalkFacts OrderFacts.

(** *** The renderer *)

Lemma insert_by_front :
  forall (A : Type) (key : A -> text) (x : A) (l : list A),
    Forall (fun y => text_leb (key x) (key y) = true) l ->
    insert_by key x l = x :: l.
Proof.
  intros A key x l H. destruct H as [|y l Hy _]; [reflexivity|].
  cbn [insert_by]. now rewrite Hy.
Qed.

Lemma sorted_by_in_order_id :
  forall (A : Type) (key : A -> text) (l : list A),
    in_order key l -> sorted_by key l = l.
Proof.
  intros A key l. induction l as [|x l IH]; intros H; [reflexivity|].
  destruct H as [Hx Hl]. cbn [sorted_by]. rewrite (IH Hl).
  now apply insert_by_front.
Qed.

Lemma sorted_by_idem :
  forall (A : Type) (key : A -> text) (l : list A),
    sorted_by key (sorted_by key l) = sorted_by key l.
Proof.
  intros A key l. apply sorted_by_in_order_id, sorted_by_in_order.
Qed.

Lemma cs_format_groups_sorted :
  forall root groups,
    CSharp.format_groups root
      (List.map (fun kv => (fst kv, sorted_by CSharp.f_path (snd kv))) groups)
    = CSharp.format_groups root groups.
Proof.
  intros root groups. induction groups as [|[k vs] groups IH]; [reflexivity|].
  cbn [List.map CSharp.format_groups fst snd].
  now rewrite sorted_by_idem, IH.
Qed.

Lemma cs_format_output_arranged :
  forall files root frameworks,
    CSharp.format_output files root frameworks
    = match CSharp.format_groups root
              (arranged namespace_key CSharp.f_path files) with
      | Raise e => Raise e
      | Ret ls =>
          Ret (join [NEWLINE]
                 ([lit "### C#: " ++ path_name root ++ lit "/"]
                  ++ match frameworks with
                     | [] => []
                     | _ => [lit "**Frameworks detected:** "
                             ++ join (lit ", ") frameworks; []]
                     end ++ ls))
      end.
Proof.
  intros files root frameworks. unfold CSharp.format_output, arranged.
  rewrite (sorted_by_map _ _ fst fst
             (fun kv : text * list CSharp.FileInfo =>
                (fst kv, sorted_by CSharp.f_path (snd kv))))
    by reflexivity.
  rewrite cs_format_groups_sorted. reflexivity.
Qed.

Lemma cs_format_output_perm :
  forall files files' root frameworks,
    Permutation files files' ->
    NoDup (List.map CSharp.f_path files) ->
    CSharp.format_output files root frameworks
    = CSharp.format_output files' root frameworks.
Proof.
  intros files files' root frameworks Hp Hnd.
  rewrite !cs_format_output_arranged.
  now rewrite (arranged_of_perm _ namespace_key CSharp.f_path files files').
Qed.

(** *** The walk *)

Lemma cs_walk_step_eq :
  forall root excludes depth st e,
    CSharp.walk_step root excludes depth st e
    = if CSharp.should_exclude (e_rel e) excludes then Some (inr st)
      else match CSharp.parse_file (root ++ e_rel e) (e_reads e) depth with
           | None => None
           | Some (Raise x) => Some (inl (x, CSharp.stderr st))
           | Some (Ret r) => Some (inr (cs_grow st (root ++ e_rel e) r))
           end.
Proof.
  intros root excludes depth st e. unfold CSharp.walk_step.
  rewrite relative_to_app.
  destruct (CSharp.should_exclude (e_rel e) excludes); [reflexivity|].
  destruct (CSharp.parse_file _ _ _) as [[[[fi|] w]|x]|]; try reflexivity;
    unfold cs_grow; cbn [fst snd flat_map List.length app].
  - rewrite !app_nil_r, count_flat_map. reflexivity.
  - rewrite !app_nil_r, !Nat.add_0_r. destruct st; reflexivity.
Qed.

Lemma cs_same_refl : forall st, cs_same st st.
Proof.
  intros st. repeat split; auto using Permutation_refl.
Qed.

Lemma cs_same_trans :
  forall a b c, cs_same a b -> cs_same b c -> cs_same a c.
Proof.
  intros a b c (H1 & H2 & H3 & H4 & H5 & H6 & H7)
    (G1 & G2 & G3 & G4 & G5 & G6 & G7).
  repeat split; try congruence;
    try (eapply perm_trans; eassumption).
  - intros H. apply G2, H2, H.
  - intros H. apply H2, G2, H.
Qed.

Lemma cs_grow_same :
  forall st st' p r, cs_same st st' -> cs_same (cs_grow st p r) (cs_grow st' p r).
Proof.
  intros st st' p r (H1 & H2 & H3 & H4 & H5 & H6 & H7).
  unfold cs_grow, cs_same.
  cbn [CSharp.files CSharp.all_usings CSharp.file_count CSharp.type_count
         CSharp.member_count CSharp.stderr CSharp.parsed].
  repeat split; try congruence;
    try (apply Permutation_app_tail; assumption).
  - rewrite !set_update_In. intros [H|H]; [left; now apply H2|now right].
  - rewrite !set_update_In. intros [H|H]; [left; now apply H2|now right].
Qed.

Lemma cs_grow_swap :
  forall st p1 r1 p2 r2,
    cs_same (cs_grow (cs_grow st p1 r1) p2 r2)
            (cs_grow (cs_grow st p2 r2) p1 r1).
Proof.
  intros st p1 r1 p2 r2. unfold cs_grow, cs_same.
  cbn [CSharp.files CSharp.all_usings CSharp.file_count CSharp.type_count
         CSharp.member_count CSharp.stderr CSharp.parsed].
  repeat split; try lia;
    try (rewrite <- !app_assoc; apply Permutation_app_head,
           Permutation_app_comm).
  - rewrite !set_update_In. tauto.
  - rewrite !set_update_In. tauto.
Qed.

Lemma cs_alike_trans :
  forall a b c, cs_alike a b -> cs_alike b c -> cs_alike a c.
Proof.
  intros [[xa|sa]|] [[xb|sb]|] [[xc|sc]|]; cbn; try tauto.
  apply cs_same_trans.
Qed.

Lemma cs_walk_step_same :
  forall root excludes depth st st' e,
    cs_same st st' ->
    cs_alike (CSharp.walk_step root excludes depth st e)
             (CSharp.walk_step root excludes depth st' e).
Proof.
  intros root excludes depth st st' e H. rewrite !cs_walk_step_eq.
  destruct (CSharp.should_exclude (e_rel e) excludes); [exact H|].
  destruct (CSharp.parse_file _ _ _) as [[r|x]|]; cbn; auto.
  now apply cs_grow_same.
Qed.

Lemma cs_walk_same :
  forall root excludes depth es st st',
    cs_same st st' ->
    cs_alike (CSharp.walk root excludes depth es st)
             (CSharp.walk root excludes depth es st').
Proof.
  intros root excludes depth es. induction es as [|e es IH]; intros st st' H;
    [exact H|].
  cbn [CSharp.walk].
  pose proof (cs_walk_step_same root excludes depth st st' e H) as Hs.
  destruct (CSharp.walk_step root excludes depth st e) as [[x|s1]|],
    (CSharp.walk_step root excludes depth st' e) as [[x'|s1']|];
    cbn in Hs; try contradiction; try exact I.
  now apply IH.
Qed.

Lemma cs_walk_cons :
  forall root excludes depth e es st,
    CSharp.walk root excludes depth (e :: es) st
    = if CSharp.should_exclude (e_rel e) excludes
      then CSharp.walk root excludes depth es st
      else match CSharp.parse_file (root ++ e_rel e) (e_reads e) depth with
           | None => None
           | Some (Raise x) => Some (inl (x, CSharp.stderr st))
           | Some (Ret r) =>
               CSharp.walk root excludes depth es (cs_grow st (root ++ e_rel e) r)
           end.
Proof.
  intros root excludes depth e es st. cbn [CSharp.walk].
  rewrite cs_walk_step_eq.
  destruct (CSharp.should_exclude (e_rel e) excludes); [reflexivity|].
  now destruct (CSharp.parse_file _ _ _) as [[r|x]|].
Qed.

Lemma cs_walk_perm :
  forall root excludes depth es es',
    Permutation es es' ->
    forall st st',
      cs_same st st' ->
      cs_alike (CSharp.walk root excludes depth es st)
               (CSharp.walk root excludes depth es' st').
Proof.
  intros root excludes depth es es' Hp.
  induction Hp as [|e l l' Hp IH|x y l|l l' l'' Hp1 IH1 Hp2 IH2];
    intros st st' H.
  - exact H.
  - cbn [CSharp.walk].
    pose proof (cs_walk_step_same root excludes depth st st' e H) as Hs.
    destruct (CSharp.walk_step root excludes depth st e) as [[x|s1]|],
      (CSharp.walk_step root excludes depth st' e) as [[x'|s1']|];
      cbn in Hs; try contradiction; try exact I.
    now apply IH.
  - rewrite !cs_walk_cons.
    destruct (CSharp.should_exclude (e_rel x) excludes) eqn:Ex;
      destruct (CSharp.should_exclude (e_rel y) excludes) eqn:Ey;
      destruct (CSharp.parse_file (root ++ e_rel x) (e_reads x) depth)
        as [[rx|ex]|] eqn:Px;
      destruct (CSharp.parse_file (root ++ e_rel y) (e_reads y) depth)
        as [[ry|ey]|] eqn:Py;
      rewrite ?cs_walk_cons, ?Ex, ?Ey, ?Px, ?Py; try exact I;
      apply cs_walk_same; try exact H; try (now apply cs_grow_same).
    apply cs_same_trans
      with (cs_grow (cs_grow st' (root ++ e_rel y) ry) (root ++ e_rel x) rx);
      [now apply cs_grow_same, cs_grow_same|apply cs_grow_swap].
  - apply cs_alike_trans with (CSharp.walk root excludes depth l' st').
    + now apply IH1.
    + apply IH2, cs_same_refl.
Qed.

(** *** The paths of the collected files *)

Lemma cs_parse_file_path :
  forall fp reads depth f w,
    CSharp.parse_file fp reads depth = ret (Some f, w) ->
    CSharp.f_path f = path_str fp.
Proof.
  intros fp reads depth f w H. unfold CSharp.parse_file in H.
  assert (Hc : forall content,
    bind (CSharp.parse_content fp content depth)
      (fun fi => ret (Some fi, ([] : list text))) = ret (Some f, w) ->
    CSharp.f_path f = path_str fp).
  { intros content Hb.
    destruct (CSharp.parse_content fp content depth) as [[f'|e]|] eqn:E;
      try discriminate.
    cbn [bind ret] in Hb. inversion Hb; subst.
    apply (cs_parse_content_path fp content depth f E). }
  destruct (read_text decode_utf8_sig (reads 0%nat)) as [content|[]];
    try discriminate; [now apply (Hc content)|].
  destruct (read_text _ (reads 1%nat)) as [content|e];
    [now apply (Hc content)|discriminate].
Qed.

Lemma subseq_map :
  forall (A B : Type) (f : A -> B) (a b : list A),
    subseq a b -> subseq (List.map f a) (List.map f b).
Proof.
  intros A B f a b H. induction H; cbn [List.map];
    [constructor|now apply subseq_skip|now apply subseq_take].
Qed.

Lemma cs_walk_paths :
  forall root excludes depth es st st',
    CSharp.walk root excludes depth es st = Some (inr st') ->
    exists sub,
      subseq sub es
      /\ List.map CSharp.f_path (CSharp.files st')
         = List.map CSharp.f_path (CSharp.files st)
           ++ List.map (fun e => path_str (root ++ e_rel e)) sub.
Proof.
  intros root excludes depth es. induction es as [|e es IH]; intros st st' H.
  - inversion H; subst. exists []. rewrite app_nil_r. split; [constructor|
                                                          reflexivity].
  - cbn [CSharp.walk] in H. rewrite cs_walk_step_eq in H.
    destruct (CSharp.should_exclude (e_rel e) excludes).
    + destruct (IH st st' H) as (sub & Hs & E). exists sub.
      split; [now apply subseq_skip|exact E].
    + destruct (CSharp.parse_file (root ++ e_rel e) (e_reads e) depth)
        as [[[[fi|] w]|x]|] eqn:Ep; try discriminate.
      * destruct (IH _ st' H) as (sub & Hs & E). exists (e :: sub).
        split; [now apply subseq_take|]. rewrite E.
        unfold cs_grow. cbn [CSharp.files fst List.map].
        rewrite map_app, <- app_assoc. cbn [List.map app].
        now rewrite (cs_parse_file_path _ _ _ _ _ Ep).
      * destruct (IH _ st' H) as (sub & Hs & E). exists sub.
        split; [now apply subseq_skip|]. rewrite E.
        unfold cs_grow. cbn [CSharp.files fst]. now rewrite app_nil_r.
Qed.

Lemma paths_apart :
  forall root (rels : list Path),
    wf_abs root = true -> Forall (fun r => wf_rel r = true) rels ->
    NoDup rels ->
    NoDup (List.map (fun rel => path_str (root ++ rel)) rels).
Proof.
  intros root rels Hroot Hwf Hnd.
  induction Hnd as [|r rels Hr Hnd IH]; [constructor|].
  inversion Hwf as [|? ? Hw Hwf']; subst. cbn [List.map].
  constructor; [|now apply IH].
  intros Hin. apply in_map_iff in Hin. destruct Hin as (r' & E & Hr').
  rewrite Forall_forall in Hwf'.
  pose proof (relative_to_round_trip root r Hroot Hw) as E1.
  pose proof (relative_to_round_trip root r' Hroot (Hwf' r' Hr')) as E2.
  rewrite E in E2. rewrite E1 in E2. inversion E2; subst. contradiction.
Qed.

Lemma Forall_map_iff :
  forall (A B : Type) (f : A -> B) (P : B -> Prop) (l : list A),
    Forall (fun a => P (f a)) l -> Forall P (List.map f l).
Proof.
  intros A B f P l H. induction H; cbn [List.map]; constructor; assumption.
Qed.

End CsOrderFacts.

(** ** The order of the listing: TypeScript *)

Module TsOrderFacts.
Import Spec MoreSpec PyFacts ExclusionFacts FrameworkFacts PathFacts RunFacts.
Import MoreFacts WalkFacts OrderFacts CsOrderFacts.

(** *** The renderer *)

Lemma ts_format_groups_sorted :
  forall root groups,
    TypeScript.format_groups root
      (List.map (fun kv => (fst kv, sorted_by TypeScript.f_path (snd kv)))
         groups)
    = TypeScript.format_groups root groups.
Proof.
  intros root groups. induction groups as [|[k vs] groups IH]; [reflexivity|].
  cbn [List.map TypeScript.format_groups fst snd].
  now rewrite sorted_by_idem, IH.
Qed.

(** The first loop of [format_output] returns when every path is under the
    root, and then groups by directory. *)
Lemma ts_group_by_dir_grouped :
  forall root files d d',
    TypeScript.group_by_dir root files d = Ret d' ->
    d' = grouped (ts_dir_key root) files d
    /\ Forall (fun f => exists rel,
                 relative_to (path_of_str (TypeScript.f_path f)) root = Ret rel)
         files.
Proof.
  intros root files. induction files as [|f files IH]; intros d d' H.
  - inversion H; subst. split; [reflexivity|constructor].
  - cbn [TypeScript.group_by_dir] in H.
    destruct (relative_to (path_of_str (TypeScript.f_path f)) root)
      as [rel|x] eqn:E; [|discriminate].
    assert (K : ts_dir_key root f = TypeScript.dir_name_of rel)
      by (unfold ts_dir_key; now rewrite E).
    destruct (IH _ _ H) as [-> HF]. split.
    + unfold grouped. cbn [fold_left]. now rewrite K.
    + constructor; [now exists rel|exact HF].
Qed.

Lemma ts_group_by_dir_ret :
  forall root files d,
    Forall (fun f => exists rel,
              relative_to (path_of_str (TypeScript.f_path f)) root = Ret rel)
      files ->
    TypeScript.group_by_dir root files d
    = Ret (grouped (ts_dir_key root) files d).
Proof.
  intros root files d H. revert d.
  induction H as [|f files (rel & E) _ IH]; intros d; [reflexivity|].
  assert (K : ts_dir_key root f = TypeScript.dir_name_of rel)
    by (unfold ts_dir_key; now rewrite E).
  cbn [TypeScript.group_by_dir]. rewrite E, IH.
  unfold grouped. cbn [fold_left]. now rewrite K.
Qed.

Lemma ts_format_output_perm :
  forall files files' root frameworks output,
    Permutation files files' ->
    NoDup (List.map TypeScript.f_path files) ->
    TypeScript.format_output files root frameworks = Ret output ->
    TypeScript.format_output files' root frameworks = Ret output.
Proof.
  intros files files' root frameworks output Hp Hnd H.
  unfold TypeScript.format_output in *.
  destruct (TypeScript.group_by_dir root files []) as [d|x] eqn:E;
    [|discriminate].
  destruct (ts_group_by_dir_grouped _ _ _ _ E) as [-> HF].
  rewrite (ts_group_by_dir_ret root files' []
             (Permutation_Forall Hp HF)).
  rewrite <- (ts_format_groups_sorted root) in H |- *.
  rewrite <- !(sorted_by_map _ _ fst fst
                 (fun kv : text * list TypeScript.FileInfo =>
                    (fst kv, sorted_by TypeScript.f_path (snd kv))))
    in H |- * by reflexivity.
  fold (arranged (ts_dir_key root) TypeScript.f_path files) in H.
  fold (arranged (ts_dir_key root) TypeScript.f_path files').
  now rewrite <- (arranged_of_perm _ (ts_dir_key root) TypeScript.f_path
                    files files' Hp Hnd).
Qed.

(** *** The walk *)

Lemma ts_walk_step_eq :
  forall root excludes depth st e,
    TypeScript.walk_step root excludes depth st e
    = if endswith (path_name (root ++ e_rel e)) (lit ".d.ts")
         || TypeScript.should_exclude (e_rel e) excludes
      then Some (inr st)
      else match TypeScript.parse_file (root ++ e_rel e) (e_reads e) depth with
           | None => None
           | Some (Raise x) => Some (inl (x, TypeScript.stderr st))
           | Some (Ret r) => Some (inr (ts_grow st (root ++ e_rel e) r))
           end.
Proof.
  intros root excludes depth st e. unfold TypeScript.walk_step.
  rewrite relative_to_app.
  destruct (endswith _ _); [reflexivity|]. cbn [orb].
  destruct (TypeScript.should_exclude (e_rel e) excludes); [reflexivity|].
  destruct (TypeScript.parse_file _ _ _) as [[[[fi|] w]|x]|]; try reflexivity;
    unfold ts_grow; cbn [fst snd flat_map List.length app].
  - rewrite !app_nil_r. reflexivity.
  - rewrite !app_nil_r, !Nat.add_0_r. destruct st; reflexivity.
Qed.

Lemma ts_walk_cons :
  forall root excludes depth e es st,
    TypeScript.walk root excludes depth (e :: es) st
    = if endswith (path_name (root ++ e_rel e)) (lit ".d.ts")
         || TypeScript.should_exclude (e_rel e) excludes
      then TypeScript.walk root excludes depth es st
      else match TypeScript.parse_file (root ++ e_rel e) (e_reads e) depth with
           | None => None
           | Some (Raise x) => Some (inl (x, TypeScript.stderr st))
           | Some (Ret r) =>
               TypeScript.walk root excludes depth es
                 (ts_grow st (root ++ e_rel e) r)
           end.
Proof.
  intros root excludes depth e es st. cbn [TypeScript.walk].
  rewrite ts_walk_step_eq.
  destruct (_ || _); [reflexivity|].
  now destruct (TypeScript.parse_file _ _ _) as [[r|x]|].
Qed.

Lemma ts_same_refl : forall st, ts_same st st.
Proof.
  intros st. repeat split; auto using Permutation_refl.
Qed.

Lemma ts_same_trans :
  forall a b c, ts_same a b -> ts_same b c -> ts_same a c.
Proof.
  intros a b c (H1 & H2 & H3 & H4 & H5 & H6) (G1 & G2 & G3 & G4 & G5 & G6).
  repeat split; try congruence;
    try (eapply perm_trans; eassumption).
  - intros H. apply G2, H2, H.
  - intros H. apply H2, G2, H.
Qed.

Lemma ts_grow_same :
  forall st st' p r, ts_same st st' -> ts_same (ts_grow st p r) (ts_grow st' p r).
Proof.
  intros st st' p r (H1 & H2 & H3 & H4 & H5 & H6).
  unfold ts_grow, ts_same.
  cbn [TypeScript.files TypeScript.all_imports TypeScript.file_count
         TypeScript.type_count TypeScript.stderr TypeScript.parsed].
  repeat split; try congruence;
    try (apply Permutation_app_tail; assumption).
  - rewrite !set_update_In. intros [H|H]; [left; now apply H2|now right].
  - rewrite !set_update_In. intros [H|H]; [left; now apply H2|now right].
Qed.

Lemma ts_grow_swap :
  forall st p1 r1 p2 r2,
    ts_same (ts_grow (ts_grow st p1 r1) p2 r2)
            (ts_grow (ts_grow st p2 r2) p1 r1).
Proof.
  intros st p1 r1 p2 r2. unfold ts_grow, ts_same.
  cbn [TypeScript.files TypeScript.all_imports TypeScript.file_count
         TypeScript.type_count TypeScript.stderr TypeScript.parsed].
  repeat split; try lia;
    try (rewrite <- !app_assoc; apply Permutation_app_head,
           Permutation_app_comm).
  - rewrite !set_update_In. tauto.
  - rewrite !set_update_In. tauto.
Qed.

Lemma ts_alike_trans :
  forall a b c, ts_alike a b -> ts_alike b c -> ts_alike a c.
Proof.
  intros [[xa|sa]|] [[xb|sb]|] [[xc|sc]|]; cbn; try tauto.
  apply ts_same_trans.
Qed.

Lemma ts_walk_same :
  forall root excludes depth es st st',
    ts_same st st' ->
    ts_alike (TypeScript.walk root excludes depth es st)
             (TypeScript.walk root excludes depth es st').
Proof.
  intros root excludes depth es. induction es as [|e es IH]; intros st st' H;
    [exact H|].
  rewrite !ts_walk_cons.
  destruct (_ || _); [now apply IH|].
  destruct (TypeScript.parse_file _ _ _) as [[r|x]|]; try exact I.
  now apply IH, ts_grow_same.
Qed.

Lemma ts_walk_perm :
  forall root excludes depth es es',
    Permutation es es' ->
    forall st st',
      ts_same st st' ->
      ts_alike (TypeScript.walk root excludes depth es st)
               (TypeScript.walk root excludes depth es' st').
Proof.
  intros root excludes depth es es' Hp.
  induction Hp as [|e l l' Hp IH|x y l|l l' l'' Hp1 IH1 Hp2 IH2];
    intros st st' H.
  - exact H.
  - rewrite !ts_walk_cons.
    destruct (_ || _); [now apply IH|].
    destruct (TypeScript.parse_file _ _ _) as [[r|ex]|]; try exact I.
    now apply IH, ts_grow_same.
  - rewrite !ts_walk_cons.
    destruct (endswith (path_name (root ++ e_rel x)) (lit ".d.ts")
              || TypeScript.should_exclude (e_rel x) excludes) eqn:Ex;
      destruct (endswith (path_name (root ++ e_rel y)) (lit ".d.ts")
                || TypeScript.should_exclude (e_rel y) excludes) eqn:Ey;
      destruct (TypeScript.parse_file (root ++ e_rel x) (e_reads x) depth)
        as [[rx|ex]|] eqn:Px;
      destruct (TypeScript.parse_file (root ++ e_rel y) (e_reads y) depth)
        as [[ry|ey]|] eqn:Py;
      rewrite ?ts_walk_cons, ?Ex, ?Ey, ?Px, ?Py; try exact I;
      apply ts_walk_same; try exact H; try (now apply ts_grow_same).
    apply ts_same_trans
      with (ts_grow (ts_grow st' (root ++ e_rel y) ry) (root ++ e_rel x) rx);
      [now apply ts_grow_same, ts_grow_same|apply ts_grow_swap].
  - apply ts_alike_trans with (TypeScript.walk root excludes depth l' st').
    + now apply IH1.
    + apply IH2, ts_same_refl.
Qed.

(** *** The paths of the collected files *)

Lemma ts_parse_file_path :
  forall fp reads depth f w,
    TypeScript.parse_file fp reads depth = ret (Some f, w) ->
    TypeScript.f_path f = path_str fp.
Proof.
  intros fp reads depth f w H. unfold TypeScript.parse_file in H.
  destruct (read_text decode_utf8 (reads 0%nat)) as [content|[]];
    try discriminate.
  destruct (TypeScript.parse_content fp content depth) as [[f'|e]|] eqn:E;
    try discriminate.
  cbn [bind ret] in H. inversion H; subst.
  apply (ts_parse_content_path fp content depth f E).
Qed.

Lemma ts_walk_paths :
  forall root excludes depth es st st',
    TypeScript.walk root excludes depth es st = Some (inr st') ->
    exists sub,
      subseq sub es
      /\ List.map TypeScript.f_path (TypeScript.files st')
         = List.map TypeScript.f_path (TypeScript.files st)
           ++ List.map (fun e => path_str (root ++ e_rel e)) sub.
Proof.
  intros root excludes depth es. induction es as [|e es IH]; intros st st' H.
  - inversion H; subst. exists []. rewrite app_nil_r.
    split; [constructor|reflexivity].
  - rewrite ts_walk_cons in H.
    destruct (_ || _).
    + destruct (IH st st' H) as (sub & Hs & E). exists sub.
      split; [now apply subseq_skip|exact E].
    + destruct (TypeScript.parse_file (root ++ e_rel e) (e_reads e) depth)
        as [[[[fi|] w]|x]|] eqn:Ep; try discriminate.
      * destruct (IH _ st' H) as (sub & Hs & E). exists (e :: sub).
        split; [now apply subseq_take|]. rewrite E.
        unfold ts_grow. cbn [TypeScript.files fst List.map].
        rewrite map_app, <- app_assoc. cbn [List.map app].
        now rewrite (ts_parse_file_path _ _ _ _ _ Ep).
      * destruct (IH _ st' H) as (sub & Hs & E). exists sub.
        split; [now apply subseq_skip|]. rewrite E.
        unfold ts_grow. cbn [TypeScript.files fst]. now rewrite app_nil_r.
Qed.

Lemma ts_candidates_perm :
  forall t t',
    Permutation (entries t) (entries t') ->
    Permutation (TypeScript.candidates t) (TypeScript.candidates t').
Proof.
  intros t t' H. unfold TypeScript.candidates. cbn [flat_map].
  repeat apply Permutation_app; try apply Permutation_refl;
    unfold rglob; now apply filter_perm.
Qed.

End TsOrderFacts.

(** ** The order of the listing: Python *)

Module PyOrderFacts.
Import Spec MoreSpec PyFacts ExclusionFacts FrameworkFacts PathFacts RunFacts.
Import MoreFacts WalkFacts OrderFacts CsOrderFacts.

(** *** The renderer *)

Lemma py_format_groups_sorted :
  forall root groups,
    Python.format_groups root
      (List.map (fun kv => (fst kv, sorted_by Python.mod_path (snd kv)))
         groups)
    = Python.format_groups root groups.
Proof.
  intros root groups. induction groups as [|[k vs] groups IH]; [reflexivity|].
  cbn [List.map Python.format_groups fst snd].
  now rewrite sorted_by_idem, IH.
Qed.

Lemma py_group_by_dir_grouped :
  forall root mods d d',
    Python.group_by_dir root mods d = Ret d' ->
    d' = grouped (py_dir_key root) mods d
    /\ Forall (fun m => exists rel,
                 relative_to (path_of_str (Python.mod_path m)) root = Ret rel)
         mods.
Proof.
  intros root mods. induction mods as [|m mods IH]; intros d d' H.
  - inversion H; subst. split; [reflexivity|constructor].
  - cbn [Python.group_by_dir] in H.
    destruct (relative_to (path_of_str (Python.mod_path m)) root)
      as [rel|x] eqn:E; [|discriminate].
    assert (K : py_dir_key root m = Python.dir_name_of rel)
      by (unfold py_dir_key; now rewrite E).
    destruct (IH _ _ H) as [-> HF]. split.
    + unfold grouped. cbn [fold_left]. now rewrite K.
    + constructor; [now exists rel|exact HF].
Qed.

Lemma py_group_by_dir_ret :
  forall root mods d,
    Forall (fun m => exists rel,
              relative_to (path_of_str (Python.mod_path m)) root = Ret rel)
      mods ->
    Python.group_by_dir root mods d = Ret (grouped (py_dir_key root) mods d).
Proof.
  intros root mods d H. revert d.
  induction H as [|m mods (rel & E) _ IH]; intros d; [reflexivity|].
  assert (K : py_dir_key root m = Python.dir_name_of rel)
    by (unfold py_dir_key; now rewrite E).
  cbn [Python.group_by_dir]. rewrite E, IH.
  unfold grouped. cbn [fold_left]. now rewrite K.
Qed.

Lemma py_format_output_perm :
  forall modules modules' root frameworks output,
    Permutation (flat_map snd modules) (flat_map snd modules') ->
    NoDup (List.map Python.mod_path (flat_map snd modules)) ->
    Python.format_output modules root frameworks = Ret output ->
    Python.format_output modules' root frameworks = Ret output.
Proof.
  intros modules modules' root frameworks output Hp Hnd H.
  unfold Python.format_output in *.
  destruct (Python.group_by_dir root (flat_map snd modules) [])
    as [d|x] eqn:E; [|discriminate].
  destruct (py_group_by_dir_grouped _ _ _ _ E) as [-> HF].
  rewrite (py_group_by_dir_ret root (flat_map snd modules') []
             (Permutation_Forall Hp HF)).
  rewrite <- (py_format_groups_sorted root) in H |- *.
  rewrite <- !(sorted_by_map _ _ fst fst
                 (fun kv : text * list Python.ModuleInfo =>
                    (fst kv, sorted_by Python.mod_path (snd kv))))
    in H |- * by reflexivity.
  fold (arranged (py_dir_key root) Python.mod_path (flat_map snd modules))
    in H.
  fold (arranged (py_dir_key root) Python.mod_path (flat_map snd modules')).
  now rewrite <- (arranged_of_perm _ (py_dir_key root) Python.mod_path
                    _ _ Hp Hnd).
Qed.

(** *** The dictionary of the walk *)

Lemma dict_append_perm :
  forall (A : Type) (d : list (text * list A)) (k : text) (v : A),
    Permutation (flat_map snd (dict_append d k v)) (flat_map snd d ++ [v]).
Proof.
  intros A d k v. induction d as [|[k' vs] d IH].
  - apply Permutation_refl.
  - cbn [dict_append]. destruct (text_eqb k' k); cbn [flat_map snd].
    + rewrite <- !app_assoc. apply Permutation_app_head, Permutation_app_comm.
    + rewrite <- app_assoc. now apply Permutation_app_head.
Qed.

Section PyOrder.

Variable ast_parse : Python.parser.

Lemma py_walk_step_eq :
  forall root excludes depth st e,
    Python.walk_step ast_parse root excludes depth st e
    = if Python.should_exclude (e_rel e) excludes then inr st
      else match Python.parse_module ast_parse (root ++ e_rel e) (e_reads e)
                   depth with
           | Raise x => inl (x, Python.stderr st)
           | Ret r => inr (py_grow st (root ++ e_rel e) r)
           end.
Proof.
  intros root excludes depth st e. unfold Python.walk_step.
  rewrite relative_to_app.
  destruct (Python.should_exclude (e_rel e) excludes); [reflexivity|].
  destruct (Python.parse_module _ _ _ _) as [[[m|] w]|x]; try reflexivity;
    unfold py_grow; cbn [fst snd flat_map List.length app fold_left].
  - rewrite !app_nil_r, count_flat_map. reflexivity.
  - rewrite !Nat.add_0_r. destruct st; reflexivity.
Qed.

Lemma py_walk_cons :
  forall root excludes depth e es st,
    Python.walk ast_parse root excludes depth (e :: es) st
    = if Python.should_exclude (e_rel e) excludes
      then Python.walk ast_parse root excludes depth es st
      else match Python.parse_module ast_parse (root ++ e_rel e) (e_reads e)
                   depth with
           | Raise x => inl (x, Python.stderr st)
           | Ret r =>
               Python.walk ast_parse root excludes depth es
                 (py_grow st (root ++ e_rel e) r)
           end.
Proof.
  intros root excludes depth e es st. cbn [Python.walk].
  rewrite py_walk_step_eq.
  destruct (Python.should_exclude (e_rel e) excludes); [reflexivity|].
  now destruct (Python.parse_module _ _ _ _) as [r|x].
Qed.

Lemma py_same_refl : forall st, py_same st st.
Proof.
  intros st. repeat split; auto using Permutation_refl.
Qed.

Lemma py_same_trans :
  forall a b c, py_same a b -> py_same b c -> py_same a c.
Proof.
  intros a b c (H1 & H2 & H3 & H4 & H5 & H6 & H7)
    (G1 & G2 & G3 & G4 & G5 & G6 & G7).
  repeat split; try congruence;
    try (eapply perm_trans; eassumption).
  - intros H. apply G2, H2, H.
  - intros H. apply H2, G2, H.
Qed.

Lemma py_grow_modules :
  forall st p r,
    Permutation (flat_map snd (Python.modules (py_grow st p r)))
      (flat_map snd (Python.modules st)
       ++ match fst r with Some module => [module] | None => [] end).
Proof.
  intros st p [[m|] w]; unfold py_grow;
    cbn [Python.modules fst fold_left].
  - apply dict_append_perm.
  - rewrite app_nil_r. apply Permutation_refl.
Qed.

Lemma py_grow_same :
  forall st st' p r, py_same st st' -> py_same (py_grow st p r) (py_grow st' p r).
Proof.
  intros st st' p r (H1 & H2 & H3 & H4 & H5 & H6 & H7).
  split.
  - eapply perm_trans; [apply py_grow_modules|].
    eapply perm_trans; [|apply Permutation_sym, py_grow_modules].
    now apply Permutation_app_tail.
  - unfold py_grow.
    cbn [Python.all_imports Python.file_count Python.class_count
           Python.method_count Python.stderr Python.parsed].
    repeat split; try congruence;
      try (apply Permutation_app_tail; assumption).
    + rewrite !set_update_In. intros [H|H]; [left; now apply H2|now right].
    + rewrite !set_update_In. intros [H|H]; [left; now apply H2|now right].
Qed.

Lemma py_grow_swap :
  forall st p1 r1 p2 r2,
    py_same (py_grow (py_grow st p1 r1) p2 r2)
            (py_grow (py_grow st p2 r2) p1 r1).
Proof.
  intros st p1 r1 p2 r2. split.
  - eapply perm_trans; [apply py_grow_modules|].
    eapply perm_trans; [apply Permutation_app_tail, py_grow_modules|].
    eapply perm_trans; [|apply Permutation_sym, py_grow_modules].
    eapply perm_trans;
      [|apply Permutation_app_tail, Permutation_sym, py_grow_modules].
    rewrite <- !app_assoc. apply Permutation_app_head, Permutation_app_comm.
  - unfold py_grow.
    cbn [Python.all_imports Python.file_count Python.class_count
           Python.method_count Python.stderr Python.parsed].
    repeat split; try lia;
      try (rewrite <- !app_assoc; apply Permutation_app_head,
             Permutation_app_comm).
    + rewrite !set_update_In. tauto.
    + rewrite !set_update_In. tauto.
Qed.

Lemma py_alike_trans :
  forall a b c, py_alike a b -> py_alike b c -> py_alike a c.
Proof.
  intros [xa|sa] [xb|sb] [xc|sc]; cbn; try tauto.
  apply py_same_trans.
Qed.

Lemma py_walk_same :
  forall root excludes depth es st st',
    py_same st st' ->
    py_alike (Python.walk ast_parse root excludes depth es st)
             (Python.walk ast_parse root excludes depth es st').
Proof.
  intros root excludes depth es. induction es as [|e es IH]; intros st st' H;
    [exact H|].
  rewrite !py_walk_cons.
  destruct (Python.should_exclude (e_rel e) excludes); [now apply IH|].
  destruct (Python.parse_module _ _ _ _) as [r|x]; try exact I.
  now apply IH, py_grow_same.
Qed.

Lemma py_walk_perm :
  forall root excludes depth es es',
    Permutation es es' ->
    forall st st',
      py_same st st' ->
      py_alike (Python.walk ast_parse root excludes depth es st)
               (Python.walk ast_parse root excludes depth es' st').
Proof.
  intros root excludes depth es es' Hp.
  induction Hp as [|e l l' Hp IH|x y l|l l' l'' Hp1 IH1 Hp2 IH2];
    intros st st' H.
  - exact H.
  - rewrite !py_walk_cons.
    destruct (Python.should_exclude (e_rel e) excludes); [now apply IH|].
    destruct (Python.parse_module _ _ _ _) as [r|ex]; try exact I.
    now apply IH, py_grow_same.
  - rewrite !py_walk_cons.
    destruct (Python.should_exclude (e_rel x) excludes) eqn:Ex;
      destruct (Python.should_exclude (e_rel y) excludes) eqn:Ey;
      destruct (Python.parse_module ast_parse (root ++ e_rel x) (e_reads x)
                  depth) as [rx|ex] eqn:Px;
      destruct (Python.parse_module ast_parse (root ++ e_rel y) (e_reads y)
                  depth) as [ry|ey] eqn:Py;
      rewrite ?py_walk_cons, ?Ex, ?Ey, ?Px, ?Py; try exact I;
      apply py_walk_same; try exact H; try (now apply py_grow_same).
    apply py_same_trans
      with (py_grow (py_grow st' (root ++ e_rel y) ry) (root ++ e_rel x) rx);
      [now apply py_grow_same, py_grow_same|apply py_grow_swap].
  - apply py_alike_trans
      with (Python.walk ast_parse root excludes depth l' st').
    + now apply IH1.
    + apply IH2, py_same_refl.
Qed.

(** *** The paths of the collected modules *)

Lemma py_parse_module_path :
  forall fp reads depth m w,
    Python.parse_module ast_parse fp reads depth = Ret (Some m, w) ->
    Python.mod_path m = path_str fp.
Proof.
  intros fp reads depth m w H. unfold Python.parse_module in H.
  destruct (read_text decode_utf8 (reads 0%nat)) as [content|[]];
    try discriminate.
  destruct (ast_parse content (path_str fp)) as [tree|e|x];
    [|discriminate|discriminate].
  inversion H; subst. reflexivity.
Qed.

Lemma py_walk_paths :
  forall root excludes depth es st st',
    Python.walk ast_parse root excludes depth es st = inr st' ->
    exists sub,
      subseq sub es
      /\ Permutation
           (List.map Python.mod_path (flat_map snd (Python.modules st')))
           (List.map Python.mod_path (flat_map snd (Python.modules st))
            ++ List.map (fun e => path_str (root ++ e_rel e)) sub).
Proof.
  intros root excludes depth es. induction es as [|e es IH]; intros st st' H.
  - inversion H; subst. exists []. rewrite app_nil_r.
    split; [constructor|apply Permutation_refl].
  - rewrite py_walk_cons in H.
    destruct (Python.should_exclude (e_rel e) excludes).
    + destruct (IH st st' H) as (sub & Hs & E). exists sub.
      split; [now apply subseq_skip|exact E].
    + destruct (Python.parse_module ast_parse (root ++ e_rel e) (e_reads e)
                  depth) as [[[m|] w]|x] eqn:Ep; try discriminate.
      * destruct (IH _ st' H) as (sub & Hs & E). exists (e :: sub).
        split; [now apply subseq_take|].
        eapply perm_trans; [exact E|]. cbn [List.map].
        rewrite <- (py_parse_module_path _ _ _ _ _ Ep).
        change (Python.mod_path m
                :: List.map (fun e0 => path_str (root ++ e_rel e0)) sub)
          with (List.map Python.mod_path [m]
                ++ List.map (fun e0 => path_str (root ++ e_rel e0)) sub).
        rewrite app_assoc. apply Permutation_app_tail.
        rewrite <- map_app. apply Permutation_map.
        apply (py_grow_modules st (root ++ e_rel e) (Some m, w)).
      * destruct (IH _ st' H) as (sub & Hs & E). exists sub.
        split; [now apply subseq_skip|].
        eapply perm_trans; [exact E|]. apply Permutation_app_tail.
        apply Permutation_map.
        pose proof (py_grow_modules st (root ++ e_rel e) (None, w)) as Hg.
        cbn [fst] in Hg. now rewrite app_nil_r in Hg.
Qed.

End PyOrder.

End PyOrderFacts.

(** ** The renderers as functions of what they show *)

Module RenderFacts.
Import Spec MoreSpec PyFacts WalkFacts OrderFacts.
Import CsOrderFacts TsOrderFacts PyOrderFacts.




(** *** C# *)




(** *** TypeScript *)










(** *** Python *)












End RenderFacts.

(* ================================================================== *)
(** * Part III: the claims *)
(* ================================================================== *)

Module Claims.
Import Spec PyFacts BalanceFacts DepthFacts VisibilityFacts ExclusionFacts.
Import FrameworkFacts ReFacts TotalityFacts PathFacts RunFacts SkipFacts.
Import CsOrderFacts RenderFacts.
Import Re.

(** C1, as amended: for a start offset inside the text
    ([0 <= start <= len(content)]), [find_type_end] and [find_block_end]
    return without raising; the offset returned lies between the start offset
    and the text length; it is the first offset from [start] on that holds a
    closing brace bringing the depth counter back to zero, and it is the text
    length exactly when it is not such an offset. *)
Theorem find_block_end_in_range :
  forall content start,
    (0 <= start <= len content)%Z ->
    exists r : nat,
      CSharp.find_type_end content start = Some (Ret (Z.of_nat r))
      /\ TypeScript.find_block_end content start = Some (Ret (Z.of_nat r))
      /\ (start <= Z.of_nat r <= len content)%Z
      /\ (forall j, (Z.to_nat start <= j < r)%nat ->
            ~ Balance.closes_at content (Z.to_nat start) j)
      /\ (r = List.length content
          \/ (r < List.length content)%nat
             /\ Balance.closes_at content (Z.to_nat start) r).
Proof.
  intros content start Hs.
  destruct (find_type_end_loop_spec
              (Z.to_nat (len content - start)) content 0 (Z.to_nat start))
    as (r & Hr & Hb & Hfirst & Hlast);
    [unfold len in *; lia|unfold len in *; lia|].
  rewrite Z2Nat.id in Hr by lia.
  exists r. split; [exact Hr|]. split; [rewrite find_block_end_eq; exact Hr|].
  split; [unfold len; lia|]. split.
  - intros j Hj [Hc Hz]. apply (Hfirst j Hj). split; [exact Hc|].
    unfold Balance.depth_after in Hz. lia.
  - destruct Hlast as [->|(Hrl & Hc & Hz)]; [now left|right].
    split; [exact Hrl|]. split; [exact Hc|].
    unfold Balance.depth_after. lia.
Qed.

Lemma find_block_end_in_range_witness :
  (0 <= 1 <= len (lit "a{b{}c}d}"))%Z
  /\ exists r : nat,
      CSharp.find_type_end (lit "a{b{}c}d}") 1 = Some (Ret (Z.of_nat r))
      /\ TypeScript.find_block_end (lit "a{b{}c}d}") 1 = Some (Ret (Z.of_nat r))
      /\ (1 <= Z.of_nat r <= len (lit "a{b{}c}d}"))%Z
      /\ (forall j, (Z.to_nat 1 <= j < r)%nat ->
            ~ Balance.closes_at (lit "a{b{}c}d}") (Z.to_nat 1) j)
      /\ (r = List.length (lit "a{b{}c}d}")
          \/ (r < List.length (lit "a{b{}c}d}"))%nat
             /\ Balance.closes_at (lit "a{b{}c}d}") (Z.to_nat 1) r).
Proof.
  split; [vm_compute; split; discriminate|].
  apply (find_block_end_in_range (lit "a{b{}c}d}") 1).
  vm_compute; split; discriminate.
Defined.

(** C1 as stated fails outside the text: one past the end of the empty text
    the function returns the text length, which is below the start offset;
    below [-len] the first subscript raises [IndexError]. *)
Lemma find_block_end_out_of_range :
  (CSharp.find_type_end (lit "") 1 = Some (Ret 0%Z) /\ (0 < 1)%Z)
  /\ (TypeScript.find_block_end (lit "") 1 = Some (Ret 0%Z) /\ (0 < 1)%Z)
  /\ CSharp.find_type_end (lit "ab") (-3) = Some (Raise IndexError)
  /\ TypeScript.find_block_end (lit "ab") (-3) = Some (Raise IndexError).
Proof. repeat split. Qed.

(** C3: for a fixed file, the number of members extracted under [classes]
    is at most the number under [methods], which is at most the number
    under [full].  Under [classes] every member list is empty, and every
    member kept under [methods] is kept under [full], in the same order.
    This holds for the C#, the TypeScript and the Python extractor; the
    three policies give models with the same types, or end in the same
    skip or exception. *)
Theorem depth_policy_monotone :
  (* C# *)
  (forall fp reads,
      cs_extracted (CSharp.parse_file fp reads (lit "classes")) = 0%nat
      /\ (cs_extracted (CSharp.parse_file fp reads (lit "classes"))
          <= cs_extracted (CSharp.parse_file fp reads (lit "methods")))%nat
      /\ (cs_extracted (CSharp.parse_file fp reads (lit "methods"))
          <= cs_extracted (CSharp.parse_file fp reads (lit "full")))%nat)
  /\ (forall fp content,
        exists fc fm ff,
          CSharp.parse_content fp content (lit "classes") = ret fc
          /\ CSharp.parse_content fp content (lit "methods") = ret fm
          /\ CSharp.parse_content fp content (lit "full") = ret ff
          /\ Forall (fun t => CSharp.t_members t = []) (CSharp.f_types fc)
          /\ Forall2
               (fun a b => subseq (CSharp.t_members a) (CSharp.t_members b))
               (CSharp.f_types fm) (CSharp.f_types ff))
  (* TypeScript *)
  /\ (forall fp reads,
        ts_extracted (TypeScript.parse_file fp reads (lit "classes")) = 0%nat
        /\ (ts_extracted (TypeScript.parse_file fp reads (lit "classes"))
            <= ts_extracted (TypeScript.parse_file fp reads (lit "methods")))%nat
        /\ (ts_extracted (TypeScript.parse_file fp reads (lit "methods"))
            <= ts_extracted (TypeScript.parse_file fp reads (lit "full")))%nat)
  /\ (forall fp content,
        exists fc fm ff,
          TypeScript.parse_content fp content (lit "classes") = ret fc
          /\ TypeScript.parse_content fp content (lit "methods") = ret fm
          /\ TypeScript.parse_content fp content (lit "full") = ret ff
          /\ Forall (fun t => TypeScript.t_members t = [])
               (TypeScript.f_types fc)
          /\ Forall2
               (fun a b =>
                  subseq (TypeScript.t_members a) (TypeScript.t_members b))
               (TypeScript.f_types fm) (TypeScript.f_types ff))
  (* Python *)
  /\ (forall ast_parse fp reads,
        py_extracted (Python.parse_module ast_parse fp reads (lit "classes"))
        = 0%nat
        /\ (py_extracted
              (Python.parse_module ast_parse fp reads (lit "classes"))
            <= py_extracted
                 (Python.parse_module ast_parse fp reads (lit "methods")))%nat
        /\ (py_extracted
              (Python.parse_module ast_parse fp reads (lit "methods"))
            <= py_extracted
                 (Python.parse_module ast_parse fp reads (lit "full")))%nat)
  /\ (forall ast_parse fp reads,
        match Python.parse_module ast_parse fp reads (lit "classes"),
              Python.parse_module ast_parse fp reads (lit "methods"),
              Python.parse_module ast_parse fp reads (lit "full") with
        | Ret (Some mc, _), Ret (Some mm, _), Ret (Some mf, _) =>
            Forall py_bare (Python.mod_classes mc)
            /\ Python.mod_functions mc = []
            /\ Forall2 py_within (Python.mod_classes mm) (Python.mod_classes mf)
            /\ subseq (Python.mod_functions mm) (Python.mod_functions mf)
        | Ret (None, w), Ret (None, w'), Ret (None, w'') => w = w' /\ w' = w''
        | Raise e, Raise e', Raise e'' => e = e' /\ e' = e''
        | _, _, _ => False
        end).
Proof.
  split; [|split; [|split; [|split; [|split]]]].
  - intros fp reads. destruct (cs_parse_file_counts fp reads) as [H0 H1].
    rewrite H0. repeat split; [lia|exact H1].
  - apply cs_parse_content_related.
  - intros fp reads. destruct (ts_parse_file_counts fp reads) as [H0 H1].
    rewrite H0. repeat split; [lia|exact H1].
  - apply ts_parse_content_three.
  - intros ast_parse fp reads.
    destruct (py_parse_module_counts ast_parse fp reads) as [H0 H1].
    rewrite H0. repeat split; [lia|exact H1].
  - apply py_parse_module_related.
Qed.



(** C5: a file with a path part, anywhere between the root and the file,
    that is equal (code point by code point) to a name of the exclusion set
    or that begins with a dot is never handed to the per-file extractor and
    leaves no trace in the result of the run, whatever the depth policy.
    [should_exclude] is the rule [excluded_by]; the exclusion set is the
    default set and the names given on the command line; a run over a tree
    is the run over the tree without the excluded files; and every file that
    a walk parses is one that the rule lets through. *)
Theorem exclusion_correct :
  (forall parts excludes,
      CSharp.should_exclude parts excludes = excluded_by excludes parts
      /\ TypeScript.should_exclude parts excludes = excluded_by excludes parts
      /\ Python.should_exclude parts excludes = excluded_by excludes parts)
  /\ (forall excludes rel,
        excluded_by excludes rel = true
        <-> exists part,
              In part rel
              /\ (In part excludes \/ startswith part (lit ".") = true))
  /\ (forall a x,
        In x (CSharp.excludes_of a)
        <-> In x CSharp.DEFAULT_EXCLUDES
            \/ (a_exclude a <> [] /\ In x (split 44%N (a_exclude a))))
  /\ (forall ast_parse a t,
        CSharp.main a t
        = CSharp.main a (prune (excluded_by (CSharp.excludes_of a)) t)
        /\ TypeScript.main a t
           = TypeScript.main a (prune (excluded_by (TypeScript.excludes_of a)) t)
        /\ Python.main ast_parse a t
           = Python.main ast_parse a
               (prune (excluded_by (Python.excludes_of a)) t))
  /\ (forall root excludes depth es st st' p,
        CSharp.walk root excludes depth es st = Some (inr st') ->
        In p (CSharp.parsed st') ->
        In p (CSharp.parsed st)
        \/ exists e, In e es /\ p = root ++ e_rel e
                     /\ excluded_by excludes (e_rel e) = false)
  /\ (forall root excludes depth es st st' p,
        TypeScript.walk root excludes depth es st = Some (inr st') ->
        In p (TypeScript.parsed st') ->
        In p (TypeScript.parsed st)
        \/ exists e, In e es /\ p = root ++ e_rel e
                     /\ excluded_by excludes (e_rel e) = false)
  /\ (forall ast_parse root excludes depth es st st' p,
        Python.walk ast_parse root excludes depth es st = inr st' ->
        In p (Python.parsed st') ->
        In p (Python.parsed st)
        \/ exists e, In e es /\ p = root ++ e_rel e
                     /\ excluded_by excludes (e_rel e) = false).
Proof.
  split; [|split; [|split; [|split; [|split; [|split]]]]].
  - intros parts excludes. repeat split;
      [apply cs_should_exclude_eq|apply ts_should_exclude_eq
      |apply py_should_exclude_eq].
  - intros excludes rel. unfold excluded_by. rewrite existsb_exists.
    split; intros (part & Hin & H); exists part; (split; [exact Hin|]).
    + apply orb_true_iff in H. rewrite mem_In in H. exact H.
    + apply orb_true_iff. rewrite mem_In. exact H.
  - intros a x. unfold CSharp.excludes_of.
    destruct (a_exclude a) as [|c rest] eqn:E.
    + split; [now left|]. intros [H|[H _]]; [exact H|contradiction].
    + rewrite set_update_In. split; intros [H|H]; auto.
      * right. split; [discriminate|exact H].
      * right. apply H.
  - intros ast_parse a t. repeat split.
    + rewrite cs_main_prune. f_equal. unfold prune. f_equal.
      apply filter_ext. intros e. now rewrite cs_should_exclude_eq.
    + rewrite ts_main_prune. f_equal. unfold prune. f_equal.
      apply filter_ext. intros e. now rewrite ts_should_exclude_eq.
    + rewrite py_main_prune. f_equal. unfold prune. f_equal.
      apply filter_ext. intros e. now rewrite py_should_exclude_eq.
  - intros root excludes depth es st st' p Hw Hp.
    destruct (cs_walk_parsed root excludes depth es st st' Hw p Hp)
      as [H|(e & He & Hpe & Hex)]; [now left|right].
    exists e. unfold excluded_by. rewrite <- cs_should_exclude_eq. auto.
  - intros root excludes depth es st st' p Hw Hp.
    destruct (ts_walk_parsed root excludes depth es st st' Hw p Hp)
      as [H|(e & He & Hpe & Hex)]; [now left|right].
    exists e. unfold excluded_by. rewrite <- ts_should_exclude_eq. auto.
  - intros ast_parse root excludes depth es st st' p Hw Hp.
    destruct (py_walk_parsed ast_parse root excludes depth es st st' Hw p Hp)
      as [H|(e & He & Hpe & Hex)]; [now left|right].
    exists e. unfold excluded_by. rewrite <- py_should_exclude_eq. auto.
Qed.

(** C6, as amended.  The list that a detector returns is the display names
    of the entries of its table that are hit, in the order of the table and
    each name once.  What a hit is differs between the three: in the C#
    detector an identifier hits an entry when it starts with the prefix
    (whatever follows); in the TypeScript detector when it equals the prefix
    or starts with the prefix followed by a slash or a hyphen; in the Python
    detector when it equals the prefix.  The order in which the identifiers
    are listed plays no part. *)
Theorem detect_frameworks_spec :
  (forall all_usings,
      CSharp.detect_frameworks all_usings
      = dedup (hits (cs_hit all_usings) CSharp.FRAMEWORK_INDICATORS)
      /\ NoDup (CSharp.detect_frameworks all_usings)
      /\ subseq (CSharp.detect_frameworks all_usings)
           (List.map snd CSharp.FRAMEWORK_INDICATORS))
  /\ (forall all_imports,
        TypeScript.detect_frameworks all_imports
        = dedup (hits (ts_hit all_imports) TypeScript.FRAMEWORK_INDICATORS)
        /\ NoDup (TypeScript.detect_frameworks all_imports)
        /\ subseq (TypeScript.detect_frameworks all_imports)
             (List.map snd TypeScript.FRAMEWORK_INDICATORS))
  /\ (forall all_imports,
        Python.detect_frameworks all_imports
        = hits (py_hit all_imports) Python.FRAMEWORK_INDICATORS
        /\ NoDup (Python.detect_frameworks all_imports)
        /\ subseq (Python.detect_frameworks all_imports)
             (List.map snd Python.FRAMEWORK_INDICATORS))
  /\ (forall name all_usings,
        In name (CSharp.detect_frameworks all_usings)
        <-> exists prefix u,
              In (prefix, name) CSharp.FRAMEWORK_INDICATORS
              /\ In u all_usings /\ startswith u prefix = true)
  /\ (forall name all_imports,
        In name (TypeScript.detect_frameworks all_imports)
        <-> exists prefix i,
              In (prefix, name) TypeScript.FRAMEWORK_INDICATORS
              /\ In i all_imports
              /\ (i = prefix \/ startswith i (prefix ++ lit "/") = true
                  \/ startswith i (prefix ++ lit "-") = true))
  /\ (forall name all_imports,
        In name (Python.detect_frameworks all_imports)
        <-> exists prefix,
              In (prefix, name) Python.FRAMEWORK_INDICATORS
              /\ In prefix all_imports).
Proof.
  assert (Hhits : forall hit table name,
    In name (hits hit table)
    <-> exists prefix, In (prefix, name) table /\ hit prefix = true).
  { intros hit table name. unfold hits. rewrite in_map_iff. split.
    - intros ([k v] & <- & H). apply filter_In in H. exists k. exact H.
    - intros (k & Hin & Hk). exists (k, name). split; [reflexivity|].
      apply filter_In. split; assumption. }
  assert (Ecs : forall l,
    CSharp.detect_frameworks l
    = dedup (hits (cs_hit l) CSharp.FRAMEWORK_INDICATORS))
    by (intros l; apply cs_detect_eq).
  assert (Ets : forall l,
    TypeScript.detect_frameworks l
    = dedup (hits (ts_hit l) TypeScript.FRAMEWORK_INDICATORS))
    by (intros l; apply ts_detect_eq).
  assert (Epy : forall l,
    Python.detect_frameworks l
    = hits (py_hit l) Python.FRAMEWORK_INDICATORS)
    by (intros l; apply py_detect_eq).
  split; [|split; [|split; [|split; [|split]]]].
  - intros all_usings. rewrite Ecs.
    split; [reflexivity|]. split; [apply dedup_NoDup|].
    eapply subseq_trans; [apply dedup_subseq|apply subseq_map_filter].
  - intros all_imports. rewrite Ets.
    split; [reflexivity|]. split; [apply dedup_NoDup|].
    eapply subseq_trans; [apply dedup_subseq|apply subseq_map_filter].
  - intros all_imports. rewrite Epy. split; [reflexivity|]. split.
    + eapply subseq_NoDup; [apply subseq_map_filter|].
      vm_compute. repeat constructor; simpl; intuition discriminate.
    + apply subseq_map_filter.
  - intros name all_usings. rewrite Ecs, dedup_In, Hhits.
    unfold cs_hit. split.
    + intros (prefix & Hin & H). apply existsb_exists in H.
      destruct H as (u & Hu & Hs). exists prefix, u. auto.
    + intros (prefix & u & Hin & Hu & Hs). exists prefix.
      split; [exact Hin|]. apply existsb_exists. exists u. auto.
  - intros name all_imports. rewrite Ets, dedup_In, Hhits.
    unfold ts_hit. split.
    + intros (prefix & Hin & H). apply existsb_exists in H.
      destruct H as (i & Hi & Hs). exists prefix, i.
      split; [exact Hin|]. split; [exact Hi|].
      rewrite !orb_true_iff, text_eqb_eq in Hs. tauto.
    + intros (prefix & i & Hin & Hi & Hs). exists prefix.
      split; [exact Hin|]. apply existsb_exists. exists i.
      split; [exact Hi|]. rewrite !orb_true_iff, text_eqb_eq. tauto.
  - intros name all_imports. rewrite Epy, Hhits. unfold py_hit. split.
    + intros (prefix & Hin & H). apply mem_In in H. eauto.
    + intros (prefix & Hin & H). exists prefix. rewrite mem_In. auto.
Qed.

(** C6 as stated fails.  The C# detector reports Dapper for the
    identifier [Dapperx], which is not the prefix [Dapper] and does not
    start with [Dapper.]; the Python detector reports nothing for
    [pydantic.main], which starts with the prefix [pydantic] followed by a
    dot; the TypeScript detector reports React for [react-dom], where the
    prefix is followed by a hyphen. *)
Lemma detect_frameworks_hits :
  (CSharp.detect_frameworks [lit "Dapperx"] = [lit "Dapper"]
   /\ In (lit "Dapper", lit "Dapper") CSharp.FRAMEWORK_INDICATORS
   /\ text_eqb (lit "Dapperx") (lit "Dapper") = false
   /\ startswith (lit "Dapperx") (lit "Dapper.") = false)
  /\ (Python.detect_frameworks [lit "pydantic.main"] = []
      /\ In (lit "pydantic", lit "Pydantic") Python.FRAMEWORK_INDICATORS
      /\ startswith (lit "pydantic.main") (lit "pydantic.") = true)
  /\ (TypeScript.detect_frameworks [lit "react-dom"] = [lit "React"]
      /\ text_eqb (lit "react-dom") (lit "react") = false
      /\ startswith (lit "react-dom") (lit "react/") = false).
Proof.
  repeat split; try (vm_compute; reflexivity);
    vm_compute; intuition congruence.
Qed.






(** C8: the code does not do what the example says.  On the text of the
    example the TypeScript extractor finds the one class [Foo] with base
    [Bar], but under [methods] its members are [Baz()] and [Hidden()], the
    same as under [full]: the private method is not dropped.  The group
    [modifier] of [METHOD_PATTERN] is repeated, so it holds the last
    repetition only, here the blank before the name, and the test for
    [private] in [parse_class] does not see the word; this is so for a
    method written the TypeScript way as well.  The C# extractor finds no
    type at all in this text. *)
Theorem foo_bar_example :
  TypeScript.parse_file [lit "/"; lit "Foo.ts"]
    (fun _ => ReadBytes (ascii_bytes
       "class Foo extends Bar { public void Baz() {} private void Hidden() {} }"))
    (lit "methods")
  = ret (Some {| TypeScript.f_path := lit "/Foo.ts";
                 TypeScript.f_types :=
                   [{| TypeScript.t_name := lit "Foo";
                       TypeScript.t_kind := lit "class";
                       TypeScript.t_bases := [lit "Bar"];
                       TypeScript.t_members :=
                         [{| TypeScript.m_name := lit "Baz()";
                             TypeScript.m_kind := lit "method";
                             TypeScript.m_is_async := false |};
                          {| TypeScript.m_name := lit "Hidden()";
                             TypeScript.m_kind := lit "method";
                             TypeScript.m_is_async := false |}];
                       TypeScript.t_decorators := [];
                       TypeScript.t_is_exported := false |}];
                 TypeScript.f_imports := [] |}, [])
  /\ TypeScript.parse_file [lit "/"; lit "Foo.ts"]
       (fun _ => ReadBytes (ascii_bytes
          "class Foo extends Bar { public void Baz() {} private void Hidden() {} }"))
       (lit "full")
     = TypeScript.parse_file [lit "/"; lit "Foo.ts"]
         (fun _ => ReadBytes (ascii_bytes
            "class Foo extends Bar { public void Baz() {} private void Hidden() {} }"))
         (lit "methods")
  /\ List.map (fun m => (group_or_empty m "name", group_or_empty m "modifier"))
       (finditer TypeScript.METHOD_PATTERN
          (lit " public void Baz() {} private void Hidden() {} "))
     = [(lit "Baz", lit " "); (lit "Hidden", lit " ")]
  /\ List.map (fun m => (group_or_empty m "name", group_or_empty m "modifier"))
       (finditer TypeScript.METHOD_PATTERN (lit " private hidden() {} "))
     = [(lit "hidden", lit " ")]
  /\ CSharp.parse_file [lit "/"; lit "Foo.cs"]
       (fun _ => ReadBytes (ascii_bytes
          "class Foo extends Bar { public void Baz() {} private void Hidden() {} }"))
       (lit "methods")
     = ret (Some {| CSharp.f_path := lit "/Foo.cs";
                    CSharp.f_namespace := [];
                    CSharp.f_types := [];
                    CSharp.f_usings := [] |}, []).
Proof. repeat split; vm_compute; reflexivity. Qed.




(** C10.  Latin-1 gives every byte a character, so the second read of the
    C# extractor decodes whatever bytes it gets.  [parse_file] returns
    [None] exactly when the [utf-8-sig] codec rejects the bytes of the
    first read and the second read fails with an error of the operating
    system; when the
    second read gives bytes, whatever they are, [parse_file] returns a
    model, the one of the Latin-1 text.  When the first read decodes there
    is no second read: the model is the one of the decoded text.  That is
    so for a file that holds nothing but the first byte or the first two
    bytes of the byte order mark, which the [utf-8-sig] codec reads as the
    empty text although the bytes are not UTF-8. *)
Theorem latin1_fallback_always_decodes :
  forall (fp : Path) (reads : nat -> read_outcome) (depth : text),
    (forall bs,
        List.length (decode_latin1 bs) = List.length bs
        /\ Forall (fun c => (c < 256)%N) (decode_latin1 bs)
        /\ read_text (fun b => Some (decode_latin1 b)) (ReadBytes bs)
           = Ret (universal_newlines (decode_latin1 bs)))
    /\ (forall w,
          CSharp.parse_file fp reads depth = ret (None, w)
          <-> (exists bs,
                  reads 0%nat = ReadBytes bs /\ decode_utf8_sig bs = None)
              /\ reads 1%nat = ReadFails
              /\ w = [lit "Warning: Skipping unreadable file: "
                      ++ path_str fp])
    /\ (forall bs bs',
          reads 0%nat = ReadBytes bs -> decode_utf8_sig bs = None ->
          reads 1%nat = ReadBytes bs' ->
          exists f,
            CSharp.parse_file fp reads depth = ret (Some f, [])
            /\ CSharp.parse_content fp
                 (universal_newlines (decode_latin1 bs')) depth
               = ret f)
    /\ (forall bs content,
          reads 0%nat = ReadBytes bs -> decode_utf8_sig bs = Some content ->
          exists f,
            CSharp.parse_file fp reads depth = ret (Some f, [])
            /\ CSharp.parse_content fp (universal_newlines content) depth
               = ret f)
    /\ decode_utf8_sig [Byte.xef] = Some []
    /\ decode_utf8_sig [Byte.xef; Byte.xbb] = Some []
    /\ decode_utf8 [Byte.xef; Byte.xbb] = None.
Proof.
  intros fp reads depth.
  split.
  - intros bs. split; [apply length_map|]. split; [|reflexivity].
    unfold decode_latin1. apply Forall_forall. intros c Hc.
    apply in_map_iff in Hc. destruct Hc as (b & <- & _).
    destruct b; reflexivity.
  - split; [intros w; apply cs_skip_iff|].
    split; [intros bs bs'; apply cs_fallback_model|].
    split; [|repeat split; reflexivity].
    intros bs content E0 Ed. unfold CSharp.parse_file.
    rewrite E0. cbn [read_text]. rewrite Ed.
    destruct (cs_parse_content_total fp (universal_newlines content) depth)
      as (f & Hf).
    rewrite Hf. exists f. split; reflexivity.
Qed.

Lemma latin1_fallback_always_decodes_witness :
  exists f,
    CSharp.parse_file [lit "/"; lit "a.cs"]
      (fun _ => ReadBytes (ascii_bytes "class Caf" ++ [Byte.xe9]
                           ++ ascii_bytes " { }"))
      (lit "methods")
    = ret (Some f, [])
    /\ CSharp.parse_content [lit "/"; lit "a.cs"]
         (universal_newlines
            (decode_latin1 (ascii_bytes "class Caf" ++ [Byte.xe9]
                            ++ ascii_bytes " { }")))
         (lit "methods")
       = ret f.
Proof.
  apply (proj1 (proj2 (proj2 (latin1_fallback_always_decodes
                         [lit "/"; lit "a.cs"]
                         (fun _ => ReadBytes (ascii_bytes "class Caf"
                                              ++ [Byte.xe9]
                                              ++ ascii_bytes " { }"))
                         (lit "methods"))))
           (ascii_bytes "class Caf" ++ [Byte.xe9] ++ ascii_bytes " { }")
           (ascii_bytes "class Caf" ++ [Byte.xe9] ++ ascii_bytes " { }"));
    reflexivity.
Defined.

End Claims.

(* ================================================================== *)
(** * Part IV: further properties *)
(* ================================================================== *)

(** ** The updater of [CLAUDE.md] *)

Module MdProps.
Import ClaudeMd MdSpec MdFacts.

(** A second update puts the new map where the first one put the old map:
    the outcome is the update of the original file with the new map. *)
Theorem update_claude_md_refreshes :
  forall path content m1 m2 insert_after insert_after',
    (find content START_MARKER = (-1)%Z /\ find content END_MARKER = (-1)%Z)
    \/ (0 <= find content START_MARKER < find content END_MARKER)%Z ->
    contains m1 END_MARKER = false ->
    updated path (fst (updated path content m1 insert_after)) m2 insert_after'
    = (fst (updated path content m2 insert_after),
       lit "Updated existing map section in " ++ path).
Proof.
  intros path content m1 m2 ia ia' [[Hs He]|Hord] Hm.
  - apply find_absent in Hs. apply find_absent in He.
    rewrite !(updated_fresh path content _ ia (or_introl Hs)).
    set (x := rstrip (firstn (insertion_point content ia) content)).
    set (y := skipn (insertion_point content ia) content).
    assert (Hxs : contains x START_MARKER = false)
      by (now apply fresh_prefix_clean).
    assert (Hxe : contains x END_MARKER = false)
      by (now apply fresh_prefix_clean).
    rewrite (updated_replace path _ m2 ia' _ _
               (find_START_fresh x m1 y Hxs) (find_END_fresh x m1 y Hxe Hm)).
    f_equal.
    rewrite (with_section_cut_START x m1 y) at 1.
    rewrite firstn_app_exact by (rewrite length_app; simpl; lia).
    rewrite (with_section_cut_END x m1 y).
    rewrite skipn_app_exact by (rewrite !length_app; simpl; lia).
    unfold with_section. rewrite <- app_assoc. reflexivity.
  - assert (Hs := find_present content START_MARKER ltac:(lia)).
    assert (He := find_present content END_MARKER ltac:(lia)).
    set (s := Z.to_nat (find content START_MARKER)) in *.
    set (e := Z.to_nat (find content END_MARKER)) in *.
    assert (Hse : (s < e)%nat) by (unfold s, e; lia).
    destruct (markers_split content s e Hs He) as (y & z & Hc & Hz & Hlen).
    rewrite !(updated_replace path content _ ia s e Hs He). cbn [fst].
    rewrite Hz.
    rewrite (updated_replace path _ m2 ia' _ _
               (find_START_replaced content s y _ Hs Hc)
               (find_END_replaced content s e y z m1 Hs He Hse Hc Hm)).
    f_equal.
    rewrite firstn_app_exact by (now rewrite Hlen).
    rewrite replaced_cut_END.
    rewrite skipn_app_exact by (rewrite !length_app, Hlen; simpl; lia).
    reflexivity.
Qed.

Lemma update_claude_md_refreshes_witness :
  updated (lit "CLAUDE.md")
    (fst (updated (lit "CLAUDE.md")
            (lit "# Notes" ++ [NEWLINE] ++ lit "## Project Context"
             ++ [NEWLINE] ++ lit "text" ++ [NEWLINE] ++ lit "## Other")
            (lit "old map") DEFAULT_INSERT_AFTER))
    (lit "new map") DEFAULT_INSERT_AFTER
  = (fst (updated (lit "CLAUDE.md")
            (lit "# Notes" ++ [NEWLINE] ++ lit "## Project Context"
             ++ [NEWLINE] ++ lit "text" ++ [NEWLINE] ++ lit "## Other")
            (lit "new map") DEFAULT_INSERT_AFTER),
     lit "Updated existing map section in " ++ lit "CLAUDE.md").
Proof.
  apply (update_claude_md_refreshes (lit "CLAUDE.md")
           (lit "# Notes" ++ [NEWLINE] ++ lit "## Project Context"
            ++ [NEWLINE] ++ lit "text" ++ [NEWLINE] ++ lit "## Other")
           (lit "old map") (lit "new map")
           DEFAULT_INSERT_AFTER DEFAULT_INSERT_AFTER).
  - left. split; reflexivity.
  - reflexivity.
Defined.

(** Whatever the file was, an update that returns has written a text with
    both markers in it: a later call that reads this text replaces (it
    neither inserts nor appends), and a removal finds a section to remove. *)
Theorem update_claude_md_leaves_markers :
  forall path read m insert_after o,
    update_claude_md path true read m insert_after = Ret o ->
    exists new,
      o_written o = Some new
      /\ forall read' m' insert_after',
           read_text decode_utf8 read' = Ret new ->
           (exists new',
               update_claude_md path true read' m' insert_after'
               = Ret {| o_result := true; o_written := Some new';
                        o_stdout :=
                          [lit "Updated existing map section in " ++ path];
                        o_stderr := [] |})
           /\ (exists rest,
                  remove_map_section path true read'
                  = Ret {| o_result := true; o_written := Some rest;
                           o_stdout :=
                             [lit "Removed map section from " ++ path];
                           o_stderr := [] |}).
Proof.
  intros path read m ia o H. unfold update_claude_md in H. cbn [negb] in H.
  destruct (read_text decode_utf8 read) as [content|x]; [|discriminate].
  destruct (updated_has_markers path content m ia) as (s & e & Hs & He).
  destruct (updated path content m ia) as [new line].
  cbn [fst] in Hs, He. inversion H; subst; clear H.
  exists new. split; [reflexivity|]. intros read' m' ia' Hr. split.
  - unfold update_claude_md. cbn [negb]. rewrite Hr.
    rewrite (updated_replace path new m' ia' s e Hs He).
    eexists. reflexivity.
  - unfold remove_map_section, removed. cbn [negb]. rewrite Hr.
    rewrite (find_Some _ _ _ Hs), (find_Some _ _ _ He).
    replace (Z.of_nat s =? -1)%Z with false
      by (symmetry; apply Z.eqb_neq; lia).
    replace (Z.of_nat e =? -1)%Z with false
      by (symmetry; apply Z.eqb_neq; lia).
    cbn [orb]. eexists. reflexivity.
Qed.

Lemma update_claude_md_leaves_markers_witness :
  (exists new',
      update_claude_md (lit "CLAUDE.md") true
        (ReadBytes
           (Spec.ascii_bytes "# Notes" ++ [Byte.x0a; Byte.x0a]
            ++ Spec.ascii_bytes "<!-- CODEBASE-MAP:AUTO-START -->"
            ++ [Byte.x0a] ++ Spec.ascii_bytes "old map" ++ [Byte.x0a]
            ++ Spec.ascii_bytes "<!-- CODEBASE-MAP:AUTO-END -->"
            ++ [Byte.x0a]))
        (lit "new map") DEFAULT_INSERT_AFTER
      = Ret {| o_result := true; o_written := Some new';
               o_stdout :=
                 [lit "Updated existing map section in " ++ lit "CLAUDE.md"];
               o_stderr := [] |})
  /\ (exists rest,
         remove_map_section (lit "CLAUDE.md") true
           (ReadBytes
              (Spec.ascii_bytes "# Notes" ++ [Byte.x0a; Byte.x0a]
               ++ Spec.ascii_bytes "<!-- CODEBASE-MAP:AUTO-START -->"
               ++ [Byte.x0a] ++ Spec.ascii_bytes "old map" ++ [Byte.x0a]
               ++ Spec.ascii_bytes "<!-- CODEBASE-MAP:AUTO-END -->"
               ++ [Byte.x0a]))
         = Ret {| o_result := true; o_written := Some rest;
                  o_stdout :=
                    [lit "Removed map section from " ++ lit "CLAUDE.md"];
                  o_stderr := [] |}).
Proof.
  destruct (update_claude_md_leaves_markers (lit "CLAUDE.md")
              (ReadBytes (Spec.ascii_bytes "# Notes  ")) (lit "old map")
              DEFAULT_INSERT_AFTER
              {| o_result := true;
                 o_written :=
                   Some (lit "# Notes" ++ [NEWLINE; NEWLINE] ++ START_MARKER
                         ++ [NEWLINE] ++ lit "old map" ++ [NEWLINE]
                         ++ END_MARKER ++ [NEWLINE]);
                 o_stdout :=
                   [lit "Appended map section to end of CLAUDE.md"];
                 o_stderr := [] |} eq_refl) as (new & Hw & H).
  apply H. cbn [o_written] in Hw. injection Hw as <-. reflexivity.
Defined.

(** With the end marker before the start marker nothing is replaced: the
    update leaves both markers where they were and makes the file longer,
    and so does every later update. *)
Theorem update_claude_md_reversed_markers :
  forall path content m insert_after,
    (0 <= find content END_MARKER < find content START_MARKER)%Z ->
    find (fst (updated path content m insert_after)) START_MARKER
    = find content START_MARKER
    /\ find (fst (updated path content m insert_after)) END_MARKER
       = find content END_MARKER
    /\ len (fst (updated path content m insert_after))
       = (len content + len m + len START_MARKER + 2
          + (find content START_MARKER - find content END_MARKER))%Z.
Proof.
  intros path content m ia Hord.
  assert (Hs := find_present content START_MARKER ltac:(lia)).
  assert (He := find_present content END_MARKER ltac:(lia)).
  assert (Es : find content START_MARKER
               = Z.of_nat (Z.to_nat (find content START_MARKER))) by lia.
  assert (Ee : find content END_MARKER
               = Z.of_nat (Z.to_nat (find content END_MARKER))) by lia.
  set (s := Z.to_nat (find content START_MARKER)) in *.
  set (e := Z.to_nat (find content END_MARKER)) in *.
  assert (Hes : (e < s)%nat) by lia.
  destruct (markers_split content s e Hs He) as (y & z & Hc & Hz & Hlen).
  rewrite (updated_replace path content m ia s e Hs He). cbn [fst].
  rewrite Es, Ee.
  set (r := NEWLINE :: m ++ NEWLINE :: skipn e content).
  split; [|split].
  - apply find_Some. now apply (find_START_replaced content s y).
  - apply find_Some.
    pose proof (find_offset_Some _ _ _ He) as (Ho & _ & Hmin).
    assert (Hw : forall j, (j <= e)%nat ->
              occ (firstn s content ++ START_MARKER ++ r) END_MARKER j
              = occ content END_MARKER j).
    { intros j Hj.
      transitivity
        (occ ((firstn s content ++ START_MARKER) ++ y) END_MARKER j).
      - rewrite app_assoc. apply occ_shared_prefix.
        rewrite length_app, Hlen. vm_compute List.length. lia.
      - now rewrite <- app_assoc, <- Hc. }
    apply find_offset_first.
    + rewrite Hw by lia. exact Ho.
    + intros j Hj. rewrite Hw by lia. now apply Hmin.
  - unfold len, r. rewrite !length_app. cbn [List.length].
    rewrite length_app. cbn [List.length]. rewrite Hlen, length_skipn.
    pose proof (find_offset_Some _ _ _ Hs) as (_ & Hl & _). lia.
Qed.

Lemma update_claude_md_reversed_markers_witness :
  find (fst (updated (lit "CLAUDE.md")
               (END_MARKER ++ lit " notes " ++ START_MARKER)
               (lit "map") DEFAULT_INSERT_AFTER)) START_MARKER
  = find (END_MARKER ++ lit " notes " ++ START_MARKER) START_MARKER
  /\ find (fst (updated (lit "CLAUDE.md")
                  (END_MARKER ++ lit " notes " ++ START_MARKER)
                  (lit "map") DEFAULT_INSERT_AFTER)) END_MARKER
     = find (END_MARKER ++ lit " notes " ++ START_MARKER) END_MARKER
  /\ len (fst (updated (lit "CLAUDE.md")
                 (END_MARKER ++ lit " notes " ++ START_MARKER)
                 (lit "map") DEFAULT_INSERT_AFTER))
     = (len (END_MARKER ++ lit " notes " ++ START_MARKER) + len (lit "map")
        + len START_MARKER + 2
        + (find (END_MARKER ++ lit " notes " ++ START_MARKER) START_MARKER
           - find (END_MARKER ++ lit " notes " ++ START_MARKER) END_MARKER))%Z.
Proof.
  apply (update_claude_md_reversed_markers (lit "CLAUDE.md")
           (END_MARKER ++ lit " notes " ++ START_MARKER) (lit "map")
           DEFAULT_INSERT_AFTER).
  vm_compute. split; [discriminate|reflexivity].
Defined.

(** Removing the section after an update leaves no trace of the map.  In a
    file that had no markers the text before and the text after the place
    of the section are kept, stripped towards the seam and two newlines
    apart; in a file that had its markers in order the outcome is what the
    removal gives without the update. *)
Theorem remove_after_update :
  forall path content m insert_after,
    contains m END_MARKER = false ->
    (find content START_MARKER = (-1)%Z /\ find content END_MARKER = (-1)%Z ->
     removed (fst (updated path content m insert_after))
     = Some (rstrip (firstn (insertion_point content insert_after) content)
             ++ [NEWLINE; NEWLINE]
             ++ lstrip (skipn (insertion_point content insert_after) content)))
    /\ ((0 <= find content START_MARKER < find content END_MARKER)%Z ->
        removed (fst (updated path content m insert_after))
        = removed content).
Proof.
  intros path content m ia Hm. split.
  - intros [Hs He]. apply find_absent in Hs. apply find_absent in He.
    rewrite (updated_fresh path content m ia (or_introl Hs)).
    set (x := rstrip (firstn (insertion_point content ia) content)).
    set (y := skipn (insertion_point content ia) content).
    assert (Hxs : contains x START_MARKER = false)
      by (now apply fresh_prefix_clean).
    assert (Hxe : contains x END_MARKER = false)
      by (now apply fresh_prefix_clean).
    unfold removed.
    rewrite (find_Some _ _ _ (find_START_fresh x m y Hxs)).
    rewrite (find_Some _ _ _ (find_END_fresh x m y Hxe Hm)).
    match goal with
    | |- context [(Z.of_nat ?a =? -1)%Z] =>
        replace (Z.of_nat a =? -1)%Z with false
          by (symmetry; apply Z.eqb_neq; lia)
    end.
    match goal with
    | |- context [(Z.of_nat ?a =? -1)%Z] =>
        replace (Z.of_nat a =? -1)%Z with false
          by (symmetry; apply Z.eqb_neq; lia)
    end.
    cbn [orb]. rewrite Nat2Z.id. unfold len. rewrite <- Nat2Z.inj_add.
    rewrite Nat2Z.id. f_equal.
    rewrite (with_section_cut_START x m y) at 1.
    rewrite firstn_app_exact by (rewrite length_app; simpl; lia).
    rewrite rstrip_spaces by reflexivity.
    unfold x at 1. rewrite rstrip_idem. fold x.
    replace (with_section x m y)
      with ((x ++ [NEWLINE; NEWLINE] ++ START_MARKER ++ [NEWLINE] ++ m
             ++ [NEWLINE] ++ END_MARKER) ++ NEWLINE :: y)
      by (unfold with_section; now rewrite <- !app_assoc).
    rewrite skipn_app_exact by (rewrite !length_app; simpl; lia).
    reflexivity.
  - intros Hord.
    assert (Hs := find_present content START_MARKER ltac:(lia)).
    assert (He := find_present content END_MARKER ltac:(lia)).
    assert (Es : find content START_MARKER
                 = Z.of_nat (Z.to_nat (find content START_MARKER))) by lia.
    assert (Ee : find content END_MARKER
                 = Z.of_nat (Z.to_nat (find content END_MARKER))) by lia.
    set (s := Z.to_nat (find content START_MARKER)) in *.
    set (e := Z.to_nat (find content END_MARKER)) in *.
    assert (Hse : (s < e)%nat) by lia.
    destruct (markers_split content s e Hs He) as (y & z & Hc & Hz & Hlen).
    rewrite (updated_replace path content m ia s e Hs He). cbn [fst].
    rewrite Hz. unfold removed at 2. rewrite Es, Ee.
    replace (Z.of_nat s =? -1)%Z with false
      by (symmetry; apply Z.eqb_neq; lia).
    replace (Z.of_nat e =? -1)%Z with false
      by (symmetry; apply Z.eqb_neq; lia).
    cbn [orb]. unfold removed.
    rewrite (find_Some _ _ _ (find_START_replaced content s y _ Hs Hc)).
    rewrite (find_Some _ _ _
               (find_END_replaced content s e y z m Hs He Hse Hc Hm)).
    replace (Z.of_nat s =? -1)%Z with false
      by (symmetry; apply Z.eqb_neq; lia).
    match goal with
    | |- context [(Z.of_nat ?a =? -1)%Z] =>
        replace (Z.of_nat a =? -1)%Z with false
          by (symmetry; apply Z.eqb_neq; lia)
    end.
    cbn [orb]. rewrite !Nat2Z.id. unfold len. rewrite <- !Nat2Z.inj_add.
    rewrite !Nat2Z.id. do 3 f_equal.
    + now rewrite firstn_app_exact by (now rewrite Hlen).
    + replace (firstn s content ++ START_MARKER ++ NEWLINE :: m
               ++ NEWLINE :: END_MARKER ++ z)
        with ((firstn s content ++ START_MARKER ++ [NEWLINE] ++ m
               ++ [NEWLINE] ++ END_MARKER) ++ z)
        by (now rewrite <- !app_assoc).
      rewrite skipn_app_exact by (rewrite !length_app, Hlen; simpl; lia).
      rewrite Nat.add_comm, <- skipn_skipn, Hz.
      now rewrite skipn_app_exact.
Qed.

Lemma remove_after_update_witness :
  removed (fst (updated (lit "CLAUDE.md") (lit "# Notes  ") (lit "map")
                  DEFAULT_INSERT_AFTER))
  = Some (lit "# Notes" ++ [NEWLINE; NEWLINE])
  /\ removed (fst (updated (lit "CLAUDE.md")
                     (lit "a " ++ START_MARKER ++ lit "old" ++ END_MARKER
                      ++ lit " b")
                     (lit "map") DEFAULT_INSERT_AFTER))
     = removed (lit "a " ++ START_MARKER ++ lit "old" ++ END_MARKER
                ++ lit " b").
Proof.
  split.
  - apply (proj1 (remove_after_update (lit "CLAUDE.md") (lit "# Notes  ")
                    (lit "map") DEFAULT_INSERT_AFTER eq_refl)).
    split; reflexivity.
  - apply (proj2 (remove_after_update (lit "CLAUDE.md")
                    (lit "a " ++ START_MARKER ++ lit "old" ++ END_MARKER
                     ++ lit " b")
                    (lit "map") DEFAULT_INSERT_AFTER eq_refl)).
    vm_compute. split; [discriminate|reflexivity].
Defined.

(** [read_maps] when every map file that exists can be read: one warning
    for each missing file, the sections are the stripped texts of the files
    that are not blank, in order, and the result is the empty string
    exactly when there is no such file. *)
Theorem read_maps_sections :
  forall timestamp map_files,
    maps_readable map_files ->
    read_maps timestamp map_files
    = (Ret (match filter_map section_of map_files with
            | [] => []
            | sections =>
                header timestamp ++ [NEWLINE; NEWLINE]
                ++ join [NEWLINE; NEWLINE] sections
            end),
       filter_map missing_warning map_files)
    /\ (fst (read_maps timestamp map_files) = Ret []
        <-> filter_map section_of map_files = []).
Proof.
  intros timestamp map_files Hr.
  assert (E : read_maps timestamp map_files
              = (Ret (match filter_map section_of map_files with
                      | [] => []
                      | sections =>
                          header timestamp ++ [NEWLINE; NEWLINE]
                          ++ join [NEWLINE; NEWLINE] sections
                      end),
                 filter_map missing_warning map_files)).
  { unfold read_maps. rewrite (read_sections_eq map_files [] [] Hr).
    cbn [app]. destruct (filter_map section_of map_files); reflexivity. }
  split; [exact E|]. rewrite E. cbn [fst].
  destruct (filter_map section_of map_files) as [|s l].
  - split; reflexivity.
  - split; intros H; [exfalso|discriminate].
    apply (f_equal (fun r => match r with
                             | Ret t => List.length t
                             | Raise _ => 0%nat
                             end)) in H.
    unfold header in H. rewrite !length_app in H. simpl in H. lia.
Qed.

Lemma read_maps_sections_witness :
  read_maps (lit "2024-01-01 10:00")
    [ {| mf_path := lit "gone.md"; mf_exists := false; mf_read := ReadFails |};
      {| mf_path := lit "blank.md"; mf_exists := true;
         mf_read := ReadBytes (Spec.ascii_bytes "  ") |};
      {| mf_path := lit "map.md"; mf_exists := true;
         mf_read := ReadBytes (Spec.ascii_bytes " ### Python: src/ ") |} ]
  = (Ret (header (lit "2024-01-01 10:00") ++ [NEWLINE; NEWLINE]
          ++ lit "### Python: src/"),
     [lit "Warning: Map file not found: gone.md"]).
Proof.
  refine (proj1 (read_maps_sections (lit "2024-01-01 10:00") _ _)).
  repeat constructor; intros; try discriminate; eexists; reflexivity.
Defined.

End MdProps.

(** ** The extractors *)

Module MapperProps.
Import Spec MoreSpec PyFacts ExclusionFacts FrameworkFacts ReFacts.
Import TotalityFacts PathFacts RunFacts SkipFacts MoreFacts.
Import Re.

(** The three detectors look at the identifiers as a set: two lists with
    the same elements, in whatever order and however often, give the same
    frameworks. *)
Theorem detect_frameworks_of_a_set :
  forall l l' : list text,
    (forall x, In x l <-> In x l') ->
    CSharp.detect_frameworks l = CSharp.detect_frameworks l'
    /\ TypeScript.detect_frameworks l = TypeScript.detect_frameworks l'
    /\ Python.detect_frameworks l = Python.detect_frameworks l'.
Proof. exact detect_order_free. Qed.

Lemma detect_frameworks_of_a_set_witness :
  CSharp.detect_frameworks [lit "Serilog.Sinks"; lit "Dapper"]
  = CSharp.detect_frameworks [lit "Dapper"; lit "Serilog.Sinks"; lit "Dapper"]
  /\ TypeScript.detect_frameworks [lit "Serilog.Sinks"; lit "Dapper"]
     = TypeScript.detect_frameworks
         [lit "Dapper"; lit "Serilog.Sinks"; lit "Dapper"]
  /\ Python.detect_frameworks [lit "Serilog.Sinks"; lit "Dapper"]
     = Python.detect_frameworks
         [lit "Dapper"; lit "Serilog.Sinks"; lit "Dapper"].
Proof.
  apply (detect_frameworks_of_a_set
           [lit "Serilog.Sinks"; lit "Dapper"]
           [lit "Dapper"; lit "Serilog.Sinks"; lit "Dapper"]).
  intros x. simpl. tauto.
Defined.

(** No text makes the C# or the TypeScript extractor raise, and both
    return: the only exception that leaves [parse_file] is the error of the
    operating system at the first read.  The TypeScript extractor gives no
    model exactly for bytes that are not UTF-8, and then writes one warning
    that names the file. *)
Theorem only_read_errors_escape :
  forall (fp : Path) (reads : nat -> read_outcome) (depth : text),
    (forall e, CSharp.parse_file fp reads depth = raise e
               <-> e = OSError /\ reads 0%nat = ReadFails)
    /\ (forall e, TypeScript.parse_file fp reads depth = raise e
                  <-> e = OSError /\ reads 0%nat = ReadFails)
    /\ CSharp.parse_file fp reads depth <> None
    /\ TypeScript.parse_file fp reads depth <> None
    /\ (forall w,
          TypeScript.parse_file fp reads depth = ret (None, w)
          <-> (exists bs, reads 0%nat = ReadBytes bs /\ decode_utf8 bs = None)
              /\ w = [lit "Warning: Skipping non-UTF8 file: "
                      ++ path_str fp]).
Proof.
  intros fp reads depth.
  split; [intros e; apply cs_parse_file_raise|].
  split; [intros e; apply ts_parse_file_raise|].
  split; [|split; [|intros w; apply ts_skip_iff]].
  - unfold CSharp.parse_file.
    destruct (reads 0%nat) as [bs|]; cbn [read_text]; [|discriminate].
    destruct (decode_utf8_sig bs) as [t|].
    + destruct (cs_parse_content_total fp (universal_newlines t) depth)
        as (f & ->). discriminate.
    + destruct (reads 1%nat) as [bs'|]; cbn [read_text]; [|discriminate].
      destruct (cs_parse_content_total fp
                  (universal_newlines (decode_latin1 bs')) depth)
        as (f & ->). discriminate.
  - unfold TypeScript.parse_file.
    destruct (reads 0%nat) as [bs|]; cbn [read_text]; [|discriminate].
    destruct (decode_utf8 bs) as [t|]; [|discriminate].
    destruct (ts_parse_content_total fp (universal_newlines t) depth)
      as (f & ->). discriminate.
Qed.

(** A byte order mark in front of a UTF-8 file does not change what the C#
    extractor makes of it. *)
Theorem cs_byte_order_mark_ignored :
  forall (fp : Path) (reads reads' : nat -> read_outcome) (bs : bytes)
         (depth : text),
    reads 0%nat = ReadBytes (BOM ++ bs) ->
    reads' 0%nat = ReadBytes bs ->
    has_bom bs = false ->
    decode_utf8 bs <> None ->
    CSharp.parse_file fp reads depth = CSharp.parse_file fp reads' depth.
Proof.
  intros fp reads reads' bs depth H H' Hb Hd. unfold CSharp.parse_file.
  rewrite H, H'. cbn [read_text].
  rewrite decode_sig_bom, (decode_sig_plain bs Hb Hd).
  destruct (decode_utf8 bs); [reflexivity|congruence].
Qed.

Lemma cs_byte_order_mark_ignored_witness :
  CSharp.parse_file [lit "/"; lit "a.cs"]
    (fun _ => ReadBytes (BOM ++ ascii_bytes "class A { }")) (lit "methods")
  = CSharp.parse_file [lit "/"; lit "a.cs"]
      (fun _ => ReadBytes (ascii_bytes "class A { }")) (lit "methods").
Proof.
  apply (cs_byte_order_mark_ignored [lit "/"; lit "a.cs"]
           (fun _ => ReadBytes (BOM ++ ascii_bytes "class A { }"))
           (fun _ => ReadBytes (ascii_bytes "class A { }"))
           (ascii_bytes "class A { }") (lit "methods"));
    try reflexivity.
  discriminate.
Defined.

(** A module without classes and without functions gives no line of the
    map, whatever its name is; every other module does. *)
Theorem py_empty_modules_left_out :
  forall (root : Path) (indent : text) (m : Python.ModuleInfo) (rel : Path),
    relative_to (path_of_str (Python.mod_path m)) root = Ret rel ->
    (Python.format_module root indent m = Ret []
     <-> Python.mod_classes m = [] /\ Python.mod_functions m = []).
Proof.
  intros root indent m rel H. unfold Python.format_module. rewrite H.
  destruct (text_eqb (path_name rel) (lit "__init__.py")),
    (Python.mod_classes m) as [|c cs], (Python.mod_functions m) as [|f fs];
    cbn [app List.map List.length Nat.ltb Nat.leb];
    (split; [intros E; try discriminate; auto|intros [E1 E2]; try discriminate;
             reflexivity]).
Qed.

Lemma py_empty_modules_left_out_witness :
  Python.format_module sample_root []
    {| Python.mod_path := lit "/proj/pkg/util.py"; Python.mod_classes := [];
       Python.mod_functions := []; Python.mod_imports := [lit "os"] |}
  = Ret []
  <-> @nil Python.ClassInfo = [] /\ @nil text = [].
Proof.
  apply (py_empty_modules_left_out sample_root []
           {| Python.mod_path := lit "/proj/pkg/util.py";
              Python.mod_classes := []; Python.mod_functions := [];
              Python.mod_imports := [lit "os"] |}
           [lit "pkg"; lit "util.py"]).
  reflexivity.
Defined.

(** A TypeScript file gives no line of the map exactly when it has no
    exported type, whatever its name is: the test on index files changes
    nothing. *)
Theorem ts_files_without_exports_left_out :
  forall (root : Path) (indent : text) (f : TypeScript.FileInfo) (rel : Path),
    relative_to (path_of_str (TypeScript.f_path f)) root = Ret rel ->
    (TypeScript.format_file root indent f = Ret []
     <-> filter TypeScript.t_is_exported (TypeScript.f_types f) = []).
Proof.
  intros root indent f rel H. unfold TypeScript.format_file. rewrite H.
  destruct (TypeScript.f_types f) as [|t ts].
  - rewrite andb_true_r. cbn [filter].
    destruct (mem _ _); split; reflexivity.
  - rewrite andb_false_r.
    destruct (filter TypeScript.t_is_exported (t :: ts));
      split; intros E; try discriminate; reflexivity.
Qed.

Lemma ts_files_without_exports_left_out_witness :
  TypeScript.format_file sample_root []
    {| TypeScript.f_path := lit "/proj/src/util.ts";
       TypeScript.f_types :=
         [TypeScript.plain_type (lit "helper") (lit "function") [] false];
       TypeScript.f_imports := [] |}
  = Ret []
  <-> filter TypeScript.t_is_exported
        [TypeScript.plain_type (lit "helper") (lit "function") [] false]
      = [].
Proof.
  apply (ts_files_without_exports_left_out sample_root []
           {| TypeScript.f_path := lit "/proj/src/util.ts";
              TypeScript.f_types :=
                [TypeScript.plain_type (lit "helper") (lit "function") []
                   false];
              TypeScript.f_imports := [] |}
           [lit "src"; lit "util.ts"]).
  reflexivity.
Defined.

(** The name of a decorator written as a dotted name, called or not, is
    the dotted name.  A class is taken for a dataclass exactly when one of
    its decorators has the name [dataclass]: a decorator written with a
    module in front, as in [dataclasses.dataclass], does not count. *)
Theorem py_decorator_names :
  (forall n h attrs,
      Python.extract_decorator_name (called n (dotted h attrs))
      = join (lit ".") (h :: attrs))
  /\ (forall name bases body decorator_list depth,
        Python.c_is_dataclass
          (Python.parse_class name bases body decorator_list depth) = true
        <-> exists d, In d decorator_list
                      /\ Python.extract_decorator_name d = lit "dataclass")
  /\ (forall n h a attrs,
        Python.extract_decorator_name (called n (dotted h (a :: attrs)))
        <> lit "dataclass").
Proof.
  split; [|split].
  - intros n h attrs. rewrite extract_called. apply extract_dotted.
  - intros name bases body decorator_list depth.
    cbn [Python.parse_class Python.c_is_dataclass]. rewrite mem_In.
    rewrite in_map_iff. split.
    + intros (d & Hd & Hin). exists d. auto.
    + intros (d & Hin & Hd). exists d. auto.
  - intros n h a attrs H. rewrite extract_called, extract_dotted in H.
    pose proof (join_has_sep 46%N h a attrs) as Hin.
    change [46%N] with (lit ".") in Hin. rewrite H in Hin.
    vm_compute in Hin. intuition discriminate.
Qed.

(** What [parse_class] lists of a class body: the methods are the
    definitions of the body with a listed name and without a [property]
    decorator, the properties those with one.  No name is listed under
    [classes]; a name with two leading underscores other than [__init__] is
    never listed, a name with one only under [full]. *)
Theorem py_class_members_listed :
  forall (name : text) (bases : list Python.expr) (body : list Python.stmt)
         (decorator_list : list Python.expr) (depth x : text),
    (In x (Python.c_methods
             (Python.parse_class name bases body decorator_list depth))
     <-> exists n b d o,
           (In (Python.FunctionDef n b d o) body /\ x = n ++ lit "()"
            \/ In (Python.AsyncFunctionDef n b d o) body
               /\ x = lit "async " ++ n ++ lit "()")
           /\ listed_name depth n = true /\ has_property d = false)
    /\ (In x (Python.c_properties
                (Python.parse_class name bases body decorator_list depth))
        <-> exists b d o,
              (In (Python.FunctionDef x b d o) body
               \/ In (Python.AsyncFunctionDef x b d o) body)
              /\ listed_name depth x = true /\ has_property d = true)
    /\ (forall n, listed_name depth n = true ->
                  depth <> lit "classes"
                  /\ (startswith n (lit "__") = true -> n = lit "__init__")
                  /\ (startswith n (lit "_") = true ->
                      depth = lit "full" \/ n = lit "__init__")).
Proof.
  intros name bases body decorator_list depth x.
  assert (Hitem : forall item r,
    negb (text_eqb depth (lit "classes")) = true ->
    (Python.class_item depth item = Some r
     <-> exists n b d o,
           (item = Python.FunctionDef n b d o
            /\ r = (if has_property d then inr n
                    else inl (n ++ lit "()"))
            \/ item = Python.AsyncFunctionDef n b d o
               /\ r = (if has_property d then inr n
                       else inl (lit "async " ++ n ++ lit "()")))
           /\ listed_name depth n = true)).
  { intros item r Hd.
    destruct item as [n b bd d|n bd d o|n bd d o|names|m|ch];
      cbn [Python.class_item];
      try (split; [discriminate|
                   intros (n' & b' & d' & o' & [[E _]|[E _]] & _);
                   discriminate]).
    - fold (has_property d).
      rewrite (class_item_def depth false n d Hd). split.
      + destruct (listed_name depth n) eqn:El; [|discriminate].
        intros H. exists n, bd, d, o. split; [left; split; [reflexivity|]|
                                              exact El].
        destruct (has_property d); inversion H; reflexivity.
      + intros (n' & b' & d' & o' & [[E ->]|[E _]] & Hl); [|discriminate].
        inversion E; subst. rewrite Hl.
        destruct (has_property d'); reflexivity.
    - fold (has_property d).
      rewrite (class_item_def depth true n d Hd). split.
      + destruct (listed_name depth n) eqn:El; [|discriminate].
        intros H. exists n, bd, d, o. split; [right; split; [reflexivity|]|
                                              exact El].
        destruct (has_property d); inversion H; reflexivity.
      + intros (n' & b' & d' & o' & [[E _]|[E ->]] & Hl); [discriminate|].
        inversion E; subst. rewrite Hl.
        destruct (has_property d'); reflexivity. }
  cbn [Python.parse_class Python.c_methods Python.c_properties].
  destruct (negb (text_eqb depth (lit "classes"))) eqn:Hd.
  - split; [|split].
    + unfold Python.lefts. rewrite filter_map_In. split.
      * intros ([a|a] & Hin & Ha); [|discriminate]. inversion Ha; subst a.
        apply filter_map_In in Hin. destruct Hin as (item & Hitem_in & Hci).
        apply (Hitem item (inl x) eq_refl) in Hci.
        destruct Hci as (n & b & d & o & [[-> Hr]|[-> Hr]] & Hl);
          destruct (has_property d) eqn:Ep; inversion Hr; subst;
          exists n, b, d, o; auto.
      * intros (n & b & d & o & [[Hin ->]|[Hin ->]] & Hl & Hp).
        -- exists (inl (n ++ lit "()")). split; [|reflexivity].
           apply filter_map_In. exists (Python.FunctionDef n b d o).
           split; [exact Hin|]. apply (Hitem _ _ eq_refl).
           exists n, b, d, o. rewrite Hp. auto.
        -- exists (inl (lit "async " ++ n ++ lit "()")). split; [|reflexivity].
           apply filter_map_In. exists (Python.AsyncFunctionDef n b d o).
           split; [exact Hin|]. apply (Hitem _ _ eq_refl).
           exists n, b, d, o. rewrite Hp. auto.
    + unfold Python.rights. rewrite filter_map_In. split.
      * intros ([a|a] & Hin & Ha); [discriminate|]. inversion Ha; subst a.
        apply filter_map_In in Hin. destruct Hin as (item & Hitem_in & Hci).
        apply (Hitem item (inr x) eq_refl) in Hci.
        destruct Hci as (n & b & d & o & [[-> Hr]|[-> Hr]] & Hl);
          destruct (has_property d) eqn:Ep; inversion Hr; subst;
          exists b, d, o; auto.
      * intros (b & d & o & [Hin|Hin] & Hl & Hp).
        -- exists (inr x). split; [|reflexivity].
           apply filter_map_In. exists (Python.FunctionDef x b d o).
           split; [exact Hin|]. apply (Hitem _ _ eq_refl).
           exists x, b, d, o. rewrite Hp. auto.
        -- exists (inr x). split; [|reflexivity].
           apply filter_map_In. exists (Python.AsyncFunctionDef x b d o).
           split; [exact Hin|]. apply (Hitem _ _ eq_refl).
           exists x, b, d, o. rewrite Hp. auto.
    + intros n Hl. unfold listed_name in Hl. rewrite Hd in Hl.
      cbn [andb] in Hl. split; [|split].
      * intros E. rewrite E in Hd. vm_compute in Hd. discriminate.
      * intros E. rewrite E in Hl. now apply text_eqb_eq.
      * intros E. destruct (startswith n (lit "__")).
        -- right. now apply text_eqb_eq.
        -- rewrite E in Hl. cbn [negb] in Hl. rewrite orb_false_r in Hl.
           left. now apply text_eqb_eq.
  - split; [|split].
    + cbn [Python.lefts filter_map]. split; [intros []|].
      intros (n & b & d & o & _ & Hl & _). unfold listed_name in Hl.
      rewrite Hd in Hl. discriminate.
    + cbn [Python.rights filter_map]. split; [intros []|].
      intros (b & d & o & _ & Hl & _). unfold listed_name in Hl.
      rewrite Hd in Hl. discriminate.
    + intros n Hl. unfold listed_name in Hl. rewrite Hd in Hl. discriminate.
Qed.

(** The imports of a module model are names of top-level packages, each
    once: no name has a dot in it. *)
Theorem py_imports_are_top_level :
  forall (ast_parse : Python.parser) (fp : Path)
         (reads : nat -> read_outcome) (depth : text)
         (m : Python.ModuleInfo) (w : list text),
    Python.parse_module ast_parse fp reads depth = Ret (Some m, w) ->
    NoDup (Python.mod_imports m)
    /\ Forall (fun i => ~ In 46%N i) (Python.mod_imports m).
Proof.
  intros ast_parse fp reads depth m w H. unfold Python.parse_module in H.
  destruct (read_text decode_utf8 (reads 0%nat)) as [content|[]];
    try discriminate.
  destruct (ast_parse content (path_str fp)) as [tree|e|x];
    [|discriminate|discriminate].
  inversion H; subst; clear H. cbn [Python.mod_imports]. split.
  - apply set_update_NoDup. constructor.
  - apply Forall_forall. intros i Hi. apply set_update_In in Hi.
    destruct Hi as [[]|Hi].
    pose proof (visit_imports (fun i => ~ In 46%N i) depth
                  (Python.ast_walk tree)
                  {| Python.classes := []; Python.functions := [];
                     Python.imports := [] |}
                  (fun s => split_hd_no_sep 46%N s) (Forall_nil _)) as HF.
    rewrite Forall_forall in HF. now apply HF.
Qed.

Lemma py_imports_are_top_level_witness :
  NoDup [lit "os"; lit "a"]
  /\ Forall (fun i => ~ In 46%N i) [lit "os"; lit "a"].
Proof.
  apply (py_imports_are_top_level
           (fun _ _ =>
              Python.Parsed [Python.Import [lit "os.path"; lit "a.b.c"];
                             Python.ImportFrom (Some (lit "os.path"))])
           [lit "/"; lit "m.py"] (fun _ => ReadBytes []) (lit "methods")
           {| Python.mod_path := lit "/m.py"; Python.mod_classes := [];
              Python.mod_functions := [];
              Python.mod_imports := [lit "os"; lit "a"] |} []).
  reflexivity.
Defined.

(** An exported arrow function is listed once, and not at all when a type
    found before it has its name: the loop adds to the types it is given
    types without members, exported, with names that are new and differ
    from one another; and the name of every exported arrow function is the
    name of a type afterwards. *)
Theorem ts_arrow_functions_listed_once :
  forall (content : text) (ms : list Match)
         (types res : list TypeScript.TypeInfo),
    TypeScript.arrow_types content ms types = ret res ->
    exists added,
      res = types ++ added
      /\ NoDup (List.map TypeScript.t_name added)
      /\ Forall (added_by_arrow types ms) added
      /\ (forall m,
            In m ms -> TypeScript.truthy (group m "export") = true ->
            In (group_or_empty m "name") (List.map TypeScript.t_name res)).
Proof.
  intros content ms types res H0.
  assert (Hall : forall m,
    In m ms -> TypeScript.truthy (group m "export") = true ->
    In (group_or_empty m "name") (List.map TypeScript.t_name res))
    by apply (ts_arrow_types_covers content ms types res H0).
  cut (exists added,
         res = types ++ added
         /\ NoDup (List.map TypeScript.t_name added)
         /\ Forall (added_by_arrow types ms) added).
  { intros (added & H1 & H2 & H3). exists added. auto. }
  clear Hall. revert types res H0.
  induction ms as [|m ms IH]; intros types res H.
  - inversion H; subst. exists []. rewrite app_nil_r.
    repeat split; constructor.
  - cbn [TypeScript.arrow_types] in H.
    assert (Hup : forall added,
      Forall (added_by_arrow types ms) added ->
      Forall (added_by_arrow types (m :: ms)) added).
    { intros added HF. eapply Forall_impl; [|exact HF].
      intros t (H1 & H2 & H3 & H4 & H5 & m' & Hm' & H6).
      repeat split; auto. exists m'. split; [now right|exact H6]. }
    destruct (TypeScript.truthy (group m "export")) eqn:Ex; cbn [negb] in H.
    + destruct (TypeScript.is_react_component (group_or_empty m "name")
                  content) as [b|e]; [|discriminate].
      destruct (existsb _ types) eqn:Eseen.
      * destruct (IH types res H) as (added & -> & Hnd & HF).
        exists added. auto.
      * destruct (IH _ res H) as (added & -> & Hnd & HF).
        set (new := TypeScript.plain_type (group_or_empty m "name")
                      (if b then lit "component" else lit "function") []
                      true) in *.
        exists (new :: added). rewrite <- app_assoc. split; [reflexivity|].
        split.
        -- cbn [List.map]. constructor; [|exact Hnd].
           intros Hin. apply in_map_iff in Hin.
           destruct Hin as (t & Ht & Hin).
           rewrite Forall_forall in HF. destruct (HF t Hin) as (Hn & _).
           apply Hn. rewrite map_app, in_app_iff. right. left.
           now rewrite Ht.
        -- constructor.
           ++ split; [now apply existsb_name_In|].
              repeat split; [destruct b; auto|].
              exists m. split; [now left|auto].
           ++ apply Hup. eapply Forall_impl; [|exact HF].
              intros t (H1 & Hrest). split; [|exact Hrest].
              intros Hin. apply H1. rewrite map_app, in_app_iff. now left.
    + destruct (IH types res H) as (added & -> & Hnd & HF).
      exists added. auto.
Qed.

Lemma ts_arrow_functions_listed_once_witness :
  exists added,
    [TypeScript.plain_type (lit "g") (lit "class") [] true;
     TypeScript.plain_type (lit "f") (lit "function") [] true]
    = [TypeScript.plain_type (lit "g") (lit "class") [] true] ++ added
    /\ NoDup (List.map TypeScript.t_name added)
    /\ Forall
         (added_by_arrow [TypeScript.plain_type (lit "g") (lit "class") [] true]
            (finditer TypeScript.ARROW_FUNCTION_PATTERN sample_arrows))
         added
    /\ (forall m,
          In m (finditer TypeScript.ARROW_FUNCTION_PATTERN sample_arrows) ->
          TypeScript.truthy (group m "export") = true ->
          In (group_or_empty m "name")
            (List.map TypeScript.t_name
               [TypeScript.plain_type (lit "g") (lit "class") [] true;
                TypeScript.plain_type (lit "f") (lit "function") [] true])).
Proof.
  apply (ts_arrow_functions_listed_once sample_arrows
           (finditer TypeScript.ARROW_FUNCTION_PATTERN sample_arrows)
           [TypeScript.plain_type (lit "g") (lit "class") [] true]).
  vm_compute. reflexivity.
Defined.

End MapperProps.

(** ** Walks and renderers *)

Module WalkProps.
Import Spec MoreSpec PyFacts ExclusionFacts FrameworkFacts MoreFacts WalkFacts.

(** A module model has as many classes as the tree has [ClassDef] nodes,
    at whatever depth and under every policy; and as many functions as the
    tree has definitions at column 0 whose name the policy lets through,
    none under [classes]. *)
Theorem py_module_lists_every_class :
  forall (ast_parse : Python.parser) (fp : Path)
         (reads : nat -> read_outcome) (depth : text)
         (m : Python.ModuleInfo) (w : list text),
    Python.parse_module ast_parse fp reads depth = Ret (Some m, w) ->
    exists content tree,
      read_text decode_utf8 (reads 0%nat) = Ret content
      /\ ast_parse content (path_str fp) = Python.Parsed tree
      /\ List.length (Python.mod_classes m) = count_all is_class tree
      /\ List.length (Python.mod_functions m)
         = count_all (is_listed_function depth) tree
      /\ w = [].
Proof.
  intros ast_parse fp reads depth m w H. unfold Python.parse_module in H.
  destruct (read_text decode_utf8 (reads 0%nat)) as [content|[]];
    try discriminate.
  destruct (ast_parse content (path_str fp)) as [tree|e|x] eqn:Ep;
    [|discriminate|discriminate].
  inversion H; subst; clear H. exists content, tree.
  cbn [Python.mod_classes Python.mod_functions].
  destruct (visit_lengths depth (Python.ast_walk tree)
              {| Python.classes := []; Python.functions := [];
                 Python.imports := [] |}) as [Hc Hf].
  rewrite Hc, Hf. cbn [Python.classes Python.functions List.length].
  unfold Python.ast_walk. rewrite !walk_queue_count by lia.
  repeat split. exact Ep.
Qed.

Lemma py_module_lists_every_class_witness :
  exists content tree,
    read_text decode_utf8 (ReadBytes (ascii_bytes "class A: ...")) = Ret content
    /\ sample_parse content (path_str [lit "/"; lit "a.py"])
       = Python.Parsed tree
    /\ List.length
         [Python.parse_class (lit "A") []
            [Python.FunctionDef (lit "f") [] [] 4;
             Python.FunctionDef (lit "_g") [] [] 4] [] (lit "full")]
       = count_all is_class tree
    /\ @List.length text [] = count_all (is_listed_function (lit "full")) tree
    /\ @nil text = [].
Proof.
  apply (py_module_lists_every_class sample_parse [lit "/"; lit "a.py"]
           (fun _ => ReadBytes (ascii_bytes "class A: ...")) (lit "full")
           {| Python.mod_path := lit "/a.py";
              Python.mod_classes :=
                [Python.parse_class (lit "A") []
                   [Python.FunctionDef (lit "f") [] [] 4;
                    Python.FunctionDef (lit "_g") [] [] 4] [] (lit "full")];
              Python.mod_functions := [];
              Python.mod_imports := [] |} []).
  reflexivity.
Defined.

(** The TypeScript map shows exported types only: the output for a list of
    file models is the output for their exported types. *)
Theorem ts_output_shows_exports_only :
  forall (files : list TypeScript.FileInfo) (root : Path)
         (frameworks : list text),
    TypeScript.format_output files root frameworks
    = TypeScript.format_output (List.map exported_only files) root frameworks.
Proof.
  intros files root frameworks. unfold TypeScript.format_output.
  pose proof (ts_group_by_dir_exported root files []) as H.
  cbn [List.map] in H. rewrite H.
  destruct (TypeScript.group_by_dir root files []) as [d|e]; [|reflexivity].
  rewrite (sorted_by_map _ _ fst fst
             (fun kv : text * list TypeScript.FileInfo =>
                (fst kv, List.map exported_only (snd kv)))) by reflexivity.
  now rewrite ts_format_groups_exported.
Qed.

(** A declaration file, one whose name ends in [.d.ts], is never read: the
    run over a tree is the run over the tree without its declaration
    files. *)
Theorem ts_declaration_files_skipped :
  forall (a : args) (t : tree),
    TypeScript.main a t = TypeScript.main a (without_declarations t).
Proof.
  intros a t. unfold TypeScript.main, without_declarations.
  rewrite ts_candidates_prune.
  change (fun e : entry =>
            negb (endswith (path_name (e_rel e)) (lit ".d.ts")))
    with (fun e => negb (is_declaration e)).
  now rewrite <- ts_walk_declarations.
Qed.

(** The walk scans four patterns, and no file twice: when the tree lists
    every path once, so does the walk. *)
Theorem ts_no_file_twice :
  forall t : tree,
    NoDup (List.map e_rel (entries t)) ->
    NoDup (List.map e_rel (TypeScript.candidates t))
    /\ forall e, In e (TypeScript.candidates t) -> In e (entries t).
Proof.
  intros t H. split; [now apply ts_candidates_NoDup|].
  unfold TypeScript.candidates. cbn [flat_map]. rewrite app_nil_r.
  intros e He. rewrite !in_app_iff in He. unfold rglob in He.
  repeat match type of He with
         | _ \/ _ => destruct He as [He|He]
         end; apply filter_In in He; tauto.
Qed.

Lemma ts_no_file_twice_witness :
  NoDup (List.map e_rel
           (TypeScript.candidates
              {| root_exists := true;
                 entries := [file_with [lit "a.ts"] [];
                             file_with [lit "a.tsx"] [];
                             file_with [lit "a.jsx"] []] |}))
  /\ forall e,
       In e (TypeScript.candidates
               {| root_exists := true;
                  entries := [file_with [lit "a.ts"] [];
                              file_with [lit "a.tsx"] [];
                              file_with [lit "a.jsx"] []] |}) ->
       In e (entries
               {| root_exists := true;
                  entries := [file_with [lit "a.ts"] [];
                              file_with [lit "a.tsx"] [];
                              file_with [lit "a.jsx"] []] |}).
Proof.
  apply (ts_no_file_twice
           {| root_exists := true;
              entries := [file_with [lit "a.ts"] [];
                          file_with [lit "a.tsx"] [];
                          file_with [lit "a.jsx"] []] |}).
  cbn [entries List.map file_with e_rel].
  repeat constructor; cbn [In]; intuition discriminate.
Defined.

End WalkProps.

(** ** The order of the listing *)

Module OrderProps.
Import Spec MoreSpec PyFacts ExclusionFacts FrameworkFacts PathFacts RunFacts.
Import MoreFacts WalkFacts OrderFacts CsOrderFacts TsOrderFacts PyOrderFacts.

Local Ltac no_such_run :=
  let H := fresh in
  split; [intros H|intros ? ? H]; discriminate H.

Local Ltac same_run Herr :=
  let H := fresh in
  split; [intros H|intros ? ? H]; inversion H; subst;
  eexists; (split; [reflexivity|exact Herr]).

(** The C# map does not depend on the order in which the file system lists
    the files: when a run completes, the run over the same files in any
    other order completes with the same output, statistics line included;
    its warnings are the same, in another order.  This is so for a run that
    prints the map and for a run that writes it to the output file, which
    then prints the same two lines. *)
Theorem cs_map_independent_of_listing_order :
  forall (a : args) (t t' : tree) (payload : text) (err : list text),
    root_exists t' = root_exists t ->
    Permutation (entries t) (entries t') ->
    NoDup (List.map e_rel (entries t)) ->
    wf_tree (a_root a) t ->
    (CSharp.main a t = Completed payload err ->
     exists err',
       CSharp.main a t' = Completed payload err' /\ Permutation err err')
    /\ (forall output_path lines,
          CSharp.main a t = Written output_path payload lines err ->
          exists err',
            CSharp.main a t' = Written output_path payload lines err'
            /\ Permutation err err').
Proof.
  intros a t t' payload err Hroot Hp Hnd [Hwf Hes].
  unfold CSharp.main. rewrite Hroot.
  destruct (root_exists t); cbn [negb]; [|no_such_run].
  assert (Hp' : Permutation (rglob t (lit ".cs")) (rglob t' (lit ".cs")))
    by (unfold rglob; now apply filter_perm).
  pose proof (cs_walk_perm (a_root a) (CSharp.excludes_of a) (a_depth a)
                _ _ Hp' CSharp.walk_init CSharp.walk_init
                (cs_same_refl _)) as Hw.
  destruct (CSharp.walk (a_root a) (CSharp.excludes_of a) (a_depth a)
              (rglob t (lit ".cs")) CSharp.walk_init)
    as [[[x e]|st]|] eqn:Ew; try no_such_run.
  destruct (CSharp.walk (a_root a) (CSharp.excludes_of a) (a_depth a)
              (rglob t' (lit ".cs")) CSharp.walk_init)
    as [[[x' e']|st']|]; cbn in Hw; try contradiction.
  destruct Hw as (H1 & H2 & H3 & H4 & H5 & H6 & H7).
  destruct (cs_walk_paths _ _ _ _ _ _ Ew) as (sub & Hsub & Epaths).
  cbn [CSharp.walk_init CSharp.files List.map app] in Epaths.
  assert (Hnd' : NoDup (List.map CSharp.f_path (CSharp.files st))).
  { rewrite Epaths.
    apply (subseq_NoDup _ _ _
             (subseq_map _ _ (fun e => path_str (a_root a ++ e_rel e)) _ _
                Hsub)).
    rewrite <- (map_map e_rel (fun rel => path_str (a_root a ++ rel))).
    apply paths_apart; [exact Hwf| |].
    - apply Forall_map_iff. unfold rglob. now apply filter_Forall.
    - apply (subseq_NoDup _ _ _
               (subseq_map_filter _ _ e_rel _ (entries t)) Hnd). }
  pose proof (proj1 (detect_order_free _ _ H2)) as Hd. rewrite <- Hd.
  rewrite <- (cs_format_output_perm _ _ (a_root a)
                (CSharp.detect_frameworks (CSharp.all_usings st)) H1 Hnd').
  destruct (CSharp.format_output (CSharp.files st) (a_root a) _)
    as [output|x]; [|no_such_run].
  unfold CSharp.stats_line, CSharp.summary_line. rewrite <- H3, <- H4, <- H5.
  destruct (a_output a) as [output_path|]; [destruct (a_write a)|];
    same_run H6.
Qed.

Lemma cs_map_independent_of_listing_order_witness :
  exists payload err err',
    CSharp.main (sample_args sample_root)
      {| root_exists := true;
         entries := [sample_cs_a; sample_cs_b; sample_cs_c] |}
    = Completed payload err
    /\ CSharp.main (sample_args sample_root)
         {| root_exists := true;
            entries := [sample_cs_c; sample_cs_a; sample_cs_b] |}
       = Completed payload err'
    /\ Permutation err err'.
Proof.
  destruct (CSharp.main (sample_args sample_root)
              {| root_exists := true;
                 entries := [sample_cs_a; sample_cs_b; sample_cs_c] |})
    as [n l|x l| |payload err|o payload l err] eqn:E;
    try (vm_compute in E; discriminate).
  destruct (cs_map_independent_of_listing_order (sample_args sample_root)
              {| root_exists := true;
                 entries := [sample_cs_a; sample_cs_b; sample_cs_c] |}
              {| root_exists := true;
                 entries := [sample_cs_c; sample_cs_a; sample_cs_b] |}
              payload err) as ((err' & E' & Hp) & _).
  - reflexivity.
  - apply Permutation_sym, (Permutation_cons_append [sample_cs_a; sample_cs_b]).
  - repeat constructor; cbn; intuition discriminate.
  - split; [reflexivity|repeat constructor].
  - exact E.
  - exists payload, err, err'. auto.
Defined.

(** The same for the TypeScript map, whose walk scans the tree four times:
    a run that completes gives the same output on the same files listed in
    any other order, with the same warnings in another order, whether it
    prints the map or writes it to the output file. *)
Theorem ts_map_independent_of_listing_order :
  forall (a : args) (t t' : tree) (payload : text) (err : list text),
    root_exists t' = root_exists t ->
    Permutation (entries t) (entries t') ->
    NoDup (List.map e_rel (entries t)) ->
    wf_tree (a_root a) t ->
    (TypeScript.main a t = Completed payload err ->
     exists err',
       TypeScript.main a t' = Completed payload err' /\ Permutation err err')
    /\ (forall output_path lines,
          TypeScript.main a t = Written output_path payload lines err ->
          exists err',
            TypeScript.main a t' = Written output_path payload lines err'
            /\ Permutation err err').
Proof.
  intros a t t' payload err Hroot Hp Hnd [Hwf Hes].
  unfold TypeScript.main. rewrite Hroot.
  destruct (root_exists t); cbn [negb]; [|no_such_run].
  pose proof (ts_walk_perm (a_root a) (TypeScript.excludes_of a) (a_depth a)
                _ _ (ts_candidates_perm t t' Hp)
                TypeScript.walk_init TypeScript.walk_init
                (ts_same_refl _)) as Hw.
  destruct (TypeScript.walk (a_root a) (TypeScript.excludes_of a) (a_depth a)
              (TypeScript.candidates t) TypeScript.walk_init)
    as [[[x e]|st]|] eqn:Ew; try no_such_run.
  destruct (TypeScript.walk (a_root a) (TypeScript.excludes_of a) (a_depth a)
              (TypeScript.candidates t') TypeScript.walk_init)
    as [[[x' e']|st']|]; cbn in Hw; try contradiction.
  destruct Hw as (H1 & H2 & H3 & H4 & H5 & H6).
  destruct (ts_walk_paths _ _ _ _ _ _ Ew) as (sub & Hsub & Epaths).
  cbn [TypeScript.walk_init TypeScript.files List.map app] in Epaths.
  assert (Hnd' : NoDup (List.map TypeScript.f_path (TypeScript.files st))).
  { rewrite Epaths.
    apply (subseq_NoDup _ _ _
             (subseq_map _ _ (fun e => path_str (a_root a ++ e_rel e)) _ _
                Hsub)).
    rewrite <- (map_map e_rel (fun rel => path_str (a_root a ++ rel))).
    apply paths_apart; [exact Hwf| |now apply ts_candidates_NoDup].
    apply Forall_map_iff. now apply candidates_Forall. }
  pose proof (proj1 (proj2 (detect_order_free _ _ H2))) as Hd. rewrite <- Hd.
  destruct (TypeScript.format_output (TypeScript.files st) (a_root a) _)
    as [output|x] eqn:Ef; [|no_such_run].
  rewrite (ts_format_output_perm _ _ _ _ _ H1 Hnd' Ef).
  unfold TypeScript.stats_line, TypeScript.summary_line.
  rewrite <- H3, <- H4.
  destruct (a_output a) as [output_path|]; [destruct (a_write a)|];
    same_run H5.
Qed.

Lemma ts_map_independent_of_listing_order_witness :
  exists payload err err',
    TypeScript.main (sample_args sample_root)
      {| root_exists := true;
         entries := [sample_ts_a; sample_ts_b; sample_ts_c] |}
    = Completed payload err
    /\ TypeScript.main (sample_args sample_root)
         {| root_exists := true;
            entries := [sample_ts_c; sample_ts_a; sample_ts_b] |}
       = Completed payload err'
    /\ Permutation err err'.
Proof.
  destruct (TypeScript.main (sample_args sample_root)
              {| root_exists := true;
                 entries := [sample_ts_a; sample_ts_b; sample_ts_c] |})
    as [n l|x l| |payload err|o payload l err] eqn:E;
    try (vm_compute in E; discriminate).
  destruct (ts_map_independent_of_listing_order (sample_args sample_root)
              {| root_exists := true;
                 entries := [sample_ts_a; sample_ts_b; sample_ts_c] |}
              {| root_exists := true;
                 entries := [sample_ts_c; sample_ts_a; sample_ts_b] |}
              payload err) as ((err' & E' & Hp) & _).
  - reflexivity.
  - apply Permutation_sym, (Permutation_cons_append [sample_ts_a; sample_ts_b]).
  - repeat constructor; cbn; intuition discriminate.
  - split; [reflexivity|repeat constructor].
  - exact E.
  - exists payload, err, err'. auto.
Defined.

(** The same for the Python map, whatever [ast.parse] makes of the files:
    a run that completes gives the same output on the same files listed in
    any other order, with the same warnings in another order, whether it
    prints the map or writes it to the output file. *)
Theorem py_map_independent_of_listing_order :
  forall (ast_parse : Python.parser) (a : args)
         (t t' : tree) (payload : text) (err : list text),
    root_exists t' = root_exists t ->
    Permutation (entries t) (entries t') ->
    NoDup (List.map e_rel (entries t)) ->
    wf_tree (a_root a) t ->
    (Python.main ast_parse a t = Completed payload err ->
     exists err',
       Python.main ast_parse a t' = Completed payload err'
       /\ Permutation err err')
    /\ (forall output_path lines,
          Python.main ast_parse a t = Written output_path payload lines err ->
          exists err',
            Python.main ast_parse a t' = Written output_path payload lines err'
            /\ Permutation err err').
Proof.
  intros ast_parse a t t' payload err Hroot Hp Hnd [Hwf Hes].
  unfold Python.main. rewrite Hroot.
  destruct (root_exists t); cbn [negb]; [|no_such_run].
  assert (Hp' : Permutation (rglob t (lit ".py")) (rglob t' (lit ".py")))
    by (unfold rglob; now apply filter_perm).
  pose proof (py_walk_perm ast_parse (a_root a) (Python.excludes_of a)
                (a_depth a) _ _ Hp' Python.walk_init Python.walk_init
                (py_same_refl _)) as Hw.
  destruct (Python.walk ast_parse (a_root a) (Python.excludes_of a)
              (a_depth a) (rglob t (lit ".py")) Python.walk_init)
    as [[x e]|st] eqn:Ew; try no_such_run.
  destruct (Python.walk ast_parse (a_root a) (Python.excludes_of a)
              (a_depth a) (rglob t' (lit ".py")) Python.walk_init)
    as [[x' e']|st']; cbn in Hw; try contradiction.
  destruct Hw as (H1 & H2 & H3 & H4 & H5 & H6 & H7).
  destruct (py_walk_paths ast_parse _ _ _ _ _ _ Ew) as (sub & Hsub & Epaths).
  cbn [Python.walk_init Python.modules flat_map List.map app] in Epaths.
  assert (Hnd' : NoDup (List.map Python.mod_path
                          (flat_map snd (Python.modules st)))).
  { apply (Permutation_NoDup (Permutation_sym Epaths)).
    apply (subseq_NoDup _ _ _
             (subseq_map _ _ (fun e => path_str (a_root a ++ e_rel e)) _ _
                Hsub)).
    rewrite <- (map_map e_rel (fun rel => path_str (a_root a ++ rel))).
    apply paths_apart; [exact Hwf| |].
    - apply Forall_map_iff. unfold rglob. now apply filter_Forall.
    - apply (subseq_NoDup _ _ _
               (subseq_map_filter _ _ e_rel _ (entries t)) Hnd). }
  pose proof (proj2 (proj2 (detect_order_free _ _ H2))) as Hd. rewrite <- Hd.
  destruct (Python.format_output (Python.modules st) (a_root a) _)
    as [output|x] eqn:Ef; [|no_such_run].
  rewrite (py_format_output_perm _ _ _ _ _ H1 Hnd' Ef).
  unfold Python.stats_line, Python.summary_line.
  rewrite <- H3, <- H4, <- H5.
  destruct (a_output a) as [output_path|]; [destruct (a_write a)|];
    same_run H6.
Qed.

Lemma py_map_independent_of_listing_order_witness :
  exists payload err err',
    Python.main sample_parse (sample_args sample_root)
      {| root_exists := true;
         entries := [sample_py_a; sample_py_b; sample_py_c] |}
    = Completed payload err
    /\ Python.main sample_parse (sample_args sample_root)
         {| root_exists := true;
            entries := [sample_py_c; sample_py_a; sample_py_b] |}
       = Completed payload err'
    /\ Permutation err err'.
Proof.
  destruct (Python.main sample_parse (sample_args sample_root)
              {| root_exists := true;
                 entries := [sample_py_a; sample_py_b; sample_py_c] |})
    as [n l|x l| |payload err|o payload l err] eqn:E;
    try (vm_compute in E; discriminate).
  destruct (py_map_independent_of_listing_order sample_parse
              (sample_args sample_root)
              {| root_exists := true;
                 entries := [sample_py_a; sample_py_b; sample_py_c] |}
              {| root_exists := true;
                 entries := [sample_py_c; sample_py_a; sample_py_b] |}
              payload err) as ((err' & E' & Hp) & _).
  - reflexivity.
  - apply Permutation_sym, (Permutation_cons_append [sample_py_a; sample_py_b]).
  - repeat constructor; cbn; intuition discriminate.
  - split; [reflexivity|repeat constructor].
  - exact E.
  - exists payload, err, err'. auto.
Defined.

End OrderProps.
